(* ===== verification/_CoqProject ===== *)
-Q . S2P
Prelude.v
Text.v
Errors.v
Wire.v
Reading.v
Head.v
Framing.v
HpackInteger.v
HuffmanCode.v
Huffman.v
HpackLiteral.v
HpackTable.v
Hpack.v
HpackVectors.v
H2Frame.v
H2Settings.v
H2Stream.v
Http.v
Http1.v
Http1Crossing.v
H2Message.v
H2Preface.v
H2Connection.v
H2Receive.v
H2Send.v
H2Invariant.v
H2Safety.v
H2Transfer.v
H2Server.v
H2Client.v
H2Exchange.v
H2Serving.v
H2Answer.v
H2Rules.v
H2Dues.v
H2Flow.v
H2Stalls.v
H2Call.v
H2Replying.v
H2Session.v
H2Boxed.v
Ip.v
Authority.v
Target.v
Endpoint.v
Network.v
Mac.v
Login.v
Uri.v
Links.v
Sddl.v
Pipe.v
Fifo.v
Windows.v
Account.v
PipeCalls.v
WinPipe.v
WinLife.v
PipeRefines.v
Cancelling.v
Fixture.v
TestSupport.v
HttpTests.v
TextTests.v
SystemTests.v
PipeTests.v
WireTests.v
H2UnitTests.v
H2Tests.v
