(* ===== verification/Prelude.v ===== *)
(** * Verification of xmip-core-library-net

    The crate under [src/src] holds what Xmip's transports share on a network:
    HTTP/1.1 and HTTP/2 hand-written over any connection, the readers and
    writers of heads, lines and frames under them, the targets, authorities,
    networks and hardware addresses those name, and the connections
    themselves — connected, watched, accepted, and as named pipes. This
    library models it file by file, as functions that run, and proves what
    its parts promise one another.

    ** How the code is modelled

    A Rust [Result] is [result E A]; a method on [&mut self] that may fail is
    a function of [M S E A], the state and error monad below, composed by
    [x <~ m ;; k] as the code composes calls with [?]. A failure keeps the
    state it left, as the code does. Integers are [Z], their width written
    out where the code's arithmetic could meet it (checked, saturating, or
    bounded by an invariant); an octet is a [Z] under 256, text a list of
    octets, UTF-8 where the code has a [str] ([Text.utf8]). A [BTreeMap] is a
    [gmap] gone through in the order of its keys ([Conn.ids]), a [VecDeque]
    or [Vec] a list.

    Nothing of the crate decides what a peer or the system does. A connection
    is a [Wire]: the answers its reads, its writes and its flushes will get,
    whatever they are; once spent, a read finds the end and a write succeeds.
    [carrying w bs] says the reads of [w] carry [bs], in any pieces, with any
    interruptions. Clocks, sockets, threads, accounts and the file system are
    answers in the same way ([Watched], [Connect], [Pipe]), or take steps of
    their own in any order ([Woken], [Fifo], [Cancelling], [Fixture]). What calls Windows call by call is a program of
    calls ([Win.prog]) whose answers are the system's: each call has what its
    caller owes ([Win.requires]) and what may then be answered
    ([Win.answers]), [Win.safe] is a program that never calls without
    what it owes, and [Win.comes_by] what it comes to by which calls and
    answers. The lock a connection shares with what cancels it is of that
    state too.

    A loop of the code is [loop turn measure stuck]: [turn] is the body, and
    [measure] of what it works on the turns the loop may take. The fuel is
    nothing a theorem leans on: [goes_down] says each turn that goes round
    lowers the measure, [loop_runs] that the loop then is the run of its
    turns ([runs], which has no fuel), and [loop_turn] unrolls it. Every
    measure counts something that is there to be used up: octets to come
    ([Wire.pending]), octets to send, streams to take, answers left. The
    recursions with plain fuel are [Integer.groups], whose ten groups carry
    any [usize] ([Integer.groups_enough]), [chunks_from], given the length of
    what it cuts, and the turns of an eviction, one for each entry.

    ** The files

    - [Prelude], [Text], [Errors], [Wire]: the monad and its loops, integers
      as octets and digits; UTF-8 and what the code calls of [str]; the errors
      ([lib.rs], [http2/error.rs], [ceiling.rs]); a connection.
    - [Reading], [Head], [Framing]: lines, delimiters and ends under a ceiling
      over a [BufReader] ([read.rs]); heads ([head.rs]); length-prefixed
      frames, gRPC messages and reply codes ([frame.rs], [grpc.rs],
      [reply.rs]).
    - [Http], [Http1], [Http1Crossing]: requests and answers ([http.rs],
      [http/response.rs]); HTTP/1.1 ([http/message.rs], [http/body.rs] and the
      exchange of [http.rs]); what one end writes of either, the other reads.
    - [HpackInteger], [HuffmanCode], [Huffman], [HpackLiteral], [HpackTable],
      [Hpack]: [http2/hpack/] in its own order: integers, the code and its
      tree, strings, the tables, the encoder and the decoder, kept in step.
      [HpackLiteral.StringCode] is what a string is promised of its coding.
    - [H2Frame], [H2Settings], [H2Stream], [H2Message], [H2Preface]: frames,
      windows and settings, streams, messages as header lists, the preface
      ([http2/frame.rs], [window.rs], [settings.rs], [stream.rs],
      [message.rs], [preface.rs]).
    - [H2Connection], [H2Send], [H2Receive]: a connection's state, and its
      halves that write and that read ([http2/connection.rs],
      [http2/receive.rs]).
    - [H2Server], [H2Client]: [http2/server.rs] and [http2/client.rs].
    - [H2Invariant], [H2Safety], [H2Serving], [H2Rules]: what every operation
      keeps, that the loops end, and how breaches are answered.
    - [H2Transfer], [H2Exchange], [H2Answer]: one block, one request and one
      answer, from the end that writes it to the end that reads it.
    - [H2Dues], [H2Flow], [H2Stalls]: what the ends owe each other between
      calls, and a body over any number of windows, read and sent.
    - [H2Call], [H2Replying], [H2Session]: calls on one connection, from
      handshake to farewell, and what they refine.
    - [Ip], [Authority], [Target], [Endpoint], [Network], [Mac], [Uri],
      [Login]: addresses as the standard library reads and writes them, and
      [authority.rs], [target.rs], [endpoint.rs], [network.rs] with
      [address.rs], [mac.rs], [uri.rs] with [http/version.rs] and
      [http/date.rs], [login.rs].
    - [H2Boxed]: [http2/boxed.rs].
    - [Links], [Sddl], [Pipe], [Fifo]: [watched.rs], [connect.rs] and
      [accepting.rs]; security descriptors as text and what they grant, as
      Windows documents them; [pipe.rs] with what [pipe/windows.rs] and the waiting of
      [pipe/windows/io.rs] decide of what the system answers;
      [pipe/unix.rs].
    - [Windows], [Account], [PipeCalls], [WinPipe]: what a pipe asks of
      Windows and the logic of it; [pipe/windows/account.rs]; [io.rs],
      [instance.rs] and [client.rs]; [pipe/windows.rs], call by call.
      [WinLife] is a program's life with them, [PipeRefines] their agreement
      with [Pipe], [Cancelling] a drop against its cancels.
    - [Fixture]: [fixture.rs], the ports test processes share a machine by.
    - [TestSupport], [HpackVectors], [HttpTests], [TextTests], [SystemTests],
      [PipeTests], [WireTests], [H2UnitTests], [H2Tests]: the crate's tests,
      each a definition under its own name that runs on the model, and holds.
      Two ends of a connection are run in turn on what the other has written
      ([H2Tests.parley]); two of a pipe on a machine that has both
      ([PipeTests.Host]).

    A definition has the name of what it models, in the Module of its type.
    What is modelled of a function that is long is one definition for its body
    and one for each turn of its loops ([Client.answer_turn]).

    ** What is shown

    - HTTP/2 as a whole. [Session.serving_refines_calls]: a client's calls on
      one connection refine calls of the server's function. The abstract
      program is [Session.calls], a fold of that function over the requests;
      the concrete one is both ends' code, [Client.handshake], [send] and
      [close] against [Server.serve], over two wires of which each carries
      exactly what the other end wrote ([Session.said]). The relation between
      calls is [Session.kept]: both ends at rest ([Call.at_rest]), no stream
      open, the tables in step both ways, and each window's octets either
      left or on their way back ([Replying.owes]). Bodies are bounded there
      by what either end reads, [MAX_BODY]: past a window, 65535 octets, the
      sender reads its peer's credit piece by piece and sends as much
      ([Stalls.body_sent]), and the reader gives it back ([Flow.told_reads]).
      The theorem says what the two ends' code makes of each other's writes;
      [H2Tests] runs the two in turn, each on what the other has written by
      then, so that neither is given an octet before its time.
      [Exchange.request_arrives] and [Answer.answer_arrives] are one request
      and one answer, at any connection ready for them.
    - HTTP/2 under attack. [Safety.connection_stays_in_bounds]: one invariant
      ([Invariant.ok]) of every operation, whatever the peer sends.
      [Serving.serving_ends], [Safety.send_data_ends]: every loop ends.
      [Rules]: frames out of turn, [GOAWAY].
    - Reading under a ceiling: a line is whole or refused, and what a delimiter
      is awaited into never passes its ceiling, refused or not
      ([Reads.until_reads], [Reads.until_bounded]).
    - Each layer's round trip: frames, integers, strings, header blocks over a
      whole conversation, messages, HTTP/1.1 requests and answers, lines,
      heads; and the equivalences: what Huffman decoding accepts, what a
      target is, what a network contains.
    - Names and addresses: what is read of them is well formed, and what is
      written is read back.
    - Windows. [Life.every_call_is_sound]: whatever a process does with its
      pipes, in any order, its cancels used before and after their connections
      are dropped, and whatever Windows answers within its contract, each call
      is made with what it owes, and once all is dropped the system holds what
      it held before, but for a thread whose [RevertToSelf] failed.
      [Refines.calls_refine_the_pipe]: each question asked of a connection is
      answered as [Pipe] answers of what its own calls were answered
      ([came], [token_of], [name_of], [process_of] of their trace).
      [Cancelling.cancel_reaches_its_own_alone]: a cancel, which reads the
      number of a handle and then asks the system of it, never reaches one
      reused, for the lock it holds in between.
      [Pipe.only_the_admitted_open]: the descriptor written, read by [Sddl],
      grants exactly what it should to exactly whom.
    - Links: a stop ends a blocked read, and one deadline bounds every attempt
      to connect. [Woken.every_stop_is_heard]: the caller of [woken], the
      thread that accepts, other connections and the clock take their turns in
      any order ([Woken.after] a schedule); [join] never waits, and what comes
      back is the thread's, which it does ([Woken.fair]) where both go on,
      time passes, and only so many knocks are lost.
    - Threads and processes. The two threads of a FIFO's open, as steps of a
      system in every interleaving; and [Fixture.no_port_is_shared], of test
      processes in every interleaving, the wrap of their counters with it.
    - Where the code falls short of what it says, a Lemma or an Example shows
      it by running or by proof: [smallest_resize_not_announced],
      [signed_status_accepted], [signed_status_read], [old_answer_called_kept],
      [goaway_names_a_stream_passed_over], [request_with_a_status_is_dropped],
      [data_after_a_malformed_head_ends_the_connection],
      [trailers_after_a_reset_end_the_connection], [stray_text_passed_over],
      [bracket_in_a_host], [url_in_the_query_hides_the_server],
      [unix_path_taken_for_a_drive], [removed_while_waiting],
      [left_as_the_client], [a_round_comes_back], [sooner_over_the_wrap].

    ** What stands for other code

    Packages the crate calls are arguments, classes with the laws the code
    leans on: percent-encoding ([Percent] of a query, [PercentDecode] of a
    target), hexadecimal ([HexCode]), comparison in constant time
    ([ConstantTime]), the names of accounts ([Accounts]), resolution
    ([Resolver]), what [{:?}] escapes of a text ([DebugText]), and a moment
    as a civil date ([CivilTime]), Windows' words for a code ([System]) and its
    UTF-16 ([WideCode]). Windows itself is [Win.answers], what its documentation
    promises of each call; [Life.Toy] is a machine that answers so. Each theorem that has one is witnessed at
    an instance that runs.

    ** Not modelled

    - [tests/measured], which times the system. The tests of sockets, threads
      and pipes are run on a system written out for them, one interleaving of
      their threads each.
    - In [Session], a peer that is not this crate's; any peer is met in what
      is shown under attack. *)

From Stdlib Require Export ZArith Lia Bool.
From Stdlib Require Import Ascii String.
From stdpp Require Export base list gmap.

#[global] Open Scope Z_scope.

(** ** Results

    Rust's [Result<A, E>], the error type first. *)

Inductive result (E A : Type) : Type :=
| Ok (a : A)
| Err (e : E).
Arguments Ok {E A} a.
Arguments Err {E A} e.

#[global] Instance result_eq_dec {E A} `{EqDecision E} `{EqDecision A} : EqDecision (result E A).
Proof. solve_decision. Defined.

Definition is_ok {E A} (r : result E A) : Prop :=
  match r with Ok _ => True | Err _ => False end.

Definition res_bind {E A B} (r : result E A) (f : A -> result E B) : result E B :=
  match r with Ok a => f a | Err e => Err e end.

(** [ok_or]: [Option::ok_or_else]. *)
Definition ok_or {E A} (o : option A) (e : E) : result E A :=
  match o with Some a => Ok a | None => Err e end.

(** [map_err]: [Result::map_err]. *)
Definition map_err {E F A} (f : E -> F) (r : result E A) : result F A :=
  match r with Ok a => Ok a | Err e => Err (f e) end.

Declare Scope net_scope.
Delimit Scope net_scope with net.
Notation "'let?' x ':=' r 'in' k" :=
  (res_bind r (fun x => k))
  (at level 10, x pattern, r at level 200, k at level 200) : net_scope.
#[global] Open Scope net_scope.

Lemma res_bind_ok {E A B} (r : result E A) (f : A -> result E B) b :
  res_bind r f = Ok b -> exists a, r = Ok a /\ f a = Ok b.
Proof. destruct r as [a|e]; simpl; [eauto | discriminate]. Qed.

Lemma ok_or_ok {E A} (o : option A) (e : E) a : ok_or o e = Ok a -> o = Some a.
Proof. destruct o; simpl; congruence. Qed.

Lemma Ok_inj {E A} (a b : A) : @Ok E A a = Ok b -> a = b.
Proof. by intros [= ->]. Qed.

(** Open every [let?] of a hypothesis that says the whole returned [Ok]. *)
Ltac inv_ok :=
  repeat match goal with
  | H : res_bind _ _ = Ok _ |- _ =>
      let a := fresh "a" in let Ha := fresh "Ha" in
      apply res_bind_ok in H as (a & Ha & H)
  | H : ok_or _ _ = Ok _ |- _ => apply ok_or_ok in H
  | H : Ok _ = Ok _ |- _ => apply Ok_inj in H
  | H : Err _ = Ok _ |- _ => discriminate H
  | H : Ok _ = Err _ |- _ => discriminate H
  end.

(** ** Stateful, fallible code

    A method on [&mut self] that returns a [Result]: the state survives an
    error, as a Rust object does. *)

Definition M (St E A : Type) : Type := St -> result E A * St.

Section monad.
Context {St E : Type}.

Definition mret {A} (a : A) : M St E A := fun s => (Ok a, s).
Definition mfail {A} (e : E) : M St E A := fun s => (Err e, s).
Definition mthen {A B} (m : M St E A) (f : A -> M St E B) : M St E B :=
  fun s => match m s with
           | (Ok a, s') => f a s'
           | (Err e, s') => (Err e, s')
           end.
Definition mget : M St E St := fun s => (Ok s, s).
Definition mset (f : St -> St) : M St E unit := fun s => (Ok tt, f s).
Definition mlift {A} (r : result E A) : M St E A := fun s => (r, s).
End monad.

(** The error converted on its way out: the [From] a [?] applies, or
    [map_err]. *)
Definition mmap_err {St E F A} (f : E -> F) (m : M St E A) : M St F A :=
  fun s => let '(r, s') := m s in (map_err f r, s').

Notation "x <~ m ;; k" := (mthen m (fun x => k))
  (at level 100, m at next level, right associativity) : net_scope.
Notation "m ;;; k" := (mthen m (fun _ => k))
  (at level 100, right associativity) : net_scope.

(** [triple P m Q R]: from a state in [P], [m] ends in [Q] with its value
    or in [R] with its error. *)
Definition triple {St E A} (P : St -> Prop) (m : M St E A)
    (Q : A -> St -> Prop) (R : E -> St -> Prop) : Prop :=
  forall s, P s ->
    match m s with
    | (Ok a, s') => Q a s'
    | (Err e, s') => R e s'
    end.

Section triples.
Context {St E : Type}.
Implicit Types P : St -> Prop.

Lemma triple_ret {A} (a : A) P (Q : A -> St -> Prop) (R : E -> St -> Prop) :
  (forall s, P s -> Q a s) -> triple P (mret a) Q R.
Proof. intros H s Hs. apply H, Hs. Qed.

Lemma triple_fail {A} (e : E) P (Q : A -> St -> Prop) (R : E -> St -> Prop) :
  (forall s, P s -> R e s) -> triple P (mfail e) Q R.
Proof. intros H s Hs. apply H, Hs. Qed.

Lemma triple_then {A B} (m : M St E A) (f : A -> M St E B) P
    (Q : A -> St -> Prop) (Q' : B -> St -> Prop) (R : E -> St -> Prop) :
  triple P m Q R -> (forall a, triple (Q a) (f a) Q' R) ->
  triple P (mthen m f) Q' R.
Proof.
  intros Hm Hf s Hs. unfold mthen. specialize (Hm s Hs).
  destruct (m s) as [[a|e] s']; [exact (Hf a s' Hm) | exact Hm].
Qed.

Lemma triple_get P (R : E -> St -> Prop) :
  triple P mget (fun a s => a = s /\ P s) R.
Proof. intros s Hs; cbn; auto. Qed.

Lemma triple_set (f : St -> St) P (Q : unit -> St -> Prop) (R : E -> St -> Prop) :
  (forall s, P s -> Q tt (f s)) -> triple P (mset f) Q R.
Proof. intros H s Hs. apply H, Hs. Qed.

Lemma triple_lift {A} (r : result E A) P (Q : A -> St -> Prop) (R : E -> St -> Prop) :
  (forall a s, r = Ok a -> P s -> Q a s) -> (forall e s, r = Err e -> P s -> R e s) ->
  triple P (mlift r) Q R.
Proof. intros H1 H2 s Hs. unfold mlift. destruct r; auto. Qed.

Lemma triple_conseq {A} (m : M St E A) P P' (Q Q' : A -> St -> Prop) (R R' : E -> St -> Prop) :
  triple P m Q R -> (forall s, P' s -> P s) ->
  (forall a s, Q a s -> Q' a s) -> (forall e s, R e s -> R' e s) ->
  triple P' m Q' R'.
Proof.
  intros H HP HQ HR s Hs. specialize (H s (HP s Hs)).
  destruct (m s) as [[a|e] s']; auto.
Qed.

Lemma triple_map_err {F A} (g : E -> F) (m : M St E A) P
    (Q : A -> St -> Prop) (R : F -> St -> Prop) :
  triple P m Q (fun e s => R (g e) s) -> triple P (mmap_err g m) Q R.
Proof.
  intros H s Hs. specialize (H s Hs). unfold mmap_err.
  destruct (m s) as [[a|e] s']; exact H.
Qed.
End triples.

(** [keeps I m]: [m] keeps [I], whether it returns or fails. *)
Definition keeps {St E A} (I : St -> Prop) (m : M St E A) : Prop :=
  triple I m (fun _ => I) (fun _ => I).

Section keeping.
Context {St E : Type} (I : St -> Prop).

Lemma keeps_ret {A} (a : A) : keeps (E := E) I (mret a).
Proof. intros s; auto. Qed.
Lemma keeps_fail {A} (e : E) : keeps (A := A) I (mfail e).
Proof. intros s; auto. Qed.
Lemma keeps_lift {A} (r : result E A) : keeps I (mlift r).
Proof. intros s Hs; unfold mlift; destruct r; auto. Qed.
Lemma keeps_set (f : St -> St) :
  (forall s, I s -> I (f s)) -> keeps (E := E) I (mset f).
Proof. intros H s Hs; apply H, Hs. Qed.
Lemma keeps_then {A B} (m : M St E A) (f : A -> M St E B) :
  keeps I m -> (forall a, keeps I (f a)) -> keeps I (mthen m f).
Proof. intros Hm Hf. eapply triple_then; [exact Hm | exact Hf]. Qed.
(** After [mget], the rest may use that the state it got satisfies [I]. *)
Lemma keeps_get {B} (f : St -> M St E B) :
  (forall s, I s -> keeps I (f s)) -> keeps I (mthen mget f).
Proof. intros H s Hs. unfold mthen, mget. apply (H s Hs s Hs). Qed.
Lemma keeps_map_err {F A} (g : E -> F) (m : M St E A) :
  keeps I m -> keeps I (mmap_err g m).
Proof. intros H. apply triple_map_err, H. Qed.

(** What a kept invariant says of one run. *)
Lemma keeps_run {A} (m : M St E A) s r s' :
  keeps I m -> I s -> m s = (r, s') -> I s'.
Proof. intros H Hs Hm. specialize (H s Hs). rewrite Hm in H. destruct r; auto. Qed.
End keeping.

(** ** Loops

    A [loop] of the source is one turn of it, which goes round again with
    what the next turn starts from, or breaks with the loop's value. [runs]
    says, with no bound on the turns, what a loop that ends comes to; [loop]
    computes it, given a [measure] every turn that goes round decreases. *)

Section loops.
Context {St E X A : Type} (turn : X -> M St E (X + A)).

Inductive runs : X -> St -> result E A * St -> Prop :=
| runs_again x s x' s' out :
    turn x s = (Ok (inl x'), s') -> runs x' s' out -> runs x s out
| runs_break x s a s' : turn x s = (Ok (inr a), s') -> runs x s (Ok a, s')
| runs_fail x s e s' : turn x s = (Err e, s') -> runs x s (Err e, s').

Lemma runs_unique x s out out' : runs x s out -> runs x s out' -> out = out'.
Proof.
  intros H. revert out'.
  induction H as [x s x' s' out Ht H IH|x s a s' Ht|x s e s' Ht]; intros out' H';
    inversion H' as [? ? x2 s2 ? Ht2 H2|? ? ? ? Ht2|? ? ? ? Ht2]; subst; rewrite Ht in Ht2;
    simplify_eq; auto.
Qed.

Context (measure : X -> St -> nat) (stuck : E).

Fixpoint spin (fuel : nat) (x : X) (s : St) : result E A * St :=
  match fuel with
  | O => (Err stuck, s)
  | S fuel =>
      match turn x s with
      | (Ok (inl x'), s') => spin fuel x' s'
      | (Ok (inr a), s') => (Ok a, s')
      | (Err e, s') => (Err e, s')
      end
  end.

Definition loop (x : X) : M St E A := fun s => spin (S (measure x s)) x s.

(** Every turn of the loop keeps [I], so the loop does. *)
Lemma keeps_loop (I : St -> Prop) : (forall x, keeps I (turn x)) -> forall x, keeps I (loop x).
Proof.
  intros H x s Hs. unfold loop. generalize (S (measure x s)). intros fuel.
  revert x s Hs. induction fuel as [|fuel IH]; intros x s Hs; [exact Hs|]. cbn [spin].
  specialize (H x s Hs). destruct (turn x s) as [[[x'|a]|e] s']; [by apply IH | exact H..].
Qed.

(** From a state in [I], a turn that goes round again decreases the measure
    and stays in [I]. *)
Definition goes_down (I : St -> Prop) : Prop :=
  forall x s x' s', I s -> turn x s = (Ok (inl x'), s') -> (measure x' s' < measure x s)%nat /\ I s'.

Lemma spin_runs (I : St -> Prop) fuel : goes_down I ->
  forall x s, I s -> (measure x s < fuel)%nat -> runs x s (spin fuel x s).
Proof.
  intros Hd. induction fuel as [|fuel IH]; intros x s Hs Hf; [lia|]. cbn [spin].
  destruct (turn x s) as [[[x'|a]|e] s'] eqn:Ht.
  - destruct (Hd _ _ _ _ Hs Ht) as [Hm Hs']. eapply runs_again; [exact Ht|]. apply IH; [done | lia].
  - by apply runs_break.
  - by apply runs_fail.
Qed.

Lemma loop_runs (I : St -> Prop) x s : goes_down I -> I s -> runs x s (loop x s).
Proof. intros Hd Hs. apply (spin_runs I); [done | done | lia]. Qed.

(** The loop unrolled once. *)
Lemma loop_turn (I : St -> Prop) x s : goes_down I -> I s ->
  loop x s = match turn x s with
             | (Ok (inl x'), s') => loop x' s'
             | (Ok (inr a), s') => (Ok a, s')
             | (Err e, s') => (Err e, s')
             end.
Proof.
  intros Hd Hs. apply (runs_unique x s); [by apply (loop_runs I)|].
  destruct (turn x s) as [[[x'|a]|e] s'] eqn:Ht.
  - eapply runs_again; [exact Ht|]. apply (loop_runs I); [done | by apply (Hd _ _ _ _ Hs Ht)].
  - by apply runs_break.
  - by apply runs_fail.
Qed.
End loops.

Create HintDb net.
Create Rewrite HintDb net.
#[export] Hint Resolve keeps_ret keeps_fail keeps_lift keeps_map_err : net.

(** ** Lengths as integers *)

Definition len {A} (l : list A) : Z := Z.of_nat (length l).

Section lengths.
Context {A : Type}.
Implicit Types l k : list A.

Lemma len_nil : len (@nil A) = 0.
Proof. reflexivity. Qed.
Lemma len_cons (x : A) l : len (x :: l) = 1 + len l.
Proof. unfold len; simpl length; lia. Qed.
Lemma len_app l k : len (l ++ k) = len l + len k.
Proof. unfold len; rewrite length_app; lia. Qed.
Lemma len_nonneg l : 0 <= len l.
Proof. unfold len; lia. Qed.
Lemma len_zero l : len l = 0 <-> l = [].
Proof. unfold len; destruct l; simpl length; split; intros; try done; lia. Qed.
End lengths.

#[export] Hint Rewrite @len_nil @len_cons @len_app @length_app @length_cons : net.
#[export] Hint Resolve len_nonneg : net.

(** [ztake]/[zdrop]: the slices [&l[..n]] and [&l[n..]]. *)
Definition ztake {A} (n : Z) (l : list A) : list A := take (Z.to_nat n) l.
Definition zdrop {A} (n : Z) (l : list A) : list A := drop (Z.to_nat n) l.

Section slices.
Context {A : Type}.
Implicit Types l k : list A.

Lemma ztake_zdrop n l : ztake n l ++ zdrop n l = l.
Proof. apply take_drop. Qed.
Lemma len_ztake n l : 0 <= n <= len l -> len (ztake n l) = n.
Proof. unfold len, ztake; intros; rewrite length_take; lia. Qed.
Lemma len_zdrop n l : 0 <= n <= len l -> len (zdrop n l) = len l - n.
Proof. unfold len, zdrop; intros; rewrite length_drop; lia. Qed.
Lemma ztake_app n l k : n = len l -> ztake n (l ++ k) = l.
Proof.
  intros ->. unfold ztake, len. rewrite Nat2Z.id. by rewrite take_app_length.
Qed.
Lemma zdrop_app n l k : n = len l -> zdrop n (l ++ k) = k.
Proof.
  intros ->. unfold zdrop, len. rewrite Nat2Z.id. by rewrite drop_app_length.
Qed.
Lemma ztake_all n l : len l <= n -> ztake n l = l.
Proof. unfold ztake, len; intros. apply take_ge; lia. Qed.
Lemma zdrop_all n l : len l <= n -> zdrop n l = [].
Proof. unfold zdrop, len; intros. apply drop_ge; lia. Qed.
Lemma Forall_ztake (P : A -> Prop) n l : Forall P l -> Forall P (ztake n l).
Proof. apply Forall_take. Qed.
Lemma Forall_zdrop (P : A -> Prop) n l : Forall P l -> Forall P (zdrop n l).
Proof. apply Forall_drop. Qed.
End slices.
#[export] Hint Resolve Forall_ztake Forall_zdrop : net.

(** What comes before the last element of a list, or the whole of it. *)
Lemma prefix_of_snoc {A} (k l : list A) x : k `prefix_of` l ++ [x] -> k `prefix_of` l \/ k = l ++ [x].
Proof.
  intros [z Hz]. destruct z as [|y z _] using rev_ind.
  - right. by rewrite app_nil_r in Hz.
  - left. rewrite app_assoc in Hz. apply app_inj_tail in Hz as [-> _]. by exists z.
Qed.

(** ** Octets

    A [u8] is an integer from 0 to 255; a [Vec<u8>], a [&[u8]], and the
    UTF-8 a [String] holds, a list of them. *)

Definition is_octet (b : Z) : Prop := 0 <= b < 256.
Abbreviation bytes := (list Z).
(** A header field: its name and its value. *)
Abbreviation field := (bytes * bytes)%type.
Definition octets (l : bytes) : Prop := Forall is_octet l.

Definition is_octetb (b : Z) : bool := (0 <=? b) && (b <? 256).
Lemma is_octetb_spec b : is_octetb b = true <-> is_octet b.
Proof. unfold is_octetb, is_octet; rewrite andb_true_iff; lia. Qed.

#[global] Instance is_octet_dec b : Decision (is_octet b).
Proof.
  destruct (is_octetb b) eqn:E; [left | right]; rewrite <- is_octetb_spec; congruence.
Defined.

(** Octets written out are checked by computing. *)
Lemma octets_check l : forallb is_octetb l = true -> octets l.
Proof.
  intros H. apply List.Forall_forall. intros x Hx. apply is_octetb_spec.
  rewrite List.forallb_forall in H. by apply H.
Qed.

Lemma octets_app l k : octets (l ++ k) <-> octets l /\ octets k.
Proof. apply Forall_app. Qed.
Lemma octets_nil : octets [].
Proof. constructor. Qed.
#[export] Hint Resolve octets_nil : net.

Lemma octet_mod x : is_octet (x mod 256).
Proof. unfold is_octet. apply Z.mod_pos_bound. lia. Qed.
#[export] Hint Resolve octet_mod : net.

(** A fact about small numbers, checked on each of them. *)
Lemma seq_check (n : nat) (P : nat -> bool) :
  forallb P (seq 0 n) = true -> forall i, (i < n)%nat -> P i = true.
Proof. intros H i Hi. rewrite List.forallb_forall in H. apply H, in_seq. lia. Qed.

Lemma range_check (n : nat) (P : Z -> bool) :
  forallb (fun i => P (Z.of_nat i)) (seq 0 n) = true -> forall x, 0 <= x < Z.of_nat n -> P x = true.
Proof. intros H x Hx. rewrite <- (Z2Nat.id x) by lia. apply (seq_check n _ H). lia. Qed.

(** [check_range n x]: prove [P x = true] for [0 <= x < n] by computing it on
    each integer below [n]. *)
Ltac check_range n x :=
  pattern x; match goal with
  | |- ?P x =>
      refine (range_check n (fun y => ltac:(let t := eval cbv beta in (P y) in
        match t with ?b = true => exact b end)) _ x _);
      [vm_compute; reflexivity | try lia]
  end.

Lemma land_low x n : 0 <= n -> Z.land x (2 ^ n - 1) = x mod 2 ^ n.
Proof. intros. rewrite <- Z.land_ones by done. by rewrite Z.ones_equiv, <- Z.sub_1_r. Qed.

(** The parts of an octet split at bit [7]. *)
Lemma octet_high b : is_octet b -> (Z.land b 128 =? 0) = (b <? 128).
Proof.
  intros H. apply eqb_true_iff. unfold is_octet in H.
  check_range 256%nat b.
Qed.

(** Big-endian integers: [to_be_bytes] and [from_be_bytes]. *)

Definition be_bytes16 (x : Z) : bytes := [x / 256 mod 256; x mod 256].
Definition be_bytes32 (x : Z) : bytes :=
  [x / 16777216 mod 256; x / 65536 mod 256; x / 256 mod 256; x mod 256].
Definition of_be (l : bytes) : Z := fold_left (fun acc b => acc * 256 + b) l 0.

Lemma of_be_bytes32 x : 0 <= x < 2 ^ 32 -> of_be (be_bytes32 x) = x.
Proof. cbn [of_be be_bytes32 fold_left]. intros. Z.to_euclidean_division_equations. lia. Qed.

Lemma of_be_bytes16 x : 0 <= x < 2 ^ 16 -> of_be (be_bytes16 x) = x.
Proof. cbn [of_be be_bytes16 fold_left]. intros. Z.to_euclidean_division_equations. lia. Qed.

Lemma be_bytes32_octets x : octets (be_bytes32 x).
Proof. unfold be_bytes32; repeat constructor; apply Z.mod_pos_bound; lia. Qed.
Lemma be_bytes16_octets x : octets (be_bytes16 x).
Proof. unfold be_bytes16; repeat constructor; apply Z.mod_pos_bound; lia. Qed.
#[export] Hint Resolve be_bytes32_octets be_bytes16_octets : net.

Lemma len_be_bytes32 x : len (be_bytes32 x) = 4.
Proof. reflexivity. Qed.
#[export] Hint Rewrite len_be_bytes32 : net.

(** ** Text

    A literal of the source, as its UTF-8 octets (every literal of the
    source is ASCII). *)

Fixpoint lit (s : string) : bytes :=
  match s with
  | EmptyString => []
  | String c s => Z.of_N (N_of_ascii c) :: lit s
  end.

(** [format!("{n}")] and [format!("{n:x}")] of a non-negative integer. *)
Definition digit (d : Z) : Z := if d <? 10 then 48 + d else 87 + d.

Fixpoint digits_of (fuel : nat) (base n : Z) (acc : bytes) : bytes :=
  match fuel with
  | O => acc
  | S fuel =>
      let acc := digit (n mod base) :: acc in
      if n / base =? 0 then acc else digits_of fuel base (n / base) acc
  end.

Definition dec (n : Z) : bytes :=
  if n <? 0 then 45 :: digits_of (Z.to_nat (Z.log2 (- n)) + 1) 10 (- n) []
  else digits_of (Z.to_nat (Z.log2 n) + 1) 10 n [].
Definition hex (n : Z) : bytes := digits_of (Z.to_nat (Z.log2 n) + 1) 16 n [].

(** [u8::is_ascii_digit] and its kin. *)
Definition is_ascii_digit (b : Z) : bool := (48 <=? b) && (b <=? 57).
Definition is_ascii_uppercase (b : Z) : bool := (65 <=? b) && (b <=? 90).
Definition to_ascii_lowercase (b : Z) : Z := if is_ascii_uppercase b then b + 32 else b.
Definition lowercase (s : bytes) : bytes := map to_ascii_lowercase s.
Definition eq_ignore_ascii_case (a b : bytes) : bool := bool_decide (lowercase a = lowercase b).

(** [str::parse::<uN>] of decimal digits: an optional [+], then one digit or
    more, no more than [most]. *)
Fixpoint parse_digits (most acc : Z) (s : bytes) : option Z :=
  match s with
  | [] => Some acc
  | b :: s =>
      if is_ascii_digit b then
        let acc := acc * 10 + (b - 48) in
        if acc <=? most then parse_digits most acc s else None
      else None
  end.

Definition parse_uint (most : Z) (s : bytes) : option Z :=
  match s with
  | [] => None
  | 43 :: _ :: _ => parse_digits most 0 (tail s)
  | _ => parse_digits most 0 s
  end.

Definition U8_MAX : Z := 255.
Definition U16_MAX : Z := 65535.
Definition U32_MAX : Z := 4294967295.
Definition USIZE_MAX : Z := 18446744073709551615.

(** ** Common tactics *)

(** Rewrite lengths, then linear arithmetic. *)
Ltac zlen := autorewrite with net in *; try lia.

(** Split on the first test a goal or hypothesis is stuck on. *)
Ltac case_test :=
  match goal with
  | |- context [if ?b then _ else _] => match type of b with bool => destruct b eqn:? end
  | H : context [if ?b then _ else _] |- _ => match type of b with bool => destruct b eqn:? end
  end.
