(* ===== verification/Text.v ===== *)
(** Text as the standard library handles it: which octets are UTF-8, what
    splits, trims and strips a [str]. A [str] is the octets of its UTF-8. *)

From Stdlib Require Import String.
From S2P Require Import Prelude.

(** ** [String::from_utf8]

    Table 3-7 of the Unicode standard, as the standard library checks it. *)

Definition cont (b : Z) : bool := (128 <=? b) && (b <=? 191).
Definition between (lo b hi : Z) : bool := (lo <=? b) && (b <=? hi).

Fixpoint utf8 (s : bytes) : bool :=
  match s with
  | [] => true
  | b0 :: s1 =>
      if between 0 b0 0x7f then utf8 s1
      else
        match s1 with
        | [] => false
        | b1 :: s2 =>
            if between 0xc2 b0 0xdf then cont b1 && utf8 s2
            else
              match s2 with
              | [] => false
              | b2 :: s3 =>
                  if between 0xe0 b0 0xef then
                    (if b0 =? 0xe0 then between 0xa0 b1 0xbf
                     else if b0 =? 0xed then between 0x80 b1 0x9f else cont b1)
                    && cont b2 && utf8 s3
                  else
                    match s3 with
                    | [] => false
                    | b3 :: s4 =>
                        between 0xf0 b0 0xf4
                        && (if b0 =? 0xf0 then between 0x90 b1 0xbf
                            else if b0 =? 0xf4 then between 0x80 b1 0x8f else cont b1)
                        && cont b2 && cont b3 && utf8 s4
                    end
              end
        end
  end.

Lemma cont_octet b : cont b = true -> is_octet b.
Proof. unfold cont, is_octet. rewrite andb_true_iff. lia. Qed.
Lemma between_octet lo b hi : 0 <= lo -> hi < 256 -> between lo b hi = true -> is_octet b.
Proof. unfold between, is_octet. rewrite andb_true_iff. lia. Qed.

(** One character of valid text: its octets, and the text after it. *)
Lemma utf8_char b0 s1 : utf8 (b0 :: s1) = true ->
  exists c s', b0 :: s1 = c ++ s' /\ c <> [] /\ octets c /\ utf8 s' = true.
Proof.
  intros H. cbn [utf8] in H.
  destruct (between 0 b0 0x7f) eqn:E0.
  { exists [b0], s1. repeat split; [done | | done].
    constructor; [eapply between_octet; [| |exact E0]; lia | constructor]. }
  destruct s1 as [|b1 s2]; [done|].
  destruct (between 0xc2 b0 0xdf) eqn:E1.
  { apply andb_true_iff in H as [H1 H2]. exists [b0; b1], s2. repeat split; [done | | done].
    constructor; [eapply between_octet; [| |exact E1]; lia|].
    constructor; [by apply cont_octet | constructor]. }
  destruct s2 as [|b2 s3]; [done|].
  destruct (between 0xe0 b0 0xef) eqn:E2.
  { rewrite !andb_true_iff in H. destruct H as [[H1 H2] H3]. exists [b0; b1; b2], s3.
    repeat split; [done | | done]. constructor; [eapply between_octet; [| |exact E2]; lia|].
    constructor; [|constructor; [by apply cont_octet | constructor]].
    repeat case_test; (eapply between_octet; [| |exact H1]; lia) || by apply cont_octet. }
  destruct s3 as [|b3 s4]; [done|].
  rewrite !andb_true_iff in H. destruct H as [[[[H0 H1] H2] H3] H4].
  exists [b0; b1; b2; b3], s4. repeat split; [done | | done].
  constructor; [eapply between_octet; [| |exact H0]; lia|].
  constructor; [|repeat (constructor; [by apply cont_octet|]); constructor].
  repeat case_test; (eapply between_octet; [| |exact H1]; lia) || by apply cont_octet.
Qed.

(** Text is octets. *)
Lemma utf8_octets s : utf8 s = true -> octets s.
Proof.
  remember (length s) as n eqn:Hn. revert s Hn.
  induction n as [n IH] using (well_founded_induction lt_wf). intros [|b0 s1] -> H; [constructor|].
  destruct (utf8_char b0 s1 H) as (c & s' & Heq & Hc & Ho & Hs). rewrite Heq in *.
  apply octets_app. split; [done|]. eapply IH; [|reflexivity|done].
  rewrite length_app. destruct c; [done|]. simpl; lia.
Qed.

(** [std::str::from_utf8]: the index valid text ends at, and how many octets
    what is there instead spoils, none where it is only cut short. *)
Fixpoint utf8_error (i : Z) (s : bytes) : option (Z * option Z) :=
  match s with
  | [] => None
  | b0 :: s1 =>
      if between 0 b0 0x7f then utf8_error (i + 1) s1
      else if between 0xc2 b0 0xdf then
        match s1 with
        | [] => Some (i, None)
        | b1 :: s2 => if cont b1 then utf8_error (i + 2) s2 else Some (i, Some 1)
        end
      else if between 0xe0 b0 0xef then
        match s1 with
        | [] => Some (i, None)
        | b1 :: s2 =>
            if (if b0 =? 0xe0 then between 0xa0 b1 0xbf else if b0 =? 0xed then between 0x80 b1 0x9f else cont b1) then
              match s2 with
              | [] => Some (i, None)
              | b2 :: s3 => if cont b2 then utf8_error (i + 3) s3 else Some (i, Some 2)
              end
            else Some (i, Some 1)
        end
      else if between 0xf0 b0 0xf4 then
        match s1 with
        | [] => Some (i, None)
        | b1 :: s2 =>
            if (if b0 =? 0xf0 then between 0x90 b1 0xbf else if b0 =? 0xf4 then between 0x80 b1 0x8f else cont b1) then
              match s2 with
              | [] => Some (i, None)
              | b2 :: s3 =>
                  if cont b2 then
                    match s3 with
                    | [] => Some (i, None)
                    | b3 :: s4 => if cont b3 then utf8_error (i + 4) s4 else Some (i, Some 3)
                    end
                  else Some (i, Some 2)
              end
            else Some (i, Some 1)
        end
      else Some (i, Some 1)
  end.

(** [{}] of a [Utf8Error]. *)
Definition utf8_error_text (e : Z * option Z) : bytes :=
  match e with
  | (at_, Some n) => lit "invalid utf-8 sequence of " ++ dec n ++ lit " bytes from index " ++ dec at_
  | (at_, None) => lit "incomplete utf-8 byte sequence from index " ++ dec at_
  end.

(** One character of text, and what of it and before it is text. *)
Definition one_char (c : bytes) : Prop := c <> [] /\ forall s, utf8 (c ++ s) = utf8 s.

(** What the index says: the text before it is text, and nothing longer that
    the octets open with is. *)
Definition ends_at (i n : Z) (s : bytes) : Prop :=
  i <= n /\ utf8 (ztake (n - i) s) = true /\ forall m, n - i < m <= len s -> utf8 (ztake m s) = false.

Lemma ends_at_char c s i n : one_char c -> ends_at (i + len c) n s -> ends_at i n (c ++ s).
Proof.
  intros [Hne Hc] (Hn & Ht & Hm). pose proof (len_nonneg c). split; [lia|]. split.
  - assert (ztake (n - i) (c ++ s) = c ++ ztake (n - (i + len c)) s) as ->; [|by rewrite Hc].
    unfold ztake, len in *. rewrite take_app_ge by lia. do 2 f_equal. lia.
  - intros m Hl. rewrite len_app in Hl. assert (ztake m (c ++ s) = c ++ ztake (m - len c) s) as ->.
    { unfold ztake, len in *. rewrite take_app_ge by lia. do 2 f_equal. lia. }
    rewrite Hc. apply Hm. lia.
Qed.

Ltac decided := repeat match goal with H : ?b = _ |- context [?b] => rewrite H end; rewrite ?andb_false_r; cbn [andb]; rewrite ?andb_false_r; cbn [andb]; try reflexivity.

(** Octets that open no character. *)
Lemma ends_here i s : (forall m, utf8 (take (S m) s) = false) -> ends_at i i s.
Proof.
  intros H. split; [lia|]. rewrite Z.sub_diag. split; [done|]. intros m Hm. unfold ztake.
  destruct (Z.to_nat m) as [|k] eqn:Hk; [lia|apply H].
Qed.

(** However much of what follows is taken. *)
Ltac tails := repeat match goal with |- context [match ?l with [] => _ | _ :: _ => _ end] => destruct l end; decided.

Lemma utf8_error_spec : forall s i,
  match utf8_error i s with None => utf8 s = true | Some (n, _) => ends_at i n s end.
Proof.
  intros s. remember (length s) as k eqn:Hk. revert s Hk.
  induction k as [k IH] using (well_founded_induction lt_wf). intros s -> i.
  assert (forall c s', s = c ++ s' -> one_char c -> match utf8_error (i + len c) s' with None => utf8 s = true | Some (n, _) => ends_at i n s end) as Hchar.
  { intros c s' -> Hc. assert (length s' < length (c ++ s'))%nat as Hl by (rewrite length_app; destruct Hc as [Hne _]; destruct c; [done|cbn; lia]).
    specialize (IH _ Hl s' eq_refl (i + len c)). destruct (utf8_error (i + len c) s') as [[n e]|]; [by apply ends_at_char|].
    destruct Hc as [_ Hc]. by rewrite Hc. }
  destruct s as [|b0 s1]; [done|]. cbn [utf8_error].
  destruct (between 0 b0 0x7f) eqn:E0; [apply (Hchar [b0] s1); [done|]; split; [done|]; intros s'; cbn [utf8 app]; decided|].
  destruct (between 0xc2 b0 0xdf) eqn:E1.
  { destruct s1 as [|b1 s2]; [apply ends_here; intros [|m]; cbn [take utf8]; decided|].
    destruct (cont b1) eqn:C1; [apply (Hchar [b0; b1] s2); [done|]; split; [done|]; intros s'; cbn [utf8 app]; decided|].
    apply ends_here. intros [|[|m]]; cbn [take utf8]; decided. }
  destruct (between 0xe0 b0 0xef) eqn:E2.
  { destruct s1 as [|b1 s2]; [apply ends_here; intros [|m]; cbn [take utf8]; decided|].
    destruct (if b0 =? 0xe0 then _ else _) eqn:C1; [|apply ends_here; intros [|[|m]]; cbn [take utf8]; decided; tails].
    destruct s2 as [|b2 s3]; [apply ends_here; intros [|[|m]]; cbn [take utf8]; decided|].
    destruct (cont b2) eqn:C2; [apply (Hchar [b0; b1; b2] s3); [done|]; split; [done|]; intros s'; cbn [utf8 app]; decided|].
    apply ends_here. intros [|[|[|m]]]; cbn [take utf8]; decided. }
  destruct (between 0xf0 b0 0xf4) eqn:E3.
  2:{ apply ends_here. intros [|m]; cbn [take utf8]; decided. tails. }
  destruct s1 as [|b1 s2]; [apply ends_here; intros [|m]; cbn [take utf8]; decided|].
  destruct (if b0 =? 0xf0 then _ else _) eqn:C1.
  2:{ apply ends_here. intros [|[|m]]; cbn [take utf8]; decided. tails. }
  destruct s2 as [|b2 s3]; [apply ends_here; intros [|[|m]]; cbn [take utf8]; decided|].
  destruct (cont b2) eqn:C2.
  2:{ apply ends_here. intros [|[|[|m]]]; cbn [take utf8]; decided. tails. }
  destruct s3 as [|b3 s4]; [apply ends_here; intros [|[|[|m]]]; cbn [take utf8]; decided|].
  destruct (cont b3) eqn:C3; [apply (Hchar [b0; b1; b2; b3] s4); [done|]; split; [done|]; intros s'; cbn [utf8 app]; decided|].
  apply ends_here. intros [|[|[|[|m]]]]; cbn [take utf8]; decided.
Qed.

(** ** Splitting

    [str::split_once], of one ASCII character. *)
Fixpoint split_once (c : Z) (s : bytes) : option (bytes * bytes) :=
  match s with
  | [] => None
  | b :: s =>
      if b =? c then Some ([], s)
      else '(before, after) ← split_once c s; Some (b :: before, after)
  end.

Lemma split_once_none c s : c ∉ s -> split_once c s = None.
Proof.
  induction s as [|b s IH]; [done|]. intros H. apply not_elem_of_cons in H as [Hb Hs]. cbn.
  destruct (Z.eqb_spec b c); [congruence|]. by rewrite IH.
Qed.

Lemma split_once_first c before after :
  c ∉ before -> split_once c (before ++ c :: after) = Some (before, after).
Proof.
  induction before as [|b before IH]; intros H; cbn.
  - by rewrite Z.eqb_refl.
  - apply not_elem_of_cons in H as [Hb Hs]. destruct (Z.eqb_spec b c); [congruence|]. by rewrite IH.
Qed.


(** [str::strip_prefix]. *)
Fixpoint strip_prefix (prefix s : bytes) : option bytes :=
  match prefix, s with
  | [], _ => Some s
  | p :: prefix, b :: s => if b =? p then strip_prefix prefix s else None
  | _ :: _, [] => None
  end.

Lemma strip_prefix_app p s : strip_prefix p (p ++ s) = Some s.
Proof. induction p as [|b p IH]; [done|]. cbn. by rewrite Z.eqb_refl. Qed.

(** ** White space

    The octets of the white space [s] opens with, where it opens with any:
    [char::is_whitespace], which is the Unicode property [White_Space]. *)
Definition white (s : bytes) : nat :=
  match s with
  | b0 :: s1 =>
      if between 9 b0 13 || (b0 =? 32) then 1%nat
      else match s1 with
      | b1 :: s2 =>
          if (b0 =? 0xc2) && ((b1 =? 0x85) || (b1 =? 0xa0)) then 2%nat
          else match s2 with
          | b2 :: _ =>
              if (b0 =? 0xe1) && (b1 =? 0x9a) && (b2 =? 0x80) then 3%nat
              else if (b0 =? 0xe2) && (b1 =? 0x80)
                      && (between 0x80 b2 0x8a || (b2 =? 0xa8) || (b2 =? 0xa9) || (b2 =? 0xaf)) then 3%nat
              else if (b0 =? 0xe2) && (b1 =? 0x81) && (b2 =? 0x9f) then 3%nat
              else if (b0 =? 0xe3) && (b1 =? 0x80) && (b2 =? 0x80) then 3%nat
              else 0%nat
          | [] => 0%nat
          end
      | [] => 0%nat
      end
  | [] => 0%nat
  end.

(** [str::trim_start]. *)
Fixpoint trim_start_from (fuel : nat) (s : bytes) : bytes :=
  match fuel, white s with
  | S fuel, S n => trim_start_from fuel (drop (S n) s)
  | _, _ => s
  end.
Definition trim_start (s : bytes) : bytes := trim_start_from (length s) s.

(** [str::trim_end]: no octet inside a character opens a character, so what
    is white to the end from one is a run of white characters. *)
Fixpoint trim_end (s : bytes) : bytes :=
  match s with
  | [] => []
  | b :: t => if bool_decide (trim_start s = []) then [] else b :: trim_end t
  end.

(** [str::trim]. *)
Definition trim (s : bytes) : bytes := trim_end (trim_start s).

(** What comes before the first white space of [s], and the rest. *)
Fixpoint word (s : bytes) : bytes * bytes :=
  match s with
  | [] => ([], [])
  | b :: t =>
      match white s with
      | O => let '(w, rest) := word t in (b :: w, rest)
      | S _ => ([], s)
      end
  end.

(** [str::split_whitespace]: the first word, and what the iterator has left. *)
Definition next_word (s : bytes) : option (bytes * bytes) :=
  match trim_start s with
  | [] => None
  | s => Some (word s)
  end.

(** ** What they leave alone *)

Lemma drop_white_shorter s n : white s = S n -> (length (drop (S n) s) < length s)%nat.
Proof. destruct s as [|b s]; [discriminate|]. intros _. rewrite length_drop. cbn [length]. lia. Qed.

Lemma trim_start_fuel : forall f1 f2 s,
  (length s <= f1)%nat -> (length s <= f2)%nat -> trim_start_from f1 s = trim_start_from f2 s.
Proof.
  induction f1 as [|f1 IH]; intros f2 s H1 H2.
  - destruct s as [|b s]; [by destruct f2 | cbn in H1; lia].
  - destruct f2 as [|f2]; [destruct s as [|b s]; [done | cbn in H2; lia]|]. cbn [trim_start_from].
    destruct (white s) as [|n] eqn:Hw; [done|]. pose proof (drop_white_shorter s n Hw). apply IH; lia.
Qed.

(** A space before the text is trimmed with it. *)
Lemma trim_start_space s : trim_start (32 :: s) = trim_start s.
Proof. done. Qed.

Lemma trim_space s : trim (32 :: s) = trim s.
Proof. done. Qed.

Lemma trim_start_solid s : white s = O -> trim_start s = s.
Proof. unfold trim_start. intros H. destruct s as [|b s]; [done|]. cbn [length trim_start_from]. by rewrite H. Qed.

(** ** Numbers as text *)

(** What reads a number digit by digit, [P], reads back what [digits_of]
    writes. *)
Lemma digits_of_read {X} (P : Z -> bytes -> X) base most fuel :
  1 < base <= 16 ->
  (forall a d s, 0 <= d < base -> 0 <= a -> a * base + d <= most -> P a (digit d :: s) = P (a * base + d) s) ->
  forall n s, 0 <= n <= most -> n < 2 ^ Z.of_nat fuel -> (0 < fuel)%nat -> P 0 (digits_of fuel base n s) = P n s.
Proof.
  intros Hb HP. induction fuel as [|fuel IH]; intros n s Hn Hf Hpos; [lia|]. cbn [digits_of].
  pose proof (Z.div_mod n base ltac:(lia)) as Hdm. pose proof (Z.mod_pos_bound n base ltac:(lia)) as Hm.
  assert (0 <= n / base) as Hd by (apply Z.div_pos; lia).
  destruct (Z.eqb_spec (n / base) 0) as [Hz|Hz].
  - rewrite HP by lia. f_equal. lia.
  - assert (n / base < 2 ^ Z.of_nat fuel) as Hlt.
    { rewrite Nat2Z.inj_succ, Z.pow_succ_r in Hf by lia. apply Z.div_lt_upper_bound; nia. }
    assert (0 < fuel)%nat as Hpos' by (destruct fuel; [cbn in Hlt; lia | lia]).
    rewrite IH; [|nia|done|done]. rewrite HP by lia. f_equal. lia.
Qed.

Lemma digits_of_all (Q : Z -> Prop) base fuel : 1 < base <= 16 -> (forall d, 0 <= d < base -> Q (digit d)) ->
  forall n s, Forall Q s -> Forall Q (digits_of fuel base n s).
Proof.
  intros Hb HQ. induction fuel as [|fuel IH]; intros n s Hs; [done|]. cbn [digits_of].
  assert (Forall Q (digit (n mod base) :: s)) as Hs'.
  { constructor; [|done]. apply HQ, Z.mod_pos_bound. lia. }
  case_test; auto.
Qed.

Lemma log2_fuel n : 0 <= n -> n < 2 ^ Z.of_nat (Z.to_nat (Z.log2 n) + 1).
Proof.
  intros Hn. pose proof (Z.log2_nonneg n). replace (Z.of_nat (Z.to_nat (Z.log2 n) + 1)) with (Z.succ (Z.log2 n)) by lia.
  destruct (Z.eqb_spec n 0) as [->|Hz]; [done|]. apply Z.log2_spec. lia.
Qed.

(** The digits of a decimal, and of a lowercase hexadecimal. *)
Definition is_hex (b : Z) : Prop := 48 <= b <= 57 \/ 97 <= b <= 102.

Lemma digit_hex d : 0 <= d < 16 -> is_hex (digit d).
Proof. unfold digit, is_hex. intros. case_test; lia. Qed.

Lemma hex_digits n : Forall is_hex (hex n).
Proof. apply digits_of_all; [lia | by apply digit_hex | constructor]. Qed.

Lemma dec_digits n : 0 <= n -> Forall (fun b => is_ascii_digit b = true) (dec n).
Proof.
  intros Hn. unfold dec. destruct (Z.ltb_spec n 0); [lia|]. apply digits_of_all; [lia | | constructor].
  intros d Hd. unfold is_ascii_digit, digit. case_test; lia.
Qed.

Lemma digits_of_ne fuel base n s : (0 < fuel)%nat -> digits_of fuel base n s <> [].
Proof.
  assert (forall f n s, s <> [] -> digits_of f base n s <> []) as Hne.
  { induction f as [|f IH]; intros m k Hk; [done|]. cbn [digits_of]. case_test; [done | by apply IH]. }
  destruct fuel; [lia|]. intros _. cbn [digits_of]. case_test; [done | by apply Hne].
Qed.

Lemma dec_ne n : 0 <= n -> dec n <> [].
Proof. intros Hn. unfold dec. destruct (Z.ltb_spec n 0); [lia|]. apply digits_of_ne. lia. Qed.
Lemma hex_ne n : hex n <> [].
Proof. apply digits_of_ne. lia. Qed.

Lemma digits_of_len fuel base : forall n s, len (digits_of fuel base n s) <= Z.of_nat fuel + len s.
Proof.
  induction fuel as [|fuel IH]; intros n s; cbn [digits_of]; [lia|].
  case_test; [rewrite len_cons; lia|]. etrans; [apply IH|]. rewrite len_cons. lia.
Qed.

(** A number under [2^40] is written short. *)
Lemma number_len n : 0 <= n < 2 ^ 40 -> len (dec n) <= 40 /\ len (hex n) <= 40.
Proof.
  intros Hn. pose proof (Z.log2_nonneg n).
  assert (Z.log2 n <= 39) as Hlog by (change 39 with (Z.log2 (2 ^ 40 - 1)); apply Z.log2_le_mono; lia).
  unfold dec, hex. destruct (Z.ltb_spec n 0); [lia|].
  split; (etrans; [apply digits_of_len|]; rewrite len_nil; lia).
Qed.

Lemma parse_digits_step most a d s :
  0 <= d < 10 -> 0 <= a -> a * 10 + d <= most -> parse_digits most a (digit d :: s) = parse_digits most (a * 10 + d) s.
Proof.
  intros Hd Ha Hm. cbn [parse_digits]. unfold digit, is_ascii_digit. destruct (Z.ltb_spec d 10); [|lia].
  destruct (Z.leb_spec 48 (48 + d)), (Z.leb_spec (48 + d) 57); try lia. cbn [andb].
  replace (a * 10 + (48 + d - 48)) with (a * 10 + d) by lia. by destruct (Z.leb_spec (a * 10 + d) most); [|lia].
Qed.

(** [to_string] of an integer, and [parse] of it. *)
Lemma parse_digits_dec most n : 0 <= n <= most -> parse_digits most 0 (dec n) = Some n.
Proof.
  intros Hn. unfold dec. destruct (Z.ltb_spec n 0); [lia|].
  rewrite (digits_of_read (parse_digits most) 10 most); [done | lia | by apply parse_digits_step | lia | by apply log2_fuel | lia].
Qed.

Lemma parse_dec most n : 0 <= n <= most -> parse_uint most (dec n) = Some n.
Proof.
  intros Hn. pose proof (parse_digits_dec most n Hn) as Hp.
  pose proof (dec_digits n ltac:(lia)) as Hd. pose proof (dec_ne n ltac:(lia)) as Hne.
  destruct (dec n) as [|b l]; [done|]. apply Forall_cons in Hd as [Hb _].
  unfold parse_uint. destruct (Z.eqb_spec b 43) as [->|Hb']; [discriminate|].
  repeat (case_match; try done); congruence.
Qed.

(** ** Printable ASCII *)

Definition printable (s : bytes) : Prop := Forall (fun b => 33 <= b < 127) s.

Lemma printable_utf8 s : printable s -> utf8 s = true.
Proof.
  induction 1 as [|b s Hb Hs IH]; [done|]. cbn [utf8]. unfold between.
  by destruct (Z.leb_spec 0 b), (Z.leb_spec b 127); try lia.
Qed.

Lemma printable_white b s : 33 <= b < 127 -> white (b :: s) = O.
Proof.
  intros Hb. unfold white, between.
  destruct (Z.leb_spec 9 b), (Z.leb_spec b 13), (Z.eqb_spec b 32); try lia. cbn [andb orb].
  destruct (Z.eqb_spec b 0xc2), (Z.eqb_spec b 0xe1), (Z.eqb_spec b 0xe2), (Z.eqb_spec b 0xe3); try lia.
  by destruct s as [|? [|? ?]].
Qed.

Lemma printable_trim s : printable s -> trim s = s.
Proof.
  intros H. unfold trim.
  assert (forall t, printable t -> trim_start t = t) as Hs.
  { intros t Ht. destruct Ht as [|b t Hb Ht]; [done|]. apply trim_start_solid. by apply printable_white. }
  rewrite Hs by done. induction H as [|b s Hb H IH]; [done|]. cbn [trim_end].
  rewrite Hs by (by constructor). by rewrite bool_decide_eq_false_2, IH.
Qed.

Lemma printable_without c s : printable s -> ~ 33 <= c < 127 -> c ∉ s.
Proof. intros Hp Hc Hin. unfold printable in Hp. rewrite Forall_forall in Hp. by apply Hc, Hp. Qed.

Lemma hex_printable s : Forall is_hex s -> printable s.
Proof. intros H. eapply Forall_impl; [exact H|]. unfold is_hex. cbn. intros; lia. Qed.

Lemma dec_hex n : 0 <= n -> Forall is_hex (dec n).
Proof.
  intros Hn. eapply Forall_impl; [by apply dec_digits|]. cbn. unfold is_ascii_digit, is_hex. intros b Hb.
  apply andb_true_iff in Hb. lia.
Qed.

(** The first word of a line whose first word is printable. *)
Lemma word_printable s k : printable s -> word (s ++ 32 :: k) = (s, 32 :: k).
Proof.
  induction 1 as [|b s Hb Hs IH]; [done|]. cbn [word app]. by rewrite printable_white, IH.
Qed.

(** ** More of [str]

    [format!("{text:?}")]: which characters it escapes is in the Unicode
    tables of the standard library, a parameter here. *)
Class DebugText := debug_text : bytes -> bytes.

(** [str::contains], of one ASCII character. *)
Definition contains (c : Z) (s : bytes) : bool := existsb (Z.eqb c) s.

(** [str::starts_with]. *)
Definition starts_with (prefix s : bytes) : bool := bool_decide (is_Some (strip_prefix prefix s)).

(** [str::rsplit_once], of one ASCII character. *)
Fixpoint rsplit_once (c : Z) (s : bytes) : option (bytes * bytes) :=
  match s with
  | [] => None
  | b :: s =>
      match rsplit_once c s with
      | Some (before, after) => Some (b :: before, after)
      | None => if b =? c then Some ([], s) else None
      end
  end.

(** [str::split_once] of a longer separator. *)
Fixpoint split_at_text (sep s : bytes) : option (bytes * bytes) :=
  match strip_prefix sep s with
  | Some after => Some ([], after)
  | None =>
      match s with
      | [] => None
      | b :: s => '(before, after) ← split_at_text sep s; Some (b :: before, after)
      end
  end.

(** [str::split] at each character [sep] holds of, [Iterator::collect]ed. *)
Fixpoint split_by (sep : Z -> bool) (s : bytes) : list bytes :=
  match s with
  | [] => [[]]
  | b :: s =>
      if sep b then [] :: split_by sep s
      else match split_by sep s with
           | piece :: pieces => (b :: piece) :: pieces
           | [] => [[b]]
           end
  end.

(** [slice::join]. *)
Fixpoint join (sep : bytes) (pieces : list bytes) : bytes :=
  match pieces with
  | [] => []
  | [piece] => piece
  | piece :: pieces => piece ++ sep ++ join sep pieces
  end.

Definition is_ascii_alphabetic (b : Z) : bool := between 65 b 90 || between 97 b 122.
Definition is_ascii_alphanumeric (b : Z) : bool := is_ascii_alphabetic b || is_ascii_digit b.

Lemma contains_spec c s : contains c s = true <-> c ∈ s.
Proof.
  unfold contains. rewrite existsb_exists. split.
  - intros (x & Hx & He). apply Z.eqb_eq in He as <-. by apply list_elem_of_In.
  - intros H. exists c. split; [by apply list_elem_of_In | apply Z.eqb_refl].
Qed.
Lemma contains_false c s : contains c s = false <-> c ∉ s.
Proof. rewrite <- contains_spec. by destruct (contains c s). Qed.

Lemma strip_prefix_spec p s t : strip_prefix p s = Some t <-> s = p ++ t.
Proof.
  split; [|intros ->; apply strip_prefix_app]. revert s. induction p as [|c p IH]; intros s; cbn.
  - by intros [= <-].
  - destruct s as [|b s]; [discriminate|]. destruct (Z.eqb_spec b c) as [->|]; [|discriminate].
    intros H. by rewrite (IH _ H).
Qed.

Lemma split_once_spec c s before after :
  split_once c s = Some (before, after) <-> s = before ++ c :: after /\ (c ∉ before).
Proof.
  split; [|intros [-> H]; by apply split_once_first]. revert before.
  induction s as [|b s IH]; intros before; cbn; [discriminate|].
  destruct (Z.eqb_spec b c) as [->|Hne].
  - intros [= <- <-]. by split; [|apply not_elem_of_nil].
  - destruct (split_once c s) as [[b1 a1]|]; [|discriminate]. cbn. intros [= <- <-].
    destruct (IH b1 eq_refl) as [-> Hn]. split; [done|]. by apply not_elem_of_cons.
Qed.

Lemma split_once_missing c s : split_once c s = None <-> c ∉ s.
Proof.
  split; [|apply split_once_none]. intros H Hin. apply list_elem_of_split in Hin as (l1 & l2 & ->).
  revert H. induction l1 as [|b l1 IH]; cbn.
  - by rewrite Z.eqb_refl.
  - destruct (b =? c); [done|]. destruct (split_once c (l1 ++ c :: l2)) as [[]|]; [discriminate|]. by intros _; apply IH.
Qed.

Lemma rsplit_once_missing c s : rsplit_once c s = None <-> c ∉ s.
Proof.
  induction s as [|b s IH]; cbn; [split; [intros _; apply not_elem_of_nil | done]|].
  rewrite not_elem_of_cons. destruct (rsplit_once c s) as [[x y]|].
  - split; [done|]. intros [_ H]. by apply IH in H.
  - destruct (Z.eqb_spec b c) as [->|Hne]; [by split; [|intros []]|]. split; [|done]. intros _. split; [congruence|]. by apply IH.
Qed.

Lemma rsplit_once_last c before after :
  (c ∉ after) -> rsplit_once c (before ++ c :: after) = Some (before, after).
Proof.
  intros H. induction before as [|b before IH]; cbn.
  - apply rsplit_once_missing in H. by rewrite H, Z.eqb_refl.
  - by rewrite IH.
Qed.

Lemma rsplit_once_spec c s before after :
  rsplit_once c s = Some (before, after) <-> s = before ++ c :: after /\ (c ∉ after).
Proof.
  split; [|intros [-> H]; by apply rsplit_once_last]. revert before.
  induction s as [|b s IH]; intros before; cbn; [discriminate|].
  destruct (rsplit_once c s) as [[x y]|] eqn:Hr.
  - intros [= <- <-]. by destruct (IH x eq_refl) as [-> Hn].
  - destruct (Z.eqb_spec b c) as [->|]; [|discriminate]. intros [= <- <-]. split; [done|]. by apply rsplit_once_missing.
Qed.

Lemma join_split c s : join [c] (split_by (Z.eqb c) s) = s.
Proof.
  assert (forall s, split_by (Z.eqb c) s <> []) as Hne.
  { intros t. destruct t as [|b t]; cbn; [done|]. destruct (c =? b); [done|]. by destruct (split_by _ t). }
  induction s as [|b s IH]; [done|]. cbn [split_by]. destruct (Z.eqb_spec c b) as [->|Hb].
  - specialize (Hne s). cbn [join]. destruct (split_by (Z.eqb b) s); [done|]. cbn [app]. by rewrite IH.
  - specialize (Hne s). destruct (split_by (Z.eqb c) s) as [|p ps]; [done|]. destruct ps; cbn in *; by rewrite IH.
Qed.

Lemma split_join_by sep c pieces : sep c = true -> Forall (Forall (fun b => sep b = false)) pieces -> pieces <> [] ->
  split_by sep (join [c] pieces) = pieces.
Proof.
  intros Hc H Hne. induction H as [|p pieces Hp Hps IH]; [done|]. clear Hne.
  assert (forall p k, Forall (fun b => sep b = false) p -> split_by sep (p ++ c :: k) = p :: split_by sep k) as Hcons.
  { intros q k. induction 1 as [|b q Hb Hq IHq]; cbn; [by rewrite Hc|]. by rewrite Hb, IHq. }
  destruct pieces as [|q pieces].
  - clear Hcons IH. cbn [join]. induction Hp as [|b p Hb Hp IHp]; [done|]. cbn [split_by]. by rewrite Hb, IHp.
  - change (join [c] (p :: q :: pieces)) with (p ++ c :: join [c] (q :: pieces)). by rewrite Hcons, IH.
Qed.

Lemma split_join c pieces : Forall (fun p => c ∉ p) pieces -> pieces <> [] -> split_by (Z.eqb c) (join [c] pieces) = pieces.
Proof.
  intros H. apply split_join_by; [apply Z.eqb_refl|]. eapply Forall_impl; [exact H|]. cbn. intros p Hp.
  apply Forall_forall. intros b Hb. apply Z.eqb_neq. by intros ->.
Qed.

Lemma split_at_text_first sep before after : sep <> [] ->
  Forall (fun b => forall c, head sep = Some c -> b <> c) before ->
  split_at_text sep (before ++ sep ++ after) = Some (before, after).
Proof.
  intros Hsep H. destruct sep as [|c sep]; [done|]. induction H as [|b before Hb Hbs IH].
  - cbn [app split_at_text]. change (c :: sep ++ after) with ((c :: sep) ++ after). by rewrite strip_prefix_app.
  - cbn [app split_at_text strip_prefix]. destruct (Z.eqb_spec b c) as [->|]; [by specialize (Hb c eq_refl)|].
    cbn [app] in IH. by rewrite IH.
Qed.

Lemma split_at_text_spec sep s before after : split_at_text sep s = Some (before, after) -> s = before ++ sep ++ after.
Proof.
  revert before. induction s as [|b s IH]; intros before; cbn [split_at_text].
  - destruct (strip_prefix sep []) as [t|] eqn:H; [|discriminate]. intros [= <- <-]. by apply strip_prefix_spec in H.
  - destruct (strip_prefix sep (b :: s)) as [t|] eqn:H.
    + intros [= <- <-]. by apply strip_prefix_spec in H.
    + destruct (split_at_text sep s) as [[b1 a1]|]; [|discriminate]. cbn. intros [= <- <-]. by rewrite (IH b1 eq_refl).
Qed.

(** A number read is in its range. *)
Lemma parse_digits_range most s : forall a n, 0 <= a <= most -> parse_digits most a s = Some n -> 0 <= n <= most.
Proof.
  induction s as [|b s IH]; intros a n Ha; cbn [parse_digits]; [by intros [= <-]|].
  destruct (is_ascii_digit b) eqn:Hb; [|discriminate]. unfold is_ascii_digit in Hb. rewrite andb_true_iff in Hb.
  destruct (Z.leb_spec (a * 10 + (b - 48)) most); [|discriminate]. apply IH. lia.
Qed.

Lemma parse_uint_range most s n : 0 <= most -> parse_uint most s = Some n -> 0 <= n <= most.
Proof.
  intros Hm. assert (forall t, parse_digits most 0 t = Some n -> 0 <= n <= most) as H.
  { intros t. apply parse_digits_range. lia. }
  unfold parse_uint. repeat (case_match; try apply H). discriminate.
Qed.

(** A text split and put together without its separators. *)
Lemma concat_split_by sep s : concat (split_by sep s) = List.filter (fun c => negb (sep c)) s.
Proof.
  induction s as [|b s IH]; [done|]. cbn [split_by List.filter]. destruct (sep b); cbn [negb]; [done|].
  rewrite <- IH. by destruct (split_by sep s).
Qed.
