(* ===== verification/Errors.v ===== *)
(** The errors of the crate: [NetError] ([src/lib.rs]), the operating
    system's error it is made from, and HTTP/2's [ErrorCode] and
    [Violation] ([src/http2/error.rs]). *)

From Stdlib Require Import String.
From S2P Require Import Prelude.

(** ** The standard library's [io::Error]: a kind and what [Display] says.

    Only the kinds the source names are told apart. *)

Inductive ErrorKind : Type :=
| Interrupted
| WouldBlock
| TimedOut
| UnexpectedEof
| ConnectionAborted
| Unsupported
| OtherKind (n : Z).

#[global] Instance ErrorKind_eq_dec : EqDecision ErrorKind.
Proof. solve_decision. Defined.

Record IoError : Type := mkIoError { io_kind : ErrorKind; io_text : bytes }.
#[global] Instance IoError_eq_dec : EqDecision IoError.
Proof. solve_decision. Defined.

(** [Read::read_exact] met the end: [READ_EXACT_EOF]. *)
Definition read_exact_eof : IoError :=
  mkIoError UnexpectedEof (lit "failed to fill whole buffer").
(** [io::Error::from(ErrorKind::UnexpectedEof)]. *)
Definition unexpected_eof : IoError :=
  mkIoError UnexpectedEof (lit "unexpected end of file").

(** ** [NetError] *)

Record NetError : Type := mkNetError { message : bytes; io : option ErrorKind }.
#[global] Instance NetError_eq_dec : EqDecision NetError.
Proof. solve_decision. Defined.

Module NetErr.
Definition new (message : bytes) : NetError := mkNetError message None.

Definition from_io (doing : bytes) (error : IoError) : NetError :=
  mkNetError (doing ++ lit ": " ++ io_text error) (Some (io_kind error)).

(** [{}]. *)
Definition display (self : NetError) : bytes := message self.

(** [impl From<codec::CodecError>], of another package's error, which has a
    message. *)
Definition from_codec {CodecError} (codec_message : CodecError -> bytes) (error : CodecError) : NetError :=
  new (codec_message error).
End NetErr.

(** ** HTTP/2 error codes (RFC 9113 section 7) *)

Inductive ErrorCode : Type :=
| NoError | Protocol | Internal | FlowControl | SettingsTimeout | StreamClosed
| FrameSize | RefusedStream | Cancel | Compression | Connect | EnhanceYourCalm
| InadequateSecurity | Http11Required
| UnknownCode (code : Z).

#[global] Instance ErrorCode_eq_dec : EqDecision ErrorCode.
Proof. solve_decision. Defined.

Module ErrCode.
Definition code (self : ErrorCode) : Z :=
  match self with
  | NoError => 0x0 | Protocol => 0x1 | Internal => 0x2 | FlowControl => 0x3
  | SettingsTimeout => 0x4 | StreamClosed => 0x5 | FrameSize => 0x6
  | RefusedStream => 0x7 | Cancel => 0x8 | Compression => 0x9 | Connect => 0xa
  | EnhanceYourCalm => 0xb | InadequateSecurity => 0xc | Http11Required => 0xd
  | UnknownCode code => code
  end.

Definition of_code (code : Z) : ErrorCode :=
  match code with
  | 0x0 => NoError | 0x1 => Protocol | 0x2 => Internal | 0x3 => FlowControl
  | 0x4 => SettingsTimeout | 0x5 => StreamClosed | 0x6 => FrameSize
  | 0x7 => RefusedStream | 0x8 => Cancel | 0x9 => Compression | 0xa => Connect
  | 0xb => EnhanceYourCalm | 0xc => InadequateSecurity | 0xd => Http11Required
  | other => UnknownCode other
  end.

(** [{:?}], derived. *)
Definition debug (self : ErrorCode) : bytes :=
  match self with
  | NoError => lit "NoError" | Protocol => lit "Protocol" | Internal => lit "Internal"
  | FlowControl => lit "FlowControl" | SettingsTimeout => lit "SettingsTimeout"
  | StreamClosed => lit "StreamClosed" | FrameSize => lit "FrameSize"
  | RefusedStream => lit "RefusedStream" | Cancel => lit "Cancel"
  | Compression => lit "Compression" | Connect => lit "Connect"
  | EnhanceYourCalm => lit "EnhanceYourCalm"
  | InadequateSecurity => lit "InadequateSecurity"
  | Http11Required => lit "Http11Required"
  | UnknownCode code => lit "Unknown(" ++ dec code ++ lit ")"
  end.

(** What a code the source can hold is: [Unknown] holds only a number no
    other variant has, and every number is 32 bits wide. *)
Definition known (c : ErrorCode) : Prop := of_code (code c) = c.

(** The literals of [of_code], tested one by one. *)
Lemma of_code_spec n :
  (0 <= n <= 0xd /\ exists c, of_code n = c /\ code c = n /\ (forall m, c <> UnknownCode m))
  \/ ((n < 0 \/ 0xd < n) /\ of_code n = UnknownCode n).
Proof.
  destruct (decide (0 <= n <= 0xd)) as [H|H].
  - left; split; [done|].
    destruct n as [|p|p]; [by exists NoError | | lia].
    do 4 (try destruct p as [p|p|]; try lia);
      (eexists; split; [reflexivity | split; [reflexivity | discriminate]]).
  - right; split; [lia|].
    destruct n as [|p|p]; [lia | | reflexivity].
    do 4 (destruct p as [p|p|]; try reflexivity; try lia).
Qed.

Lemma code_of_code n : code (of_code n) = n.
Proof.
  destruct (of_code_spec n) as [(_ & c & Hc & Hn & _) | [_ ->]]; [by rewrite Hc | done].
Qed.

Lemma known_of_code n : known (of_code n).
Proof. unfold known. by rewrite code_of_code. Qed.
End ErrCode.

(** ** [Violation]: a breach of RFC 9113 or RFC 7541 *)

Record Violation : Type := mkViolation { v_code : ErrorCode; v_message : bytes }.
#[global] Instance Violation_eq_dec : EqDecision Violation.
Proof. solve_decision. Defined.

Module Viol.
Definition new (code : ErrorCode) (message : bytes) : Violation := mkViolation code message.
Definition protocol (message : bytes) : Violation := new Protocol message.
Definition frame_size (message : bytes) : Violation := new FrameSize message.
Definition compression (message : bytes) : Violation := new Compression message.
End Viol.

(** [impl From<Violation> for NetError]. *)
Definition NetError_of (violation : Violation) : NetError :=
  NetErr.new (lit "HTTP/2 " ++ ErrCode.debug (v_code violation) ++ lit " (0x"
    ++ hex (ErrCode.code (v_code violation)) ++ lit "): " ++ v_message violation).

(** ** [ceiling::within] ([src/ceiling.rs]) *)

Definition within (size ceiling : Z) (carrier : bytes) : result NetError unit :=
  if ceiling <? size then
    Err (NetErr.new (dec size ++ lit " bytes is over the " ++ dec ceiling ++ lit " " ++ carrier))
  else Ok tt.

Lemma within_ok size ceiling carrier u : within size ceiling carrier = Ok u -> size <= ceiling.
Proof. unfold within. case_test; [discriminate | intros _; lia]. Qed.
Lemma within_fits size ceiling carrier : size <= ceiling -> within size ceiling carrier = Ok tt.
Proof. unfold within. intros. case_test; [lia | done]. Qed.

(** [MAX_BODY]: 64 MiB. *)
Definition MAX_BODY : Z := 64 * 1024 * 1024.
