(* ===== verification/Wire.v ===== *)
(** A connection's two directions, as the crate sees one through
    [Read + Write].

    Nothing of the crate decides what a peer sends or when a call fails, so
    a connection is the answers its calls will get: [incoming] answers each
    [read] in turn — octets the peer sent, an empty answer for the end, or
    an error — and once spent, every read finds the end; [refusals] answers
    each write or flush in turn, [None] a success, and once spent, every
    write succeeds. [outgoing] is what has been written. The loops of the
    source, and [read_exact] and [write_all] of the standard library, are
    written over those answers. *)

From S2P Require Import Prelude Errors.

Inductive answer : Type :=
| Got (bs : bytes)
| Failed (e : IoError).

Record Wire : Type := mkWire {
  incoming : list answer;
  outgoing : bytes;
  refusals : list (option (Z * IoError));
}.

(** [Read::read] into a buffer of [n] octets: what is there and fits. *)
Definition read1 (n : nat) (w : Wire) : result IoError bytes * Wire :=
  match incoming w with
  | [] => (Ok [], w)
  | Got bs :: rest =>
      let left := drop n bs in
      let rest := match left with [] => rest | _ => Got left :: rest end in
      (Ok (take n bs), mkWire rest (outgoing w) (refusals w))
  | Failed e :: rest => (Err e, mkWire rest (outgoing w) (refusals w))
  end.

(** How a buffer being filled came out: whole, ended with what had come, or
    broken. *)
Inductive filled : Type :=
| Whole (bs : bytes)
| Ended (bs : bytes)
| Broke (e : IoError).

(** The loop that fills a buffer: [while filled < N { match
    reader.read(&mut buffer[filled..]) ... }], a read of nothing the end, an
    interrupted one tried again. *)
Fixpoint fill_from (n : nat) (acc : bytes) (rs : list answer) : filled * list answer :=
  match n with
  | O => (Whole acc, rs)
  | _ =>
      match rs with
      | [] => (Ended acc, [])
      | Got [] :: rest => (Ended acc, rest)
      | Got bs :: rest =>
          if (n <? length bs)%nat then (Whole (acc ++ take n bs), Got (drop n bs) :: rest)
          else fill_from (n - length bs) (acc ++ bs) rest
      | Failed e :: rest =>
          if decide (io_kind e = Interrupted) then fill_from n acc rest else (Broke e, rest)
      end
  end.

Definition fill (n : nat) (w : Wire) : filled * Wire :=
  let '(f, rest) := fill_from n [] (incoming w) in
  (f, mkWire rest (outgoing w) (refusals w)).

(** [Read::read_exact]: the buffer whole, or an error. *)
Definition read_exact (n : nat) : M Wire IoError bytes := fun w =>
  match fill n w with
  | (Whole bs, w) => (Ok bs, w)
  | (Ended _, w) => (Err read_exact_eof, w)
  | (Broke e, w) => (Err e, w)
  end.

(** One write or flush asked of the connection: what it is answered. *)
Definition asked (bs : bytes) : M Wire IoError unit := fun w =>
  match refusals w with
  | [] => (Ok tt, mkWire (incoming w) (outgoing w ++ bs) [])
  | None :: rest => (Ok tt, mkWire (incoming w) (outgoing w ++ bs) rest)
  | Some (n, e) :: rest => (Err e, mkWire (incoming w) (outgoing w ++ ztake n bs) rest)
  end.

(** [Write::write_all], which asks nothing of the connection for no octets;
    a failure leaves written what had gone before it. *)
Definition write_all (bs : bytes) : M Wire IoError unit :=
  match bs with [] => mret tt | _ => asked bs end.

(** [Write::flush]. *)
Definition flush : M Wire IoError unit := asked [].

(** ** The filling loop is the loop of reads *)

(** One turn of the loop, as the source writes it over [read]. *)
Lemma fill_turn n acc w :
  n <> O ->
  fill_from n acc (incoming w) =
    match read1 n w with
    | (Ok [], w') => (Ended acc, incoming w')
    | (Ok bs, w') => fill_from (n - length bs) (acc ++ bs) (incoming w')
    | (Err e, w') =>
        if decide (io_kind e = Interrupted) then fill_from n acc (incoming w')
        else (Broke e, incoming w')
    end.
Proof.
  intros Hn. destruct w as [rs out ref]; unfold read1; simpl incoming.
  destruct n as [|n]; [done|].
  destruct rs as [|[[|b bs]|e] rs]; cbn [fill_from]; try done.
  destruct (Nat.ltb_spec (S n) (length (b :: bs))) as [Hlt|Hge].
  - cbn [take]. simpl incoming.
    destruct (drop (S n) (b :: bs)) as [|d ds] eqn:Hd.
    { apply (f_equal length) in Hd. rewrite length_drop in Hd. simpl in *; lia. }
    cbn [length]. rewrite length_take. simpl length in Hlt.
    replace (S n - S (n `min` length bs))%nat with 0%nat by lia. cbn [drop] in Hd. by rewrite Hd.
  - cbn [take]. rewrite (take_ge bs) by (simpl in *; lia).
    rewrite drop_ge by done. done.
Qed.

(** ** What arrives, whatever pieces it comes in *)

(** [delivers rs bs]: the answers [rs] carry exactly [bs], in pieces none of
    which is empty, interrupted any number of times, and then the end. *)
Inductive delivers : list answer -> bytes -> Prop :=
| delivers_end : delivers [] []
| delivers_got b bs rs rest :
    delivers rs rest -> delivers (Got (b :: bs) :: rs) ((b :: bs) ++ rest)
| delivers_again e rs bs :
    io_kind e = Interrupted -> delivers rs bs -> delivers (Failed e :: rs) bs.
#[export] Hint Constructors delivers : net.

Lemma delivers_one bs : delivers (match bs with [] => [] | _ => [Got bs] end) bs.
Proof.
  destruct bs as [|b bs]; [constructor|].
  rewrite <- (app_nil_r (b :: bs)) at 2. apply delivers_got; constructor.
Qed.

(** A buffer that fits what arrives is filled with its first octets, and the
    rest is still to come. *)
Lemma fill_delivers rs bs n acc :
  delivers rs bs -> (n <= length bs)%nat ->
  exists rs', fill_from n acc rs = (Whole (acc ++ take n bs), rs') /\ delivers rs' (drop n bs).
Proof.
  intros Hd; revert n acc. induction Hd as [|b bs rs rest Hd IH|e rs bs He Hd IH]; intros n acc Hn.
  - destruct n; simpl in Hn; [|lia]. simpl. rewrite app_nil_r. eauto with net.
  - destruct n as [|n].
    { simpl. rewrite app_nil_r. eexists; split; [done|]. by apply (delivers_got b bs). }
    cbn [fill_from]. destruct (Nat.ltb_spec (S n) (length (b :: bs))) as [Hlt|Hge].
    + exists (Got (drop (S n) (b :: bs)) :: rs).
      rewrite take_app_le, drop_app_le by lia. split; [done|].
      destruct (drop (S n) (b :: bs)) as [|d ds] eqn:Hdr; [|by apply delivers_got].
      apply (f_equal length) in Hdr. rewrite length_drop in Hdr. simpl in *; lia.
    + destruct (IH (S n - length (b :: bs))%nat (acc ++ b :: bs)) as (rs' & Hf & Hr).
      { rewrite length_app in Hn. lia. }
      exists rs'. rewrite Hf, take_app_ge, drop_app_ge by lia.
      by rewrite <- app_assoc.
  - destruct n as [|n].
    { simpl. rewrite app_nil_r. eexists; split; [done|]. by apply delivers_again. }
    cbn [fill_from]. destruct (decide (io_kind e = Interrupted)); [|done]. by apply IH.
Qed.

(** One that does not ends with all of it. *)
Lemma fill_short rs bs n acc :
  delivers rs bs -> (length bs < n)%nat -> fill_from n acc rs = (Ended (acc ++ bs), []).
Proof.
  intros Hd; revert n acc. induction Hd as [|b bs rs rest Hd IH|e rs bs He Hd IH]; intros n acc Hn.
  - destruct n; simpl in Hn; [lia|]. simpl. by rewrite app_nil_r.
  - rewrite length_app in Hn. destruct n as [|n]; [lia|]. cbn [fill_from].
    destruct (Nat.ltb_spec (S n) (length (b :: bs))) as [Hlt|Hge]; [lia|].
    rewrite IH by lia. by rewrite <- (assoc_L (++)).
  - destruct n as [|n]; [lia|]. cbn [fill_from].
    destruct (decide (io_kind e = Interrupted)); [|done]. by apply IH.
Qed.

(** A wire that will deliver [bs] and takes every write. *)
Definition carrying (w : Wire) (bs : bytes) : Prop := delivers (incoming w) bs.

Lemma fill_whole w bs k n :
  carrying w (bs ++ k) -> n = length bs ->
  exists w', fill n w = (Whole bs, w') /\ carrying w' k
             /\ outgoing w' = outgoing w /\ refusals w' = refusals w.
Proof.
  intros Hc ->. unfold fill. destruct (fill_delivers _ _ (length bs) [] Hc) as (rs & Hf & Hr).
  { rewrite length_app; lia. }
  rewrite Hf. exists (mkWire rs (outgoing w) (refusals w)). split; [|split; [|done]].
  - cbn [app]. by rewrite take_app_length.
  - by rewrite drop_app_length in Hr.
Qed.

Lemma read_exact_whole w bs k n :
  carrying w (bs ++ k) -> n = length bs ->
  exists w', read_exact n w = (Ok bs, w') /\ carrying w' k
             /\ outgoing w' = outgoing w /\ refusals w' = refusals w.
Proof.
  intros Hc Hn. destruct (fill_whole w bs k n Hc Hn) as (w' & Hf & H).
  exists w'. unfold read_exact. by rewrite Hf.
Qed.

Lemma fill_ended w bs n :
  carrying w bs -> (length bs < n)%nat ->
  fill n w = (Ended bs, mkWire [] (outgoing w) (refusals w)).
Proof. intros Hc Hn. unfold fill. by rewrite (fill_short _ bs n [] Hc Hn). Qed.

(** ** What reading takes

    Every read takes something off what will come, so a loop that reads
    ends: [pending] counts the octets and answers still to come. *)

Fixpoint pending_of (rs : list answer) : nat :=
  match rs with
  | [] => 0
  | Got bs :: rs => S (length bs) + pending_of rs
  | Failed _ :: rs => S (pending_of rs)
  end.
Definition pending (w : Wire) : nat := pending_of (incoming w).

(** What a read gives comes off what was to come, and so does a failure. *)
Lemma read1_pending n w x w' : read1 n w = (x, w') ->
  match x with
  | Ok bs => (length bs + pending w' <= pending w)%nat
  | Err _ => (pending w' < pending w)%nat
  end.
Proof.
  unfold read1, pending. destruct (incoming w) as [|[bs|e] rs] eqn:Hi; intros [= <- <-]; cbn [incoming]; rewrite ?Hi; cbn [pending_of length]; try lia.
  rewrite length_take. destruct (drop n bs) as [|d ds] eqn:Hd.
  - lia.
  - cbn [pending_of]. rewrite <- Hd, length_drop. lia.
Qed.

Lemma fill_from_pending n acc rs f rs' :
  fill_from n acc rs = (f, rs') -> (pending_of rs' <= pending_of rs)%nat.
Proof.
  revert n acc. induction rs as [|[bs|e] rs IH]; intros n acc H.
  - destruct n; simpl in H; by injection H as <- <-.
  - destruct n as [|n]; [by injection H as <- <-|]. cbn [fill_from] in H.
    destruct bs as [|b bs]; [injection H as <- <-; simpl; lia|].
    destruct (Nat.ltb_spec (S n) (length (b :: bs))).
    + injection H as <- <-. cbn [pending_of]. rewrite length_drop. cbn [length]. lia.
    + apply IH in H. simpl; lia.
  - destruct n as [|n]; [by injection H as <- <-|]. cbn [fill_from] in H.
    case_decide; [apply IH in H; simpl; lia | injection H as <- <-; simpl; lia].
Qed.

(** A buffer of one octet or more that came whole took something. *)
Lemma fill_from_whole n acc rs bs rs' :
  (0 < n)%nat -> fill_from n acc rs = (Whole bs, rs') -> (pending_of rs' < pending_of rs)%nat.
Proof.
  revert n acc. induction rs as [|[cs|e] rs IH]; intros n acc Hn H.
  - destruct n; [lia|]. simpl in H; discriminate.
  - destruct n as [|n]; [lia|]. cbn [fill_from] in H.
    destruct cs as [|c cs]; [discriminate|].
    destruct (Nat.ltb_spec (S n) (length (c :: cs))).
    + injection H as <- <-. cbn [pending_of]. rewrite length_drop. cbn [length] in *; lia.
    + apply fill_from_pending in H. simpl; lia.
  - destruct n as [|n]; [lia|]. cbn [fill_from] in H.
    case_decide; [apply IH in H; [simpl; lia|lia] | discriminate].
Qed.

(** What a read takes of a wire, put back in front of what is left of it,
    is what the wire was to deliver. *)
Lemma read1_delivers n w bs got w' :
  delivers (incoming w) bs -> (0 < n)%nat -> read1 n w = (got, w') ->
  match got with
  | Ok got => exists rest, bs = got ++ rest /\ delivers (incoming w') rest
                 /\ (got = [] -> bs = []) /\ (length got <= n)%nat
  | Err e => io_kind e = Interrupted /\ delivers (incoming w') bs
  end.
Proof.
  intros Hd Hn H. unfold read1 in H. inversion Hd as [Hi Hb|b l rs rest Hr Hi Hb|e rs bs' He Hr Hi Hb]; subst.
  - rewrite <- Hi in H. injection H as <- <-. exists []. rewrite <- Hi. split_and!; [done | constructor | done | cbn; lia].
  - rewrite <- Hi in H. injection H as <- <-. exists (drop n (b :: l) ++ rest).
    rewrite app_assoc, take_drop. split; [done|]. split; [|split].
    + cbn [incoming]. destruct (drop n (b :: l)) as [|d ds]; [done | by apply delivers_got].
    + destruct n; [lia | discriminate].
    + rewrite length_take. lia.
  - rewrite <- Hi in H. injection H as <- <-. done.
Qed.

(** The octets of a filled buffer: as many as asked for. *)
Lemma fill_from_len n acc rs bs rs' :
  fill_from n acc rs = (Whole bs, rs') -> length bs = (length acc + n)%nat.
Proof.
  revert n acc. induction rs as [|[cs|e] rs IH]; intros n acc H.
  - destruct n; simpl in H; [injection H as <- <-; lia | discriminate].
  - destruct n as [|n]; [injection H as <- <-; lia|]. cbn [fill_from] in H.
    destruct cs as [|c cs]; [discriminate|].
    destruct (Nat.ltb_spec (S n) (length (c :: cs))).
    + injection H as <- <-. rewrite length_app. cbn [length] in *. rewrite length_take. lia.
    + apply IH in H. rewrite length_app in H. simpl in *; lia.
  - destruct n as [|n]; [injection H as <- <-; lia|]. cbn [fill_from] in H.
    case_decide; [by apply IH in H | discriminate].
Qed.

(** The octets that will come are octets. *)
Definition answer_octets (a : answer) : Prop :=
  match a with Got bs => octets bs | Failed _ => True end.
Definition wire_octets (w : Wire) : Prop := Forall answer_octets (incoming w).

Lemma wire_octets_check w :
  forallb (fun a => match a with Got bs => forallb is_octetb bs | Failed _ => true end) (incoming w) = true ->
  wire_octets w.
Proof.
  intros H. rewrite List.forallb_forall in H. apply List.Forall_forall. intros [bs|e] Hin; [|done].
  apply octets_check. exact (H (Got bs) Hin).
Qed.

Lemma fill_from_octets n acc rs f rs' :
  Forall answer_octets rs -> octets acc -> fill_from n acc rs = (f, rs') ->
  Forall answer_octets rs' /\
  match f with Whole bs | Ended bs => octets bs | Broke _ => True end.
Proof.
  revert n acc. induction rs as [|[cs|e] rs IH]; intros n acc Hrs Hacc H.
  - destruct n; simpl in H; injection H as <- <-; auto.
  - inversion_clear Hrs as [|? ? Hc Hr]. simpl in Hc.
    destruct n as [|n]; [injection H as <- <-; split; [by constructor|done]|].
    cbn [fill_from] in H. destruct cs as [|c cs]; [injection H as <- <-; auto|].
    destruct (Nat.ltb_spec (S n) (length (c :: cs))).
    + injection H as <- <-. split.
      * constructor; [|done]. by apply (Forall_drop _ (S n) (c :: cs)).
      * apply octets_app; split; [done|]. by apply (Forall_take _ (S n) (c :: cs)).
    + eapply IH; [done| |done]. by apply octets_app.
  - inversion_clear Hrs as [|? ? _ Hr].
    destruct n as [|n]; [injection H as <- <-; split; [by constructor|done]|].
    cbn [fill_from] in H. case_decide; [by eapply IH | by injection H as <- <-].
Qed.
