(* ===== verification/Reading.v ===== *)
(** Reading off a connection under a ceiling ([src/read.rs]): to a
    delimiter, a line, or the end, over the standard library's [BufRead]. *)

From Stdlib Require Import String.
From S2P Require Import Prelude Text Errors Wire.

(** ** [BufReader]

    What the crate reads through: the octets read ahead, and the connection
    they came from. A [&[u8]] is the reader with nothing behind its octets. *)

Record Reader : Type := mkReader { buffer : bytes; inner : Wire }.

(** [BufReader::new], of the standard library's buffer size. *)
Definition CAPACITY : nat := Z.to_nat 8192.
Definition buffered (w : Wire) : Reader := mkReader [] w.

(** [BufRead::fill_buf]: an error leaves the buffer empty. *)
Definition fill_buf : M Reader IoError bytes := fun r =>
  match buffer r with
  | [] => let '(x, w) := read1 CAPACITY (inner r) in
          match x with
          | Ok bs => (Ok bs, mkReader bs w)
          | Err e => (Err e, mkReader [] w)
          end
  | bs => (Ok bs, r)
  end.

(** [BufRead::consume]. *)
Definition consume (n : nat) (r : Reader) : Reader := mkReader (drop n (buffer r)) (inner r).

(** [Read::read] into [n] octets: past the buffer where it is empty and no
    larger. *)
Definition read (n : nat) : M Reader IoError bytes := fun r =>
  if bool_decide (buffer r = []) && (CAPACITY <=? n)%nat then
    let '(x, w) := read1 n (inner r) in (x, mkReader [] w)
  else
    match fill_buf r with
    | (Ok available, r) => (Ok (take n available), consume n r)
    | (Err e, r) => (Err e, r)
    end.

(** What a reader has left: octets and answers. *)
Definition left (r : Reader) : nat := (length (buffer r) + pending (inner r))%nat.
Definition to_come {A} (_ : A) (r : Reader) : nat := left r.

(** One turn of [Read::read_exact]. *)
Definition exact_turn (n : nat) (acc : bytes) : M Reader IoError (bytes + bytes) :=
  match (n - length acc)%nat with
  | O => mret (inr acc)
  | missing => fun r =>
      match read missing r with
      | (Ok [], r) => (Err read_exact_eof, r)
      | (Ok bs, r) => (Ok (inl (acc ++ bs)), r)
      | (Err e, r) => if decide (io_kind e = Interrupted) then (Ok (inl acc), r) else (Err e, r)
      end
  end.
Definition read_exact (n : nat) : M Reader IoError bytes := loop (exact_turn n) to_come read_exact_eof [].

Module Read.

Definition MAX_LINE : Z := 64 * 1024.

(** [iter().position(|byte| *byte == c)]. *)
Fixpoint position (c : Z) (s : bytes) : option nat :=
  match s with
  | [] => None
  | b :: s => if b =? c then Some O else S <$> position c s
  end.

Definition ONE_DELIMITER : bytes := lit "Xmip reads to one delimiter".

(** One turn of the loop of [until], [into] so far; a failure says what it
    leaves in [into]. *)
Definition until_turn (delimiter ceiling : Z) (into : bytes) : M Reader (NetError * bytes) (bytes + bytes) := fun r =>
  match fill_buf r with
  | (Err failed, r) =>
      if decide (io_kind failed = Interrupted) then (Ok (inl into), r)
      else (Err (NetErr.from_io (lit "reading off a connection") failed, into), r)
  | (Ok [], r) => (Ok (inr into), r)
  | (Ok available, r) =>
      let '(n, found) := match position delimiter available with
                         | Some at_ => (S at_, true)
                         | None => (length available, false)
                         end in
      match within (len into + Z.of_nat n) ceiling ONE_DELIMITER with
      | Err over => (Err (over, into), r)
      | Ok _ =>
          let into := into ++ take n available in
          (Ok (if found : bool then inr into else inl into), consume n r)
      end
  end.

(** No run returns it: the loop ends first. *)
Definition unending : NetError := NetErr.new [].

(** How much was appended, or why nothing more was, each with [into] after. *)
Definition until (delimiter ceiling : Z) (into : bytes) : M Reader (NetError * bytes) (Z * bytes) :=
  whole <~ loop (until_turn delimiter ceiling) to_come (unending, into) into ;;
  mret (len whole - len into, whole).

Definition strip_last (c : Z) (s : bytes) : bytes :=
  match last s with
  | Some b => if b =? c then take (length s - 1) s else s
  | None => s
  end.
Definition trim_eol (raw : bytes) : bytes := strip_last 13 (strip_last 10 raw).

Definition not_utf8 : NetError := NetErr.new (lit "a line that is not UTF-8").

Definition line : M Reader NetError (option bytes) :=
  appended <~ mmap_err fst (until 10 MAX_LINE []) ;;
  let '(n, raw) := appended in
  if n =? 0 then mret None
  else
    let raw := trim_eol raw in
    if utf8 raw then mret (Some raw) else mfail not_utf8.

(** One turn of [take(limit).read_to_end]. The standard library chooses how
    much it asks for at a time; a buffer's worth here. *)
Definition to_end_turn (limit : Z) (acc : bytes) : M Reader NetError (bytes + bytes) :=
  if limit <=? len acc then mret (inr acc)
  else fun r =>
    match read (Z.to_nat (Z.min (limit - len acc) (Z.of_nat CAPACITY))) r with
    | (Ok [], r) => (Ok (inr acc), r)
    | (Ok bs, r) => (Ok (inl (acc ++ bs)), r)
    | (Err failed, r) =>
        if decide (io_kind failed = Interrupted) then (Ok (inl acc), r)
        else (Err (NetErr.from_io (lit "reading a connection to its end") failed), r)
    end.

Definition to_end (ceiling : Z) : M Reader NetError bytes :=
  let limit := Z.min (ceiling + 1) USIZE_MAX in
  all <~ loop (to_end_turn limit) to_come unending [] ;;
  mlift (within (len all) ceiling (lit "Xmip reads to a connection's end")) ;;;
  mret all.

End Read.

(** ** What a reader will give *)

(** [r] will give [bs], in whatever pieces, and then the end. *)
Definition coming (r : Reader) (bs : bytes) : Prop :=
  exists rest, bs = buffer r ++ rest /\ carrying (inner r) rest.

(** Nothing has been written meanwhile. *)
Definition as_written (w w' : Wire) : Prop := outgoing w' = outgoing w /\ refusals w' = refusals w.

#[global] Instance as_written_preorder : PreOrder as_written.
Proof. split; [done|]. intros a b c [H1 H2] [H3 H4]. split; congruence. Qed.

Lemma buffered_coming w bs : carrying w bs -> coming (buffered w) bs.
Proof. intros H. by exists bs. Qed.

Lemma read1_as_written n w x w' : read1 n w = (x, w') -> as_written w w'.
Proof. unfold read1. destruct (incoming w) as [|[bs|e] rs]; intros [= <- <-]; done. Qed.

Lemma capacity_positive : (0 < CAPACITY)%nat.
Proof. unfold CAPACITY. lia. Qed.

Lemma fill_buf_left r x r' : fill_buf r = (x, r') ->
  as_written (inner r) (inner r') /\
  match x with
  | Ok bs => buffer r' = bs /\ (left r' <= left r)%nat
  | Err _ => buffer r' = [] /\ (left r' < left r)%nat
  end.
Proof.
  unfold fill_buf, left. destruct (buffer r) as [|b l] eqn:Hb.
  - destruct (read1 CAPACITY (inner r)) as [[bs|e] w] eqn:Hr; intros [= <- <-];
      pose proof (read1_as_written _ _ _ _ Hr); apply read1_pending in Hr; cbn; by split_and!; try lia.
  - intros [= <- <-]. rewrite Hb. by split_and!.
Qed.

Lemma fill_buf_coming r bs : coming r bs ->
  exists x r', fill_buf r = (x, r') /\ coming r' bs /\
  match x with
  | Ok av => buffer r' = av /\ (av = [] -> bs = [])
  | Err e => io_kind e = Interrupted
  end.
Proof.
  intros (rest & -> & Hc). unfold fill_buf. destruct (buffer r) as [|b l] eqn:Hb.
  - destruct (read1 CAPACITY (inner r)) as [x w] eqn:Hr1.
    pose proof (read1_delivers _ _ _ _ _ Hc capacity_positive Hr1) as Hx. destruct x as [got|e].
    + destruct Hx as (more & -> & Hm & He & _). eexists _, _. split; [done|]. split; [by exists more|]. by split.
    + destruct Hx as [He Hm]. eexists _, _. split; [done|]. split; [by exists rest | done].
  - eexists _, _. split; [done|]. rewrite <- Hb. split; [by exists rest|]. split; [done|]. by rewrite Hb.
Qed.

Lemma consume_coming n r bs : coming r bs ->
  exists rest, bs = take n (buffer r) ++ rest /\ coming (consume n r) rest.
Proof.
  intros (more & -> & Hc). exists (drop n (buffer r) ++ more). split; [by rewrite (assoc_L (++)), take_drop|].
  by exists more.
Qed.

Lemma consume_left n r : (0 < n)%nat -> buffer r <> [] -> (left (consume n r) < left r)%nat.
Proof. intros Hn Hb. unfold left, consume. cbn. rewrite length_drop. destruct (buffer r); [done | cbn [length]; lia]. Qed.

(** A read of one octet or more takes something off what is left. *)
Lemma read_left n r x r' : (0 < n)%nat -> read n r = (x, r') ->
  as_written (inner r) (inner r') /\
  match x with
  | Ok bs => (length bs + left r' <= left r)%nat
  | Err _ => (left r' < left r)%nat
  end.
Proof.
  intros Hn. unfold read. destruct (bool_decide (buffer r = []) && (CAPACITY <=? n)%nat) eqn:Hbig.
  - apply andb_true_iff in Hbig as [Hb _]. apply bool_decide_eq_true in Hb.
    destruct (read1 n (inner r)) as [y w] eqn:Hr. intros [= <- <-]. split; [exact (read1_as_written _ _ _ _ Hr)|].
    apply read1_pending in Hr. unfold left. rewrite Hb. cbn. destruct y; lia.
  - destruct (fill_buf r) as [[av|e] r1] eqn:Hf; apply fill_buf_left in Hf as [Hw [Hb Hl]]; intros [= <- <-]; split; try done.
    rewrite length_take. unfold left, consume in *. cbn. rewrite length_drop, Hb in *. lia.
Qed.

Lemma read_coming n r bs : (0 < n)%nat -> coming r bs ->
  exists x r', read n r = (x, r') /\
  match x with
  | Ok got => exists rest, bs = got ++ rest /\ coming r' rest /\ (got = [] -> bs = []) /\ (length got <= n)%nat
  | Err e => io_kind e = Interrupted /\ coming r' bs
  end.
Proof.
  intros Hn Hc. unfold read. destruct (bool_decide (buffer r = []) && (CAPACITY <=? n)%nat) eqn:Hbig.
  - apply andb_true_iff in Hbig as [Hb _]. apply bool_decide_eq_true in Hb.
    destruct Hc as (rest & -> & Hc). rewrite Hb, app_nil_l.
    destruct (read1 n (inner r)) as [x w] eqn:Hr.
    pose proof (read1_delivers _ _ _ _ _ Hc Hn Hr) as Hx. eexists _, _. split; [done|].
    destruct x as [got|e].
    + destruct Hx as (more & Heq & Hm & He & Hl). exists more. split_and!; [done | by exists more | done | done].
    + destruct Hx as [He Hm]. split; [done|]. by exists rest.
  - destruct (fill_buf_coming r bs Hc) as (x & r1 & Hf & Hc1 & Hx). rewrite Hf. destruct x as [av|e].
    + destruct Hx as [Hb He]. eexists _, _. split; [done|].
      destruct (consume_coming n r1 bs Hc1) as (rest & Heq & Hrest). rewrite Hb in Heq. exists rest.
      split_and!; [done | done | | rewrite length_take; lia].
      intros Ht. apply He. destruct av as [|b l]; [done|]. destruct n; [lia | done].
    + eexists _, _. split; [done|]. by split.
Qed.

(** ** What the loops come to *)

Lemma exact_goes_down n : goes_down (exact_turn n) to_come (fun _ => True).
Proof.
  intros acc r acc' r' _ Ht. split; [|done]. unfold exact_turn in Ht. unfold to_come.
  destruct (n - length acc)%nat as [|m] eqn:Hm; [discriminate|].
  destruct (read (S m) r) as [[bs|e] r1] eqn:Hr; apply read_left in Hr as [_ Hl]; try lia.
  - destruct bs as [|b bs]; [discriminate|]. injection Ht as <- <-. cbn [length] in Hl. lia.
  - case_decide; [|discriminate]. by injection Ht as <- <-.
Qed.

Lemma exact_loop n : forall acc r bs,
  (length acc <= n)%nat -> coming r bs -> (n - length acc <= length bs)%nat ->
  exists r', loop (exact_turn n) to_come read_exact_eof acc r = (Ok (acc ++ take (n - length acc) bs), r')
    /\ coming r' (drop (n - length acc) bs) /\ as_written (inner r) (inner r').
Proof.
  intros acc r. remember (left r) as m eqn:Hm. revert acc r Hm. induction m as [m IH] using lt_wf_ind.
  intros acc r -> bs Ha Hc Hb. rewrite (loop_turn _ _ _ (fun _ => True)) by (apply exact_goes_down || done).
  unfold exact_turn at 1. destruct (n - length acc)%nat as [|k] eqn:Hk.
  { exists r. unfold mret. rewrite take_0, drop_0, app_nil_r. by split_and!. }
  destruct (read_coming (S k) r bs (Nat.lt_0_succ k) Hc) as (x & r1 & Hr & Hx). rewrite Hr.
  pose proof (read_left _ _ _ _ (Nat.lt_0_succ k) Hr) as [Hw Hl]. destruct x as [got|e].
  - destruct Hx as (rest & -> & Hrest & Hend & Hlen). destruct got as [|g got].
    { specialize (Hend eq_refl). cbn in Hend. subst rest. cbn in Hb. lia. }
    rewrite length_app in Hb. cbn [length] in *.
    destruct (IH (left r1) ltac:(lia) (acc ++ g :: got) r1 eq_refl rest) as (r2 & H1 & H2 & H3).
    + rewrite length_app. cbn [length]. lia.
    + done.
    + rewrite length_app. cbn [length]. lia.
    + exists r2. rewrite H1. rewrite length_app in *. cbn [length] in *.
      replace (n - (length acc + S (length got)))%nat with (S k - S (length got))%nat in * by lia.
      rewrite take_app_ge, drop_app_ge by (cbn [length]; lia). cbn [length].
      split_and!; [by rewrite <- (assoc_L (++)) | done | by etrans].
  - destruct Hx as [He Hrest]. rewrite decide_True by done.
    destruct (IH (left r1) ltac:(lia) acc r1 eq_refl bs Ha Hrest) as (r2 & H1 & H2 & H3); [lia|].
    exists r2. rewrite H1, Hk in *. split_and!; [done | done | by etrans].
Qed.

Lemma read_exact_left n r x r' : read_exact n r = (Ok x, r') -> (left r' <= left r)%nat.
Proof.
  unfold read_exact. intros Hl. assert (runs (exact_turn n) [] r (Ok x, r')) as Hr.
  { rewrite <- Hl. by apply (loop_runs _ _ _ (fun _ => True) _ _ (exact_goes_down n)). }
  clear Hl. remember (Ok x, r') as out eqn:Hout. revert Hout.
  induction Hr as [a s a' s' out Ht Hr IH|a s b s' Ht|a s e s' Ht]; intros Hout.
  - destruct (exact_goes_down n _ _ _ _ I Ht) as [Hd _]. unfold to_come in Hd. specialize (IH Hout). lia.
  - injection Hout as <- <-. unfold exact_turn in Ht. destruct (n - length a)%nat; [by injection Ht as _ <-|].
    destruct (read _ s) as [[[|y l]|e] s0]; try discriminate. case_decide; discriminate.
  - discriminate.
Qed.

(** As many octets as are asked for, where they come. *)
Lemma read_exact_coming n r bs k :
  coming r (bs ++ k) -> n = length bs ->
  exists r', read_exact n r = (Ok bs, r') /\ coming r' k /\ as_written (inner r) (inner r').
Proof.
  intros Hc ->. destruct (exact_loop (length bs) [] r (bs ++ k)) as (r' & H1 & H2 & H3); cbn [length]; [lia | done | rewrite length_app; lia |].
  exists r'. cbn [length app] in *. rewrite Nat.sub_0_r, take_app_length in H1. rewrite Nat.sub_0_r, drop_app_length in H2. done.
Qed.

Module Reads.
Import Read.

(** What of [s] comes up to and including the first [c], or all of it. *)
Definition cut (c : Z) (s : bytes) : bytes :=
  match position c s with Some i => take (S i) s | None => s end.

Lemma position_lt c s i : position c s = Some i -> (i < length s)%nat.
Proof.
  revert i. induction s as [|b s IH]; intros i; cbn [position length]; [discriminate|].
  destruct (b =? c); [intros [= <-]; lia|]. destruct (position c s) as [j|]; [|discriminate].
  cbn. intros [= <-]. specialize (IH j eq_refl). lia.
Qed.

Lemma position_app c a b :
  position c (a ++ b) = match position c a with
                        | Some i => Some i
                        | None => Nat.add (length a) <$> position c b
                        end.
Proof.
  induction a as [|x a IH]; cbn [position app length].
  - by destruct (position c b).
  - destruct (x =? c); [done|]. rewrite IH. destruct (position c a); [done|]. by destruct (position c b).
Qed.

Lemma cut_found c a b i : position c a = Some i -> cut c (a ++ b) = take (S i) a.
Proof.
  intros H. unfold cut. rewrite position_app, H. apply take_app_le. apply position_lt in H. lia.
Qed.

Lemma cut_missing c a b : position c a = None -> cut c (a ++ b) = a ++ cut c b.
Proof.
  intros H. unfold cut. rewrite position_app, H. destruct (position c b) as [i|]; [|done]. cbn [fmap option_fmap option_map].
  rewrite take_app_ge by lia. f_equal. f_equal. lia.
Qed.

Lemma cut_drop c s : cut c s ++ drop (length (cut c s)) s = s.
Proof.
  unfold cut. destruct (position c s) as [i|] eqn:H.
  - apply position_lt in H. rewrite length_take_le by lia. apply take_drop.
  - by rewrite drop_all, app_nil_r.
Qed.

(** ** [until] *)

Lemma until_goes_down c ceiling : goes_down (until_turn c ceiling) to_come (fun _ => True).
Proof.
  intros into r into' r' _ Ht. split; [|done]. unfold until_turn in Ht. unfold to_come.
  destruct (fill_buf r) as [[av|e] r1] eqn:Hf; apply fill_buf_left in Hf as [_ [Hb Hl]].
  - destruct av as [|b av]; [discriminate|].
    destruct (match position c (b :: av) with Some i => _ | None => _ end) as [n found] eqn:Hn.
    destruct (within _ _ _); [|discriminate]. destruct found; [discriminate|]. injection Ht as _ <-.
    assert (0 < n)%nat as Hpos by (destruct (position c (b :: av)); inversion Hn; subst; cbn; lia).
    pose proof (consume_left n r1 Hpos). rewrite Hb in *. specialize (H ltac:(done)). lia.
  - case_decide; [|discriminate]. by injection Ht as _ <-.
Qed.

(** The failure of a delimiter that did not come under [ceiling]. *)
Definition over_the_ceiling (ceiling : Z) (e : NetError) : Prop :=
  exists n, ceiling < n /\ within n ceiling ONE_DELIMITER = Err e.

Lemma within_over n ceiling carrier : ceiling < n -> exists e, within n ceiling carrier = Err e.
Proof. intros H. unfold within. destruct (Z.ltb_spec ceiling n); [eauto | lia]. Qed.

(** What a refusal leaves in [into]: some of what came, and no more than
    [ceiling] of it. *)
Definition refused_over (ceiling : Z) (into taken : bytes) {A} (x : result (NetError * bytes) A) : Prop :=
  exists e some, x = Err (e, into ++ some) /\ over_the_ceiling ceiling e
    /\ some `prefix_of` taken /\ len (into ++ some) <= Z.max (len into) ceiling.

Lemma refused_at_once {A} n ceiling into taken e :
  ceiling < n -> within n ceiling ONE_DELIMITER = Err e -> refused_over ceiling into taken (@Err _ A (e, into)).
Proof.
  intros Hn He. exists e, []. rewrite app_nil_r. split_and!; [done|by exists n|apply prefix_nil|lia].
Qed.

Lemma refused_after {A} ceiling into a taken (x : result _ A) : a = [] \/ len (into ++ a) <= ceiling ->
  refused_over ceiling (into ++ a) taken x -> refused_over ceiling into (a ++ taken) x.
Proof.
  intros Ha (e & some & -> & He & Hpre & Hl). exists e, (a ++ some). rewrite (assoc_L (++)).
  split_and!; [done..|by apply prefix_app|]. destruct Ha as [->|Ha]; [by rewrite app_nil_r in Hl |- *|lia].
Qed.

(** What the loop comes to, of a reader of [bs]: [taken] of it appended, and
    no octet after. *)
Definition taken_off (ceiling : Z) (into taken bs : bytes) (r : Reader) (out : result (NetError * bytes) bytes * Reader) : Prop :=
  if len into + len taken <=? ceiling
  then out.1 = Ok (into ++ taken) /\ coming out.2 (drop (length taken) bs) /\ as_written (inner r) (inner out.2)
  else taken <> [] -> refused_over ceiling into taken out.1.

(** Part of it taken, then what the rest comes to. *)
Lemma taken_off_more ceiling into a taken rest r r1 out :
  a = [] \/ len (into ++ a) <= ceiling -> as_written (inner r) (inner r1) ->
  taken_off ceiling (into ++ a) taken rest r1 out -> taken_off ceiling into (a ++ taken) (a ++ rest) r out.
Proof.
  intros Ha Hw. unfold taken_off. rewrite !len_app, Z.add_assoc.
  destruct (Z.leb_spec (len into + len a + len taken) ceiling) as [Hle|Hgt].
  - intros (H1 & H2 & H3). rewrite H1, <- (assoc_L (++)), length_app, drop_app_add. split; [done|]. split; [done|by etrans].
  - intros H Hne. apply refused_after; [done|]. apply H. intros ->. destruct Ha as [->|Ha]; [by apply Hne|].
    rewrite len_app, len_nil in *. lia.
Qed.

(** One turn of the loop. *)
Lemma until_turn_takes c ceiling into r bs : coming r bs ->
  match until_turn c ceiling into r with
  | (Ok (inl into'), r1) => exists a rest, into' = into ++ a /\ bs = a ++ rest /\ cut c bs = a ++ cut c rest
      /\ (a = [] \/ len (into ++ a) <= ceiling) /\ coming r1 rest /\ as_written (inner r) (inner r1)
  | (Ok (inr whole), r1) => taken_off ceiling into (cut c bs) bs r (Ok whole, r1)
  | (Err e, r1) => taken_off ceiling into (cut c bs) bs r (Err e, r1)
  end.
Proof.
  intros Hc. unfold until_turn, taken_off. destruct (fill_buf_coming r bs Hc) as (x & r0 & Hf & Hc0 & Hx). rewrite Hf.
  pose proof (fill_buf_left _ _ _ Hf) as [Hw Hl]. destruct x as [av|e].
  2:{ rewrite decide_True by done. exists [], bs. rewrite app_nil_r. split_and!; try done. by left. }
  destruct Hx as [Hb He]. destruct av as [|b av].
  { specialize (He eq_refl). subst bs. cbn. rewrite app_nil_r. by destruct (_ <=? _). }
  set (a := b :: av) in *. destruct (position c a) as [i|] eqn:Hp; cbv beta iota.
  - destruct (consume_coming (S i) r0 bs Hc0) as (rest & Heq & Hrest). rewrite Hb in Heq. pose proof (position_lt _ _ _ Hp) as Hi.
    assert (cut c bs = take (S i) a) as Htk.
    { destruct (consume_coming (length a) r0 bs Hc0) as (more & Heq' & _). rewrite Hb, take_ge in Heq' by done. rewrite Heq'. by apply cut_found. }
    assert (len (cut c bs) = Z.of_nat (S i)) as Hlen by (rewrite Htk; unfold len; rewrite length_take_le; lia).
    rewrite Hlen. destruct (Z.leb_spec (len into + Z.of_nat (S i)) ceiling) as [Hle|Hgt].
    + rewrite within_fits by done. cbn [fst snd]. rewrite Htk. split; [done|]. split; [|done].
      rewrite Heq at 1. by rewrite drop_app_length.
    + destruct (within_over _ ceiling ONE_DELIMITER Hgt) as [e Hov]. rewrite Hov. intros _. by eapply refused_at_once.
  - destruct (consume_coming (length a) r0 bs Hc0) as (rest & Heq & Hrest). rewrite Hb, take_ge in Heq by done.
    assert (cut c bs = a ++ cut c rest) as Htk by (rewrite Heq; by apply cut_missing).
    rewrite Htk, len_app. pose proof (len_nonneg (cut c rest)). change (Z.of_nat (length a)) with (len a).
    destruct (Z.leb_spec (len into + len a) ceiling) as [Hle|Hgt].
    + rewrite within_fits by done. rewrite take_ge by done. exists a, rest. split_and!; try done. right. by rewrite len_app.
    + destruct (within_over _ ceiling ONE_DELIMITER Hgt) as [e Hov]. rewrite Hov.
      destruct (Z.leb_spec (len into + (len a + len (cut c rest))) ceiling); [lia|]. intros _. eapply refused_at_once; [exact Hgt|exact Hov].
Qed.

Lemma until_loop c ceiling stuck : forall into r bs, coming r bs ->
  taken_off ceiling into (cut c bs) bs r (loop (until_turn c ceiling) to_come stuck into r).
Proof.
  intros into r. remember (left r) as m eqn:Hm. revert into r Hm. induction m as [m IH] using lt_wf_ind.
  intros into r -> bs Hc. rewrite (loop_turn _ _ _ (fun _ => True)) by (apply until_goes_down || done).
  pose proof (until_turn_takes c ceiling into r bs Hc) as Ht. pose proof (until_goes_down c ceiling into r) as Hdown.
  destruct (until_turn c ceiling into r) as [[[into'|whole]|e] r1]; [|done..].
  destruct Ht as (a & rest & -> & -> & -> & Ha & Hrest & Hw). destruct (Hdown _ _ I eq_refl) as [Hlt _].
  eapply taken_off_more; [done | exact Hw|]. by eapply IH.
Qed.

(** [until] takes exactly what comes up to its delimiter, or to the end,
    in whatever pieces it comes and however often it is interrupted: that is
    appended, counted, and no octet after it is taken; where that would take
    [into] over the ceiling it is refused, and says so, with no more than the
    ceiling in [into]. *)
Lemma until_reads c ceiling into r bs :
  coming r bs ->
  let taken := cut c bs in
  exists x r', until c ceiling into r = (x, r')
  /\ if len into + len taken <=? ceiling
     then x = Ok (len taken, into ++ taken) /\ coming r' (drop (length taken) bs) /\ as_written (inner r) (inner r')
     else taken <> [] -> refused_over ceiling into taken x.
Proof.
  intros Hc taken. pose proof (until_loop c ceiling (unending, into) into r bs Hc) as H2. fold taken in H2.
  destruct (loop _ _ _ into r) as [x r'] eqn:H1. unfold taken_off in H2. cbn [fst snd] in H2.
  unfold until, mthen. rewrite H1. destruct (len into + len taken <=? ceiling).
  - destruct H2 as (-> & H3 & H4). eexists _, _. split; [done|]. split; [|done]. unfold mret. rewrite len_app. do 2 f_equal. lia.
  - destruct x as [whole|e].
    + eexists _, _. split; [done|]. intros Hne. by destruct (H2 Hne) as (? & ? & ? & _).
    + eexists _, _. split; [done|]. intros Hne. destruct (H2 Hne) as (e' & some & [= ->] & He). by exists e', some.
Qed.

Lemma until_reads_witness :
  let r := mkReader (lit "ab") (mkWire [Failed (mkIoError Interrupted []); Got (lit "c;d")] [] []) in
  let taken := cut 59 (lit "abc;d") in
  exists x r', until 59 8 [] r = (x, r')
  /\ if len (@nil Z) + len taken <=? 8
     then x = Ok (len taken, [] ++ taken) /\ coming r' (drop (length taken) (lit "abc;d")) /\ as_written (inner r) (inner r')
     else taken <> [] -> refused_over 8 [] taken x.
Proof.
  apply (until_reads 59 8 [] (mkReader (lit "ab") (mkWire [Failed (mkIoError Interrupted []); Got (lit "c;d")] [] []))).
  exists (lit "c;d"). split; [reflexivity|]. apply delivers_again; [reflexivity|].
  change (lit "c;d") with (lit "c;d" ++ []) at 2. apply delivers_got, delivers_end.
Defined.

(** Whatever a connection does, [into] never grows past the ceiling, what a
    failure leaves in it neither. *)
Definition into_after {A} (x : result (NetError * bytes) (A * bytes)) : bytes :=
  match x with Ok (_, whole) => whole | Err (_, left) => left end.

Lemma until_turn_bounded c ceiling into r x r' : len into <= ceiling -> until_turn c ceiling into r = (x, r') ->
  match x with Ok (inl into') | Ok (inr into') | Err (_, into') => len into' <= ceiling end.
Proof.
  intros Hi. unfold until_turn. destruct (fill_buf r) as [[[|b av]|e] r0]; [by intros [= <- _]| |case_decide; by intros [= <- _]].
  destruct (match position c (b :: av) with Some i => _ | None => _ end) as [m found].
  destruct (within _ _ _) as [[]|] eqn:Hin; [|by intros [= <- _]]. apply within_ok in Hin.
  assert (len (into ++ take m (b :: av)) <= ceiling) as H by (rewrite len_app; unfold len at 2; rewrite length_take; lia).
  destruct found; by intros [= <- _].
Qed.

Lemma until_bounded c ceiling into r :
  len into <= ceiling -> len (into_after (until c ceiling into r).1) <= ceiling.
Proof.
  intros Hi. unfold until, mthen.
  assert (forall x s out, runs (until_turn c ceiling) x s out -> len x <= ceiling ->
    match out.1 with Ok whole | Err (_, whole) => len whole <= ceiling end) as H.
  { induction 1 as [x s x' s' out Ht Hr IH|x s a s' Ht|x s e s' Ht]; intros Hx; pose proof (until_turn_bounded _ _ _ _ _ _ Hx Ht);
      [by apply IH|done..]. }
  specialize (H _ r _ (loop_runs _ _ (unending, into) (fun _ => True) _ _ (until_goes_down c ceiling) I) Hi).
  by destruct (loop _ _ _ into r) as [[w|[e w]] r1].
Qed.

(** ** [line] *)

(** The line [raw] is, its ending taken off. *)
Definition as_line (raw : bytes) : result NetError (option bytes) :=
  match raw with
  | [] => Ok None
  | _ => if utf8 (trim_eol raw) then Ok (Some (trim_eol raw)) else Err not_utf8
  end.

Lemma line_coming r bs :
  coming r bs -> len (cut 10 bs) <= MAX_LINE ->
  exists r', line r = (as_line (cut 10 bs), r') /\ coming r' (drop (length (cut 10 bs)) bs) /\ as_written (inner r) (inner r').
Proof.
  intros Hc Hl. pose proof (until_loop 10 MAX_LINE (unending, []) [] r bs Hc) as H2.
    destruct (loop _ _ _ [] r) as [x r'] eqn:H1. unfold taken_off in H2. cbn [fst snd] in H2.
  rewrite len_nil, Z.add_0_l in H2. destruct (Z.leb_spec (len (cut 10 bs)) MAX_LINE); [|lia].
  destruct H2 as (-> & H3 & H4). exists r'. split; [|done]. unfold line, until, mmap_err, mthen, mret. rewrite H1. cbn [map_err app].
  rewrite len_nil, Z.sub_0_r. unfold as_line. destruct (cut 10 bs) as [|b raw]; [done|].
  rewrite len_cons. pose proof (len_nonneg raw). destruct (Z.eqb_spec (1 + len raw) 0); [lia|]. by destruct (utf8 _).
Qed.



Example line_is_read :
  (line (buffered (mkWire [Got (lit "EHLO x" ++ [13]); Got ([10] ++ lit "next")] [] []))).1 = Ok (Some (lit "EHLO x")).
Proof. vm_compute. reflexivity. Qed.

(** ** [to_end] *)

Lemma to_end_goes_down limit : goes_down (to_end_turn limit) to_come (fun _ => True).
Proof.
  intros acc r acc' r' _ Ht. split; [|done]. unfold to_end_turn in Ht. unfold to_come.
  destruct (Z.leb_spec limit (len acc)) as [Hle|Hlt]; [discriminate|].
  destruct (read _ r) as [[bs|e] r1] eqn:Hr; apply read_left in Hr as [_ Hl]; try (pose proof capacity_positive; lia).
  - destruct bs as [|b bs]; [discriminate|]. injection Ht as <- <-. cbn [length] in Hl. lia.
  - case_decide; [|discriminate]. by injection Ht as <- <-.
Qed.

Lemma to_end_loop limit : forall acc r bs, coming r bs -> len acc <= limit ->
  exists r', loop (to_end_turn limit) to_come unending acc r = (Ok (acc ++ ztake (limit - len acc) bs), r')
  /\ coming r' (zdrop (limit - len acc) bs).
Proof.
  intros acc r. remember (left r) as m eqn:Hm. revert acc r Hm. induction m as [m IH] using lt_wf_ind.
  intros acc r -> bs Hc Ha. rewrite (loop_turn _ _ _ (fun _ => True)) by (apply to_end_goes_down || done).
  destruct (to_end_turn limit acc r) as [t r1] eqn:Ht. pose proof Ht as Hdown. unfold to_end_turn in Ht.
  destruct (Z.leb_spec limit (len acc)) as [Hle|Hlt].
  { injection Ht as <- <-. replace (limit - len acc) with 0 by lia. unfold ztake, zdrop. cbn. rewrite app_nil_r. by eexists. }
  pose proof capacity_positive as Hcap.
  assert (0 < Z.to_nat (Z.min (limit - len acc) (Z.of_nat CAPACITY)))%nat as Hn by lia.
  destruct (read_coming _ r bs Hn Hc) as (x & r0 & Hr & Hx). rewrite Hr in Ht. destruct x as [got|e].
  - destruct Hx as (rest & -> & Hrest & Hend & Hlen). destruct got as [|g got].
    { injection Ht as <- <-. specialize (Hend eq_refl). cbn in Hend. subst rest. exists r0.
      unfold ztake, zdrop. by rewrite app_nil_l, take_nil, drop_nil, app_nil_r. }
    injection Ht as <- <-. set (a := g :: got) in *.
    destruct (to_end_goes_down limit _ _ _ _ I Hdown) as [Hdec _]. unfold to_come in Hdec.
    assert (len a <= limit - len acc) as Hla by (unfold len at 1; lia).
    destruct (IH _ Hdec (acc ++ a) r0 eq_refl rest Hrest) as (r2 & H1 & H2); [rewrite len_app; lia|].
    exists r2. rewrite H1. rewrite len_app in *. unfold ztake, zdrop in *.
    rewrite take_app_ge, drop_app_ge by (unfold len in *; lia).
    replace (Z.to_nat (limit - len acc) - length a)%nat with (Z.to_nat (limit - (len acc + len a))) by (unfold len in *; lia).
    by rewrite <- (assoc_L (++)).
  - destruct Hx as [He Hc0]. rewrite decide_True in Ht by done. injection Ht as <- <-.
    destruct (to_end_goes_down limit _ _ _ _ I Hdown) as [Hdec _]. unfold to_come in Hdec.
    exact (IH _ Hdec acc r0 eq_refl bs Hc0 Ha).
Qed.

(** All that comes before the end, where it is no more than the ceiling; an
    error where it is. *)
Lemma to_end_reads ceiling r bs :
  0 <= ceiling < USIZE_MAX -> coming r bs ->
  exists x r', to_end ceiling r = (x, r')
  /\ if len bs <=? ceiling then x = Ok bs /\ coming r' [] else exists e, x = Err e.
Proof.
  intros Hce Hc. assert (Z.min (ceiling + 1) USIZE_MAX = ceiling + 1) as Hl by lia.
  unfold to_end. rewrite Hl. unfold mthen at 1.
  destruct (to_end_loop (ceiling + 1) [] r bs Hc) as (r' & H1 & H2); [rewrite len_nil; lia|].
  rewrite H1, len_nil, Z.sub_0_r in *. cbn [app]. unfold mthen, mlift, mret.
  destruct (Z.leb_spec (len bs) ceiling) as [Hle|Hgt].
  - rewrite ztake_all, zdrop_all in * by lia. rewrite within_fits by done. by eexists _, _.
  - rewrite len_ztake by (pose proof (len_nonneg bs); lia).
    destruct (within_over (ceiling + 1) ceiling (lit "Xmip reads to a connection's end")) as [e He]; [lia|].
    rewrite He. eexists _, _. split; [done|]. by exists e.
Qed.

End Reads.
