(* ===== verification/Head.v ===== *)
(** A head as the line-oriented protocols write it ([src/head.rs]): lines,
    then a blank line. *)

From Stdlib Require Import String.
From S2P Require Import Prelude Text Errors Wire Reading.

Module Head.

Definition MAX_HEADERS : Z := 200.

Definition too_many : NetError := NetErr.new (lit "more header lines than Xmip will read").

(** One turn of the loop of [read_head]. *)
Definition head_turn (lines : list bytes) : M Reader NetError (list bytes + list bytes) :=
  line <~ Read.line ;;
  match line with
  | None | Some [] => mret (inr lines)
  | Some line =>
      if len lines =? MAX_HEADERS then mfail too_many else mret (inl (lines ++ [line]))
  end.

Definition read_head : M Reader NetError (list bytes) := loop head_turn to_come Read.unending [].

(** [Iterator::find_map]. *)
Fixpoint find_map {A B} (f : A -> option B) (l : list A) : option B :=
  match l with
  | [] => None
  | x :: l => match f x with Some y => Some y | None => find_map f l end
  end.

Definition value_of (name line : bytes) : option bytes :=
  '(key, value) ← split_once 58 line;
  if eq_ignore_ascii_case (trim key) name then Some (trim value) else None.

Definition header (lines : list bytes) (name : bytes) : option bytes :=
  find_map (value_of name) (drop 1 lines).

Definition fields (lines : list bytes) : list field :=
  map (fun f => (trim f.1, trim f.2)) (omap (split_once 58) lines).

Definition CRLF : bytes := [13; 10].

Definition write_fields (head : bytes) (fields : list field) : bytes :=
  fold_left (fun head f => head ++ f.1 ++ lit ": " ++ f.2 ++ CRLF) fields head.

(** ** What is written is read *)

(** A line that can be written and read back. *)
Record writable_line (l : bytes) : Prop := {
  wl_one : 10 ∉ l;
  wl_text : utf8 l = true;
  wl_short : len l + 2 <= Read.MAX_LINE;
}.

(** Lines written out are checked by computing. *)
Definition writable_lineb (l : bytes) : bool :=
  negb (existsb (Z.eqb 10) l) && utf8 l && (len l + 2 <=? Read.MAX_LINE).

Lemma line_check l : writable_lineb l = true -> writable_line l.
Proof.
  unfold writable_lineb. rewrite !andb_true_iff, negb_true_iff, Z.leb_le. intros [[H1 H2] H3]. split; [|done|done].
  intros Hin. apply not_true_iff_false in H1. apply H1, existsb_exists. exists 10. split; [by apply list_elem_of_In | done].
Qed.

Lemma lines_check ls : forallb writable_lineb ls = true -> Forall writable_line ls.
Proof.
  rewrite List.forallb_forall. intros H. apply List.Forall_forall. intros l Hl. by apply line_check, H.
Qed.

(** Lines as they are written. *)
Definition written (lines : list bytes) : bytes := concat (map (fun l => l ++ CRLF) lines).

(** A field as it is written, its line ending aside. *)
Definition field_line (f : field) : bytes := f.1 ++ lit ": " ++ f.2.

Lemma write_fields_lines fs : forall head, write_fields head fs = head ++ written (map field_line fs).
Proof.
  unfold write_fields, written. induction fs as [|f fs IH]; intros head; cbn [fold_left map concat].
  - by rewrite app_nil_r.
  - rewrite IH. unfold field_line. by rewrite <- !(assoc_L (++)).
Qed.

Lemma position_none c s : c ∉ s -> Read.position c s = None.
Proof.
  induction s as [|b s IH]; [done|]. intros H. apply not_elem_of_cons in H as [Hb Hs]. cbn.
  destruct (Z.eqb_spec b c); [congruence|]. by rewrite IH.
Qed.

Lemma cut_line l k : 10 ∉ l -> Reads.cut 10 (l ++ CRLF ++ k) = l ++ CRLF.
Proof.
  intros H. rewrite Reads.cut_missing by (by apply position_none). done.
Qed.

Lemma strip_last_snoc c s : Read.strip_last c (s ++ [c]) = s.
Proof.
  unfold Read.strip_last. rewrite last_snoc, Z.eqb_refl, length_app. cbn [length].
  replace (length s + 1 - 1)%nat with (length s) by lia. apply take_app_length.
Qed.

Lemma trim_crlf l : Read.trim_eol (l ++ CRLF) = l.
Proof.
  unfold Read.trim_eol, CRLF. change (l ++ [13; 10]) with (l ++ [13] ++ [10]).
  by rewrite (assoc_L (++)), strip_last_snoc, strip_last_snoc.
Qed.

Lemma line_written r l k :
  writable_line l -> coming r (l ++ CRLF ++ k) ->
  exists r', Read.line r = (Ok (Some l), r') /\ coming r' k /\ as_written (inner r) (inner r').
Proof.
  intros [H1 H2 H3] Hc. pose proof (cut_line l k H1) as Hcut.
  destruct (Reads.line_coming r _ Hc) as (r' & Hl & Hr & Hw).
  - rewrite Hcut, len_app. unfold len at 2. cbn [length CRLF]. lia.
  - exists r'. rewrite Hl, Hcut in *. split; [|split; [|done]].
    + unfold Reads.as_line. rewrite trim_crlf, H2. by destruct l.
    + by rewrite (assoc_L (++)), drop_app_length in Hr.
Qed.

(** A line taken is octets taken. *)
Lemma until_takes c ceiling stuck into r whole r' :
  loop (Read.until_turn c ceiling) to_come stuck into r = (Ok whole, r') ->
  (left r' <= left r)%nat /\ (whole <> into -> (left r' < left r)%nat).
Proof.
  intros Hl. assert (runs (Read.until_turn c ceiling) into r (Ok whole, r')) as Hr.
  { rewrite <- Hl. by apply (loop_runs _ _ _ (fun _ => True) _ _ (Reads.until_goes_down c ceiling)). }
  clear Hl. remember (Ok whole, r') as out eqn:Hout. revert Hout.
  induction Hr as [x s x' s' out Ht Hr IH|x s a s' Ht|x s e s' Ht]; intros Hout.
  - destruct (Reads.until_goes_down c ceiling _ _ _ _ I Ht) as [Hd _]. unfold to_come in Hd.
    destruct (IH Hout) as [H1 _]. split; [lia | intros _; lia].
  - injection Hout as <- <-. unfold Read.until_turn in Ht.
    destruct (fill_buf s) as [[av|e] s0] eqn:Hf; apply fill_buf_left in Hf as [_ [Hb Hl]]; [|case_decide; discriminate].
    destruct av as [|b av]; [injection Ht as <- <-; split; [done | congruence]|].
    destruct (match Read.position c (b :: av) with Some i => _ | None => _ end) as [m found] eqn:Hm.
    destruct (within _ _ _); [|discriminate]. destruct found; [|discriminate]. injection Ht as <- <-.
    assert (0 < m)%nat as Hpos by (destruct (Read.position c (b :: av)); inversion Hm; subst; cbn; lia).
    pose proof (consume_left m s0 Hpos) as Hd. rewrite Hb in Hd. specialize (Hd ltac:(done)). lia.
  - discriminate.
Qed.

Lemma line_takes r l r' : Read.line r = (Ok (Some l), r') -> (left r' < left r)%nat.
Proof.
  unfold Read.line, Read.until, mmap_err, mthen, mret. destruct (loop _ _ _ [] r) as [[w|e] r1] eqn:Hl; [|discriminate].
  apply until_takes in Hl as [_ Hl]. cbn [map_err]. destruct (Z.eqb_spec (len w - len (@nil Z)) 0) as [Hz|Hz]; [discriminate|].
  assert (w <> []) as Hne by (intros ->; apply Hz; reflexivity). specialize (Hl Hne).
  destruct (utf8 _); [|discriminate]. by intros [= <- <-].
Qed.

Lemma head_goes_down : goes_down head_turn to_come (fun _ => True).
Proof.
  intros lines r lines' r' _ Ht. split; [|done]. unfold head_turn, mthen in Ht. unfold to_come.
  destruct (Read.line r) as [[[[|b l]|]|e] r1] eqn:Hl; try discriminate.
  destruct (_ =? _); [discriminate|]. injection Ht as _ <-. by apply line_takes in Hl.
Qed.

Lemma head_loop ls : forall lines r k,
  Forall writable_line ls -> Forall (fun l => l <> []) ls -> coming r (written ls ++ CRLF ++ k) ->
  len lines <= MAX_HEADERS ->
  exists x r', loop head_turn to_come Read.unending lines r = (x, r')
  /\ if len lines + len ls <=? MAX_HEADERS
     then x = Ok (lines ++ ls) /\ coming r' k /\ as_written (inner r) (inner r')
     else x = Err too_many.
Proof.
  induction ls as [|l ls IH]; intros lines r k Hw Hne Hc Hn;
    rewrite (loop_turn _ _ _ (fun _ => True)) by (apply head_goes_down || done); unfold head_turn at 1, mthen.
  - assert (writable_line []) as Hnil by (split; [apply not_elem_of_nil | done | vm_compute; congruence]).
    destruct (line_written r [] k Hnil Hc) as (r' & -> & Hr & Hw'). eexists _, _. split; [done|].
    rewrite app_nil_r, len_nil, Z.add_0_r. destruct (Z.leb_spec (len lines) MAX_HEADERS); [done | lia].
  - apply Forall_cons in Hw as [Hl Hls]. apply Forall_cons in Hne as [Hnl Hnls].
    unfold written in Hc. cbn [map concat] in Hc. rewrite <- !(assoc_L (++)) in Hc.
    destruct (line_written r l _ Hl Hc) as (r1 & -> & Hr & Hw'). destruct l as [|b l]; [done|].
    rewrite len_cons. pose proof (len_nonneg ls). destruct (Z.eqb_spec (len lines) MAX_HEADERS) as [He|He].
    + eexists _, _. split; [done|]. destruct (Z.leb_spec (len lines + (1 + len ls)) MAX_HEADERS); [lia | done].
    + destruct (IH (lines ++ [b :: l]) r1 k Hls Hnls Hr) as (x & r2 & H1 & H2).
      { rewrite len_app. unfold len at 2. cbn [length]. lia. }
      exists x, r2. split; [exact H1|]. rewrite len_app in H2. change (len [b :: l]) with 1 in H2. rewrite Z.add_assoc.
      destruct (_ <=? _); [|done]. destruct H2 as (H2 & H3 & H4). rewrite <- (assoc_L (++)) in H2.
      split_and!; [done | done | by etrans].
Qed.

(** C13. A head written is the head read: its lines, however they arrive, up
    to the blank line that ends it, and nothing after that; with more lines
    than [MAX_HEADERS], the first of a message counted, it is refused. *)
Theorem head_reads ls r k :
  Forall writable_line ls -> Forall (fun l => l <> []) ls -> coming r (written ls ++ CRLF ++ k) ->
  exists x r', read_head r = (x, r')
  /\ if len ls <=? MAX_HEADERS
     then x = Ok ls /\ coming r' k
     else x = Err too_many.
Proof.
  intros Hw Hne Hc. destruct (head_loop ls [] r k Hw Hne Hc) as (x & r' & H1 & H2).
  { rewrite len_nil. unfold MAX_HEADERS. lia. }
  exists x, r'. split; [exact H1|]. rewrite len_nil, Z.add_0_l in H2. destruct (_ <=? _); [|done].
  by destruct H2 as (H2 & H3 & _).
Qed.

Lemma head_reads_witness :
  let ls := [lit "GET / HTTP/1.1"; lit "Host: h"] in
  let r := buffered (mkWire [Got (written ls ++ CRLF)] [] []) in
  exists x r', read_head r = (x, r')
  /\ if len ls <=? MAX_HEADERS then x = Ok ls /\ coming r' [] else x = Err too_many.
Proof.
  apply (head_reads [lit "GET / HTTP/1.1"; lit "Host: h"]).
  - by apply lines_check.
  - repeat constructor; done.
  - apply buffered_coming. rewrite app_nil_r. exact (delivers_one (written [lit "GET / HTTP/1.1"; lit "Host: h"] ++ CRLF)).
Defined.

End Head.
