(* ===== verification/Framing.v ===== *)
(** The length-prefixed frames between nodes: [read::header]
    ([src/read.rs]), [frame] ([src/frame.rs]), gRPC's framing and status
    codes ([src/grpc.rs]), and the code a reply opens with ([src/reply.rs]). *)

From Stdlib Require Import String.
From S2P Require Import Prelude Errors Wire.

(** ** [read::header] *)

Definition header (N : nat) (what : bytes) : M Wire NetError (option bytes) := fun w =>
  match fill N w with
  | (Whole bs, w) => (Ok (Some bs), w)
  | (Ended [], w) => (Ok None, w)
  | (Ended _, w) => (Err (NetErr.from_io (lit "reading " ++ what) unexpected_eof), w)
  | (Broke e, w) => (Err (NetErr.from_io (lit "reading " ++ what) e), w)
  end.

Module Frame.

Definition CARRIER : bytes := lit "Xmip carries in one frame".

Definition append (out bytes : bytes) : result NetError Prelude.bytes :=
  let? _ := within (len bytes) MAX_BODY CARRIER in
  Ok (out ++ be_bytes32 (len bytes) ++ bytes).

Definition write (bytes : bytes) : M Wire NetError unit :=
  frame <~ mlift (append [] bytes) ;;
  mmap_err (NetErr.from_io (lit "writing a frame")) (write_all frame ;;; flush).

Definition read : M Wire NetError (option bytes) :=
  length <~ header 4 (lit "a frame's length") ;;
  match length with
  | None => mret None
  | Some length =>
      let length := of_be length in
      _ <~ mlift (within length MAX_BODY CARRIER) ;;
      bytes <~ mmap_err (NetErr.from_io (lit "reading a frame")) (read_exact (Z.to_nat length)) ;;
      mret (Some bytes)
  end.

(** A wire carries four octets of length and then the frame. *)
Lemma header_whole w bs k N what :
  carrying w (bs ++ k) -> N = length bs ->
  exists w', header N what w = (Ok (Some bs), w') /\ carrying w' k
             /\ outgoing w' = outgoing w /\ refusals w' = refusals w.
Proof.
  intros Hc Hn. destruct (fill_whole w bs k N Hc Hn) as (w' & Hf & H).
  exists w'. unfold header. by rewrite Hf.
Qed.

Lemma read_prefix w l k :
  carrying w (be_bytes32 l ++ k) -> 0 <= l < 2 ^ 32 ->
  exists w', carrying w' k /\ refusals w' = refusals w /\ outgoing w' = outgoing w /\
    read w = (_ <~ mlift (within l MAX_BODY CARRIER) ;;
              bytes <~ mmap_err (NetErr.from_io (lit "reading a frame")) (read_exact (Z.to_nat l)) ;;
              mret (Some bytes)) w'.
Proof.
  intros Hc Hl. destruct (header_whole w (be_bytes32 l) k 4 (lit "a frame's length") Hc eq_refl)
    as (w' & Hh & Hk & Ho & Hr).
  exists w'. repeat split; try done. unfold read, mthen at 1. rewrite Hh.
  by rewrite of_be_bytes32.
Qed.

(** A frame that was written is read back as it was, in whatever pieces the
    connection delivers it, and what follows it is still to come. *)
Lemma append_read frame bs w k :
  append [] bs = Ok frame -> carrying w (frame ++ k) ->
  exists w', read w = (Ok (Some bs), w') /\ carrying w' k.
Proof.
  intros Ha Hc. unfold append in Ha. inv_ok. apply within_ok in Ha0. subst frame.
  rewrite app_nil_l in Hc. rewrite <- (assoc_L (++)) in Hc.
  assert (0 <= len bs < 2 ^ 32) as Hl.
  { split; [apply len_nonneg|]. unfold MAX_BODY in *. lia. }
  destruct (read_prefix w _ _ Hc Hl) as (w1 & Hk & _ & _ & ->).
  destruct (read_exact_whole w1 bs k (Z.to_nat (len bs)) Hk) as (w2 & Hr & Hk2 & _).
  { unfold len. by rewrite Nat2Z.id. }
  exists w2. split; [|done]. unfold mthen, mlift, mmap_err. rewrite within_fits by done.
  by rewrite Hr.
Qed.

(** Several frames appended go out as one write and come back in order. *)
Fixpoint append_all (out : bytes) (frames : list bytes) : result NetError bytes :=
  match frames with
  | [] => Ok out
  | f :: frames => let? out := append out f in append_all out frames
  end.

Fixpoint read_n (n : nat) : M Wire NetError (list (option bytes)) :=
  match n with
  | O => mret []
  | S n => f <~ read ;; fs <~ read_n n ;; mret (f :: fs)
  end.

Lemma append_out out f r : append out f = Ok r -> exists r', append [] f = Ok r' /\ r = out ++ r'.
Proof.
  unfold append. intros H. inv_ok. rewrite Ha. simpl. subst. eauto.
Qed.

Lemma append_all_out fs : forall out r,
  append_all out fs = Ok r -> exists r', append_all [] fs = Ok r' /\ r = out ++ r'.
Proof.
  induction fs as [|f fs IH]; simpl; intros out r H.
  - inv_ok. exists []. by rewrite app_nil_r.
  - inv_ok. apply append_out in Ha as (r1 & Hr1 & ->). rewrite Hr1. simpl.
    apply IH in H as (r2 & Hr2 & ->). exists (r1 ++ r2).
    destruct (append_all r1 fs) as [r3|e] eqn:H3.
    + destruct (IH _ _ H3) as (r4 & Hr4 & ->). rewrite Hr2 in Hr4. injection Hr4 as ->.
      by rewrite (assoc_L (++)).
    + exfalso. clear IH Hr1. revert r1 H3 r2 Hr2. assert (forall o1 o2 x,
        append_all o1 fs = Ok x -> exists y, append_all o2 fs = Ok y) as Hany.
      { clear. induction fs as [|f fs IH]; simpl; intros o1 o2 x H; [eauto|].
        inv_ok. apply append_out in Ha as (r & Hr & ->). unfold append in Hr |- *.
        destruct (within (len f) MAX_BODY CARRIER); simpl in *; [|done]. eauto. }
      intros r1 H3 r2 Hr2. destruct (Hany _ r1 _ Hr2) as [y Hy]. congruence.
Qed.

(** Frames appended one after another and delivered in any pieces are
    read back one by one, the same octets in the same order, and the read
    after the last finds a clean close. *)
Theorem frames_round_trip fs out w :
  append_all [] fs = Ok out -> carrying w out ->
  exists w' w'', read_n (length fs) w = (Ok (map Some fs), w') /\ read w' = (Ok None, w'').
Proof.
  revert out w. induction fs as [|f fs IH]; simpl; intros out w Ha Hc.
  - inv_ok. subst out. exists w. eexists. split; [done|].
    unfold read, mthen, header. rewrite (fill_ended w [] 4) by (done || simpl; lia). done.
  - inv_ok. apply append_all_out in Ha as (r & Hr & ->).
    destruct (append_read _ _ _ _ Ha0 Hc) as (w1 & Hr1 & Hc1).
    destruct (IH _ _ Hr Hc1) as (w2 & w3 & H2 & H3). exists w2, w3. split; [|done].
    unfold mthen at 1. rewrite Hr1. unfold mthen. by rewrite H2.
Qed.

Lemma frames_round_trip_witness :
  exists w' w'',
    read_n 2 (mkWire [Got [0; 0]; Failed (mkIoError Interrupted []); Got [0; 1; 7; 0; 0; 0; 0]] [] [])
      = (Ok [Some [7]; Some []], w') /\ read w' = (Ok None, w'').
Proof.
  apply (frames_round_trip [[7]; []] [0; 0; 0; 1; 7; 0; 0; 0; 0]); [reflexivity|].
  apply (delivers_got 0 [0]). apply delivers_again; [reflexivity|].
  apply (delivers_got 0 [1; 7; 0; 0; 0; 0] [] []). constructor.
Defined.

(** A length over [MAX_BODY] is refused before any of the frame is
    read or room is made for it: the refusal says the size, and what follows
    the length is still to come. *)
Lemma read_refuses_over_ceiling l k w :
  MAX_BODY < l < 2 ^ 32 -> carrying w (be_bytes32 l ++ k) ->
  exists w', read w = (Err (NetErr.new (dec l ++ lit " bytes is over the " ++ dec MAX_BODY
                               ++ lit " " ++ CARRIER)), w') /\ carrying w' k.
Proof.
  intros Hl Hc. destruct (read_prefix w l k Hc) as (w' & Hk & _ & _ & ->).
  { unfold MAX_BODY in Hl; lia. }
  exists w'. split; [|done]. unfold mthen at 1, mlift, within.
  destruct (Z.ltb_spec MAX_BODY l); [done|lia].
Qed.

Lemma read_refuses_over_ceiling_witness :
  exists w', read (mkWire [Got [255; 255; 255; 255; 9]] [] [])
    = (Err (NetErr.new (lit "4294967295 bytes is over the 67108864 Xmip carries in one frame")), w')
    /\ carrying w' [9].
Proof.
  apply (read_refuses_over_ceiling 4294967295 [9]); [unfold MAX_BODY; lia|].
  apply (delivers_got 255 [255; 255; 255; 9] [] []). constructor.
Defined.

(** A connection that ends inside a frame is an error of the
    connection's, [UnexpectedEof] kept for a caller that retries; one that
    ends before a frame is a clean close. *)
Lemma read_cut_short frame bs cut w :
  append [] bs = Ok frame -> carrying w (take cut frame) -> (cut < length frame)%nat ->
  exists w', read w = (match cut with
                       | O => Ok None
                       | _ => if (cut <? 4)%nat
                              then Err (NetErr.from_io (lit "reading a frame's length") unexpected_eof)
                              else Err (NetErr.from_io (lit "reading a frame") read_exact_eof)
                       end, w').
Proof.
  intros Ha Hc Hlt. unfold append in Ha. inv_ok. apply within_ok in Ha0. subst frame. rewrite app_nil_l in Hc, Hlt.

  destruct (Nat.ltb_spec cut 4) as [H4|H4].
  - rewrite take_app_le in Hc by (cbn; lia).
    unfold read, mthen at 1, header. eexists.
    rewrite (fill_ended w _ 4 Hc) by (rewrite length_take; cbn; lia).
    do 4 (destruct cut as [|cut]; [reflexivity|]). lia.
  - rewrite take_app_ge in Hc by (cbn; lia).
    destruct (read_prefix w _ _ Hc) as (w1 & Hk & _ & _ & ->).
    { split; [apply len_nonneg|]. unfold MAX_BODY in *; lia. }
    eexists. unfold mthen at 1, mlift. rewrite within_fits by done.
    unfold mthen, mmap_err, read_exact.
    rewrite (fill_ended w1 _ _ Hk); [|].
    + destruct cut; [lia|]. reflexivity.
    + rewrite length_take, length_app in *. cbn [length be_bytes32] in *. unfold len. lia.
Qed.

Lemma read_cut_short_witness :
  exists w', read (mkWire [Got [0; 0; 0; 2; 7]] [] [])
    = (Err (NetErr.from_io (lit "reading a frame") read_exact_eof), w').
Proof.
  apply (read_cut_short [0; 0; 0; 2; 7; 8] [7; 8] 5); [reflexivity| |simpl; lia].
  apply (delivers_got 0 [0; 0; 2; 7] [] []). constructor.
Defined.

End Frame.

(** ** gRPC *)

Module Grpc.

Definition CODES : list bytes :=
  [lit "OK"; lit "CANCELLED"; lit "UNKNOWN"; lit "INVALID_ARGUMENT"; lit "DEADLINE_EXCEEDED";
   lit "NOT_FOUND"; lit "ALREADY_EXISTS"; lit "PERMISSION_DENIED"; lit "RESOURCE_EXHAUSTED";
   lit "FAILED_PRECONDITION"; lit "ABORTED"; lit "OUT_OF_RANGE"; lit "UNIMPLEMENTED";
   lit "INTERNAL"; lit "UNAVAILABLE"; lit "DATA_LOSS"; lit "UNAUTHENTICATED"].

Definition code (name : bytes) : Z :=
  match list_find (fun known => known = name) CODES with
  | Some (code, _) => Z.of_nat code
  | None => default 2 (parse_uint U8_MAX name)
  end.

Definition frame (message : bytes) : result NetError bytes :=
  if len message <=? U32_MAX then Ok ([0] ++ be_bytes32 (len message) ++ message)
  else Err (NetErr.new (lit "a message over 4 GiB does not fit a gRPC frame")).

Definition unframe (body : bytes) : result NetError (bytes * bool) :=
  match body with
  | p0 :: p1 :: p2 :: p3 :: p4 :: rest =>
      let compressed := negb (p0 =? 0) in
      let length := of_be [p1; p2; p3; p4] in
      if length <=? len rest then Ok (ztake length rest, compressed)
      else Err (NetErr.new (lit "the frame claims " ++ dec length ++ lit " bytes, the body has fewer"))
  | _ => Err (NetErr.new (lit "the body is shorter than a gRPC frame prefix"))
  end.

(** The first message of a body of frames is the message framed,
    whatever follows it, and is not flagged compressed; and a frame is
    refused only where its length does not fit 32 bits. *)
Lemma unframe_frame message :
  match frame message with
  | Ok framed => forall rest, unframe (framed ++ rest) = Ok (message, false)
  | Err _ => U32_MAX < len message
  end.
Proof.
  unfold frame. destruct (Z.leb_spec (len message) U32_MAX) as [Hl|Hl]; [|done].
  intros rest. unfold unframe. cbn [app be_bytes32].
  fold (be_bytes32 (len message)). change (of_be _) with (of_be (be_bytes32 (len message))).
  pose proof (len_nonneg message). unfold U32_MAX in Hl.
  rewrite of_be_bytes32 by lia. rewrite len_app.
  destruct (Z.leb_spec (len message) (len message + len rest)) as [_|Hc].
  - by rewrite ztake_app.
  - pose proof (len_nonneg rest); lia.
Qed.

(** Every status is read by its name and by its number. *)
Lemma code_of_name_and_number :
  forallb (fun i => (code (nth i CODES []) =? Z.of_nat i) && (code (dec (Z.of_nat i)) =? Z.of_nat i))
    (seq 0 17) = true.
Proof. vm_compute. reflexivity. Qed.

End Grpc.

(** ** The code a reply opens with *)

Module Reply.

(** [str::get(..n)]: [None] past the end or inside a character. *)
Definition str_get (n : nat) (line : bytes) : option bytes :=
  match drop n line with
  | [] => if (length line =? n)%nat then Some line else None
  | b :: _ => if (128 <=? b) && (b <? 192) then None else Some (take n line)
  end.

(** The refusal's text quotes the line as [{:?}] does, an argument here: it
    never decides anything. *)
Definition code (not_one : NetError) (line : bytes) : result NetError (Z * bool) :=
  let? digits := ok_or (str_get 3 line) not_one in
  if negb (forallb is_ascii_digit digits) then Err not_one
  else
    let? code := ok_or (parse_uint U16_MAX digits) not_one in
    if negb ((100 <=? code) && (code <? 600)) then Err not_one
    else
      match nth_error line 3 with
      | None | Some 32 => Ok (code, false)
      | Some 45 => Ok (code, true)
      | Some _ => Err not_one
      end.

(** The digit of a value under ten. *)
Definition of_digit (d : Z) : Z := 48 + d.

Lemma is_ascii_digit_of d : 0 <= d < 10 -> is_ascii_digit (of_digit d) = true.
Proof. unfold is_ascii_digit, of_digit. intros. rewrite andb_true_iff. lia. Qed.

Lemma parse_three a b c :
  is_ascii_digit a = true -> is_ascii_digit b = true -> is_ascii_digit c = true ->
  parse_uint U16_MAX [a; b; c] = Some ((a - 48) * 100 + (b - 48) * 10 + (c - 48)).
Proof.
  intros Ha Hb Hc. unfold is_ascii_digit in *.
  apply andb_true_iff in Ha, Hb, Hc.
  assert (parse_digits U16_MAX 0 [a; b; c] = Some ((a - 48) * 100 + (b - 48) * 10 + (c - 48))) as H.
  { unfold parse_digits, is_ascii_digit, U16_MAX.
    repeat (match goal with |- context [if ?t then _ else _] =>
      replace t with true by (symmetry; rewrite ?andb_true_iff; lia) end).
    f_equal; lia. }
  unfold parse_uint. destruct a as [|p|p]; try lia; try done.
  do 6 (destruct p as [p|p|]; try lia; try done).
Qed.

(** A reply's code is read exactly where the line opens with three
    digits of a number from 100 to 599 and then ends, or goes on with a space
    or a hyphen; the reply continues just where it is a hyphen. *)
Lemma code_spec not_one line n continues :
  code not_one line = Ok (n, continues) <->
  exists a b c rest,
    line = of_digit a :: of_digit b :: of_digit c :: rest
    /\ 1 <= a < 6 /\ 0 <= b < 10 /\ 0 <= c < 10 /\ n = a * 100 + b * 10 + c
    /\ match rest with
       | [] => continues = false
       | sep :: _ => (sep = 32 /\ continues = false) \/ (sep = 45 /\ continues = true)
       end.
Proof.
  split.
  - unfold code. intros H. inv_ok. case_test; [discriminate|]. inv_ok. case_test; [discriminate|].
    apply negb_false_iff in Heqb, Heqb0. apply andb_true_iff in Heqb0.
    assert (exists x y z rest, line = x :: y :: z :: rest /\ a = [x; y; z]) as (x & y & z & rest & -> & ->).
    { unfold str_get in Ha. destruct line as [|x [|y [|z rest]]]; try discriminate.
      exists x, y, z, rest. split; [done|].
      destruct rest as [|r rest]; cbn in Ha; [congruence|]. case_test; congruence. }
    cbn [forallb] in Heqb. rewrite !andb_true_iff in Heqb. destruct Heqb as (Hx & Hy & Hz & _).
    rewrite parse_three in Ha0 by done. injection Ha0 as <-.
    unfold is_ascii_digit in *. apply andb_true_iff in Hx, Hy, Hz.
    exists (x - 48), (y - 48), (z - 48), rest. unfold of_digit.
    repeat split; try lia; [do 3 (f_equal; try lia) | | ];
      destruct rest as [|r rest]; cbn [nth_error] in H.
    + injection H as <- <-; lia.
    + destruct r as [|r|r]; try discriminate. do 6 (destruct r as [r|r|]; try discriminate);
        injection H as <- <-; lia.
    + by injection H as _ <-.
    + destruct r as [|r|r]; try discriminate. do 6 (destruct r as [r|r|]; try discriminate);
        injection H as _ <-; auto.
  - intros (a & b & c & rest & -> & Ha & Hb & Hc & -> & Hrest). unfold code.
    assert (str_get 3 (of_digit a :: of_digit b :: of_digit c :: rest)
            = Some [of_digit a; of_digit b; of_digit c]) as ->.
    { unfold str_get. cbn [drop]. destruct rest as [|r rest]; [done|].
      destruct Hrest as [[-> _]|[-> _]]; done. }
    simpl ok_or. cbn [res_bind forallb]. rewrite !is_ascii_digit_of by lia. cbn [andb negb].
    rewrite parse_three by (apply is_ascii_digit_of; lia). cbn [ok_or res_bind].
    unfold of_digit.
    replace ((48 + a - 48) * 100 + (48 + b - 48) * 10 + (48 + c - 48)) with (a * 100 + b * 10 + c) by lia.
    replace ((100 <=? a * 100 + b * 10 + c) && (a * 100 + b * 10 + c <? 600)) with true
      by (symmetry; rewrite andb_true_iff; lia).
    cbn [negb nth_error]. destruct rest as [|r rest]; [by subst|].
    by destruct Hrest as [[-> ->]|[-> ->]].
Qed.

End Reply.
