(* ===== verification/HpackInteger.v ===== *)
(** The integer representation of RFC 7541 section 5.1
    ([src/http2/hpack/integer.rs]): a value in an N-bit prefix, the rest in
    seven-bit groups least significant first. *)

From Stdlib Require Import String.
From S2P Require Import Prelude Errors.

Module Integer.

Definition LARGEST : Z := U32_MAX.

(** [u8::try_from(value).unwrap_or(other)]. *)
Definition u8_or (value other : Z) : Z :=
  if (0 <=? value) && (value <=? U8_MAX) then value else other.

(** The loop of [encode]: [usize] has 64 bits, so ten groups are always
    enough ([groups_enough]). *)
Fixpoint groups (fuel : nat) (rest : Z) : bytes :=
  match fuel with
  | O => []
  | S fuel =>
      if 128 <=? rest then Z.lor (u8_or (rest mod 128) 0) 128 :: groups fuel (rest / 128)
      else [u8_or rest 0]
  end.
Definition GROUPS : nat := 10.

(** What [encode] appends. *)
Definition encode (value prefix flags : Z) : bytes :=
  let limit := Z.shiftl 1 prefix - 1 in
  if value <? limit then [Z.lor flags (u8_or value U8_MAX)]
  else Z.lor flags (u8_or limit U8_MAX) :: groups GROUPS (value - limit).

Definition truncated : Violation := Viol.compression (lit "the block ends inside an integer").
Definition over : Violation := Viol.compression (lit "an integer over 2^32 - 1").

(** The loop of [decode] from the octet at [at]. A shift under 32 loses no
    bit of a seven-bit group in 64. *)
Fixpoint decode_groups (input : bytes) (at_ : nat) (value shift : Z) : result Violation (Z * nat) :=
  match input with
  | [] => Err truncated
  | octet :: input =>
      let? group := ok_or (if shift <? 32 then Some (Z.shiftl (Z.land octet 0x7f) shift) else None) over in
      let? value := ok_or (if (value + group <=? USIZE_MAX) && (value + group <=? LARGEST)
                           then Some (value + group) else None) over in
      if Z.land octet 0x80 =? 0 then Ok (value, S at_)
      else decode_groups input (S at_) value (shift + 7)
  end.

(** The value and the octets it took. *)
Definition decode (input : bytes) (prefix : Z) : result Violation (Z * nat) :=
  let limit := Z.shiftl 1 prefix - 1 in
  match input with
  | [] => Err truncated
  | octet :: rest =>
      let first := Z.land octet limit in
      if first <? limit then Ok (first, 1%nat)
      else decode_groups rest 1 limit 0
  end.

Lemma limit_eq prefix : 0 <= prefix -> Z.shiftl 1 prefix - 1 = 2 ^ prefix - 1.
Proof. intros. by rewrite Z.shiftl_mul_pow2, Z.mul_1_l. Qed.

Lemma u8_or_small v d : 0 <= v <= U8_MAX -> u8_or v d = v.
Proof. intros. unfold u8_or, U8_MAX in *. case_test; [done|]. apply andb_false_iff in Heqb. lia. Qed.

(** One group: its value and whether another follows. *)
Lemma group_last x : 0 <= x < 128 -> Z.land x 0x80 = 0 /\ Z.land x 0x7f = x.
Proof.
  intros H. cut (((Z.land x 0x80 =? 0) && (Z.land x 0x7f =? x)) = true).
  { rewrite andb_true_iff; lia. }
  check_range 128%nat x.
Qed.
Lemma group_more x : 0 <= x < 128 ->
  Z.land (Z.lor x 128) 0x80 = 128 /\ Z.land (Z.lor x 128) 0x7f = x /\ is_octet (Z.lor x 128).
Proof.
  intros H. cut (((Z.land (Z.lor x 128) 0x80 =? 128) && (Z.land (Z.lor x 128) 0x7f =? x)
    && is_octetb (Z.lor x 128)) = true).
  { rewrite !andb_true_iff, !Z.eqb_eq, is_octetb_spec; tauto. }
  check_range 128%nat x.
Qed.

(** The groups of what is left of a value read back as it. *)
Lemma decode_groups_groups fuel : forall rest at_ value shift k,
  (0 < fuel)%nat -> 0 <= rest < 128 ^ Z.of_nat fuel -> 0 <= shift < 32 -> 0 <= value ->
  value + rest * 2 ^ shift <= LARGEST ->
  decode_groups (groups fuel rest ++ k) at_ value shift
    = Ok (value + rest * 2 ^ shift, (at_ + length (groups fuel rest))%nat).
Proof.
  induction fuel as [|fuel IH]; intros rest at_ value shift k Hfuel Hr Hs Hv Hl.
  - lia.
  - cbn [groups]. rewrite Nat2Z.inj_succ, Z.pow_succ_r in Hr by lia.
    assert (0 < 2 ^ shift) by (apply Z.pow_pos_nonneg; lia).
    destruct (Z.leb_spec 128 rest) as [Hge|Hlt]; cbn [app decode_groups].
    + pose proof (Z.mod_pos_bound rest 128 ltac:(lia)) as Hm.
      rewrite u8_or_small by (unfold U8_MAX; lia).
      destruct (group_more (rest mod 128) Hm) as (-> & -> & _).
      destruct (Z.ltb_spec shift 32); [|lia]. cbn [ok_or res_bind].
      rewrite Z.shiftl_mul_pow2 by lia.
      pose proof (Z.div_mod rest 128 ltac:(lia)) as Hd.
      assert (0 <= rest / 128) by (apply Z.div_pos; lia).
      assert (rest / 128 < 128 ^ Z.of_nat fuel) by (apply Z.div_lt_upper_bound; lia).
      assert (rest mod 128 * 2 ^ shift <= rest * 2 ^ shift) by nia.
      assert (rest / 128 * 2 ^ (shift + 7) + rest mod 128 * 2 ^ shift = rest * 2 ^ shift) as Hsum.
      { rewrite Z.pow_add_r by lia. change (2 ^ 7) with 128. nia. }
      assert (1 <= rest / 128) by (apply Z.div_le_lower_bound; lia).
      assert (shift + 7 < 32).
      { destruct (Z.lt_ge_cases (shift + 7) 32) as [|Hbig]; [done|].
        assert (2 ^ 32 <= 2 ^ (shift + 7)) by (apply Z.pow_le_mono_r; lia).
        assert (2 ^ (shift + 7) <= rest / 128 * 2 ^ (shift + 7)) by nia.
        unfold LARGEST, U32_MAX in *. lia. }
      replace (_ && _) with true
        by (symmetry; rewrite andb_true_iff; unfold USIZE_MAX, LARGEST, U32_MAX in *; lia).
      cbn [ok_or res_bind].
      assert (0 < fuel)%nat by (destruct fuel; [simpl in *; lia | lia]).
      rewrite IH; [|lia..].
      f_equal. f_equal; [lia|]. simpl length. lia.
    + rewrite u8_or_small by (unfold U8_MAX; lia).
      destruct (group_last rest) as [-> ->]; [lia|].
      destruct (Z.ltb_spec shift 32); [|lia]. cbn [ok_or res_bind].
      rewrite Z.shiftl_mul_pow2 by lia.
      replace (_ && _) with true
        by (symmetry; rewrite andb_true_iff; unfold USIZE_MAX, LARGEST, U32_MAX in *; lia).
      cbn [ok_or res_bind length]. do 2 f_equal. lia.
Qed.

(** Ten groups carry any [usize]: more fuel changes nothing. *)
Lemma groups_enough extra rest :
  0 <= rest <= USIZE_MAX -> groups (GROUPS + extra) rest = groups GROUPS rest.
Proof.
  intros H. assert (forall n extra rest, (0 < n)%nat -> 0 <= rest < 128 ^ Z.of_nat n ->
    groups (n + extra) rest = groups n rest) as Hg.
  { clear. induction n as [|n IH]; intros extra rest Hn Hr; [lia|].
    cbn [groups Nat.add]. rewrite Nat2Z.inj_succ, Z.pow_succ_r in Hr by lia.
    destruct (Z.leb_spec 128 rest); [|done]. f_equal.
    assert (1 <= rest / 128) by (apply Z.div_le_lower_bound; lia).
    assert (rest / 128 < 128 ^ Z.of_nat n) by (apply Z.div_lt_upper_bound; lia).
    apply IH; [destruct n; [simpl in *; lia | lia] | lia]. }
  apply Hg; [unfold GROUPS; lia|]. unfold USIZE_MAX, GROUPS in *. cbn. lia.
Qed.

(** An integer takes no more octets than its groups and its prefix. *)
Lemma encode_short value prefix flags : len (encode value prefix flags) <= 11.
Proof.
  unfold encode, len. case_test; cbn [length]; [lia|].
  assert (forall n r, (length (groups n r) <= n)%nat) as Hg.
  { clear. induction n as [|n IH]; intros r; [done|]. cbn [groups].
    case_test; cbn [length]; [specialize (IH (r / 128)); lia | lia]. }
  specialize (Hg GROUPS (value - (Z.shiftl 1 prefix - 1))). unfold GROUPS in *. lia.
Qed.

(** Flags that keep to their octet's high bits. *)
Definition flags_over (flags prefix : Z) : Prop :=
  is_octet flags /\ Z.land flags (2 ^ prefix - 1) = 0.

Lemma first_octet flags prefix x :
  0 <= prefix -> flags_over flags prefix -> 0 <= x <= 2 ^ prefix - 1 ->
  Z.land (Z.lor flags x) (2 ^ prefix - 1) = x.
Proof.
  intros Hp [_ Hf] Hx. rewrite Z.land_lor_distr_l, Hf, Z.lor_0_l, land_low by done.
  apply Z.mod_small. lia.
Qed.

Lemma integer_decode_encode value prefix flags k :
  0 <= value <= LARGEST -> 1 <= prefix <= 8 -> flags_over flags prefix ->
  decode (encode value prefix flags ++ k) prefix
    = Ok (value, length (encode value prefix flags)).
Proof.
  intros Hv Hp Hf. unfold decode, encode. rewrite limit_eq by lia.
  assert (2 <= 2 ^ prefix <= 256) as Hpow.
  { split; [apply (Z.pow_le_mono_r 2 1); lia | apply (Z.pow_le_mono_r 2 _ 8); lia]. }
  destruct (Z.ltb_spec value (2 ^ prefix - 1)) as [Hlt|Hge]; cbn [app].
  - rewrite u8_or_small by (unfold U8_MAX; lia). rewrite first_octet by (done || lia).
    by destruct (Z.ltb_spec value (2 ^ prefix - 1)); [|lia].
  - rewrite u8_or_small by (unfold U8_MAX; lia). rewrite first_octet by (done || lia).
    rewrite Z.ltb_irrefl. rewrite decode_groups_groups; try lia.
    + f_equal. f_equal; lia.
    + unfold GROUPS; lia.
    + unfold LARGEST, U32_MAX, GROUPS in *. change (128 ^ Z.of_nat 10) with (2 ^ 70). lia.
Qed.

Lemma decode_groups_bounds input : forall at_ value shift v n,
  decode_groups input at_ value shift = Ok (v, n) -> 0 <= value ->
  0 <= v <= LARGEST /\ (at_ < n <= at_ + length input)%nat.
Proof.
  induction input as [|octet input IH]; intros at_ value shift v n H Hv; [discriminate|].
  cbn [decode_groups] in H. inv_ok.
  assert (0 <= Z.land octet 127) by (apply Z.land_nonneg; lia).
  assert (0 <= a).
  { destruct (shift <? 32) eqn:?; [|discriminate]. injection Ha as <-. by apply Z.shiftl_nonneg. }
  destruct ((value + a <=? USIZE_MAX) && (value + a <=? LARGEST)) eqn:Hb; [|discriminate].
  injection Ha0 as <-. apply andb_true_iff in Hb. cbn [length].
  case_test; inv_ok.
  - injection H as <- <-. split; lia.
  - apply IH in H; lia.
Qed.

Lemma integer_decode_bounds input prefix value used :
  0 <= prefix -> decode input prefix = Ok (value, used) -> prefix <= 32 ->
  0 <= value <= LARGEST /\ (1 <= used <= length input)%nat.
Proof.
  intros Hp H Hp'. unfold decode in H. destruct input as [|octet rest]; [discriminate|].
  rewrite limit_eq in H by done.
  assert (1 <= 2 ^ prefix) by (apply (Z.pow_le_mono_r 2 0); lia).
  assert (2 ^ prefix <= 2 ^ 32) by (apply Z.pow_le_mono_r; lia).
  assert (0 <= Z.land octet (2 ^ prefix - 1)) by (apply Z.land_nonneg; lia).
  cbn [length]. destruct (Z.ltb_spec (Z.land octet (2 ^ prefix - 1)) (2 ^ prefix - 1)).
  - apply Ok_inj in H. injection H as <- <-. unfold LARGEST, U32_MAX; lia.
  - apply decode_groups_bounds in H; [|lia]. unfold LARGEST in *; lia.
Qed.

(** What an integer wrote: octets, at least one of them. *)
Lemma groups_octets fuel : forall rest, 0 <= rest -> octets (groups fuel rest).
Proof.
  induction fuel as [|fuel IH]; intros rest Hr; [constructor|]. cbn [groups].
  destruct (Z.leb_spec 128 rest).
  - pose proof (Z.mod_pos_bound rest 128 ltac:(lia)). rewrite u8_or_small by (unfold U8_MAX; lia).
    constructor; [apply group_more; lia | apply IH, Z.div_pos; lia].
  - rewrite u8_or_small by (unfold U8_MAX; lia). repeat constructor; lia.
Qed.

Lemma encode_nonempty value prefix flags : exists b l, encode value prefix flags = b :: l.
Proof. unfold encode. case_test; eauto. Qed.

(** The octet an integer opens with: its flags over at most its prefix. *)
Lemma encode_first value prefix flags :
  0 <= value -> 1 <= prefix <= 8 ->
  exists x l, encode value prefix flags = Z.lor flags x :: l /\ 0 <= x <= 2 ^ prefix - 1.
Proof.
  intros Hv Hp. unfold encode. rewrite limit_eq by lia.
  assert (2 <= 2 ^ prefix <= 256).
  { split; [apply (Z.pow_le_mono_r 2 1); lia | apply (Z.pow_le_mono_r 2 _ 8); lia]. }
  destruct (Z.ltb_spec value (2 ^ prefix - 1)); rewrite u8_or_small by (unfold U8_MAX; lia);
    do 2 eexists; (split; [reflexivity | lia]).
Qed.

(** An integer of at most 32 bits, written in a prefix of 1 to 8 bits
    under flags that keep clear of it, is read back as itself, and the octets
    it is said to have taken are those written, whatever follows. *)
Lemma integer_round_trip value prefix flags k :
  0 <= value <= LARGEST -> 1 <= prefix <= 8 -> flags_over flags prefix ->
  decode (encode value prefix flags ++ k) prefix
    = Ok (value, length (encode value prefix flags)).
Proof. apply integer_decode_encode. Qed.

Lemma integer_round_trip_witness : decode (encode 1337 5 0x20 ++ [0xff]) 5 = Ok (1337, 3%nat).
Proof.
  apply (integer_round_trip 1337 5 0x20 [0xff]); [unfold LARGEST, U32_MAX; lia | lia |].
  split; [unfold is_octet; lia | reflexivity].
Defined.

(** What is read is an integer of at most 32 bits, and it took one octet
    or more, all of them of the input: a reader that moves on by what an
    integer took always moves and never passes its input. *)
Lemma reads_within input prefix value used :
  0 <= prefix -> decode input prefix = Ok (value, used) -> prefix <= 32 ->
  0 <= value <= LARGEST /\ (1 <= used <= length input)%nat.
Proof. apply integer_decode_bounds. Qed.

Lemma reads_within_witness : 0 <= 1337 <= LARGEST /\ (1 <= 3 <= length [0x3f; 0x9a; 0x0a; 0xff])%nat.
Proof. apply (reads_within [0x3f; 0x9a; 0x0a; 0xff] 5); [lia | reflexivity | lia]. Defined.

(** Appendix C.1 of RFC 7541. *)
Example c_1_1 : encode 10 5 0 = [0x0a]. Proof. reflexivity. Qed.
Example c_1_2 : encode 1337 5 0 = [0x1f; 0x9a; 0x0a]. Proof. reflexivity. Qed.
Example c_1_3 : encode 42 8 0 = [42]. Proof. reflexivity. Qed.
Example past_32_bits :
  decode [0x1f; 0xff; 0xff; 0xff; 0xff; 0xff; 0x01] 5 = Err over. Proof. reflexivity. Qed.

End Integer.
