(* ===== verification/HuffmanCode.v ===== *)
(** The Huffman code of RFC 7541 Appendix B ([src/http2/hpack/code.rs]): for
    each octet, and for the end-of-string symbol at 256, the code aligned to
    its least significant bit and its length in bits. *)

From S2P Require Import Prelude.

(** The rows of the octets under 128. *)
Definition CODES_low : list (Z * nat) :=
  [(0x1ff8, 13%nat); (0x7fffd8, 23%nat); (0xfffffe2, 28%nat); (0xfffffe3, 28%nat); (0xfffffe4, 28%nat);
    (0xfffffe5, 28%nat); (0xfffffe6, 28%nat); (0xfffffe7, 28%nat); (0xfffffe8, 28%nat); (0xffffea, 24%nat);
    (0x3ffffffc, 30%nat); (0xfffffe9, 28%nat); (0xfffffea, 28%nat); (0x3ffffffd, 30%nat); (0xfffffeb, 28%nat);
    (0xfffffec, 28%nat); (0xfffffed, 28%nat); (0xfffffee, 28%nat); (0xfffffef, 28%nat); (0xffffff0, 28%nat);
    (0xffffff1, 28%nat); (0xffffff2, 28%nat); (0x3ffffffe, 30%nat); (0xffffff3, 28%nat); (0xffffff4, 28%nat);
    (0xffffff5, 28%nat); (0xffffff6, 28%nat); (0xffffff7, 28%nat); (0xffffff8, 28%nat); (0xffffff9, 28%nat);
    (0xffffffa, 28%nat); (0xffffffb, 28%nat); (0x14, 6%nat); (0x3f8, 10%nat); (0x3f9, 10%nat); (0xffa, 12%nat);
    (0x1ff9, 13%nat); (0x15, 6%nat); (0xf8, 8%nat); (0x7fa, 11%nat); (0x3fa, 10%nat); (0x3fb, 10%nat); (0xf9, 8%nat);
    (0x7fb, 11%nat); (0xfa, 8%nat); (0x16, 6%nat); (0x17, 6%nat); (0x18, 6%nat); (0x0, 5%nat); (0x1, 5%nat); (0x2, 5%nat);
    (0x19, 6%nat); (0x1a, 6%nat); (0x1b, 6%nat); (0x1c, 6%nat); (0x1d, 6%nat); (0x1e, 6%nat); (0x1f, 6%nat); (0x5c, 7%nat);
    (0xfb, 8%nat); (0x7ffc, 15%nat); (0x20, 6%nat); (0xffb, 12%nat); (0x3fc, 10%nat); (0x1ffa, 13%nat); (0x21, 6%nat);
    (0x5d, 7%nat); (0x5e, 7%nat); (0x5f, 7%nat); (0x60, 7%nat); (0x61, 7%nat); (0x62, 7%nat); (0x63, 7%nat); (0x64, 7%nat);
    (0x65, 7%nat); (0x66, 7%nat); (0x67, 7%nat); (0x68, 7%nat); (0x69, 7%nat); (0x6a, 7%nat); (0x6b, 7%nat); (0x6c, 7%nat);
    (0x6d, 7%nat); (0x6e, 7%nat); (0x6f, 7%nat); (0x70, 7%nat); (0x71, 7%nat); (0x72, 7%nat); (0xfc, 8%nat); (0x73, 7%nat);
    (0xfd, 8%nat); (0x1ffb, 13%nat); (0x7fff0, 19%nat); (0x1ffc, 13%nat); (0x3ffc, 14%nat); (0x22, 6%nat); (0x7ffd, 15%nat);
    (0x3, 5%nat); (0x23, 6%nat); (0x4, 5%nat); (0x24, 6%nat); (0x5, 5%nat); (0x25, 6%nat); (0x26, 6%nat); (0x27, 6%nat);
    (0x6, 5%nat); (0x74, 7%nat); (0x75, 7%nat); (0x28, 6%nat); (0x29, 6%nat); (0x2a, 6%nat); (0x7, 5%nat); (0x2b, 6%nat);
    (0x76, 7%nat); (0x2c, 6%nat); (0x8, 5%nat); (0x9, 5%nat); (0x2d, 6%nat); (0x77, 7%nat); (0x78, 7%nat); (0x79, 7%nat);
    (0x7a, 7%nat); (0x7b, 7%nat); (0x7ffe, 15%nat); (0x7fc, 11%nat); (0x3ffd, 14%nat); (0x1ffd, 13%nat); (0xffffffc, 28%nat)].

(** The rows from 128 on, [EOS] the last. *)
Definition CODES_high : list (Z * nat) :=
  [(0xfffe6, 20%nat); (0x3fffd2, 22%nat); (0xfffe7, 20%nat); (0xfffe8, 20%nat); (0x3fffd3, 22%nat); (0x3fffd4, 22%nat);
    (0x3fffd5, 22%nat); (0x7fffd9, 23%nat); (0x3fffd6, 22%nat); (0x7fffda, 23%nat); (0x7fffdb, 23%nat);
    (0x7fffdc, 23%nat); (0x7fffdd, 23%nat); (0x7fffde, 23%nat); (0xffffeb, 24%nat); (0x7fffdf, 23%nat);
    (0xffffec, 24%nat); (0xffffed, 24%nat); (0x3fffd7, 22%nat); (0x7fffe0, 23%nat); (0xffffee, 24%nat);
    (0x7fffe1, 23%nat); (0x7fffe2, 23%nat); (0x7fffe3, 23%nat); (0x7fffe4, 23%nat); (0x1fffdc, 21%nat);
    (0x3fffd8, 22%nat); (0x7fffe5, 23%nat); (0x3fffd9, 22%nat); (0x7fffe6, 23%nat); (0x7fffe7, 23%nat);
    (0xffffef, 24%nat); (0x3fffda, 22%nat); (0x1fffdd, 21%nat); (0xfffe9, 20%nat); (0x3fffdb, 22%nat);
    (0x3fffdc, 22%nat); (0x7fffe8, 23%nat); (0x7fffe9, 23%nat); (0x1fffde, 21%nat); (0x7fffea, 23%nat);
    (0x3fffdd, 22%nat); (0x3fffde, 22%nat); (0xfffff0, 24%nat); (0x1fffdf, 21%nat); (0x3fffdf, 22%nat);
    (0x7fffeb, 23%nat); (0x7fffec, 23%nat); (0x1fffe0, 21%nat); (0x1fffe1, 21%nat); (0x3fffe0, 22%nat);
    (0x1fffe2, 21%nat); (0x7fffed, 23%nat); (0x3fffe1, 22%nat); (0x7fffee, 23%nat); (0x7fffef, 23%nat);
    (0xfffea, 20%nat); (0x3fffe2, 22%nat); (0x3fffe3, 22%nat); (0x3fffe4, 22%nat); (0x7ffff0, 23%nat);
    (0x3fffe5, 22%nat); (0x3fffe6, 22%nat); (0x7ffff1, 23%nat); (0x3ffffe0, 26%nat); (0x3ffffe1, 26%nat);
    (0xfffeb, 20%nat); (0x7fff1, 19%nat); (0x3fffe7, 22%nat); (0x7ffff2, 23%nat); (0x3fffe8, 22%nat);
    (0x1ffffec, 25%nat); (0x3ffffe2, 26%nat); (0x3ffffe3, 26%nat); (0x3ffffe4, 26%nat); (0x7ffffde, 27%nat);
    (0x7ffffdf, 27%nat); (0x3ffffe5, 26%nat); (0xfffff1, 24%nat); (0x1ffffed, 25%nat); (0x7fff2, 19%nat);
    (0x1fffe3, 21%nat); (0x3ffffe6, 26%nat); (0x7ffffe0, 27%nat); (0x7ffffe1, 27%nat); (0x3ffffe7, 26%nat);
    (0x7ffffe2, 27%nat); (0xfffff2, 24%nat); (0x1fffe4, 21%nat); (0x1fffe5, 21%nat); (0x3ffffe8, 26%nat);
    (0x3ffffe9, 26%nat); (0xffffffd, 28%nat); (0x7ffffe3, 27%nat); (0x7ffffe4, 27%nat); (0x7ffffe5, 27%nat);
    (0xfffec, 20%nat); (0xfffff3, 24%nat); (0xfffed, 20%nat); (0x1fffe6, 21%nat); (0x3fffe9, 22%nat); (0x1fffe7, 21%nat);
    (0x1fffe8, 21%nat); (0x7ffff3, 23%nat); (0x3fffea, 22%nat); (0x3fffeb, 22%nat); (0x1ffffee, 25%nat);
    (0x1ffffef, 25%nat); (0xfffff4, 24%nat); (0xfffff5, 24%nat); (0x3ffffea, 26%nat); (0x7ffff4, 23%nat);
    (0x3ffffeb, 26%nat); (0x7ffffe6, 27%nat); (0x3ffffec, 26%nat); (0x3ffffed, 26%nat); (0x7ffffe7, 27%nat);
    (0x7ffffe8, 27%nat); (0x7ffffe9, 27%nat); (0x7ffffea, 27%nat); (0x7ffffeb, 27%nat); (0xffffffe, 28%nat);
    (0x7ffffec, 27%nat); (0x7ffffed, 27%nat); (0x7ffffee, 27%nat); (0x7ffffef, 27%nat); (0x7fffff0, 27%nat);
    (0x3ffffee, 26%nat); (0x3fffffff, 30%nat)].

Definition CODES : list (Z * nat) := CODES_low ++ CODES_high.

(** The end-of-string symbol, which never appears in a decoded string. *)
Definition EOS : nat := 256.

(** The code and the bits of a symbol. *)
Definition code_of (symbol : nat) : Z * nat := nth symbol CODES (0, 0%nat).

Lemma CODES_length : length CODES = S EOS.
Proof. reflexivity. Qed.
