(* ===== verification/Huffman.v ===== *)
(** The Huffman coding of RFC 7541 section 5.2
    ([src/http2/hpack/huffman.rs]): a string packed most significant bit
    first and padded with the high bits of [EOS], and unpacked by walking the
    code's tree. *)

From Stdlib Require Import String.
From S2P Require Import Prelude Errors HpackInteger HuffmanCode.

Module Huffman.
Import Integer.

(** ** The tree *)

Inductive Branch : Type :=
| BNone
| Node (next : nat)
| Leaf (symbol : nat).

#[global] Instance Branch_eq_dec : EqDecision Branch.
Proof. solve_decision. Defined.

(** [\[Branch; 2\]]: the branch for a 0 and the branch for a 1. *)
Abbreviation Pair := (Branch * Branch)%type.
Definition no_branch : Pair := (BNone, BNone).

Definition branch (nodes : list Pair) (node : nat) (bit : bool) : Branch :=
  let p := nth node nodes no_branch in if bit then snd p else fst p.

Definition set_branch (nodes : list Pair) (node : nat) (bit : bool) (b : Branch) : list Pair :=
  alter (fun p => if bit then (fst p, b) else (b, snd p)) node nodes.

(** The inner loop of [tree], from the level under [levels]. *)
Fixpoint grow (levels : nat) (code : Z) (symbol node : nat) (nodes : list Pair) : list Pair :=
  match levels with
  | O => nodes
  | S level =>
      let bit := Z.land (Z.shiftr code (Z.of_nat level)) 1 =? 1 in
      match level with
      | O => set_branch nodes node bit (Leaf symbol)
      | _ =>
          match branch nodes node bit with
          | Node next => grow level code symbol next nodes
          | _ =>
              let pushed := nodes ++ [no_branch] in
              let nodes := set_branch pushed node bit (Node (length pushed - 1)) in
              grow level code symbol (length nodes - 1) nodes
          end
      end
  end.

Fixpoint grow_all (symbol : nat) (codes : list (Z * nat)) (nodes : list Pair) : list Pair :=
  match codes with
  | [] => nodes
  | (code, bits) :: codes => grow_all (S symbol) codes (grow bits code symbol 0 nodes)
  end.

Definition tree_of (codes : list (Z * nat)) : list Pair := grow_all 0 codes [no_branch].

(** The tree, built once. *)
Definition tree : list Pair := Eval vm_compute in tree_of CODES.

Lemma tree_built : tree = tree_of CODES.
Proof. vm_compute. reflexivity. Qed.

(** ** Encoding *)

Definition encoded_len (input : bytes) : Z :=
  (Z.of_nat (list_sum (map (fun octet => snd (code_of (Z.to_nat octet))) input)) + 7) / 8.

Definition low_octet (bits : Z) : Z := u8_or (Z.land bits 0xff) 0.

(** [u64]'s [<<]: what passes 64 bits is lost. *)
Definition shl64 (x : Z) (n : nat) : Z := Z.shiftl x (Z.of_nat n) mod 2 ^ 64.

(** [while held >= 8]: as many turns as [held] are enough. *)
Fixpoint emit (turns : nat) (pending : Z) (held : nat) : bytes * nat :=
  match turns with
  | O => ([], held)
  | S turns =>
      if (8 <=? held)%nat then
        let held := (held - 8)%nat in
        let '(out, rest) := emit turns pending held in
        (low_octet (Z.shiftr pending (Z.of_nat held)) :: out, rest)
      else ([], held)
  end.

Fixpoint encode_from (input : bytes) (pending : Z) (held : nat) : bytes :=
  match input with
  | [] =>
      if (0 <? held)%nat then
        let pad := (8 - held)%nat in
        [low_octet (Z.lor (shl64 pending pad) (Z.shiftl 1 (Z.of_nat pad) - 1))]
      else []
  | octet :: input =>
      let '(code, bits) := code_of (Z.to_nat octet) in
      let pending := Z.lor (shl64 pending bits) code in
      let held := (held + bits)%nat in
      let '(out, held) := emit held pending held in
      out ++ encode_from input pending held
  end.

(** What [encode] appends. *)
Definition encode (input : bytes) : bytes := encode_from input 0 0.

(** ** Decoding *)

Record Walk : Type := mkWalk {
  node : nat;
  depth : Z;
  all_ones : bool;
  out : bytes;
}.

Definition start : Walk := mkWalk 0 0 true [].

Definition holds_eos : Violation := Viol.compression (lit "a Huffman string holds EOS").
Definition not_a_code : Violation := Viol.compression (lit "not a Huffman code").
Definition bad_padding : Violation :=
  Viol.compression (lit "a Huffman string padded with other than the high bits of EOS").

(** The body of the two loops: one bit of one octet. *)
Definition take_bit (octet shift : Z) (w : Walk) : result Violation Walk :=
  let bit := Z.land (Z.shiftr octet shift) 1 =? 1 in
  let all_ones := all_ones w && bit in
  let depth := depth w + 1 in
  match branch tree (node w) bit with
  | Node next => Ok (mkWalk next depth all_ones (out w))
  | Leaf symbol =>
      if (symbol =? EOS)%nat then Err holds_eos
      else Ok (mkWalk 0 0 true (out w ++ [u8_or (Z.of_nat symbol) 0]))
  | BNone => Err not_a_code
  end.

(** [for shift in (0..8).rev()]. *)
Fixpoint take_octet (shifts : nat) (octet : Z) (w : Walk) : result Violation Walk :=
  match shifts with
  | O => Ok w
  | S shift => let? w := take_bit octet (Z.of_nat shift) w in take_octet shift octet w
  end.

Fixpoint walk_octets (input : bytes) (w : Walk) : result Violation Walk :=
  match input with
  | [] => Ok w
  | octet :: input => let? w := take_octet 8 octet w in walk_octets input w
  end.

Definition decode (input : bytes) : result Violation bytes :=
  let? w := walk_octets input start in
  if (7 <? depth w) || negb (all_ones w) then Err bad_padding else Ok (out w).

(** ** Octets as bits *)

(** The [n] low bits of [x], the most significant first. *)
Fixpoint bits_low (n : nat) (x : Z) : list bool :=
  match n with
  | O => []
  | S n => Z.testbit x (Z.of_nat n) :: bits_low n x
  end.

Definition bits_of (l : bytes) : list bool := flat_map (bits_low 8) l.
Definition code_bits (symbol : nat) : list bool := bits_low (snd (code_of symbol)) (fst (code_of symbol)).
Definition string_bits (s : bytes) : list bool := flat_map (fun b => code_bits (Z.to_nat b)) s.

Lemma bits_low_length n x : length (bits_low n x) = n.
Proof. induction n; simpl; congruence. Qed.

Lemma bits_low_ext n x y :
  (forall i, 0 <= i < Z.of_nat n -> Z.testbit x i = Z.testbit y i) -> bits_low n x = bits_low n y.
Proof.
  induction n as [|n IH]; intros H; [done|]. cbn [bits_low]. rewrite (H (Z.of_nat n)) by lia.
  f_equal. apply IH. intros; apply H; lia.
Qed.

Lemma bits_low_inj n x y :
  bits_low n x = bits_low n y -> forall i, 0 <= i < Z.of_nat n -> Z.testbit x i = Z.testbit y i.
Proof.
  induction n as [|n IH]; intros H i Hi; [lia|]. cbn [bits_low] in H. injection H as H0 H1.
  destruct (Z.eq_dec i (Z.of_nat n)) as [->|]; [done|]. apply IH; [done|lia].
Qed.

Lemma bits_low_add a b x :
  bits_low (a + b) x = bits_low a (Z.shiftr x (Z.of_nat b)) ++ bits_low b x.
Proof.
  induction a as [|a IH]; [done|]. cbn [bits_low Nat.add app]. rewrite IH. f_equal.
  rewrite Z.shiftr_spec by lia. f_equal; lia.
Qed.

Lemma low_octet_land x : low_octet x = Z.land x 255.
Proof.
  unfold low_octet. apply u8_or_small. change 255 with (2 ^ 8 - 1).
  rewrite land_low by lia. pose proof (Z.mod_pos_bound x (2 ^ 8) ltac:(lia)). unfold U8_MAX; lia.
Qed.

Lemma bits_low_octet x : bits_low 8 (low_octet x) = bits_low 8 x.
Proof.
  rewrite low_octet_land. apply bits_low_ext. intros i Hi. rewrite Z.land_spec.
  change 255 with (Z.ones 8). rewrite Z.ones_spec_low by lia. apply andb_true_r.
Qed.

Lemma low_octet_octet x : is_octet (low_octet x).
Proof.
  rewrite low_octet_land. change 255 with (2 ^ 8 - 1). rewrite land_low by lia. apply octet_mod.
Qed.

(** The pending bits after one more symbol: those held, then its code. *)
Lemma pending_bits pending held code bits :
  (held + bits <= 64)%nat -> 0 <= code < 2 ^ Z.of_nat bits ->
  bits_low (held + bits) (Z.lor (shl64 pending bits) code) = bits_low held pending ++ bits_low bits code.
Proof.
  intros H64 Hc. rewrite bits_low_add.
  assert (forall i, Z.of_nat bits <= i -> Z.testbit code i = false) as Hhigh.
  { intros i Hi. rewrite <- (Z.mod_small code (2 ^ Z.of_nat bits)) by done.
    apply Z.mod_pow2_bits_high; lia. }
  f_equal; apply bits_low_ext; intros i Hi.
  - rewrite Z.shiftr_spec, Z.lor_spec by lia. unfold shl64.
    rewrite Z.mod_pow2_bits_low by lia. rewrite Z.shiftl_spec by lia.
    rewrite (Hhigh (i + _)) by lia. rewrite orb_false_r. f_equal; lia.
  - rewrite Z.lor_spec. unfold shl64. rewrite Z.mod_pow2_bits_low by lia.
    rewrite Z.shiftl_spec_low by lia. done.
Qed.

Lemma emit_bits turns pending : forall held, (held <= turns)%nat ->
  let '(out, rest) := emit turns pending held in
  (rest < 8)%nat /\ octets out /\ bits_of out ++ bits_low rest pending = bits_low held pending.
Proof.
  induction turns as [|turns IH]; intros held Hh; cbn [emit].
  - repeat split; [lia | constructor].
  - destruct (Nat.leb_spec 8 held) as [Hge|Hlt]; [|repeat split; [lia | constructor]].
    specialize (IH (held - 8)%nat ltac:(lia)). destruct (emit turns pending (held - 8)) as [o r].
    destruct IH as (Hr & Ho & Hb). repeat split; [done | constructor; [apply low_octet_octet | done] |].
    unfold bits_of in *. cbn [flat_map]. rewrite bits_low_octet, <- app_assoc, Hb.
    rewrite <- bits_low_add. f_equal; lia.
Qed.

(** ** The code

    Facts of the table, each checked on every row. *)

Definition row_fits (symbol : nat) : bool :=
  let '(c, b) := code_of symbol in
  (0 <=? c) && (c <? 2 ^ Z.of_nat b) && (5 <=? b)%nat && (b <=? 30)%nat.

Lemma code_fits symbol : (symbol < 257)%nat ->
  0 <= fst (code_of symbol) < 2 ^ Z.of_nat (snd (code_of symbol))
  /\ (5 <= snd (code_of symbol) <= 30)%nat.
Proof.
  intros H. assert (row_fits symbol = true) as Hf.
  { apply (seq_check 257 row_fits); [vm_compute; reflexivity | done]. }
  unfold row_fits in Hf. destruct (code_of symbol) as [c b]; cbn [fst snd].
  rewrite !andb_true_iff, !Nat.leb_le in Hf. lia.
Qed.

(** The bits that lead from the root to each node, found as the nodes were
    pushed: a node's number is above its parent's. *)
Definition paths : list (list bool) := Eval vm_compute in
  fold_left (fun ps '(i, p) =>
    let ps := match fst p with Node n => <[n := nth i ps [] ++ [false]]> ps | _ => ps end in
    match snd p with Node n => <[n := nth i ps [] ++ [true]]> ps | _ => ps end)
  (combine (seq 0 (length tree)) tree) (replicate (length tree) []).

Definition path (node : nat) : list bool := nth node paths [].

(** A branch from a node leads one bit further: to a node of the tree, or to
    the symbol whose code the bits are. *)
Definition branch_right (node : nat) (bit : bool) : bool :=
  match branch tree node bit with
  | Node next => (next <? length tree)%nat && bool_decide (path next = path node ++ [bit])
  | Leaf symbol => (symbol <? 257)%nat && bool_decide (code_bits symbol = path node ++ [bit])
  | BNone => false
  end.

Lemma tree_right node bit : (node < length tree)%nat -> branch_right node bit = true.
Proof.
  intros H. assert (branch_right node false && branch_right node true = true) as Hb.
  { apply (seq_check (length tree) (fun n => branch_right n false && branch_right n true));
      [vm_compute; reflexivity | done]. }
  apply andb_true_iff in Hb as [? ?]. by destruct bit.
Qed.

(** Every symbol's code leads from the root to its leaf, through nodes. *)
Fixpoint follow (node : nat) (bits : list bool) : Branch :=
  match bits with
  | [] => Node node
  | b :: bits =>
      match branch tree node b, bits with
      | Node next, _ => follow next bits
      | last, [] => last
      | _, _ => BNone
      end
  end.

Definition leads (symbol : nat) : bool := bool_decide (follow 0 (code_bits symbol) = Leaf symbol).

Lemma code_leads symbol : (symbol < 257)%nat -> follow 0 (code_bits symbol) = Leaf symbol.
Proof.
  intros H. assert (leads symbol = true) as Hl.
  { apply (seq_check 257 leads); [vm_compute; reflexivity | done]. }
  by apply bool_decide_eq_true in Hl.
Qed.

(** Up to seven ones from the root stop at a node: padding is never a code. *)
Lemma ones_lead n : (n <= 7)%nat -> exists m, follow 0 (replicate n true) = Node m.
Proof.
  intros H. do 8 (destruct n as [|n]; [eexists; vm_compute; reflexivity|]). lia.
Qed.

(** ** Walking bits *)

Definition walk_bit (bit : bool) (w : Walk) : result Violation Walk :=
  match branch tree (node w) bit with
  | Node next => Ok (mkWalk next (depth w + 1) (all_ones w && bit) (out w))
  | Leaf symbol =>
      if (symbol =? EOS)%nat then Err holds_eos
      else Ok (mkWalk 0 0 true (out w ++ [u8_or (Z.of_nat symbol) 0]))
  | BNone => Err not_a_code
  end.

Fixpoint walk_bits (bits : list bool) (w : Walk) : result Violation Walk :=
  match bits with
  | [] => Ok w
  | b :: bits => let? w := walk_bit b w in walk_bits bits w
  end.

Lemma walk_bits_app a b w : walk_bits (a ++ b) w = let? w := walk_bits a w in walk_bits b w.
Proof.
  revert w. induction a as [|x a IH]; intros w; [done|]. cbn [walk_bits app].
  destruct (walk_bit x w); [apply IH | done].
Qed.

Lemma take_bit_walk octet shift w :
  0 <= shift -> take_bit octet shift w = walk_bit (Z.testbit octet shift) w.
Proof.
  intros H. unfold take_bit, walk_bit.
  replace (Z.land (Z.shiftr octet shift) 1 =? 1) with (Z.testbit octet shift); [done|].
  change (Z.land ?a 1) with (Z.land a (2 ^ 1 - 1)). rewrite land_low by lia.
  change (2 ^ 1) with 2. rewrite Z.testbit_odd, Zmod_odd. by destruct (Z.odd _).
Qed.

Lemma take_octet_walk shifts octet w : take_octet shifts octet w = walk_bits (bits_low shifts octet) w.
Proof.
  revert w. induction shifts as [|n IH]; intros w; [done|]. cbn [take_octet bits_low walk_bits].
  rewrite take_bit_walk by lia. destruct (walk_bit _ w); [apply IH | done].
Qed.

(** The nested loops walk the bits of the input. *)
Lemma walk_octets_bits input w : walk_octets input w = walk_bits (bits_of input) w.
Proof.
  revert w. induction input as [|o input IH]; intros w; [done|]. cbn [walk_octets].
  unfold bits_of. cbn [flat_map]. rewrite walk_bits_app, take_octet_walk.
  destruct (walk_bits _ w); [apply IH | done].
Qed.

Lemma walk_follow bits : forall w symbol,
  bits <> [] -> follow (node w) bits = Leaf symbol -> symbol <> EOS ->
  walk_bits bits w = Ok (mkWalk 0 0 true (out w ++ [u8_or (Z.of_nat symbol) 0])).
Proof.
  induction bits as [|b bits IH]; intros w symbol Hne Hf Hs; [done|].
  cbn [follow walk_bits] in *. unfold walk_bit.
  destruct (branch tree (node w) b) as [|next|s] eqn:Hb.
  - by destruct bits.
  - destruct bits as [|b' bits]; [discriminate|]. cbn [res_bind].
    by rewrite (IH _ symbol).
  - destruct bits; [|done]. injection Hf as ->. destruct (Nat.eqb_spec symbol EOS); [done|]. done.
Qed.

Lemma walk_node bits : forall w m,
  follow (node w) bits = Node m ->
  walk_bits bits w = Ok (mkWalk m (depth w + Z.of_nat (length bits))
                           (all_ones w && forallb id bits) (out w)).
Proof.
  induction bits as [|b bits IH]; intros w m Hf.
  - injection Hf as <-. destruct w; cbn. by rewrite Z.add_0_r, andb_true_r.
  - cbn [follow walk_bits forallb length] in *. unfold walk_bit.
    destruct (branch tree (node w) b) as [|next|s] eqn:Hb; [by destruct bits | | by destruct bits].
    cbn [res_bind]. rewrite (IH (mkWalk next (depth w + 1) (all_ones w && b) (out w)) m Hf). cbn [node depth all_ones out].
    rewrite <- andb_assoc. do 2 f_equal. lia.
Qed.

Lemma code_bits_nonempty symbol : (symbol < 257)%nat -> code_bits symbol <> [].
Proof.
  intros H Hn. apply (f_equal length) in Hn. unfold code_bits in Hn.
  rewrite bits_low_length in Hn. destruct (code_fits symbol H). simpl in Hn. lia.
Qed.

(** A string's codes, walked from the root, give the string. *)
Lemma walk_string s : forall k o,
  octets s -> walk_bits (string_bits s ++ k) (mkWalk 0 0 true o) = walk_bits k (mkWalk 0 0 true (o ++ s)).
Proof.
  induction s as [|b s IH]; intros k o Hs.
  - cbn. by rewrite app_nil_r.
  - inversion_clear Hs as [|? ? Hb Ht]. unfold is_octet in Hb. unfold string_bits. cbn [flat_map].
    assert (Z.to_nat b < 257)%nat by lia.
    rewrite <- app_assoc, walk_bits_app, (walk_follow _ _ (Z.to_nat b));
      [|by apply code_bits_nonempty | by apply code_leads | unfold EOS; lia].
    cbn [res_bind out]. rewrite Z2Nat.id, u8_or_small by (unfold U8_MAX; lia).
    fold (string_bits s). rewrite IH by done. by rewrite <- app_assoc.
Qed.

(** ** What encoding writes *)

Definition padding (n : nat) : nat := (8 - n mod 8) mod 8.

Lemma encode_from_bits input : forall pending held,
  octets input -> (held < 8)%nat ->
  octets (encode_from input pending held) /\
  exists pad, (pad < 8)%nat /\
    bits_of (encode_from input pending held)
      = bits_low held pending ++ string_bits input ++ replicate pad true.
Proof.
  induction input as [|octet input IH]; intros pending held Hi Hh; cbn [encode_from].
  - destruct held as [|held]; [by split; [constructor | exists 0%nat; split; [lia|]]|].
    destruct (Nat.ltb_spec 0 (S held)); [|lia].
    split; [constructor; [apply low_octet_octet | constructor]|].
    exists (8 - S held)%nat. split; [lia|]. unfold bits_of. cbn [flat_map app].
    rewrite app_nil_r, bits_low_octet.
    replace 8%nat with (S held + (8 - S held))%nat at 1 by lia.
    rewrite pending_bits.
    + f_equal. rewrite Z.shiftl_1_l. generalize (8 - S held)%nat. intros n.
      transitivity (bits_low n (-1)).
      * apply bits_low_ext. intros i Hin. rewrite Z.bits_m1 by lia.
        rewrite Z.sub_1_r, <- Z.ones_equiv. apply Z.ones_spec_low. lia.
      * clear. induction n as [|n IH]; [done|]. cbn [bits_low replicate]. rewrite IH.
        rewrite Z.bits_m1 by lia. done.
    + lia.
    + rewrite Z.shiftl_1_l. assert (0 < 2 ^ Z.of_nat (8 - S held)) by (apply Z.pow_pos_nonneg; lia). lia.
  - inversion_clear Hi as [|? ? Ho Hi']. unfold is_octet in Ho.
    assert (Z.to_nat octet < 257)%nat as Hsym by lia.
    destruct (code_fits _ Hsym) as [Hfit Hlen].
    unfold string_bits. cbn [flat_map]. unfold code_bits at 1.
    destruct (code_of (Z.to_nat octet)) as [code bits]. cbn [fst snd] in *.
    pose proof (emit_bits (held + bits) (Z.lor (shl64 pending bits) code) (held + bits) ltac:(lia)) as He.
    destruct (emit _ _ _) as [o rest]. destruct He as (Hr & Hoct & Hb).
    destruct (IH (Z.lor (shl64 pending bits) code) rest Hi' Hr) as (Hoct' & pad & Hp & Hbits).
    split; [by apply octets_app|]. exists pad. split; [done|].
    unfold bits_of in *. rewrite flat_map_app, Hbits, app_assoc, Hb, pending_bits by lia.
    fold (string_bits input). by rewrite <- !app_assoc.
Qed.

Lemma encode_bits s : octets s ->
  octets (encode s) /\ exists pad, (pad < 8)%nat /\ bits_of (encode s) = string_bits s ++ replicate pad true.
Proof. intros H. apply (encode_from_bits s 0 0 H). lia. Qed.

Lemma bits_of_length l : length (bits_of l) = (8 * length l)%nat.
Proof. induction l as [|x l IH]; [done|]. unfold bits_of in *. cbn [flat_map]. rewrite length_app, IH. simpl. lia. Qed.

(** Octets are told by their bits. *)
Lemma octet_of_bits x y : is_octet x -> is_octet y -> bits_low 8 x = bits_low 8 y -> x = y.
Proof.
  intros Hx Hy H. apply Z.bits_inj'. intros i Hi. destruct (Z.lt_ge_cases i 8) as [Hlt|Hge].
  - by apply (bits_low_inj 8).
  - unfold is_octet in *. change 256 with (2 ^ 8) in *.
    rewrite <- (Z.mod_small x (2 ^ 8)), <- (Z.mod_small y (2 ^ 8)) by done.
    rewrite !Z.mod_pow2_bits_high by lia. done.
Qed.

Lemma bits_of_inj l : forall k, octets l -> octets k -> bits_of l = bits_of k -> l = k.
Proof.
  induction l as [|x l IH]; intros [|y k] Hl Hk H; try done.
  inversion_clear Hl as [|? ? Hx Hl']. inversion_clear Hk as [|? ? Hy Hk'].
  unfold bits_of in H. cbn [flat_map] in H. apply app_inj_1 in H as [H1 H2]; [|done].
  f_equal; [by apply octet_of_bits | by apply IH].
Qed.

(** ** What decoding accepts *)

(** Where a walk stands: at the node the bits since the last symbol lead to. *)
Definition at_path (w : Walk) (bits : list bool) : Prop :=
  (node w < length tree)%nat /\ path (node w) = bits /\ depth w = Z.of_nat (length bits)
  /\ all_ones w = forallb id bits /\ octets (out w).

Lemma walk_bits_path bits : forall w w' p,
  at_path w p -> walk_bits bits w = Ok w' ->
  exists p', at_path w' p' /\ string_bits (out w) ++ p ++ bits = string_bits (out w') ++ p'.
Proof.
  induction bits as [|b bits IH]; intros w w' p Hw H.
  - apply Ok_inj in H. subst. exists p. by rewrite app_nil_r.
  - cbn [walk_bits] in H. inv_ok. destruct Hw as (Hn & Hp & Hd & Ho & Hout).
    pose proof (tree_right (node w) b Hn) as Hr. unfold branch_right in Hr. unfold walk_bit in Ha.
    destruct (branch tree (node w) b) as [|next|s]; [done| |].
    + apply andb_true_iff in Hr as [Hlt Hpath%bool_decide_eq_true]. apply Nat.ltb_lt in Hlt.
      apply Ok_inj in Ha. subst a.
      assert (at_path (mkWalk next (depth w + 1) (all_ones w && b) (out w)) (p ++ [b])) as Hw1.
      { unfold at_path. cbn [node depth all_ones out]. rewrite Hpath, Hp, Hd, Ho.
        rewrite length_app, forallb_app. cbn [length forallb]. rewrite andb_true_r.
        repeat split; try done. lia. }
      destruct (IH _ w' _ Hw1 H) as (p' & Hp' & Heq).
      exists p'. split; [done|]. rewrite <- Heq. cbn [out]. by rewrite <- app_assoc.
    + apply andb_true_iff in Hr as [Hlt Hcode%bool_decide_eq_true]. apply Nat.ltb_lt in Hlt.
      destruct (Nat.eqb_spec s EOS) as [|Hs]; [discriminate|]. apply Ok_inj in Ha. subst a.
      unfold EOS in Hs. rewrite u8_or_small in H by (unfold U8_MAX; lia).
      assert (at_path (mkWalk 0 0 true (out w ++ [Z.of_nat s])) []) as Hw1.
      { repeat split; [vm_compute; lia|]. apply octets_app; split; [done|]. repeat constructor; lia. }
      destruct (IH _ w' _ Hw1 H) as (p' & Hp' & Heq).
      exists p'. split; [done|]. rewrite <- Heq. cbn [out app]. unfold string_bits.
      rewrite flat_map_app. cbn [flat_map]. rewrite Nat2Z.id, Hcode, Hp, app_nil_r.
      by rewrite <- !app_assoc.
Qed.

Lemma all_true_replicate bits : forallb id bits = true -> bits = replicate (length bits) true.
Proof.
  induction bits as [|b bits IH]; [done|]. cbn [forallb length replicate]. rewrite andb_true_iff.
  intros [Hb Ht]. unfold id in Hb. subst b. f_equal. by apply IH.
Qed.

Lemma decode_iff_encode input s :
  octets input -> (decode input = Ok s <-> octets s /\ encode s = input).
Proof.
  intros Hi. unfold decode. rewrite walk_octets_bits. split.
  - intros H. inv_ok. assert (at_path start []) as Hstart.
    { repeat split; [vm_compute; lia | constructor]. }
    destruct (walk_bits_path _ _ _ _ Hstart Ha) as (p & (_ & Hp & Hd & Ho & Hout) & Heq).
    case_test; [discriminate|]. apply Ok_inj in H. subst s. split; [done|].
    apply orb_false_iff in Heqb as [Hdep Hones]. apply negb_false_iff in Hones.
    rewrite Ho in Hones. apply all_true_replicate in Hones. rewrite Hd in Hdep.
    destruct (encode_bits (out a) Hout) as (Hoct & pad & Hpad & Hbits).
    cbn [start out app] in Heq. rewrite Hones in Heq.
    change (string_bits [] ++ bits_of input) with (bits_of input) in Heq.
    apply bits_of_inj; [done..|]. rewrite Hbits, Heq. do 2 f_equal.
    apply (f_equal length) in Heq, Hbits. rewrite length_app, length_replicate, bits_of_length in *.
    lia.
  - intros [Hs <-]. destruct (encode_bits s Hs) as (_ & pad & Hpad & ->).
    unfold start. rewrite walk_string by done. destruct (ones_lead pad) as [m Hm]; [lia|].
    rewrite (walk_node _ (mkWalk 0 0 true ([] ++ s)) m Hm). cbn [res_bind depth all_ones out app].
    rewrite length_replicate. replace (forallb id (replicate pad true)) with true.
    + cbn [negb andb]. rewrite orb_false_r. destruct (Z.ltb_spec 7 (0 + Z.of_nat pad)); [lia|done].
    + clear. induction pad; done.
Qed.

Lemma huffman_decode_encode s : octets s -> decode (encode s) = Ok s.
Proof. intros H. apply decode_iff_encode; [by apply encode_bits | done]. Qed.

Lemma encode_octets s : octets s -> octets (encode s).
Proof. intros H. apply encode_bits, H. Qed.

Lemma string_bits_length s :
  length (string_bits s) = list_sum (map (fun octet => snd (code_of (Z.to_nat octet))) s).
Proof.
  induction s as [|b s IH]; [done|]. unfold string_bits in *. cbn [flat_map map].
  rewrite length_app, IH. unfold code_bits. by rewrite bits_low_length.
Qed.

(** The length said beforehand is the length the encoding has. *)
Lemma encoded_len_correct s : octets s -> encoded_len s = len (encode s).
Proof.
  intros H. destruct (encode_bits s H) as (_ & pad & Hpad & Hb).
  apply (f_equal length) in Hb. rewrite bits_of_length, length_app, length_replicate, string_bits_length in Hb.
  unfold encoded_len, len. symmetry. apply Z.div_unique with (Z.of_nat (7 - pad)); lia.
Qed.

(** C18. Decoding accepts exactly what encoding writes: octets decode to a
    string where, and only where, they are the one encoding of it. So a string
    comes back from its code, and no other octets — a code cut short, padded
    with other than ones or by a whole octet, or holding [EOS] — are read as
    a string at all. *)
Theorem accepts_its_code_alone input s :
  octets input -> (decode input = Ok s <-> octets s /\ encode s = input).
Proof. apply decode_iff_encode. Qed.

Lemma accepts_its_code_alone_witness :
  decode [0x64; 0x02] = Ok (lit "302") <-> octets (lit "302") /\ encode (lit "302") = [0x64; 0x02].
Proof. apply (accepts_its_code_alone [0x64; 0x02] (lit "302")). apply octets_check. reflexivity. Defined.

(** Appendix C.4 and C.6. *)
Example c_4_1 : encode (lit "www.example.com")
  = [0xf1; 0xe3; 0xc2; 0xe5; 0xf2; 0x3a; 0x6b; 0xa0; 0xab; 0x90; 0xf4; 0xff].
Proof. vm_compute. reflexivity. Qed.
Example eos_refused : decode [0xff; 0xff; 0xff; 0xff] = Err holds_eos.
Proof. vm_compute. reflexivity. Qed.
Example zeros_refused : decode [0] = Err bad_padding.
Proof. vm_compute. reflexivity. Qed.

End Huffman.
