(* ===== verification/HpackLiteral.v ===== *)
(** The string literal of RFC 7541 section 5.2
    ([src/http2/hpack/literal.rs]). *)

From Stdlib Require Import String.
From S2P Require Import Prelude Text Errors HpackInteger Huffman.

(** ** What a string literal is promised of the coding it may use *)

Class StringCode (encode : bytes -> bytes) (encoded_len : bytes -> Z)
    (decode : bytes -> result Violation bytes) : Prop := {
  code_round_trip s : octets s -> decode (encode s) = Ok s;
  code_length s : octets s -> encoded_len s = len (encode s);
}.

#[global] Instance huffman_string_code :
  StringCode Huffman.encode Huffman.encoded_len Huffman.decode.
Proof.
  split; intros s H.
  - by apply Huffman.huffman_decode_encode.
  - by apply Huffman.encoded_len_correct.
Qed.

Module Literal.

Definition encode (text : bytes) (huffman : bool) : bytes :=
  let coded := Huffman.encoded_len text in
  if huffman && (coded <=? len text) then
    Integer.encode coded 7 0x80 ++ Huffman.encode text
  else Integer.encode (len text) 7 0 ++ text.

Definition cut_short : Violation := Viol.compression (lit "the block ends inside a string").
Definition not_utf8 : Violation := Viol.compression (lit "a header string that is not UTF-8").

(** The string and the octets it took. *)
Definition decode (input : bytes) : result Violation (bytes * nat) :=
  let coded := match input with octet :: _ => negb (Z.land octet 0x80 =? 0) | [] => false end in
  let? (length_, at_) := Integer.decode input 7 in
  let? end_ := ok_or
    (let e := Z.of_nat at_ + length_ in
     if (e <=? USIZE_MAX) && (e <=? len input) then Some (Z.to_nat e) else None) cut_short in
  let raw := take (end_ - at_) (drop at_ input) in
  let? bytes := if coded then Huffman.decode raw else Ok raw in
  if utf8 bytes then Ok (bytes, end_) else Err not_utf8.

(** The flag's bit under a seven-bit prefix. *)
Lemma flag_bit x : 0 <= x <= 127 ->
  Z.land (Z.lor 0x80 x) 0x80 = 128 /\ Z.land (Z.lor 0 x) 0x80 = 0.
Proof.
  intros H. rewrite Z.lor_0_l.
  cut (((Z.land (Z.lor 0x80 x) 0x80 =? 128) && (Z.land x 0x80 =? 0)) = true).
  { rewrite andb_true_iff; lia. }
  check_range 128%nat x.
Qed.

(** A length and then that many octets, under either flag. *)
Lemma decode_raw (coded : bool) (raw text k : bytes) :
  len raw <= Integer.LARGEST ->
  (if coded then Huffman.decode raw else Ok raw) = Ok text -> utf8 text = true ->
  let flag := if coded then 0x80 else 0 in
  decode ((Integer.encode (len raw) 7 flag ++ raw) ++ k)
    = Ok (text, length (Integer.encode (len raw) 7 flag ++ raw)).
Proof.
  intros Hlen Hraw Hu flag. unfold decode.
  assert (Integer.flags_over flag 7) as Hflag
    by (destruct coded; (split; [unfold is_octet; simpl; lia | reflexivity])).
  pose proof (len_nonneg raw). rewrite <- (assoc_L (++)).
  rewrite Integer.integer_decode_encode by (done || lia). cbn [res_bind].
  replace (match _ with [] => false | _ => _ end) with coded.
  2:{ destruct (Integer.encode_first (len raw) 7 flag) as (x & l & -> & Hx); [lia..|]. cbn [app].
      destruct (flag_bit x) as [H1 H2]; [lia|]. unfold flag. destruct coded; [by rewrite H1 | by rewrite H2]. }
  set (i := Integer.encode _ _ _). replace (_ && _) with true.
  2:{ symmetry. rewrite andb_true_iff, !len_app. unfold USIZE_MAX, Integer.LARGEST, U32_MAX in *.
        pose proof (len_nonneg k). pose proof (Integer.encode_short (len raw) 7 flag) as Hi. fold i in Hi.
      unfold len in *. lia. }
  cbn [ok_or res_bind]. replace (Z.to_nat _) with (length (i ++ raw)) by (rewrite length_app; unfold len; lia).
  rewrite drop_app_length. replace (length (i ++ raw) - length i)%nat with (length raw) by (rewrite length_app; lia).
  rewrite take_app_length, Hraw. cbn [res_bind]. by rewrite Hu.
Qed.

Lemma literal_decode_encode text huffman k :
  utf8 text = true -> len text <= Integer.LARGEST ->
  decode (encode text huffman ++ k) = Ok (text, length (encode text huffman)).
Proof.
  intros Hu Hl. pose proof (utf8_octets _ Hu) as Ho. unfold encode.
  destruct (huffman && _) eqn:Hc.
  - apply andb_true_iff in Hc as [_ Hc]. rewrite code_length in * by done.
    apply (decode_raw true); [lia | by apply code_round_trip | done].
  - by apply (decode_raw false).
Qed.

(** A string takes no more octets than itself and its length. *)
Lemma literal_short text huffman : octets text -> len (encode text huffman) <= 11 + len text.
Proof.
  intros Ho. unfold encode. destruct (huffman && _) eqn:Hc; rewrite len_app.
  - apply andb_true_iff in Hc as [_ Hc]. apply Z.leb_le in Hc. rewrite (code_length text Ho) in Hc |- *.
    pose proof (Integer.encode_short (len (Huffman.encode text)) 7 0x80). lia.
  - pose proof (Integer.encode_short (len text) 7 0). lia.
Qed.

(** What is read is text, and it took one octet or more, all of the input. *)
Lemma literal_decode_bounds input text used :
  decode input = Ok (text, used) -> utf8 text = true /\ (1 <= used <= length input)%nat.
Proof.
  unfold decode. intros H. inv_ok. destruct a as [l n]. inv_ok.
  apply Integer.integer_decode_bounds in Ha as [Hl Hn]; [|lia..].
  destruct ((_ <=? USIZE_MAX) && (_ <=? len input)) eqn:Hb; [|discriminate].
  apply andb_true_iff in Hb. injection Ha0 as <-. unfold len in Hb.
  destruct (utf8 a0) eqn:Hu; [|discriminate]. apply Ok_inj in H. injection H as <- <-. split; [done|lia].
Qed.

(** A string written in either form is read back as itself, the octets
    it is said to have taken those written, whatever follows. *)
Lemma literal_round_trip text huffman k :
  utf8 text = true -> len text <= Integer.LARGEST ->
  decode (encode text huffman ++ k) = Ok (text, length (encode text huffman)).
Proof. apply literal_decode_encode. Qed.

Lemma literal_round_trip_witness : decode ([0x88; 0x25; 0xa8; 0x49; 0xe9; 0x5b; 0xa9; 0x7d; 0x7f] ++ [7])
  = Ok (lit "custom-key", 9%nat).
Proof. apply (literal_round_trip (lit "custom-key") true [7]); [reflexivity | vm_compute; congruence]. Defined.

End Literal.
