(* ===== verification/HpackTable.v ===== *)
(** The header table of RFC 7541 section 2.3 ([src/http2/hpack/table.rs]):
    the static table at indices 1 to 61, and the dynamic table after it,
    newest first. *)

From Stdlib Require Import String.
From S2P Require Import Prelude Errors HpackLiteral.


Module Table.

Definition STATIC : list field :=
  [(lit ":authority", []); (lit ":method", lit "GET"); (lit ":method", lit "POST");
   (lit ":path", lit "/"); (lit ":path", lit "/index.html"); (lit ":scheme", lit "http");
   (lit ":scheme", lit "https"); (lit ":status", lit "200"); (lit ":status", lit "204");
   (lit ":status", lit "206"); (lit ":status", lit "304"); (lit ":status", lit "400");
   (lit ":status", lit "404"); (lit ":status", lit "500"); (lit "accept-charset", []);
   (lit "accept-encoding", lit "gzip, deflate"); (lit "accept-language", []);
   (lit "accept-ranges", []); (lit "accept", []); (lit "access-control-allow-origin", []);
   (lit "age", []); (lit "allow", []); (lit "authorization", []); (lit "cache-control", []);
   (lit "content-disposition", []); (lit "content-encoding", []); (lit "content-language", []);
   (lit "content-length", []); (lit "content-location", []); (lit "content-range", []);
   (lit "content-type", []); (lit "cookie", []); (lit "date", []); (lit "etag", []);
   (lit "expect", []); (lit "expires", []); (lit "from", []); (lit "host", []);
   (lit "if-match", []); (lit "if-modified-since", []); (lit "if-none-match", []);
   (lit "if-range", []); (lit "if-unmodified-since", []); (lit "last-modified", []);
   (lit "link", []); (lit "location", []); (lit "max-forwards", []);
   (lit "proxy-authenticate", []); (lit "proxy-authorization", []); (lit "range", []);
   (lit "referer", []); (lit "refresh", []); (lit "retry-after", []); (lit "server", []);
   (lit "set-cookie", []); (lit "strict-transport-security", []); (lit "transfer-encoding", []);
   (lit "user-agent", []); (lit "vary", []); (lit "via", []); (lit "www-authenticate", [])].

Definition STATIC_LEN : Z := 61.

Definition OVERHEAD : Z := 32.

Inductive Found : Type :=
| Field (index : Z)
| Name (index : Z).

Record t : Type := mkTable {
  entries : list field;
  size : Z;
  max_size : Z;
}.

Definition new (max_size : Z) : t := mkTable [] 0 max_size.

Definition no_header (index : Z) : Violation :=
  Viol.compression (lit "no header at index " ++ dec index).

(** [checked_sub]: [None] under zero. *)
Definition checked_sub (a b : Z) : option Z := if b <=? a then Some (a - b) else None.

Definition get (self : t) (index : Z) : result Violation field :=
  match checked_sub index 1 ≫= (fun at_ => STATIC !! Z.to_nat at_) with
  | Some field => Ok field
  | None =>
      ok_or (checked_sub index (STATIC_LEN + 1) ≫= (fun at_ => entries self !! Z.to_nat at_))
            (no_header index)
  end.

Definition or_else {A} (a b : option A) : option A := match a with Some _ => a | None => b end.

Definition find (self : t) (name value : bytes) : option Found :=
  let at_static (at_ : nat) := Z.of_nat at_ + 1 in
  let at_dynamic (at_ : nat) := Z.of_nat at_ + STATIC_LEN + 1 in
  or_else ((fun p => Field (at_static p.1)) <$> list_find (fun f : field => f = (name, value)) STATIC)
  (or_else ((fun p => Field (at_dynamic p.1)) <$> list_find (fun f : field => f = (name, value)) (entries self))
  (or_else ((fun p => Name (at_static p.1)) <$> list_find (fun f : field => f.1 = name) STATIC)
           ((fun p => Name (at_dynamic p.1)) <$> list_find (fun f : field => f.1 = name) (entries self)))).

Definition cost (f : field) : Z := len f.1 + len f.2 + OVERHEAD.

(** [VecDeque::pop_back]. *)
Definition pop_back (l : list field) : option (list field * field) :=
  match rev l with [] => None | x :: r => Some (rev r, x) end.

(** [while self.size > room]: an entry comes off each turn, so as many turns
    as there are entries are enough. *)
Fixpoint evict_loop (turns : nat) (room : Z) (self : t) : t :=
  match turns with
  | O => self
  | S turns =>
      if room <? size self then
        match pop_back (entries self) with
        | Some (rest, f) => evict_loop turns room (mkTable rest (size self - cost f) (max_size self))
        | None => self
        end
      else self
  end.

Definition evict (self : t) (room : Z) : t := evict_loop (length (entries self)) room self.

Definition saturating_sub (a b : Z) : Z := Z.max 0 (a - b).

Definition insert (self : t) (name value : bytes) : t :=
  let c := len name + len value + OVERHEAD in
  let self := evict self (saturating_sub (max_size self) c) in
  if c <=? max_size self then mkTable ((name, value) :: entries self) (size self + c) (max_size self)
  else self.

Definition resize (self : t) (max_size : Z) : t :=
  evict (mkTable (entries self) (size self) max_size) max_size.

(** ** The table as section 4 says it: the newest entries that fit *)

Fixpoint total (l : list field) : Z :=
  match l with [] => 0 | f :: l => cost f + total l end.

Lemma total_app a b : total (a ++ b) = total a + total b.
Proof. induction a as [|f a IH]; simpl; lia. Qed.
Lemma cost_pos f : 32 <= cost f.
Proof. unfold cost, OVERHEAD. pose proof (len_nonneg f.1). pose proof (len_nonneg f.2). lia. Qed.
Lemma total_nonneg l : 0 <= total l.
Proof. induction l as [|f l IH]; simpl; [lia|]. pose proof (cost_pos f). lia. Qed.
Lemma total_count l : 32 * len l <= total l.
Proof. induction l as [|f l IH]; [done|]. rewrite len_cons. simpl total. pose proof (cost_pos f). lia. Qed.
Lemma total_prefix a b : a `prefix_of` b -> total a <= total b.
Proof. intros [k ->]. rewrite total_app. pose proof (total_nonneg k). lia. Qed.

(** [newest room l k]: of [l], newest first, [k] is as many as [room] holds. *)
Definition newest (room : Z) (l k : list field) : Prop :=
  k `prefix_of` l /\ total k <= room
  /\ forall k', k' `prefix_of` l -> total k' <= room -> k' `prefix_of` k.

(** The size kept is the size of what is kept, and it fits. *)
Definition wf (self : t) : Prop := size self = total (entries self) /\ size self <= max_size self.

Lemma evict_loop_newest turns room self :
  size self = total (entries self) -> 0 <= room -> (length (entries self) <= turns)%nat ->
  let self' := evict_loop turns room self in
  newest room (entries self) (entries self') /\ size self' = total (entries self')
  /\ max_size self' = max_size self.
Proof.
  revert self. induction turns as [|turns IH]; intros [l s m] Hs Hr Hn; cbn [entries size max_size] in *.
  - destruct l; [|simpl in Hn; lia]. cbn. by repeat split.
  - cbn [evict_loop entries size max_size]. destruct (Z.ltb_spec room s) as [Hlt|Hge].
    + unfold pop_back. destruct (rev l) as [|f r] eqn:Hrev.
      { apply (f_equal (@rev _)) in Hrev. rewrite rev_involutive in Hrev. subst. simpl in *. lia. }
      assert (l = rev r ++ [f]) as Hl by (by rewrite <- (rev_involutive l), Hrev).
      rewrite Hl, total_app in Hs. simpl in Hs. rewrite Hl, length_app in Hn. simpl in Hn.
      destruct (IH (mkTable (rev r) (s - cost f) m)) as ((Hp & Ht & Hmax) & Hsz & Hmx);
        cbn [entries size max_size]; [lia | done | lia |].
      cbn [entries max_size] in *. repeat split; [| done | | done | done].
      * rewrite Hl. etransitivity; [exact Hp | apply prefix_app_r; reflexivity].
      * intros k Hk Hkt. apply Hmax; [|done]. rewrite Hl in Hk.
        apply prefix_of_snoc in Hk as [Hk | ->]; [done|]. rewrite total_app in Hkt. simpl in Hkt. lia.
    + cbn [entries size max_size]. repeat split; [done | lia | by intros | done].
Qed.

Lemma evict_newest self room :
  size self = total (entries self) -> 0 <= room ->
  newest room (entries self) (entries (evict self room))
  /\ size (evict self room) = total (entries (evict self room))
  /\ max_size (evict self room) = max_size self.
Proof. intros Hs Hr. by apply evict_loop_newest. Qed.

(** Changing the table's size leaves the newest entries the new size
    holds, as many of them as it can hold (RFC 7541 section 4.3). *)
Lemma resize_newest_core self m :
  size self = total (entries self) -> 0 <= m ->
  newest m (entries self) (entries (resize self m))
  /\ wf (resize self m) /\ max_size (resize self m) = m.
Proof.
  intros Hs Hm. unfold resize.
  destruct (evict_newest (mkTable (entries self) (size self) m) m Hs Hm) as (Hn & Hsz & Hmx).
  cbn [entries max_size] in *. repeat split; [apply Hn.. | done | | done].
  rewrite Hsz, Hmx. apply Hn.
Qed.

(** Adding a field leaves the newest entries the table holds, the field
    the newest of them; one larger than the whole table empties it and is not
    added (RFC 7541 section 4.4). The size kept stays the size of what is
    kept, within the most allowed. *)
Lemma insert_newest_core self name value :
  wf self ->
  newest (max_size self) ((name, value) :: entries self) (entries (insert self name value))
  /\ wf (insert self name value) /\ max_size (insert self name value) = max_size self
  /\ (max_size self < cost (name, value) -> entries (insert self name value) = []).
Proof.
  intros [Hs Hm]. unfold insert. fold (cost (name, value)). change (len name + len value + OVERHEAD) with (cost (name, value)).
  set (c := cost (name, value)). pose proof (cost_pos (name, value)) as Hc. fold c in Hc.
  destruct (evict_newest self (saturating_sub (max_size self) c) Hs) as ((Hp & Ht & Hmax) & Hsz & Hmx).
  { unfold saturating_sub; lia. }
  unfold saturating_sub in *. rewrite Hmx. pose proof (total_nonneg (entries self)).
  destruct (Z.leb_spec c (max_size self)) as [Hle|Hgt]; cbn [entries size max_size].
  - split; [|repeat split; cbn [entries size max_size total]; fold c; lia || done].
    split; [by apply prefix_cons | split; [cbn [total]; fold c; lia|]].
    intros [|f k] Hk Hkt; [apply prefix_nil|]. pose proof (prefix_cons_inv_1 _ _ _ _ Hk) as ->.
    apply prefix_cons_inv_2 in Hk. apply prefix_cons. apply Hmax; [done|].
    cbn [total] in Hkt. fold c in Hkt. lia.
  - replace (Z.max 0 (max_size self - c)) with 0 in * by lia.
    assert (entries (evict self 0) = []) as He.
    { destruct (entries (evict self 0)) as [|f l]; [done|]. cbn [total] in Ht.
      pose proof (cost_pos f). pose proof (total_nonneg l). lia. }
    unfold wf. rewrite Hsz, Hmx, He. split; [|repeat split; simpl; lia || done].
    split; [apply prefix_nil | split; [simpl; lia|]].
    intros [|f k] Hk Hkt; [done|]. pose proof (prefix_cons_inv_1 _ _ _ _ Hk) as ->.
    cbn [total] in Hkt. fold c in Hkt. pose proof (total_nonneg k). lia.
Qed.

(** What a lookup finds is what is there. *)
Lemma find_get self name value :
  match find self name value with
  | Some (Field i) => get self i = Ok (name, value)
      /\ 1 <= i <= STATIC_LEN + len (entries self)
  | Some (Name i) => (exists v, get self i = Ok (name, v)) /\ 1 <= i <= STATIC_LEN + len (entries self)
  | None => True
  end.
Proof.
  assert (forall i f, STATIC !! i = Some f -> get self (Z.of_nat i + 1) = Ok f
    /\ 1 <= Z.of_nat i + 1 <= STATIC_LEN + len (entries self)) as Hstatic.
  { intros i f Hi. split.
    - unfold get, checked_sub. destruct (Z.leb_spec 1 (Z.of_nat i + 1)); [|lia]. cbn [mbind option_bind].
      replace (Z.to_nat _) with i by lia. by rewrite Hi.
    - apply lookup_lt_Some in Hi. cbn in Hi. pose proof (len_nonneg (entries self)). unfold STATIC_LEN. lia. }
  assert (forall i f, entries self !! i = Some f -> get self (Z.of_nat i + STATIC_LEN + 1) = Ok f
    /\ 1 <= Z.of_nat i + STATIC_LEN + 1 <= STATIC_LEN + len (entries self)) as Hdyn.
  { intros i f Hi. pose proof (lookup_lt_Some _ _ _ Hi). split; [|unfold len, STATIC_LEN; lia].
    unfold get, checked_sub, STATIC_LEN. destruct (Z.leb_spec 1 (Z.of_nat i + 61 + 1)); [|lia].
    destruct (Z.leb_spec (61 + 1) (Z.of_nat i + 61 + 1)); [|lia]. cbn [mbind option_bind].
    rewrite (lookup_ge_None_2 STATIC) by (cbn; lia). replace (Z.to_nat _) with i by lia. by rewrite Hi. }
  unfold find, or_else.
  destruct (list_find (fun f : field => f = (name, value)) STATIC) as [[i f]|] eqn:H1; cbn [fmap option_fmap option_map].
  { apply list_find_Some in H1 as (Hi & -> & _). by apply Hstatic. }
  destruct (list_find (fun f : field => f = (name, value)) (entries self)) as [[i f]|] eqn:H2; cbn [fmap option_fmap option_map].
  { apply list_find_Some in H2 as (Hi & -> & _). by apply Hdyn. }
  destruct (list_find (fun f : field => f.1 = name) STATIC) as [[i [n v]]|] eqn:H3; cbn [fmap option_fmap option_map].
  { apply list_find_Some in H3 as (Hi & Hf & _). cbn in Hf. subst n. destruct (Hstatic _ _ Hi). eauto. }
  destruct (list_find (fun f : field => f.1 = name) (entries self)) as [[i [n v]]|] eqn:H4; cbn [fmap option_fmap option_map]; [|done].
  apply list_find_Some in H4 as (Hi & Hf & _). cbn in Hf. subst n. destruct (Hdyn _ _ Hi). eauto.
Qed.

(** Every index names the same field in a table whose entries go on longer. *)
Lemma get_prefix a b i f : entries a `prefix_of` entries b -> get a i = Ok f -> get b i = Ok f.
Proof.
  intros [k Hk] H. unfold get in *. destruct (checked_sub i 1 ≫= _); [done|].
  apply ok_or_ok in H. destruct (checked_sub i (STATIC_LEN + 1)); [|done]. cbn [mbind option_bind] in *.
  rewrite Hk. by rewrite (lookup_app_l_Some _ _ _ _ H).
Qed.

(** C17. The dynamic table is what RFC 7541 section 4 says it is: after a
    field is added, or the size changed, it holds the newest entries that the
    most allowed has room for, each counted at its name, its value and 32, as
    many of them as fit; a field larger than the whole table leaves it empty;
    and the size kept is the size of what is held, never over the most. *)
Theorem holds_the_newest self :
  wf self ->
  (forall m, 0 <= m ->
     newest m (entries self) (entries (resize self m))
     /\ wf (resize self m) /\ max_size (resize self m) = m)
  /\ (forall name value,
     newest (max_size self) ((name, value) :: entries self) (entries (insert self name value))
     /\ wf (insert self name value) /\ max_size (insert self name value) = max_size self
     /\ (max_size self < cost (name, value) -> entries (insert self name value) = [])).
Proof.
  intros Hw. split; intros.
  - by apply resize_newest_core; [apply Hw|].
  - by apply insert_newest_core.
Qed.

Definition example_table : t := mkTable [(lit "b", lit "2"); (lit "a", lit "1")] 68 100.

Lemma holds_the_newest_witness :
  (forall m, 0 <= m ->
     newest m (entries example_table) (entries (resize example_table m))
     /\ wf (resize example_table m) /\ max_size (resize example_table m) = m)
  /\ (forall name value,
     newest 100 ((name, value) :: entries example_table) (entries (insert example_table name value))
     /\ wf (insert example_table name value) /\ max_size (insert example_table name value) = 100
     /\ (100 < cost (name, value) -> entries (insert example_table name value) = [])).
Proof. apply (holds_the_newest example_table). split; vm_compute; congruence. Defined.

(** What a search finds is what a lookup gives: the index of a whole
    field looks up that field, the index of a name looks up a field of that
    name, and every index found is of the table. *)
Lemma found_is_there self name value :
  match find self name value with
  | Some (Field i) => get self i = Ok (name, value) /\ 1 <= i <= STATIC_LEN + len (entries self)
  | Some (Name i) => (exists v, get self i = Ok (name, v)) /\ 1 <= i <= STATIC_LEN + len (entries self)
  | None => True
  end.
Proof. apply find_get. Qed.

End Table.
