(* ===== verification/Hpack.v ===== *)
(** HPACK's two sides ([src/http2/hpack/encoder.rs],
    [src/http2/hpack/decoder.rs]): a header list written as a block and read
    back, each side keeping its own dynamic table in step with the other's. *)

From Stdlib Require Import String.
From S2P Require Import Prelude Text Errors HpackInteger HpackLiteral HpackTable.

Module Encoder.

Record t : Type := mkEncoder {
  table : Table.t;
  huffman : bool;
  pending : option Z;
}.

Definition new (max_size : Z) (huffman : bool) : t := mkEncoder (Table.new max_size) huffman None.

Definition resize (self : t) (max_size : Z) : t :=
  if negb (max_size =? Table.max_size (table self)) then
    mkEncoder (Table.resize (table self) max_size) (huffman self) (Some max_size)
  else self.

(** The body of the loop of [encode]: what one field appends. *)
Definition encode_field (self : t) (f : field) : bytes * t :=
  let '(name, value) := f in
  match Table.find (table self) name value with
  | Some (Table.Field index) => (Integer.encode index 7 0x80, self)
  | Some (Table.Name index) =>
      (Integer.encode index 6 0x40 ++ Literal.encode value (huffman self),
       mkEncoder (Table.insert (table self) name value) (huffman self) (pending self))
  | None =>
      ([0x40] ++ Literal.encode name (huffman self) ++ Literal.encode value (huffman self),
       mkEncoder (Table.insert (table self) name value) (huffman self) (pending self))
  end.

Fixpoint encode_fields (self : t) (fields : list field) : bytes * t :=
  match fields with
  | [] => ([], self)
  | f :: fields =>
      let '(out, self) := encode_field self f in
      let '(rest, self) := encode_fields self fields in
      (out ++ rest, self)
  end.

(** [fields] as one header block. *)
Definition encode (self : t) (fields : list field) : bytes * t :=
  let out := match pending self with Some size => Integer.encode size 5 0x20 | None => [] end in
  let self := mkEncoder (table self) (huffman self) None in
  let '(rest, self) := encode_fields self fields in
  (out ++ rest, self).

End Encoder.

Module Decoder.

Record t : Type := mkDecoder { table : Table.t; limit : Z }.

Definition new (limit : Z) : t := mkDecoder (Table.new limit) limit.

Definition update_late : Violation := Viol.compression (lit "a table size update after the first field").
Definition update_over (size limit : Z) : Violation :=
  Viol.compression (lit "a table size of " ++ dec size ++ lit ", over the " ++ dec limit ++ lit " announced").

Definition literal (self : t) (input : bytes) (prefix : Z) : result Violation (bytes * bytes * nat) :=
  let? (index, at_) := Integer.decode input prefix in
  let? (name, at_) :=
    if index =? 0 then
      let? (name, used) := Literal.decode (drop at_ input) in Ok (name, (at_ + used)%nat)
    else let? f := Table.get (table self) index in Ok (fst f, at_) in
  let? (value, used) := Literal.decode (drop at_ input) in
  Ok (name, value, (at_ + used)%nat).

(** The body of the loop of [decode] at [rest]: the fields so far with what
    it added, and the octets it took. *)
Definition decode_one (rest : bytes) (fields : list field) (self : t) :
    result Violation (list field * nat) * t :=
  let first := hd 0 rest in
  if negb (Z.land first 0x80 =? 0) then
    ((let? (index, used) := Integer.decode rest 7 in
      let? f := Table.get (table self) index in
      Ok (fields ++ [f], used)), self)
  else if negb (Z.land first 0x40 =? 0) then
    match literal self rest 6 with
    | Ok (name, value, used) =>
        (Ok (fields ++ [(name, value)], used),
         mkDecoder (Table.insert (table self) name value) (limit self))
    | Err v => (Err v, self)
    end
  else if negb (Z.land first 0x20 =? 0) then
    match fields with
    | _ :: _ => (Err update_late, self)
    | [] =>
        match Integer.decode rest 5 with
        | Err v => (Err v, self)
        | Ok (size, used) =>
            if limit self <? size then (Err (update_over size (limit self)), self)
            else (Ok (fields, used), mkDecoder (Table.resize (table self) size) (limit self))
        end
    end
  else
    ((let? (name, value, used) := literal self rest 4 in
      Ok (fields ++ [(name, value)], used)), self).

(** [while at < block.len()]: the block from [at], stepping over the [skip]
    octets the last field still took. *)
Fixpoint decode_loop (rest : bytes) (skip : nat) (fields : list field) (self : t) :
    result Violation (list field) * t :=
  match rest with
  | [] => (Ok fields, self)
  | _ :: tl =>
      match skip with
      | S skip => decode_loop tl skip fields self
      | O =>
          match decode_one rest fields self with
          | (Ok (fields, used), self) => decode_loop tl (pred used) fields self
          | (Err v, self) => (Err v, self)
          end
      end
  end.

Definition decode (block : bytes) : M t Violation (list field) :=
  fun self => decode_loop block 0 [] self.

(** ** The loop as the source writes it *)

Lemma decode_loop_drop rest : forall skip fields self,
  decode_loop rest skip fields self = decode_loop (drop skip rest) 0 fields self.
Proof.
  induction rest as [|b rest IH]; intros [|skip] fields self; try done. cbn [decode_loop drop]. apply IH.
Qed.

(** A turn of the loop moves on by what its field took. *)
Lemma decode_loop_turn rest fields self :
  rest <> [] ->
  decode_loop rest 0 fields self =
    match decode_one rest fields self with
    | (Ok (fields, used), self) => decode_loop (drop (Nat.max 1 used) rest) 0 fields self
    | (Err v, self) => (Err v, self)
    end.
Proof.
  destruct rest as [|b rest]; [done|]. intros _. cbn [decode_loop].
  destruct (decode_one _ _ _) as [[[f used]|v] s]; [|done].
  rewrite decode_loop_drop. by destruct used as [|[|used]].
Qed.

Lemma literal_bounds self input prefix name value used :
  0 <= prefix <= 32 -> literal self input prefix = Ok (name, value, used) ->
  (1 <= used <= length input)%nat.
Proof.
  unfold literal. intros Hp H. inv_ok. destruct a as [index at_]. inv_ok. destruct a as [n at1].
  inv_ok. destruct a as [v u]. apply Ok_inj in H. injection H as <- <- <-.
  apply Integer.integer_decode_bounds in Ha as [_ Hb]; [|lia..].
  apply Literal.literal_decode_bounds in Ha1 as [_ Hu]. rewrite length_drop in Hu.
  destruct (index =? 0); inv_ok.
  - destruct a as [n' u']. apply Ok_inj in Ha0. injection Ha0 as <- <-. lia.
  - injection Ha0 as <- <-. lia.
Qed.

(** Every turn takes one octet or more: [while at < block.len()] ends. *)
Lemma decode_one_takes rest fields self fields' used self' :
  rest <> [] -> decode_one rest fields self = (Ok (fields', used), self') -> (1 <= used <= length rest)%nat.
Proof.
  unfold decode_one. intros Hr H. repeat case_test.
  - destruct (Integer.decode rest 7) as [[i u]|] eqn:Hi; [|discriminate]. cbn [res_bind] in H.
    destruct (Table.get _ _); [|discriminate]. injection H as <- <- <-.
    apply Integer.integer_decode_bounds in Hi; lia.
  - destruct (literal self rest 6) as [[[n v] u]|] eqn:Hl; [|discriminate]. injection H as <- <- <-.
    eapply literal_bounds; [|exact Hl]. lia.
  - destruct fields; [|discriminate]. destruct (Integer.decode rest 5) as [[i u]|] eqn:Hi; [|discriminate].
    case_test; [discriminate|]. injection H as <- <- <-. apply Integer.integer_decode_bounds in Hi; lia.
  - destruct (literal self rest 4) as [[[n v] u]|] eqn:Hl; [|discriminate]. cbn [res_bind] in H. injection H as <- <- <-.
    eapply literal_bounds; [|exact Hl]. lia.
Qed.

(** ** The decoder's table *)

Definition wf (self : t) : Prop :=
  Table.wf (table self) /\ Table.max_size (table self) <= limit self /\ 0 <= Table.max_size (table self).

Lemma wf_new limit : 0 <= limit -> wf (new limit).
Proof. intros H. repeat split; cbn; lia. Qed.

Lemma wf_insert self name value :
  wf self -> wf (mkDecoder (Table.insert (table self) name value) (limit self)).
Proof.
  intros (Hw & Hl & Hm). destruct (Table.insert_newest_core _ name value Hw) as (_ & Hw' & Hmx & _).
  unfold wf. cbn [table limit]. rewrite Hmx. done.
Qed.

Lemma wf_resize self m :
  wf self -> 0 <= m <= limit self -> wf (mkDecoder (Table.resize (table self) m) (limit self)).
Proof.
  intros (Hw & Hl & Hm) H. destruct (Table.resize_newest_core (table self) m) as (_ & Hw' & Hmx);
    [apply Hw | lia|]. unfold wf. cbn [table limit]. rewrite Hmx. split; [done | lia].
Qed.

Lemma decode_one_wf rest fields self r self' :
  wf self -> decode_one rest fields self = (r, self') -> wf self' /\ limit self' = limit self.
Proof.
  unfold decode_one. intros Hw H. repeat case_test; try (by injection H as <- <-).
  - destruct (literal self rest 6) as [[[n v] u]|]; injection H as <- <-; [|done].
    split; [by apply wf_insert | done].
  - destruct fields; [|by injection H as <- <-].
    destruct (Integer.decode rest 5) as [[size u]|] eqn:Hi; [|by injection H as <- <-].
    apply Integer.integer_decode_bounds in Hi as [Hb _]; [|lia..].
    destruct (Z.ltb_spec (limit self) size); injection H as <- <-; [done|].
    split; [apply wf_resize; [done|lia] | done].
Qed.

Lemma decode_loop_wf rest : forall skip fields self r self',
  wf self -> decode_loop rest skip fields self = (r, self') -> wf self' /\ limit self' = limit self.
Proof.
  induction rest as [|b rest IH]; intros skip fields self r self' Hw H; cbn [decode_loop] in H.
  - by injection H as <- <-.
  - destruct skip as [|skip]; [|by eapply IH].
    destruct (decode_one _ _ _) as [[[f u]|v] s] eqn:H1; apply decode_one_wf in H1 as [Hw1 Hl1]; try done.
    + apply IH in H as [H2 H3]; [|done]. split; [done | congruence].
    + injection H as <- <-. done.
Qed.

(** C16. Whatever octets a peer sends as a header block, and whether they are
    read or refused, the decoder's table never passes the size this side
    announced, and the size it keeps is the size of what it holds. *)
Theorem table_stays_under_the_limit block self r self' :
  wf self -> decode block self = (r, self') ->
  wf self' /\ limit self' = limit self /\ Table.size (table self') <= limit self.
Proof.
  intros Hw H. apply decode_loop_wf in H as [Hw' Hl]; [|done]. repeat split; try apply Hw'; [done|].
  destruct Hw' as ([_ ?] & ? & ?). lia.
Qed.

Lemma table_stays_under_the_limit_witness :
  wf (mkDecoder (Table.resize (Table.new 4096) 0) 4096) /\ 4096 = limit (new 4096)
  /\ Table.size (Table.resize (Table.new 4096) 0) <= 4096.
Proof.
  apply (table_stays_under_the_limit [0x20; 0x3f; 0xe2; 0x1f] (new 4096) (Err (update_over 4097 4096))).
  - repeat split; cbn; lia.
  - reflexivity.
Defined.

End Decoder.

(** ** The two sides in step *)

Module Sync.
Import Encoder.

Definition field_ok (f : field) : Prop :=
  utf8 f.1 = true /\ utf8 f.2 = true /\ len f.1 <= Integer.LARGEST /\ len f.2 <= Integer.LARGEST.

Definition field_okb (f : field) : bool :=
  utf8 f.1 && utf8 f.2 && (len f.1 <=? Integer.LARGEST) && (len f.2 <=? Integer.LARGEST).
Lemma fields_check fields : forallb field_okb fields = true -> Forall field_ok fields.
Proof.
  intros H. apply List.Forall_forall. intros f Hf. rewrite List.forallb_forall in H. specialize (H f Hf).
  unfold field_okb in H. apply andb_true_iff in H as [H H4]. apply andb_true_iff in H as [H H3].
  apply andb_true_iff in H as [H1 H2]. unfold field_ok. by rewrite <- !Z.leb_le.
Qed.

(** What the encoder holds, the decoder holds first: an index the encoder
    writes names the same field on the other side. A size the encoder took
    and has not announced is one the decoder will be told. *)
Record in_step (e : Encoder.t) (d : Decoder.t) : Prop := {
  e_wf : Table.wf (table e);
  e_room : 0 <= Table.max_size (table e) <= Decoder.limit d;
  d_wf : Decoder.wf d;
  d_limit : Decoder.limit d <= U32_MAX;
  held_first : Table.entries (table e) `prefix_of` Table.entries (Decoder.table d);
  announced : match pending e with
              | None => Table.max_size (table e) = Table.max_size (Decoder.table d)
              | Some size => size = Table.max_size (table e)
              end;
}.

Lemma newest_prefix room l l' k k' :
  l `prefix_of` l' -> Table.newest room l k -> Table.newest room l' k' -> k `prefix_of` k'.
Proof.
  intros Hl (Hk & Ht & _) (_ & _ & Hmax). apply Hmax; [|done]. by transitivity l.
Qed.

Lemma in_step_insert e d name value :
  in_step e d -> pending e = None ->
  in_step (mkEncoder (Table.insert (table e) name value) (huffman e) (pending e))
          (Decoder.mkDecoder (Table.insert (Decoder.table d) name value) (Decoder.limit d)).
Proof.
  intros [Hew Her Hdw Hdl Hp Ha] Hpend. rewrite Hpend in Ha.
  destruct (Table.insert_newest_core (table e) name value Hew) as (Hn & Hw & Hm & _).
  destruct (Table.insert_newest_core (Decoder.table d) name value (proj1 Hdw)) as (Hn' & Hw' & Hm' & _).
  split; cbn [table huffman pending Decoder.table Decoder.limit]; try done.
  - by rewrite Hm.
  - by apply Decoder.wf_insert.
  - rewrite Ha in Hn. eapply newest_prefix; [|exact Hn|exact Hn']. by apply prefix_cons.
  - rewrite Hpend. congruence.
Qed.

Lemma in_step_resize e d m :
  in_step e d -> 0 <= m <= Decoder.limit d -> in_step (Encoder.resize e m) d.
Proof.
  intros H Hm. unfold Encoder.resize. case_test; [|done]. destruct H as [Hew Her Hdw Hdl Hp Ha].
  destruct (Table.resize_newest_core (table e) m (proj1 Hew)) as (Hn & Hw & Hmx); [lia|].
  split; cbn [table huffman pending]; try done; [by rewrite Hmx|].
  transitivity (Table.entries (table e)); [apply Hn | exact Hp].
Qed.

(** The first octet of each representation. *)
Lemma first_0x80 x : 0 <= x <= 127 -> Z.land (Z.lor 0x80 x) 0x80 = 128.
Proof. intros. apply Z.eqb_eq. check_range 128%nat x. Qed.
Lemma first_0x40 x : 0 <= x <= 63 ->
  Z.land (Z.lor 0x40 x) 0x80 = 0 /\ Z.land (Z.lor 0x40 x) 0x40 = 64.
Proof.
  intros. cut (((Z.land (Z.lor 0x40 x) 0x80 =? 0) && (Z.land (Z.lor 0x40 x) 0x40 =? 64)) = true).
  { rewrite andb_true_iff; lia. }
  check_range 64%nat x.
Qed.
Lemma first_0x20 x : 0 <= x <= 31 ->
  Z.land (Z.lor 0x20 x) 0x80 = 0 /\ Z.land (Z.lor 0x20 x) 0x40 = 0 /\ Z.land (Z.lor 0x20 x) 0x20 = 32.
Proof.
  intros. cut (((Z.land (Z.lor 0x20 x) 0x80 =? 0) && (Z.land (Z.lor 0x20 x) 0x40 =? 0)
    && (Z.land (Z.lor 0x20 x) 0x20 =? 32)) = true).
  { rewrite !andb_true_iff; lia. }
  check_range 32%nat x.
Qed.

Lemma flags_ok f p : is_octetb f && (Z.land f (2 ^ p - 1) =? 0) = true -> Integer.flags_over f p.
Proof. rewrite andb_true_iff, is_octetb_spec, Z.eqb_eq. done. Qed.

(** The literal of a name that was found, and of one that was not. *)
Lemma decode_literal_name d index name v value h k :
  1 <= index <= Integer.LARGEST -> Table.get (Decoder.table d) index = Ok (name, v) ->
  utf8 value = true -> len value <= Integer.LARGEST ->
  Decoder.literal d ((Integer.encode index 6 0x40 ++ Literal.encode value h) ++ k) 6
    = Ok (name, value, length (Integer.encode index 6 0x40 ++ Literal.encode value h)).
Proof.
  intros Hi Hg Hu Hl. unfold Decoder.literal. rewrite <- (assoc_L (++)).
  rewrite Integer.integer_decode_encode by (lia || by apply flags_ok). cbn [res_bind].
  destruct (Z.eqb_spec index 0); [lia|]. rewrite Hg. cbn [res_bind fst].
  rewrite drop_app_length, Literal.literal_decode_encode by done. cbn [res_bind]. by rewrite length_app.
Qed.

Lemma decode_literal_new d name value h k :
  field_ok (name, value) ->
  Decoder.literal d (([0x40] ++ Literal.encode name h ++ Literal.encode value h) ++ k) 6
    = Ok (name, value, length ([0x40] ++ Literal.encode name h ++ Literal.encode value h)).
Proof.
  intros (Hn & Hv & Hln & Hlv). unfold Decoder.literal. cbn [fst snd] in *.
  assert (forall l, Integer.decode ([0x40] ++ l) 6 = Ok (0, 1%nat)) as Hd.
  { intros l. apply (Integer.integer_decode_encode 0 6 0x40 l); [unfold Integer.LARGEST, U32_MAX; lia | lia | by apply flags_ok]. }
  rewrite <- (assoc_L (++)), Hd. cbn [res_bind Z.eqb]. cbn [app drop].
  rewrite drop_0, <- (assoc_L (++)), Literal.literal_decode_encode by done. cbn [res_bind].
  change (drop (1 + ?n) (0x40 :: ?l)) with (drop n l).
  rewrite drop_app_length, Literal.literal_decode_encode by done. cbn [res_bind]. rewrite length_cons, length_app. done.
Qed.

(** An index of the encoder's table fits the integer it is written as. *)
Lemma index_fits e d i :
  in_step e d -> 1 <= i <= Table.STATIC_LEN + len (Table.entries (table e)) -> 1 <= i <= Integer.LARGEST.
Proof.
  intros H Hi. destruct H as [[Hs Hm] Her _ Hdl _ _].
  pose proof (Table.total_count (Table.entries (table e))).
  unfold Table.STATIC_LEN, Integer.LARGEST, U32_MAX in *. lia.
Qed.

(** One field written is one turn of the decoder's loop, which reads it and
    keeps the tables in step. *)
Lemma field_turn e d f fields k out e' :
  in_step e d -> pending e = None -> field_ok f -> encode_field e f = (out, e') ->
  exists d', Decoder.decode_one (out ++ k) fields d = (Ok (fields ++ [f], length out), d')
    /\ in_step e' d' /\ pending e' = None /\ (1 <= length out)%nat.
Proof.
  intros Hin Hpend Hok H. destruct f as [name value]. unfold encode_field in H.
  pose proof (Table.find_get (table e) name value) as Hfound.
  destruct (Table.find (table e) name value) as [[i|i]|]; injection H as <- <-.
  - destruct Hfound as [Hg Hi]. apply (index_fits _ _ _ Hin) in Hi.
    apply (Table.get_prefix _ (Decoder.table d)) in Hg; [|apply Hin].
    exists d. split; [|split; [done|split; [done|]]].
    + unfold Decoder.decode_one.
      destruct (Integer.encode_first i 7 0x80) as (x & l & He & Hx); [lia..|].
      assert (hd 0 (Integer.encode i 7 0x80 ++ k) = Z.lor 0x80 x) as -> by (by rewrite He).
      rewrite first_0x80 by lia. cbn [Z.eqb negb].
      rewrite Integer.integer_decode_encode by (lia || by apply flags_ok). cbn [res_bind]. by rewrite Hg.
    + destruct (Integer.encode_nonempty i 7 0x80) as (b & l & ->). simpl; lia.
  - destruct Hfound as [[v Hg] Hi]. apply (index_fits _ _ _ Hin) in Hi.
    apply (Table.get_prefix _ (Decoder.table d)) in Hg; [|apply Hin].
    destruct Hok as (Hn & Hv & Hln & Hlv). cbn [fst snd] in *.
    eexists. split; [|split; [by apply in_step_insert | split; [done|]]].
    + unfold Decoder.decode_one.
      destruct (Integer.encode_first i 6 0x40) as (x & l & He & Hx); [lia..|].
      assert (hd 0 ((Integer.encode i 6 0x40 ++ Literal.encode value (huffman e)) ++ k) = Z.lor 0x40 x)
        as -> by (by rewrite He).
      destruct (first_0x40 x) as [-> ->]; [lia|]. cbn [Z.eqb negb].
      by rewrite (decode_literal_name d i name v value).
    + destruct (Integer.encode_nonempty i 6 0x40) as (b & l & ->). simpl; lia.
  - eexists. split; [|split; [by apply in_step_insert | split; [done|simpl; lia]]].
    unfold Decoder.decode_one. cbn [app hd]. cbn [Z.land Z.eqb negb Pos.land].
    change (0x40 :: ?l) with ([0x40] ++ l). rewrite (assoc_L (++)).
    by rewrite (decode_literal_new d name value).
Qed.

Lemma fields_loop fields : forall e d done out e',
  in_step e d -> pending e = None -> Forall field_ok fields -> encode_fields e fields = (out, e') ->
  exists d', Decoder.decode_loop out 0 done d = (Ok (done ++ fields), d')
    /\ in_step e' d' /\ pending e' = None.
Proof.
  induction fields as [|f fields IH]; intros e d done out e' Hin Hpend Hok H; cbn [encode_fields] in H.
  - injection H as <- <-. exists d. cbn. by rewrite app_nil_r.
  - inversion_clear Hok as [|? ? Hf Hfs].
    destruct (encode_field e f) as [o1 e1] eqn:H1. destruct (encode_fields e1 fields) as [o2 e2] eqn:H2.
    injection H as <- <-.
    destruct (field_turn e d f done o2 o1 e1 Hin Hpend Hf H1) as (d1 & Hd1 & Hin1 & Hp1 & Hlen).
    destruct (IH e1 d1 (done ++ [f]) o2 e2 Hin1 Hp1 Hfs H2) as (d2 & Hd2 & Hin2 & Hp2).
    exists d2. split; [|done]. rewrite Decoder.decode_loop_turn by (destruct o1; [simpl in Hlen; lia | done]).
    rewrite Hd1. replace (Nat.max 1 (length o1)) with (length o1) by lia.
    rewrite drop_app_length, Hd2. by rewrite <- (assoc_L (++)).
Qed.

(** The size a block opens with. *)
Lemma update_turn e d size k :
  in_step e d -> pending e = Some size ->
  let out := Integer.encode size 5 0x20 in
  exists d', Decoder.decode_one (out ++ k) [] d = (Ok ([], length out), d')
    /\ in_step (mkEncoder (table e) (huffman e) None) d' /\ out <> [].
Proof.
  intros Hin Hpend out. destruct Hin as [Hew Her Hdw Hdl Hp Ha]. rewrite Hpend in Ha. subst size.
  set (m := Table.max_size (table e)) in *. unfold U32_MAX in *.
  destruct (Table.resize_newest_core (Decoder.table d) m) as (Hn & Hw & Hmx); [apply Hdw | lia |].
  exists (Decoder.mkDecoder (Table.resize (Decoder.table d) m) (Decoder.limit d)). split; [|split].
  - unfold Decoder.decode_one, out.
    destruct (Integer.encode_first m 5 0x20) as (x & l & He & Hx); [lia..|].
    assert (hd 0 (Integer.encode m 5 0x20 ++ k) = Z.lor 0x20 x) as -> by (by rewrite He).
    destruct (first_0x20 x) as (-> & -> & ->); [lia|]. cbn [Z.eqb negb].
    rewrite Integer.integer_decode_encode by (unfold Integer.LARGEST, U32_MAX; lia || by apply flags_ok).
    by destruct (Z.ltb_spec (Decoder.limit d) m); [lia|].
  - split; cbn [table huffman pending Decoder.table Decoder.limit]; try done.
    + by apply Decoder.wf_resize.
    + apply Hn; [done|]. destruct Hew as [Hs Hle]. lia.
  - unfold out. destruct (Integer.encode_nonempty m 5 0x20) as (b & l & ->). done.
Qed.

(** A block written on one side is read on the other as the list it was
    written from, and the sides stay in step. *)
Lemma block_read e d fields :
  in_step e d -> Forall field_ok fields ->
  let '(block, e') := Encoder.encode e fields in
  exists d', Decoder.decode block d = (Ok fields, d') /\ in_step e' d'.
Proof.
  intros Hin Hok. unfold Encoder.encode, Decoder.decode.
  destruct (encode_fields _ fields) as [rest e'] eqn:Hf.
  destruct (pending e) as [size|] eqn:Hpend.
  - destruct (update_turn e d size rest Hin Hpend) as (d1 & Hd1 & Hin1 & Hne).
    destruct (fields_loop fields _ d1 [] rest e' Hin1 eq_refl Hok Hf) as (d2 & Hd2 & Hin2 & _).
    exists d2. split; [|done]. revert Hd1 Hne. generalize (Integer.encode size 5 0x20).
    intros out Hd1 Hne. rewrite Decoder.decode_loop_turn by (by destruct out). rewrite Hd1.
    replace (Nat.max 1 (length out)) with (length out) by (destruct out; [done | simpl; lia]).
    by rewrite drop_app_length, Hd2.
  - assert (mkEncoder (table e) (huffman e) None = e) as He by (destruct e; cbn in *; congruence).
    rewrite He in Hf. destruct (fields_loop fields e d [] rest e' Hin Hpend Hok Hf) as (d2 & Hd2 & Hin2 & _).
    exists d2. by rewrite app_nil_l, Hd2.
Qed.

(** A block is never much more than the list it is written from. *)
Lemma field_small e f : field_ok f -> len (encode_field e f).1 <= Table.cost f.
Proof.
  destruct f as [name value]. intros (Hn & Hv & _ & _). cbn [fst snd] in Hn, Hv. apply utf8_octets in Hn, Hv.
  unfold encode_field, Table.cost, Table.OVERHEAD. cbn [fst snd].
  pose proof (len_nonneg name). pose proof (len_nonneg value).
  pose proof (Literal.literal_short name (huffman e) Hn). pose proof (Literal.literal_short value (huffman e) Hv).
  destruct (Table.find _ name value) as [[i|i]|]; cbn [fst].
  - pose proof (Integer.encode_short i 7 0x80). lia.
  - rewrite len_app. pose proof (Integer.encode_short i 6 0x40). lia.
  - rewrite !len_app. change (len [0x40]) with 1. lia.
Qed.

Lemma encode_small e fields :
  Forall field_ok fields -> len (Encoder.encode e fields).1 <= 11 + Table.total fields.
Proof.
  intros Hf.
  assert (forall e, len (encode_fields e fields).1 <= Table.total fields) as Hs.
  { induction Hf as [|f fields Hf0 Hf IH]; intros e0; [done|]. cbn [encode_fields Table.total].
    pose proof (field_small e0 f Hf0) as H1. destruct (encode_field e0 f) as [out e1].
    specialize (IH e1). destruct (encode_fields e1 fields) as [rest e2]. cbn [fst] in *. rewrite len_app. lia. }
  unfold Encoder.encode. specialize (Hs (mkEncoder (table e) (huffman e) None)).
  destruct (encode_fields _ fields) as [rest e']. cbn [fst] in *. rewrite len_app.
  destruct (pending e) as [size|]; [pose proof (Integer.encode_short size 5 0x20); lia | rewrite len_nil; lia].
Qed.

(** ** A whole conversation *)

(** What a connection asks of its encoder: a table size the peer's settings
    allow, or a header block to send. *)
Inductive event : Type :=
| Resize (m : Z)
| Block (fields : list field).

Definition event_ok (limit : Z) (ev : event) : Prop :=
  match ev with
  | Resize m => 0 <= m <= limit
  | Block fields => Forall field_ok fields
  end.

(** The lists sent, and the lists the other side reads, block by block. *)
Fixpoint converse (evs : list event) (e : Encoder.t) (d : Decoder.t) :
    list (list field) * list (result Violation (list field)) :=
  match evs with
  | [] => ([], [])
  | Resize m :: evs => converse evs (Encoder.resize e m) d
  | Block fields :: evs =>
      let '(block, e) := Encoder.encode e fields in
      let '(read, d) := Decoder.decode block d in
      let '(sent, got) := converse evs e d in
      (fields :: sent, read :: got)
  end.

Lemma converse_in_step evs : forall e d,
  in_step e d -> Forall (event_ok (Decoder.limit d)) evs ->
  (converse evs e d).2 = map Ok (converse evs e d).1.
Proof.
  induction evs as [|[m|fields] evs IH]; intros e d Hin Hok; cbn [converse]; [done| |];
    inversion_clear Hok as [|? ? Hev Hevs].
  - apply IH; [by apply in_step_resize | done].
  - pose proof (block_read e d fields Hin Hev) as Hb.
    destruct (Encoder.encode e fields) as [block e']. destruct Hb as (d' & Hd & Hin').
    assert (Decoder.limit d' = Decoder.limit d) as Hl.
    { apply (Decoder.decode_loop_wf block 0 [] d (Ok fields) d'); [apply Hin | exact Hd]. }
    rewrite Hd. specialize (IH e' d' Hin'). rewrite Hl in IH. specialize (IH Hevs).
    destruct (converse evs e' d') as [sent got]. cbn [fst snd map] in *. by rewrite IH.
Qed.

Lemma in_step_new m h limit : 0 <= m <= limit -> limit <= U32_MAX -> m = limit ->
  in_step (Encoder.new m h) (Decoder.new limit).
Proof.
  intros Hm Hl ->. split; cbn; try done.
  - split; cbn; lia.
  - apply Decoder.wf_new; lia.
Qed.

(** C5. Every header block an encoder writes is read by the decoder at the
    other end as the very list it was written from — names and values in
    order, indexed or literal, raw or Huffman-coded — for as many blocks as
    the connection carries, with whatever evictions they cause, and however
    often the encoder's table is resized between them under the size the
    decoder announced: the tables never fall out of step. *)
Theorem every_block_is_read limit huffman evs :
  0 <= limit <= U32_MAX -> Forall (event_ok limit) evs ->
  let '(sent, got) := converse evs (Encoder.new limit huffman) (Decoder.new limit) in
  got = map Ok sent.
Proof.
  intros Hl Hok.
  pose proof (converse_in_step evs (Encoder.new limit huffman) (Decoder.new limit)) as H.
  destruct (converse evs _ _) as [sent got]. apply H; [apply in_step_new; lia | done].
Qed.

Lemma every_block_is_read_witness :
  let evs := [Block [(lit ":method", lit "GET"); (lit "x-a", lit "1")]; Resize 0; Resize 60;
              Block [(lit "x-a", lit "1"); (lit "x-b", lit "2")]; Block [(lit "x-b", lit "2")]] in
  let '(sent, got) := converse evs (Encoder.new 4096 true) (Decoder.new 4096) in
  got = map Ok sent.
Proof.
  apply (every_block_is_read 4096 true
    [Block [(lit ":method", lit "GET"); (lit "x-a", lit "1")]; Resize 0; Resize 60;
     Block [(lit "x-a", lit "1"); (lit "x-b", lit "2")]; Block [(lit "x-b", lit "2")]]).
  - unfold U32_MAX; lia.
  - repeat constructor; cbn; lia || done.
Defined.

(** RFC 7541 section 4.2 asks that where a table's size changed more than
    once between two blocks, the smallest of them be announced before the
    last; the encoder announces the last alone. Its own decoder stays in
    step, as above, and a peer's that holds to the RFC is not told. *)
Lemma smallest_resize_not_announced :
  let e := Encoder.resize (Encoder.resize (Encoder.new 4096 false) 0) 4096 in
  fst (Encoder.encode e [(lit ":method", lit "GET")]) = [0x3f; 0xe1; 0x1f; 0x82].
Proof. reflexivity. Qed.

(** Appendix C.6.1 and C.6.2: two answers on one connection, Huffman-coded,
    evicting at 256. *)
Definition response_1 : list field :=
  [(lit ":status", lit "302"); (lit "cache-control", lit "private");
   (lit "date", lit "Mon, 21 Oct 2013 20:13:21 GMT"); (lit "location", lit "https://www.example.com")].
Definition response_2 : list field :=
  [(lit ":status", lit "307"); (lit "cache-control", lit "private");
   (lit "date", lit "Mon, 21 Oct 2013 20:13:21 GMT"); (lit "location", lit "https://www.example.com")].
Example c_6_2 :
  let '(_, e) := Encoder.encode (Encoder.new 256 true) response_1 in
  let '(block, e) := Encoder.encode e response_2 in
  block = [0x48; 0x83; 0x64; 0x0e; 0xff; 0xc1; 0xc0; 0xbf] /\ Table.size (table e) = 222.
Proof. vm_compute. done. Qed.

End Sync.
