(* ===== verification/HpackVectors.v ===== *)
(** The blocks of RFC 7541 appendix C, as the tests of [src/http2/hpack.rs]
    hold the encoder and the decoder to them: read, written and the tables
    after each, on one connection. *)

From Stdlib Require Import String Ascii.
From stdpp Require Import strings.
From S2P Require Import Prelude Text Errors HpackTable Hpack.

Module Vectors.

(** ** [hex], of the digits a text holds *)

Definition hex_digit (c : Z) : option Z :=
  if (48 <=? c) && (c <=? 57) then Some (c - 48)
  else if (97 <=? c) && (c <=? 102) then Some (c - 87)
  else if (65 <=? c) && (c <=? 70) then Some (c - 55)
  else None.

Fixpoint in_pairs (digits : list Z) : bytes :=
  match digits with
  | high :: low :: digits => 16 * high + low :: in_pairs digits
  | [last] => [last]
  | [] => []
  end.

Definition hex (text : string) : bytes := in_pairs (omap hex_digit (lit text)).

(** ** [run] *)

Record Example_ : Type := mkExample {
  fields : list field;
  block : bytes;
  names : list bytes;
  size : Z;
}.

Definition table_is (example : Example_) (table : Table.t) : bool :=
  bool_decide (map fst (Table.entries table) = names example) && (Table.size table =? size example).

Fixpoint run_from (examples : list Example_) (decoder : Decoder.t) (encoder : Encoder.t) : bool :=
  match examples with
  | [] => true
  | example :: examples =>
      let '(read, decoder) := Decoder.decode (block example) decoder in
      let '(written, encoder) := Encoder.encode encoder (fields example) in
      bool_decide (read = Ok (fields example)) && bool_decide (written = block example)
      && table_is example (Decoder.table decoder) && table_is example (Encoder.table encoder)
      && run_from examples decoder encoder
  end.

Definition run (examples : list Example_) (table_size : Z) (huffman : bool) : bool :=
  run_from examples (Decoder.new table_size) (Encoder.new table_size huffman).

(** ** The vectors *)

Definition REQUEST_1 : list field :=
  [(lit ":method", lit "GET");
   (lit ":scheme", lit "http");
   (lit ":path", lit "/");
   (lit ":authority", lit "www.example.com")].
Definition REQUEST_2 : list field :=
  [(lit ":method", lit "GET");
   (lit ":scheme", lit "http");
   (lit ":path", lit "/");
   (lit ":authority", lit "www.example.com");
   (lit "cache-control", lit "no-cache")].
Definition REQUEST_3 : list field :=
  [(lit ":method", lit "GET");
   (lit ":scheme", lit "https");
   (lit ":path", lit "/index.html");
   (lit ":authority", lit "www.example.com");
   (lit "custom-key", lit "custom-value")].
Definition RESPONSE_1 : list field :=
  [(lit ":status", lit "302");
   (lit "cache-control", lit "private");
   (lit "date", lit "Mon, 21 Oct 2013 20:13:21 GMT");
   (lit "location", lit "https://www.example.com")].
Definition RESPONSE_2 : list field :=
  [(lit ":status", lit "307");
   (lit "cache-control", lit "private");
   (lit "date", lit "Mon, 21 Oct 2013 20:13:21 GMT");
   (lit "location", lit "https://www.example.com")].
Definition RESPONSE_3 : list field :=
  [(lit ":status", lit "200");
   (lit "cache-control", lit "private");
   (lit "date", lit "Mon, 21 Oct 2013 20:13:22 GMT");
   (lit "location", lit "https://www.example.com");
   (lit "content-encoding", lit "gzip");
   (lit "set-cookie", lit "foo=ASDJKHQKBZXOQWEOPIUAXQWEOIU; max-age=3600; version=1")].
Definition AFTER_REQUEST_1 : list bytes := [lit ":authority"].
Definition AFTER_REQUEST_2 : list bytes := [lit "cache-control"; lit ":authority"].
Definition AFTER_REQUEST_3 : list bytes := [lit "custom-key"; lit "cache-control"; lit ":authority"].
Definition AFTER_RESPONSE_1 : list bytes := [lit "location"; lit "date"; lit "cache-control"; lit ":status"].
Definition AFTER_RESPONSE_2 : list bytes := [lit ":status"; lit "location"; lit "date"; lit "cache-control"].
Definition AFTER_RESPONSE_3 : list bytes := [lit "set-cookie"; lit "content-encoding"; lit "date"].

(** Each block with its field and the table's size after it, read by a decoder
    of its own. *)
Definition independent : list (bytes * field * Z) :=
  [(hex "400a 6375 7374 6f6d 2d6b 6579 0d63 7573 746f 6d2d 6865 6164 6572", (lit "custom-key", lit "custom-header"), 55);
   (hex "040c 2f73 616d 706c 652f 7061 7468", (lit ":path", lit "/sample/path"), 0);
   (hex "1008 7061 7373 776f 7264 0673 6563 7265 74", (lit "password", lit "secret"), 0);
   (hex "82", (lit ":method", lit "GET"), 0)].

Definition appendix_c_2_each_representation_on_its_own : bool :=
  forallb (fun '(block, field, size) =>
    let '(read, decoder) := Decoder.decode block (Decoder.new 4096) in
    bool_decide (read = Ok [field]) && (Table.size (Decoder.table decoder) =? size)) independent
  && (let '(first, encoder) := Encoder.encode (Encoder.new 4096 false) [(lit "custom-key", lit "custom-header")] in
      let '(second, _) := Encoder.encode encoder [(lit ":method", lit "GET")] in
      bool_decide (Some first = (fun x => x.1.1) <$> head independent) && bool_decide (second = [0x82])).

Definition appendix_c_3_requests_without_huffman_coding : bool := run
  [ mkExample REQUEST_1 (hex "8286 8441 0f77 7777 2e65 7861 6d70 6c65 2e63 6f6d")
      AFTER_REQUEST_1 57;
    mkExample REQUEST_2 (hex "8286 84be 5808 6e6f 2d63 6163 6865")
      AFTER_REQUEST_2 110;
    mkExample REQUEST_3 (hex "8287 85bf 400a 6375 7374 6f6d 2d6b 6579 0c63 7573 746f 6d2d 7661 6c75 65")
      AFTER_REQUEST_3 164 ] 4096 false.

Definition appendix_c_4_requests_with_huffman_coding : bool := run
  [ mkExample REQUEST_1 (hex "8286 8441 8cf1 e3c2 e5f2 3a6b a0ab 90f4 ff")
      AFTER_REQUEST_1 57;
    mkExample REQUEST_2 (hex "8286 84be 5886 a8eb 1064 9cbf")
      AFTER_REQUEST_2 110;
    mkExample REQUEST_3 (hex "8287 85bf 4088 25a8 49e9 5ba9 7d7f 8925 a849 e95b b8e8 b4bf")
      AFTER_REQUEST_3 164 ] 4096 true.

Definition appendix_c_5_responses_without_huffman_coding_evicting_at_256 : bool := run
  [ mkExample RESPONSE_1 (hex "4803 3330 3258 0770 7269 7661 7465 611d 4d6f 6e2c 2032 3120 4f63 7420 3230 3133 2032 303a 3133 3a32 3120 474d 546e 1768 7474 7073 3a2f 2f77 7777 2e65 7861 6d70 6c65 2e63 6f6d")
      AFTER_RESPONSE_1 222;
    mkExample RESPONSE_2 (hex "4803 3330 37c1 c0bf")
      AFTER_RESPONSE_2 222;
    mkExample RESPONSE_3 (hex "88c1 611d 4d6f 6e2c 2032 3120 4f63 7420 3230 3133 2032 303a 3133 3a32 3220 474d 54c0 5a04 677a 6970 7738 666f 6f3d 4153 444a 4b48 514b 425a 584f 5157 454f 5049 5541 5851 5745 4f49 553b 206d 6178 2d61 6765 3d33 3630 303b 2076 6572 7369 6f6e 3d31")
      AFTER_RESPONSE_3 215 ] 256 false.

Definition appendix_c_6_responses_with_huffman_coding_evicting_at_256 : bool := run
  [ mkExample RESPONSE_1 (hex "4882 6402 5885 aec3 771a 4b61 96d0 7abe 9410 54d4 44a8 2005 9504 0b81 66e0 82a6 2d1b ff6e 919d 29ad 1718 63c7 8f0b 97c8 e9ae 82ae 43d3")
      AFTER_RESPONSE_1 222;
    mkExample RESPONSE_2 (hex "4883 640e ffc1 c0bf")
      AFTER_RESPONSE_2 222;
    mkExample RESPONSE_3 (hex "88c1 6196 d07a be94 1054 d444 a820 0595 040b 8166 e084 a62d 1bff c05a 839b d9ab 77ad 94e7 821d d7f2 e6c7 b335 dfdf cd5b 3960 d5af 2708 7f36 72c1 ab27 0fb5 291f 9587 3160 65c0 03ed 4ee5 b106 3d50 07")
      AFTER_RESPONSE_3 215 ] 256 true.

(** Every one of them, as the appendix prints it. *)
Lemma appendix_c_holds :
  appendix_c_2_each_representation_on_its_own = true
  /\ appendix_c_3_requests_without_huffman_coding = true
  /\ appendix_c_4_requests_with_huffman_coding = true
  /\ appendix_c_5_responses_without_huffman_coding_evicting_at_256 = true
  /\ appendix_c_6_responses_with_huffman_coding_evicting_at_256 = true.
Proof. split_and!; vm_compute; reflexivity. Qed.
End Vectors.
