(* ===== verification/H2Frame.v ===== *)
(** The frame of RFC 9113 section 4 ([src/http2/frame.rs]): nine octets of
    header and the payload, written and read. *)

From Stdlib Require Import String.
From S2P Require Import Prelude Errors Wire.

Definition HEADER_LEN : nat := 9.
Definition DEFAULT_MAX_FRAME_SIZE : Z := 16384.
Definition MAX_FRAME_SIZE_LIMIT : Z := 16777215.
Definition MAX_STREAM_ID : Z := 0x7fffffff.

Definition END_STREAM : Z := 0x1.
Definition ACK : Z := 0x1.
Definition END_HEADERS : Z := 0x4.
Definition PADDED : Z := 0x8.
Definition PRIORITY : Z := 0x20.

Inductive Kind : Type :=
| Data | Headers | Priority | RstStream | Settings | PushPromise | Ping | Goaway
| WindowUpdate | Continuation
| Unknown (code : Z).

#[global] Instance Kind_eq_dec : EqDecision Kind.
Proof. solve_decision. Defined.

Module KindCode.
Definition code (self : Kind) : Z :=
  match self with
  | Data => 0x0 | Headers => 0x1 | Priority => 0x2 | RstStream => 0x3 | Settings => 0x4
  | PushPromise => 0x5 | Ping => 0x6 | Goaway => 0x7 | WindowUpdate => 0x8
  | Continuation => 0x9
  | Unknown code => code
  end.

Definition of_code (code : Z) : Kind :=
  match code with
  | 0x0 => Data | 0x1 => Headers | 0x2 => Priority | 0x3 => RstStream | 0x4 => Settings
  | 0x5 => PushPromise | 0x6 => Ping | 0x7 => Goaway | 0x8 => WindowUpdate
  | 0x9 => Continuation
  | other => Unknown other
  end.

(** [{:?}], derived. *)
Definition debug (self : Kind) : bytes :=
  match self with
  | Data => lit "Data" | Headers => lit "Headers" | Priority => lit "Priority"
  | RstStream => lit "RstStream" | Settings => lit "Settings" | PushPromise => lit "PushPromise"
  | Ping => lit "Ping" | Goaway => lit "Goaway" | WindowUpdate => lit "WindowUpdate"
  | Continuation => lit "Continuation"
  | Unknown code => lit "Unknown(" ++ dec code ++ lit ")"
  end.

Lemma kind_code_of_code n : code (of_code n) = n.
Proof.
  destruct n as [|p|p]; [done| |done]. do 4 (destruct p as [p|p|]; try reflexivity).
Qed.

Lemma of_code_octet n : is_octet n -> is_octet (code (of_code n)).
Proof. by rewrite kind_code_of_code. Qed.
End KindCode.

Record frame : Type := mkFrame {
  kind : Kind;
  flags : Z;
  stream : Z;
  payload : bytes;
}.
#[global] Instance frame_eq_dec : EqDecision frame.
Proof. solve_decision. Defined.

(** A frame could not be read: the connection's failure, or the peer's
    breach. *)
Inductive ReadFailure : Type :=
| Net (e : NetError)
| Breached (v : Violation).

Module H2.

Definition has (self : frame) (flag : Z) : bool := negb (Z.land (flags self) flag =? 0).

Definition reset (stream : Z) (code : ErrorCode) : frame :=
  mkFrame RstStream 0 stream (be_bytes32 (ErrCode.code code)).

Definition ping (opaque : bytes) (ack : bool) : frame :=
  mkFrame Ping (if ack then ACK else 0) 0 opaque.

Definition goaway (last : Z) (code : ErrorCode) (debug : bytes) : frame :=
  mkFrame Goaway 0 0 (be_bytes32 (Z.land last MAX_STREAM_ID) ++ be_bytes32 (ErrCode.code code) ++ debug).

Definition window_update (stream increment : Z) : frame :=
  mkFrame WindowUpdate 0 stream (be_bytes32 (Z.land increment MAX_STREAM_ID)).

(** The wire's octets. The source panics on a payload of 2^32 octets or more
    ([u32::try_from(..).expect(..)]), which no frame it makes has; the length
    written is the low 24 bits, [length.to_be_bytes()\[1..\]]. *)
Definition encode (self : frame) : bytes :=
  tail (be_bytes32 (len (payload self)))
    ++ [KindCode.code (kind self)] ++ [flags self]
    ++ be_bytes32 (Z.land (stream self) MAX_STREAM_ID) ++ payload self.

Definition no_pad_length : Violation := Viol.frame_size (lit "a padded frame with no pad length").
Definition no_priority : Violation := Viol.frame_size (lit "a HEADERS too short for its priority").
Definition over_padded : Violation := Viol.protocol (lit "the padding is longer than the frame").

Definition content (self : frame) : result Violation bytes :=
  let? (pad, body) :=
    if has self PADDED then
      match payload self with
      | length :: rest => Ok (length, rest)
      | [] => Err no_pad_length
      end
    else Ok (0, payload self) in
  let? body :=
    if bool_decide (kind self = Headers) && has self PRIORITY then
      if (5 <=? length body)%nat then Ok (drop 5 body) else Err no_priority
    else Ok body in
  if len body <? pad then Err over_padded
  else Ok (ztake (len body - pad) body).

Definition word (self : frame) (at_ : nat) : option Z :=
  if (at_ + 4 <=? length (payload self))%nat then Some (of_be (take 4 (drop at_ (payload self))))
  else None.

Definition write (f : frame) : M Wire NetError unit :=
  mmap_err (NetErr.from_io (lit "writing a frame")) (write_all (encode f)).

Definition too_large (length max_size : Z) : Violation :=
  Viol.frame_size (lit "a frame of " ++ dec length ++ lit " octets, over the " ++ dec max_size
    ++ lit " this side allows").

Definition read (max_size : Z) : M Wire ReadFailure (option frame) := fun w =>
  match fill HEADER_LEN w with
  | (Ended [], w) => (Ok None, w)
  | (Ended _, w) => (Err (Net (NetErr.new (lit "the connection closed inside a frame header"))), w)
  | (Broke e, w) => (Err (Net (NetErr.from_io (lit "reading a frame") e)), w)
  | (Whole header, w) =>
      let length := of_be (0 :: take 3 header) in
      if max_size <? length then (Err (Breached (too_large length max_size)), w)
      else
        let stream := Z.land (of_be (take 4 (drop 5 header))) MAX_STREAM_ID in
        match mmap_err (NetErr.from_io (lit "reading a frame's payload"))
                (read_exact (Z.to_nat length)) w with
        | (Ok payload, w) =>
            (Ok (Some (mkFrame (KindCode.of_code (nth 3 header 0)) (nth 4 header 0) stream payload)), w)
        | (Err e, w) => (Err (Net e), w)
        end
  end.

(** ** Frames on the wire *)

(** A frame both ends can hold: its type one the wire's number names, its
    stream 31 bits, its payload under [max_size]. *)
Definition wf (max_size : Z) (f : frame) : Prop :=
  is_octet (KindCode.code (kind f)) /\ KindCode.of_code (KindCode.code (kind f)) = kind f
  /\ is_octet (flags f) /\ 0 <= stream f <= MAX_STREAM_ID
  /\ octets (payload f) /\ len (payload f) <= max_size.

Lemma mask_stream s : 0 <= s -> Z.land s MAX_STREAM_ID = s mod 2 ^ 31.
Proof. intros. change MAX_STREAM_ID with (2 ^ 31 - 1). apply land_low. lia. Qed.

Lemma mask_small s : 0 <= s <= MAX_STREAM_ID -> Z.land s MAX_STREAM_ID = s.
Proof. intros H. rewrite mask_stream by lia. apply Z.mod_small. unfold MAX_STREAM_ID in H. lia. Qed.

(** The header of a frame, as the wire carries it: the fields read of it. *)
Lemma header_fields f (rest : bytes) :
  len (payload f) < 2 ^ 24 ->
  exists h, encode f = h ++ payload f /\ length h = HEADER_LEN
    /\ of_be (0 :: take 3 h) = len (payload f)
    /\ nth 3 h 0 = KindCode.code (kind f) /\ nth 4 h 0 = flags f
    /\ of_be (take 4 (drop 5 h)) = Z.land (stream f) MAX_STREAM_ID.
Proof.
  intros Hl. exists (tail (be_bytes32 (len (payload f))) ++ [KindCode.code (kind f)] ++ [flags f]
    ++ be_bytes32 (Z.land (stream f) MAX_STREAM_ID)).
  pose proof (len_nonneg (payload f)).
  repeat split.
  - transitivity (of_be (be_bytes32 (len (payload f)))); [|apply of_be_bytes32; lia].
    unfold be_bytes32. cbn [tail app take]. rewrite (Z.div_small _ 16777216) by lia. done.
  - cbn [be_bytes32 tail app drop take]. change (of_be _) with (of_be (be_bytes32 (Z.land (stream f) MAX_STREAM_ID))).
    apply of_be_bytes32. change MAX_STREAM_ID with (2 ^ 31 - 1). rewrite land_low by lia.
    pose proof (Z.mod_pos_bound (stream f) (2 ^ 31) ltac:(lia)). lia.
Qed.

Lemma read_encoded max_size f k w :
  len (payload f) < 2 ^ 24 -> carrying w (encode f ++ k) ->
  (len (payload f) <= max_size ->
     exists w', read max_size w = (Ok (Some (mkFrame (KindCode.of_code (KindCode.code (kind f))) (flags f)
                  (Z.land (stream f) MAX_STREAM_ID) (payload f))), w')
       /\ carrying w' k /\ outgoing w' = outgoing w /\ refusals w' = refusals w)
  /\ (max_size < len (payload f) ->
     exists w', read max_size w = (Err (Breached (too_large (len (payload f)) max_size)), w')
       /\ carrying w' (payload f ++ k)).
Proof.
  intros Hl Hc. destruct (header_fields f k Hl) as (h & He & Hh & Hlen & Hk & Hf & Hs).
  rewrite He, <- (assoc_L (++)) in Hc.
  destruct (fill_whole w h (payload f ++ k) HEADER_LEN Hc) as (w1 & Hfill & Hc1 & Ho & Hr); [done|].
  unfold read. rewrite Hfill, Hlen, Hk, Hf, Hs. split; intros Hm.
  - destruct (Z.ltb_spec max_size (len (payload f))); [lia|].
    assert (Z.land (Z.land (stream f) MAX_STREAM_ID) MAX_STREAM_ID = Z.land (stream f) MAX_STREAM_ID) as ->.
    { by rewrite <- Z.land_assoc, Z.land_diag. }
    destruct (read_exact_whole w1 (payload f) k (Z.to_nat (len (payload f))) Hc1) as (w2 & Hr2 & Hc2 & Ho2 & Hrf2).
    { unfold len. by rewrite Nat2Z.id. }
    exists w2. unfold mmap_err. rewrite Hr2. cbn [map_err]. repeat split; congruence || done.
  - destruct (Z.ltb_spec max_size (len (payload f))); [|lia]. eauto.
Qed.

(** Frames one after another, each read with what follows still to come. *)
Fixpoint read_n (max_size : Z) (n : nat) : M Wire ReadFailure (list (option frame)) :=
  match n with
  | O => mret []
  | S n => f <~ read max_size ;; fs <~ read_n max_size n ;; mret (f :: fs)
  end.

(** C19. Frames written one after another are read back one by one as they
    were, whatever pieces the connection delivers them in and however often
    it is interrupted, and after the last the end is a clean close. *)
Theorem h2_frames_round_trip max_size fs w :
  max_size <= MAX_FRAME_SIZE_LIMIT -> Forall (wf max_size) fs ->
  carrying w (concat (map encode fs)) ->
  exists w' w'', read_n max_size (length fs) w = (Ok (map Some fs), w') /\ read max_size w' = (Ok None, w'').
Proof.
  intros Hm Hfs. revert w. induction Hfs as [|f fs Hf Hfs IH]; intros w Hc.
  - exists w. eexists. split; [done|]. unfold read.
    rewrite (fill_ended w [] HEADER_LEN) by (done || (unfold HEADER_LEN; cbn; lia)). done.
  - cbn [map concat] in Hc. destruct Hf as (Hk & Hkk & Hfl & Hs & Hp & Hl).
    unfold MAX_FRAME_SIZE_LIMIT in Hm.
    assert (len (payload f) < 2 ^ 24) as H24 by lia.
    destruct (read_encoded max_size f _ w H24 Hc) as [Hread _].
    destruct (Hread Hl) as (w1 & H1 & Hc1 & _). destruct (IH w1 Hc1) as (w2 & w3 & H2 & H3).
    exists w2, w3. split; [|done]. cbn [length read_n map]. unfold mthen at 1. rewrite H1, Hkk, mask_small by done.
    unfold mthen. rewrite H2. by destruct f.
Qed.

Lemma h2_frames_round_trip_witness :
  exists w' w'', read_n 16384 2 (mkWire [Got [0; 0; 3; 1]; Got [5; 0; 0; 0; 3; 97; 98; 99; 0; 0; 0; 4; 1; 0; 0; 0; 0]] [] [])
    = (Ok (map Some [mkFrame Headers (END_HEADERS + END_STREAM) 3 (lit "abc"); mkFrame Settings ACK 0 []]), w')
  /\ read 16384 w' = (Ok None, w'').
Proof.
  apply (h2_frames_round_trip 16384 [mkFrame Headers (END_HEADERS + END_STREAM) 3 (lit "abc"); mkFrame Settings ACK 0 []]).
  - unfold MAX_FRAME_SIZE_LIMIT; lia.
  - repeat (apply Forall_cons; split); [..|apply Forall_nil]; unfold wf, is_octet, MAX_STREAM_ID;
      cbn [kind flags stream payload]; repeat split; try (vm_compute; congruence); by apply octets_check.
  - apply (delivers_got 0 [0; 3; 1]), (delivers_got 5 [0; 0; 0; 3; 97; 98; 99; 0; 0; 0; 4; 1; 0; 0; 0; 0] [] []).
    constructor.
Defined.

(** A frame over the size this side allows is refused, a
    [FRAME_SIZE_ERROR], on its header alone: none of its payload is read, so
    no peer decides how much is held. *)
Lemma oversize_refused max_size f k w :
  max_size < len (payload f) < 2 ^ 24 -> carrying w (encode f ++ k) ->
  exists v w', read max_size w = (Err (Breached v), w') /\ v_code v = FrameSize
    /\ carrying w' (payload f ++ k).
Proof.
  intros [Hl Hl'] Hc. destruct (read_encoded max_size f k w Hl' Hc) as [_ Hread].
  destruct (Hread Hl) as (w' & Hr & Hc'). eauto.
Qed.

Lemma oversize_refused_witness :
  exists v w', read 2 (mkWire [Got [0; 0; 3; 0; 0; 0; 0; 0; 1; 7; 8; 9]] [] []) = (Err (Breached v), w')
    /\ v_code v = FrameSize /\ carrying w' ([7; 8; 9] ++ []).
Proof.
  apply (oversize_refused 2 (mkFrame Data 0 1 [7; 8; 9]) []); [vm_compute; split; congruence|].
  apply (delivers_got 0 [0; 3; 0; 0; 0; 0; 0; 1; 7; 8; 9] [] []). constructor.
Defined.

(** ** What padding and priority surround *)

(** The content of a frame is what its layout surrounds: after the pad
    length where it is padded, after the five octets of priority where it is
    a [HEADERS] with one, and before exactly as many octets of padding as the
    pad length says. *)
Lemma content_spec f c :
  octets (payload f) ->
  content f = Ok c <->
  exists pad prio padding,
    payload f = (if has f PADDED then [pad] else []) ++ prio ++ c ++ padding
    /\ length prio = (if bool_decide (kind f = Headers) && has f PRIORITY then 5 else 0)%nat
    /\ len padding = if has f PADDED then pad else 0.
Proof.
  intros Ho. unfold content. destruct (bool_decide _ && has f PRIORITY) eqn:Hp, (has f PADDED) eqn:Hd.
  all: cbn match; split;
    [ intros H; inv_ok; repeat (match goal with p : _ * _ |- _ => destruct p end); inv_ok
    | intros (pad & prio & padding & Heq & Hprio & Hpad) ].
  - destruct (payload f) as [|p rest]; [discriminate|]. apply Ok_inj in Ha as [= <- <-].
    destruct (5 <=? length rest)%nat eqn:H5; [|discriminate]. apply Ok_inj in Ha0 as <-.
    apply Nat.leb_le in H5. destruct (Z.ltb_spec (len (drop 5 rest)) p); [discriminate|]. apply Ok_inj in H as <-.
    inversion_clear Ho as [|? ? Hpo _]. unfold is_octet in Hpo.
    exists p, (take 5 rest), (zdrop (len (drop 5 rest) - p) (drop 5 rest)).
    rewrite ztake_zdrop, take_drop. split; [done|]. split; [rewrite length_take; lia|].
    rewrite len_zdrop by lia. lia.
  - rewrite Heq. cbn [app res_bind]. rewrite !length_app, Hprio. cbn [Nat.add Nat.leb res_bind].
    assert (drop 5 (prio ++ c ++ padding) = c ++ padding) as -> by (rewrite <- Hprio; apply drop_app_length).
    rewrite len_app. pose proof (len_nonneg c).
    destruct (Z.ltb_spec (len c + len padding) pad); [lia|]. f_equal. apply ztake_app. lia.
  - injection Ha as <- <-. destruct (5 <=? length (payload f))%nat eqn:H5; [|discriminate].
    apply Ok_inj in Ha0 as <-. apply Nat.leb_le in H5.
    destruct (Z.ltb_spec (len (drop 5 (payload f))) 0); [discriminate|]. apply Ok_inj in H as <-.
    exists 0, (take 5 (payload f)), []. rewrite Z.sub_0_r, ztake_all, app_nil_r, app_nil_l, take_drop by done.
    split; [done|]. split; [rewrite length_take; lia | done].
  - rewrite Heq. cbn [app res_bind]. rewrite !length_app, Hprio. cbn [Nat.add Nat.leb res_bind].
    assert (drop 5 (prio ++ c ++ padding) = c ++ padding) as -> by (rewrite <- Hprio; apply drop_app_length).
    rewrite len_app. pose proof (len_nonneg c).
    destruct (Z.ltb_spec (len c + len padding) 0); [lia|]. f_equal. apply ztake_app. lia.
  - destruct (payload f) as [|p rest]; [discriminate|]. apply Ok_inj in Ha as [= <- <-].
    subst a. destruct (Z.ltb_spec (len rest) p); [discriminate|]. apply Ok_inj in H as <-.
    inversion_clear Ho as [|? ? Hpo _]. unfold is_octet in Hpo.
    exists p, [], (zdrop (len rest - p) rest). rewrite app_nil_l, ztake_zdrop. split; [done|]. split; [done|].
    rewrite len_zdrop by lia. lia.
  - destruct prio; [|done]. rewrite Heq. cbn [app res_bind]. rewrite len_app. pose proof (len_nonneg c).
    destruct (Z.ltb_spec (len c + len padding) pad); [lia|]. f_equal. apply ztake_app. lia.
  - injection Ha as <- <-. subst a. case_test; [discriminate|]. apply Ok_inj in H as <-.
    exists 0, [], []. rewrite Z.sub_0_r, ztake_all, app_nil_r by done. done.
  - destruct prio; [|done]. rewrite Heq. cbn [app res_bind]. rewrite len_app. pose proof (len_nonneg c).
    destruct (Z.ltb_spec (len c + len padding) 0); [lia|]. f_equal. apply ztake_app. lia.
Qed.

Lemma content_spec_witness :
  content (mkFrame Headers (PADDED + PRIORITY) 5 [1; 0x80; 0; 0; 3; 16; 0x82; 0]) = Ok [0x82] <->
  exists pad prio padding,
    [1; 0x80; 0; 0; 3; 16; 0x82; 0] = [pad] ++ prio ++ [0x82] ++ padding
    /\ length prio = 5%nat /\ len padding = pad.
Proof.
  apply (content_spec (mkFrame Headers (PADDED + PRIORITY) 5 [1; 0x80; 0; 0; 3; 16; 0x82; 0]) [0x82]).
  by apply octets_check.
Defined.

(** Content is a part of the payload: never longer than it. *)
Lemma content_len f c : octets (payload f) -> content f = Ok c -> len c <= len (payload f) /\ octets c.
Proof.
  unfold content. intros Ho H. inv_ok. destruct a as [pad body]. inv_ok.
  case_test; [discriminate|]. apply Ok_inj in H as <-.
  assert (len body <= len (payload f) /\ octets body) as [H1 H2].
  { destruct (has f PADDED); [destruct (payload f) as [|p rest]; [discriminate|]|];
      apply Ok_inj in Ha as [= <- <-]; [|done]. rewrite len_cons. split; [lia|]. by inversion Ho. }
  assert (len a <= len body /\ octets a) as [H3 H4].
  { destruct (bool_decide _ && _); [|by apply Ok_inj in Ha0 as <-].
    destruct (5 <=? length body)%nat; [|discriminate]. apply Ok_inj in Ha0 as <-.
    split; [unfold len; rewrite length_drop; lia | by apply Forall_drop]. }
  split; [|by apply Forall_ztake]. unfold len, ztake in *. rewrite length_take. lia.
Qed.

(** What a frame read holds: its stream 31 bits, its payload no more than
    was allowed. *)
Lemma read_frame_wf max_size w f w' :
  wire_octets w -> read max_size w = (Ok (Some f), w') ->
  0 <= stream f <= MAX_STREAM_ID /\ octets (payload f) /\ len (payload f) <= max_size /\ is_octet (flags f)
  /\ wire_octets w' /\ (pending w' < pending w)%nat.
Proof.
  intros Hw H. unfold read in H. destruct (fill HEADER_LEN w) as [[h|[|? ?]|e] w1] eqn:Hf; try discriminate.
  unfold fill in Hf. destruct (fill_from HEADER_LEN [] (incoming w)) as [r rs] eqn:Hff. injection Hf as -> <-.
  pose proof (fill_from_octets _ _ _ _ _ Hw octets_nil Hff) as [Hrs Hh].
  assert (0 < HEADER_LEN)%nat as H9 by (unfold HEADER_LEN; lia).
  pose proof (fill_from_whole _ _ _ _ _ H9 Hff) as Hpend.
  pose proof (fill_from_len _ _ _ _ _ Hff) as Hhl. unfold HEADER_LEN in Hhl. cbn in Hhl.
  destruct (Z.ltb_spec max_size (of_be (0 :: take 3 h))); [discriminate|].
  unfold mmap_err, read_exact, fill in H. cbn [incoming outgoing refusals] in H.
  set (n := Z.to_nat _) in *. destruct (fill_from n [] rs) as [r2 rs2] eqn:Hff2.
  destruct r2 as [p|p|e]; cbn in H; try discriminate. injection H as <- <-.
  cbn [stream flags payload]. pose proof (fill_from_octets _ _ _ _ _ Hrs octets_nil Hff2) as [Hrs2 Hp].
  pose proof (fill_from_pending _ _ _ _ _ Hff2). apply fill_from_len in Hff2. cbn in Hff2.
  change MAX_STREAM_ID with (2 ^ 31 - 1). rewrite land_low by lia.
  pose proof (Z.mod_pos_bound (of_be (take 4 (drop 5 h))) (2 ^ 31) ltac:(lia)).
  do 9 (destruct h as [|? h]; [simpl in Hhl; lia|]).
  unfold octets in Hh. rewrite !Forall_cons in Hh. destruct_and!. unfold is_octet in *.
  cbn [nth]. repeat split; try done; try lia.
  - assert (0 <= of_be (0 :: take 3 (z :: z0 :: z1 :: z2 :: z3 :: z4 :: z5 :: z6 :: z7 :: h))) as Hb
      by (cbn; lia). unfold len; lia.
  - unfold pending. cbn [incoming]. lia.
Qed.

End H2.
