(* ===== verification/H2Settings.v ===== *)
(** Flow-control windows ([src/http2/window.rs]) and the [SETTINGS] of RFC
    9113 section 6.5 ([src/http2/settings.rs]). *)

From Stdlib Require Import String.
From S2P Require Import Prelude Errors H2Frame.

(** ** A window *)

Module Window.

Definition I64_MAX : Z := 9223372036854775807.

(** [Window(i64)]. *)
Record t : Type := mkWindow { left : Z }.
#[global] Instance t_eq_dec : EqDecision t.
Proof. solve_decision. Defined.

Definition new (size : Z) : t := mkWindow size.

Definition available (self : t) : Z := Z.max 0 (left self).

Definition overrun (octets held : Z) : Violation :=
  mkViolation FlowControl (dec octets ++ lit " octets against a window of " ++ dec held).
Definition zero_update : Violation := Viol.protocol (lit "a WINDOW_UPDATE of 0").
Definition overflowed (moved : Z) : Violation :=
  mkViolation FlowControl (lit "a window of " ++ dec moved ++ lit ", over 2^31 - 1").

(** The window after a call; one that fails leaves it as it was. *)
Definition take (self : t) (octets : Z) : result Violation t :=
  let octets := Z.min octets I64_MAX in
  if left self <? octets then Err (overrun octets (left self))
  else Ok (mkWindow (left self - octets)).

Definition shift (self : t) (delta : Z) : result Violation t :=
  let moved := left self + delta in
  if MAX_STREAM_ID <? moved then Err (overflowed moved) else Ok (mkWindow moved).

Definition grant (self : t) (increment : Z) : result Violation t :=
  if increment =? 0 then Err zero_update else shift self increment.

Lemma take_ok self octets self' :
  take self octets = Ok self' -> octets <= I64_MAX ->
  octets <= left self /\ left self' = left self - octets.
Proof.
  unfold take. intros H Ho. rewrite Z.min_l in H by done.
  destruct (Z.ltb_spec (left self) octets); [discriminate|]. apply Ok_inj in H as <-. done.
Qed.

Lemma take_fits self octets :
  octets <= left self -> octets <= I64_MAX -> take self octets = Ok (mkWindow (left self - octets)).
Proof.
  unfold take. intros H Ho. rewrite Z.min_l by done. by destruct (Z.ltb_spec (left self) octets); [lia|].
Qed.

Lemma shift_ok self delta self' :
  shift self delta = Ok self' -> left self' = left self + delta /\ left self' <= MAX_STREAM_ID.
Proof.
  unfold shift. destruct (Z.ltb_spec MAX_STREAM_ID (left self + delta)); [discriminate|].
  intros H'. apply Ok_inj in H' as <-. done.
Qed.

Lemma grant_ok self increment self' :
  grant self increment = Ok self' ->
  increment <> 0 /\ left self' = left self + increment /\ left self' <= MAX_STREAM_ID.
Proof.
  unfold grant. destruct (Z.eqb_spec increment 0); [discriminate|]. intros H. by apply shift_ok in H.
Qed.

Lemma grant_back self octets self' :
  take self octets = Ok self' -> 0 < octets <= I64_MAX -> left self <= MAX_STREAM_ID ->
  grant self' octets = Ok self.
Proof.
  intros H Ho Hm. apply take_ok in H as [Hle Hl]; [|lia]. unfold grant, shift.
  destruct (Z.eqb_spec octets 0); [lia|]. rewrite Hl. replace (left self - octets + octets) with (left self) by lia.
  destruct (Z.ltb_spec MAX_STREAM_ID (left self)); [lia|]. by destruct self.
Qed.

(** What happens to a window: [DATA] counted, a [WINDOW_UPDATE], and the
    change of [SETTINGS_INITIAL_WINDOW_SIZE]. *)
Inductive op : Type :=
| Take (octets : Z)
| Grant (increment : Z)
| Shift (delta : Z).

Definition op_ok (o : op) : Prop :=
  match o with
  | Take n => 0 <= n <= I64_MAX
  | Grant n => 0 <= n <= MAX_STREAM_ID
  | Shift d => - MAX_STREAM_ID <= d <= MAX_STREAM_ID
  end.

Definition run1 (self : t) (o : op) : result Violation t :=
  match o with Take n => take self n | Grant n => grant self n | Shift d => shift self d end.

Fixpoint run (self : t) (ops : list op) : result Violation t :=
  match ops with
  | [] => Ok self
  | o :: ops => let? self := run1 self o in run self ops
  end.

Definition taken (ops : list op) : Z :=
  foldr (fun o n => match o with Take k => k + n | _ => n end) 0 ops.
Definition given (ops : list op) : Z :=
  foldr (fun o n => match o with Grant k => k + n | Shift d => d + n | _ => n end) 0 ops.

Lemma run1_ledger self o self' :
  left self <= MAX_STREAM_ID -> op_ok o -> run1 self o = Ok self' ->
  left self' = left self + given [o] - taken [o] /\ left self' <= MAX_STREAM_ID.
Proof.
  unfold given, taken. intros Hm Ho H. destruct o; cbn [run1 op_ok foldr] in *.
  - apply take_ok in H; lia.
  - apply grant_ok in H; lia.
  - apply shift_ok in H; lia.
Qed.

Lemma run_ledger ops : forall self self',
  left self <= MAX_STREAM_ID -> Forall op_ok ops -> run self ops = Ok self' ->
  left self' = left self + given ops - taken ops /\ left self' <= MAX_STREAM_ID.
Proof.
  induction ops as [|o ops IH]; intros self self' Hm Hok H; cbn [run] in H.
  - apply Ok_inj in H as <-. unfold given, taken. cbn [foldr]. lia.
  - inv_ok. inversion_clear Hok as [|? ? Ho Hops].
    destruct (run1_ledger self o _ Hm Ho Ha) as [Ha2 Ha1].
    destruct (IH _ _ Ha1 Hops H) as [H1 H2]. split; [|done]. rewrite H1, Ha2.
    unfold given, taken. destruct o; cbn [foldr]; lia.
Qed.

(** C23. A window is a ledger that is never overdrawn: after any run of
    octets counted, updates granted and settings changed, what is left is
    what it opened with, and was given, less what was taken; it never passes
    2^31 - 1; and more octets are counted against it exactly when it still
    holds that many, one over being a [FLOW_CONTROL_ERROR]. *)
Theorem window_is_a_ledger size ops self octets :
  0 <= size <= MAX_STREAM_ID -> Forall op_ok ops -> run (new size) ops = Ok self ->
  0 <= octets <= I64_MAX ->
  left self = size + given ops - taken ops /\ left self <= MAX_STREAM_ID
  /\ match take self octets with
     | Ok self' => octets <= left self /\ left self' = left self - octets
     | Err v => left self < octets /\ v_code v = FlowControl
     end.
Proof.
  intros Hs Hops Hr Ho. destruct (run_ledger ops (new size) self ltac:(cbn [new left]; lia) Hops Hr) as [Hl Hm].
  split; [exact Hl|]. split; [done|]. unfold take. rewrite Z.min_l by lia.
  destruct (Z.ltb_spec (left self) octets); cbn [left]; split; done || lia.
Qed.

Lemma window_is_a_ledger_witness :
  left (mkWindow (-30)) = 100 + given [Take 80; Shift (-50)] - taken [Take 80; Shift (-50)]
  /\ left (mkWindow (-30)) <= MAX_STREAM_ID
  /\ match take (mkWindow (-30)) 1 with
     | Ok self' => 1 <= left (mkWindow (-30)) /\ left self' = left (mkWindow (-30)) - 1
     | Err v => left (mkWindow (-30)) < 1 /\ v_code v = FlowControl
     end.
Proof.
  apply (window_is_a_ledger 100 [Take 80; Shift (-50)] (mkWindow (-30)) 1); unfold MAX_STREAM_ID, I64_MAX.
  - lia.
  - repeat constructor; cbn; unfold MAX_STREAM_ID, I64_MAX; lia.
  - reflexivity.
  - lia.
Defined.

End Window.

(** ** Settings *)

Module Settings.

Definition HEADER_TABLE_SIZE : Z := 0x1.
Definition ENABLE_PUSH : Z := 0x2.
Definition MAX_CONCURRENT_STREAMS : Z := 0x3.
Definition INITIAL_WINDOW_SIZE : Z := 0x4.
Definition MAX_FRAME_SIZE : Z := 0x5.
Definition MAX_HEADER_LIST_SIZE : Z := 0x6.

Definition DEFAULT_WINDOW : Z := 65535.

Record t : Type := mkSettings {
  header_table_size : Z;
  enable_push : bool;
  max_concurrent_streams : option Z;
  initial_window_size : Z;
  max_frame_size : Z;
  max_header_list_size : option Z;
}.
#[global] Instance t_eq_dec : EqDecision t.
Proof. solve_decision. Defined.

Definition default : t := mkSettings 4096 true None DEFAULT_WINDOW DEFAULT_MAX_FRAME_SIZE None.

Definition ours : t :=
  mkSettings (header_table_size default) false (Some 100) (initial_window_size default)
    (max_frame_size default) (Some (64 * 1024)).

Definition pair_bytes (p : Z * Z) : bytes := be_bytes16 p.1 ++ be_bytes32 p.2.

Definition pairs (self : t) : list (Z * Z) :=
  (if negb (header_table_size self =? header_table_size default)
   then [(HEADER_TABLE_SIZE, header_table_size self)] else [])
  ++ (if negb (Bool.eqb (enable_push self) (enable_push default))
      then [(ENABLE_PUSH, if enable_push self then 1 else 0)] else [])
  ++ (match max_concurrent_streams self with
      | Some streams => [(MAX_CONCURRENT_STREAMS, streams)] | None => [] end)
  ++ (if negb (initial_window_size self =? initial_window_size default)
      then [(INITIAL_WINDOW_SIZE, initial_window_size self)] else [])
  ++ (if negb (max_frame_size self =? max_frame_size default)
      then [(MAX_FRAME_SIZE, max_frame_size self)] else [])
  ++ (match max_header_list_size self with
      | Some size => [(MAX_HEADER_LIST_SIZE, size)] | None => [] end).

Definition encode (self : t) : bytes := flat_map pair_bytes (pairs self).

Definition bad_push (value : Z) (client : bool) : Violation :=
  Viol.protocol (lit "SETTINGS_ENABLE_PUSH of " ++ dec value ++ lit " from a "
    ++ (if client then lit "server" else lit "client")).
Definition bad_window (value : Z) : Violation :=
  mkViolation FlowControl (lit "an initial window of " ++ dec value ++ lit ", over 2^31 - 1").
Definition bad_frame_size (value : Z) : Violation :=
  Viol.protocol (lit "a maximum frame size of " ++ dec value ++ lit ", outside 2^14 to 2^24 - 1").
Definition not_whole (length : Z) : Violation :=
  Viol.frame_size (lit "a SETTINGS of " ++ dec length ++ lit " octets is not whole parameters").

Definition set (id value : Z) (client : bool) : M t Violation unit := fun s =>
  if id =? HEADER_TABLE_SIZE then
    (Ok tt, mkSettings value (enable_push s) (max_concurrent_streams s) (initial_window_size s)
              (max_frame_size s) (max_header_list_size s))
  else if id =? ENABLE_PUSH then
    if (1 <? value) || (client && (value =? 1)) then (Err (bad_push value client), s)
    else (Ok tt, mkSettings (header_table_size s) (value =? 1) (max_concurrent_streams s)
                   (initial_window_size s) (max_frame_size s) (max_header_list_size s))
  else if id =? MAX_CONCURRENT_STREAMS then
    (Ok tt, mkSettings (header_table_size s) (enable_push s) (Some value) (initial_window_size s)
              (max_frame_size s) (max_header_list_size s))
  else if id =? INITIAL_WINDOW_SIZE then
    if MAX_STREAM_ID <? value then (Err (bad_window value), s)
    else (Ok tt, mkSettings (header_table_size s) (enable_push s) (max_concurrent_streams s) value
                   (max_frame_size s) (max_header_list_size s))
  else if id =? MAX_FRAME_SIZE then
    if negb ((DEFAULT_MAX_FRAME_SIZE <=? value) && (value <=? MAX_FRAME_SIZE_LIMIT)) then
      (Err (bad_frame_size value), s)
    else (Ok tt, mkSettings (header_table_size s) (enable_push s) (max_concurrent_streams s)
                   (initial_window_size s) value (max_header_list_size s))
  else if id =? MAX_HEADER_LIST_SIZE then
    (Ok tt, mkSettings (header_table_size s) (enable_push s) (max_concurrent_streams s)
              (initial_window_size s) (max_frame_size s) (Some value))
  else (Ok tt, s).

(** [payload.as_chunks::<6>().0]: the whole parameters, in order. *)
Fixpoint set_all (payload : bytes) (client : bool) : M t Violation unit :=
  match payload with
  | p0 :: p1 :: p2 :: p3 :: p4 :: p5 :: rest =>
      set (of_be [p0; p1]) (of_be [p2; p3; p4; p5]) client ;;; set_all rest client
  | _ => mret tt
  end.

Definition apply (payload : bytes) (client : bool) : M t Violation unit :=
  if negb (len payload mod 6 =? 0) then mfail (not_whole (len payload))
  else set_all payload client.

(** The values a side may hold. *)
Definition valid (s : t) : Prop :=
  0 <= header_table_size s <= U32_MAX
  /\ 0 <= initial_window_size s <= MAX_STREAM_ID
  /\ DEFAULT_MAX_FRAME_SIZE <= max_frame_size s <= MAX_FRAME_SIZE_LIMIT
  /\ match max_concurrent_streams s with Some n => 0 <= n <= U32_MAX | None => True end
  /\ match max_header_list_size s with Some n => 0 <= n <= U32_MAX | None => True end.

Lemma valid_default : valid default.
Proof. by repeat split. Qed.
Lemma valid_ours : valid ours.
Proof. by repeat split. Qed.

Lemma set_valid id value client : 0 <= value <= U32_MAX -> keeps valid (set id value client).
Proof.
  intros Hv s (H1 & H2 & H3 & H4 & H5). unfold set.
  repeat case_test; unfold valid; cbn [header_table_size enable_push max_concurrent_streams
    initial_window_size max_frame_size max_header_list_size]; split_and!; lia || done.
Qed.

Lemma of_be_4 a b c d : octets [a; b; c; d] -> 0 <= of_be [a; b; c; d] <= U32_MAX.
Proof.
  unfold octets. rewrite !Forall_cons. intros H. destruct_and!. unfold is_octet, U32_MAX in *. cbn. lia.
Qed.

Lemma set_all_valid client n : forall payload,
  (length payload <= n)%nat -> octets payload -> keeps valid (set_all payload client).
Proof.
  induction n as [|n IH]; intros payload Hn Ho.
  - destruct payload; [apply keeps_ret | simpl in Hn; lia].
  - do 6 (destruct payload as [|? payload]; [apply keeps_ret|]). cbn [set_all].
    unfold octets in Ho. rewrite !Forall_cons in Ho. destruct_and!.
    apply keeps_then.
    + apply set_valid, of_be_4. unfold octets. rewrite !Forall_cons. auto using Forall_nil_2.
    + intros _. apply IH; [simpl in Hn; lia | done].
Qed.

Lemma apply_valid payload client : octets payload -> keeps valid (apply payload client).
Proof.
  intros Ho. unfold apply. case_test; [apply keeps_fail | by eapply set_all_valid].
Qed.

(** Whatever a peer's [SETTINGS] holds, and whether it is applied or
    refused part way, the settings kept are ones RFC 9113 allows: a frame
    size from 2^14 to 2^24 - 1, an initial window of at most 2^31 - 1. *)
Theorem settings_stay_valid payload client s r s' :
  octets payload -> valid s -> apply payload client s = (r, s') -> valid s'.
Proof. intros Ho. apply keeps_run, apply_valid, Ho. Qed.

Lemma settings_stay_valid_witness :
  valid (mkSettings 0 true None DEFAULT_WINDOW DEFAULT_MAX_FRAME_SIZE None).
Proof.
  apply (settings_stay_valid [0; 1; 0; 0; 0; 0; 0; 5; 0; 0; 0x3f; 0xff] false default (Err (bad_frame_size 0x3fff))).
  - by apply octets_check.
  - by repeat split.
  - reflexivity.
Defined.

(** One parameter as it is written, then the rest. *)
Lemma set_all_pair id value rest client :
  0 <= id < 2 ^ 16 -> 0 <= value <= U32_MAX ->
  set_all (pair_bytes (id, value) ++ rest) client = (set id value client ;;; set_all rest client).
Proof.
  intros Hi Hv. unfold pair_bytes. cbn [fst snd be_bytes16 be_bytes32 app set_all].
  change (of_be [_; _]) with (of_be (be_bytes16 id)).
  change (of_be [_; _; _; _]) with (of_be (be_bytes32 value)).
  rewrite of_be_bytes16, of_be_bytes32; [done | unfold U32_MAX in *; lia | done].
Qed.

Lemma len_pairs ps : len (flat_map pair_bytes ps) mod 6 = 0.
Proof.
  assert (len (flat_map pair_bytes ps) = len ps * 6) as ->; [|by rewrite Z.mod_mul].
  induction ps as [|p ps IH]; [done|]. cbn [flat_map]. rewrite len_app, IH, len_cons. change (len (pair_bytes p)) with 6. lia.
Qed.

(** Parameters set one after another. *)
Fixpoint set_pairs (ps : list (Z * Z)) (client : bool) : M t Violation unit :=
  match ps with
  | [] => mret tt
  | (id, value) :: ps => set id value client ;;; set_pairs ps client
  end.

Definition pair_ok (p : Z * Z) : Prop := 0 <= p.1 < 2 ^ 16 /\ 0 <= p.2 <= U32_MAX.

Lemma set_all_pairs ps client : forall s,
  Forall pair_ok ps -> set_all (flat_map pair_bytes ps) client s = set_pairs ps client s.
Proof.
  induction ps as [|[id value] ps IH]; intros s Hok; [done|]. inversion_clear Hok as [|? ? [Hi Hv] Hps].
  cbn [flat_map]. rewrite set_all_pair by done. cbn [set_pairs]. unfold mthen.
  destruct (set id value client s) as [[u|v] s']; [by apply IH | done].
Qed.

(** Some of them set, the rest are still to set. *)
Lemma set_pairs_app ps qs client s s' :
  set_pairs ps client s = (Ok tt, s') -> set_pairs (ps ++ qs) client s = set_pairs qs client s'.
Proof.
  revert s. induction ps as [|[id value] ps IH]; intros s H; cbn [app set_pairs] in *.
  - by injection H as <-.
  - unfold mthen in *. destruct (set id value client s) as [[u|v] s1]; [by apply IH | discriminate].
Qed.

Lemma pair_if (b : bool) id value :
  0 <= id < 2 ^ 16 -> 0 <= value <= U32_MAX -> Forall pair_ok (if b then [(id, value)] else []).
Proof. intros. destruct b; [by apply Forall_singleton | apply Forall_nil_2]. Qed.

Lemma pairs_ok s : valid s -> Forall pair_ok (pairs s).
Proof.
  intros (H1 & H2 & H3 & H4 & H5). unfold pairs.
  unfold MAX_STREAM_ID, MAX_FRAME_SIZE_LIMIT, DEFAULT_MAX_FRAME_SIZE, U32_MAX in *.
  rewrite !Forall_app. split_and!; try (apply pair_if; [done | unfold U32_MAX; lia]).
  - apply pair_if; [done|]. by destruct (enable_push s).
  - destruct (max_concurrent_streams s); [by apply (pair_if true) | apply Forall_nil_2].
  - destruct (max_header_list_size s); [by apply (pair_if true) | apply Forall_nil_2].
Qed.

(** What one side announces is what the other applies: a [SETTINGS]
    written from any settings a side may hold, read over the initial values,
    gives those settings back, on a client and on a server. *)
Lemma announced_is_applied s client :
  valid s -> apply (encode s) client default = (Ok tt, s).
Proof.
  intros Hv. unfold apply, encode. rewrite len_pairs. cbn [Z.eqb negb].
  rewrite set_all_pairs by (by apply pairs_ok). destruct Hv as (H1 & H2 & H3 & H4 & H5).
  destruct s as [t push streams w fs hl]. unfold pairs.
  cbn [header_table_size enable_push max_concurrent_streams initial_window_size max_frame_size
       max_header_list_size] in *.
  rewrite (set_pairs_app _ _ _ default (mkSettings t true None DEFAULT_WINDOW DEFAULT_MAX_FRAME_SIZE None)).
  2: by destruct (Z.eqb_spec t (header_table_size default)) as [->|].
  rewrite (set_pairs_app _ _ _ _ (mkSettings t push None DEFAULT_WINDOW DEFAULT_MAX_FRAME_SIZE None)).
  2: by destruct push, client.
  rewrite (set_pairs_app _ _ _ _ (mkSettings t push streams DEFAULT_WINDOW DEFAULT_MAX_FRAME_SIZE None)).
  2: by destruct streams.
  rewrite (set_pairs_app _ _ _ _ (mkSettings t push streams w DEFAULT_MAX_FRAME_SIZE None)).
  2: { destruct (Z.eqb_spec w (initial_window_size default)) as [->|]; [done|].
       unfold MAX_STREAM_ID in H2. cbn. unfold mthen, set, MAX_STREAM_ID. cbn. destruct (Z.ltb_spec 2147483647 w); [lia|done]. }
  rewrite (set_pairs_app _ _ _ _ (mkSettings t push streams w fs None)).
  2: { destruct (Z.eqb_spec fs (max_frame_size default)) as [->|]; [done|].
       unfold DEFAULT_MAX_FRAME_SIZE, MAX_FRAME_SIZE_LIMIT in H3. cbn. unfold mthen, set, DEFAULT_MAX_FRAME_SIZE, MAX_FRAME_SIZE_LIMIT. cbn.
       destruct (Z.leb_spec 16384 fs); [|lia]. destruct (Z.leb_spec fs 16777215); [done|lia]. }
  by destruct hl.
Qed.

Lemma announced_is_applied_witness : apply (encode ours) true default = (Ok tt, ours).
Proof. apply (announced_is_applied ours true), valid_ours. Defined.

End Settings.
