(* ===== verification/H2Stream.v ===== *)
(** A stream of RFC 9113 section 5.1 ([src/http2/stream.rs]): its state, its
    two windows, and what has arrived on it. *)

From Stdlib Require Import String.
From S2P Require Import Prelude Errors HpackTable H2Frame H2Settings.

Inductive State : Type := Open | HalfClosedLocal | HalfClosedRemote | Closed.

#[global] Instance State_eq_dec : EqDecision State.
Proof. solve_decision. Defined.

Module State.

Definition ended_locally (self : State) : State :=
  match self with
  | Open => HalfClosedLocal
  | HalfClosedRemote | HalfClosedLocal | Closed => Closed
  end.

Definition ended_remotely (self : State) : State :=
  match self with
  | Open => HalfClosedRemote
  | HalfClosedLocal | HalfClosedRemote | Closed => Closed
  end.

Definition receiving (self : State) : bool :=
  match self with Open | HalfClosedLocal => true | _ => false end.

Definition sending (self : State) : bool :=
  match self with Open | HalfClosedRemote => true | _ => false end.

End State.

Module Stream.

Record t : Type := mkStream {
  state : State;
  send : Window.t;
  receive : Window.t;
  head : option (list field);
  body : bytes;
  trailers : list field;
  reset : option ErrorCode;
}.

Definition new (send receive : Z) : t :=
  mkStream Open (Window.new send) (Window.new receive) None [] [] None.

Definition set_state (x : State) (s : t) : t :=
  mkStream x (send s) (receive s) (head s) (body s) (trailers s) (reset s).
Definition set_send (x : Window.t) (s : t) : t :=
  mkStream (state s) x (receive s) (head s) (body s) (trailers s) (reset s).
Definition set_receive (x : Window.t) (s : t) : t :=
  mkStream (state s) (send s) x (head s) (body s) (trailers s) (reset s).
Definition set_head (x : option (list field)) (s : t) : t :=
  mkStream (state s) (send s) (receive s) x (body s) (trailers s) (reset s).
Definition set_body (x : bytes) (s : t) : t :=
  mkStream (state s) (send s) (receive s) (head s) x (trailers s) (reset s).
Definition set_trailers (x : list field) (s : t) : t :=
  mkStream (state s) (send s) (receive s) (head s) (body s) x (reset s).
Definition set_reset (x : option ErrorCode) (s : t) : t :=
  mkStream (state s) (send s) (receive s) (head s) (body s) (trailers s) x.

(** [name == ":status" && value.starts_with('1')]. *)
Definition informational_field (f : field) : bool :=
  bool_decide (f.1 = lit ":status") && match f.2 with 49 :: _ => true | _ => false end.
Definition informational (fields : list field) : bool := existsb informational_field fields.

Definition after_end : Violation := mkViolation StreamClosed (lit "HEADERS after END_STREAM").
Definition unended : Violation :=
  Viol.protocol (lit "a second header block that does not end the stream").

Definition headers (fields : list field) (end_ : bool) : M t Violation unit := fun self =>
  if negb (State.receiving (state self)) then (Err after_end, self)
  else
    let informational := informational fields in
    let ended self := if end_ then set_state (State.ended_remotely (state self)) self else self in
    if bool_decide (head self = None) || informational then
      (Ok tt, ended (if negb informational then set_head (Some fields) self else self))
    else if end_ then (Ok tt, ended (set_trailers fields self))
    else (Err unended, self).

Definition finished (self : t) : bool :=
  bool_decide (is_Some (reset self)) || negb (State.receiving (state self)).

(** ** What a run of header blocks leaves *)

Fixpoint feed (blocks : list (list field * bool)) : M t Violation unit :=
  match blocks with
  | [] => mret tt
  | (fields, end_) :: blocks => headers fields end_ ;;; feed blocks
  end.

(** Interim answers, each a 1xx that does not end the stream. *)
Definition interim (blocks : list (list field * bool)) : Prop :=
  Forall (fun b => informational b.1 = true /\ b.2 = false) blocks.

Lemma feed_interim blocks more s :
  interim blocks -> State.receiving (state s) = true -> feed (blocks ++ more) s = feed more s.
Proof.
  intros Hi. revert s. induction Hi as [|[fields e] blocks [Hf He] Hi IH]; intros s Hs; [done|].
  cbn [fst snd] in *. subst e. cbn [app feed]. unfold mthen at 1, headers.
  rewrite Hs, Hf, orb_true_r. cbn [negb]. by apply IH.
Qed.

(** C22. The blocks of an answer land where RFC 9113 section 8.1 puts them: on
    a stream the peer may still send on, any number of 1xx answers is passed
    over, the first other block is the head, and the one that ends the stream
    after it is the trailers; any block after that is a [STREAM_CLOSED], and
    a second one that does not end the stream a [PROTOCOL_ERROR]; neither
    changes the stream. *)
Theorem blocks_land s interims fields trails late e :
  State.receiving (state s) = true -> head s = None -> interim interims ->
  informational fields = false -> informational trails = false ->
  let opened := set_head (Some fields) s in
  let ended := set_state (State.ended_remotely (state s)) (set_trailers trails opened) in
  feed (interims ++ [(fields, false)]) s = (Ok tt, opened)
  /\ feed (interims ++ [(fields, false); (trails, true)]) s = (Ok tt, ended)
  /\ finished ended = true
  /\ headers trails false opened = (Err unended, opened)
  /\ headers late e ended = (Err after_end, ended).
Proof.
  intros Hs Hh Hi Hf Ht opened ended.
  assert (headers fields false s = (Ok tt, opened)) as Hhead.
  { unfold headers. rewrite Hs, Hf, Hh. done. }
  assert (headers trails true opened = (Ok tt, ended)) as Htrail.
  { unfold headers. cbn [opened set_head state head]. rewrite Hs, Ht. done. }
  assert (State.receiving (State.ended_remotely (state s)) = false) as Hend by (by destruct (state s)).
  split_and!.
  - rewrite feed_interim by done. cbn [feed]. unfold mthen. by rewrite Hhead.
  - rewrite feed_interim by done. cbn [feed]. unfold mthen. by rewrite Hhead, Htrail.
  - unfold finished. cbn [ended set_state state]. rewrite Hend. by rewrite orb_true_r.
  - unfold headers. cbn [opened set_head state head]. by rewrite Hs, Ht.
  - unfold headers. cbn [ended set_state state]. by rewrite Hend.
Qed.

Lemma blocks_land_witness :
  let s := new 10 10 in
  let opened := set_head (Some [(lit ":status", lit "200")]) s in
  let ended := set_state HalfClosedRemote (set_trailers [(lit "grpc-status", lit "0")] opened) in
  feed ([([(lit ":status", lit "103")], false)] ++ [([(lit ":status", lit "200")], false)]) s = (Ok tt, opened)
  /\ feed ([([(lit ":status", lit "103")], false)]
          ++ [([(lit ":status", lit "200")], false); ([(lit "grpc-status", lit "0")], true)]) s = (Ok tt, ended)
  /\ finished ended = true
  /\ headers [(lit "grpc-status", lit "0")] false opened = (Err unended, opened)
  /\ headers [] true ended = (Err after_end, ended).
Proof.
  apply (blocks_land (new 10 10) [([(lit ":status", lit "103")], false)] [(lit ":status", lit "200")]
           [(lit "grpc-status", lit "0")] [] true); try reflexivity.
  by repeat constructor.
Defined.

(** What a block may not do to a stream: reopen it, or change its windows,
    its body or its reset. *)
Lemma headers_frame fields e s r s' :
  headers fields e s = (r, s') ->
  send s' = send s /\ receive s' = receive s /\ body s' = body s /\ reset s' = reset s
  /\ (state s = Closed -> state s' = Closed).
Proof.
  unfold headers. intros H. repeat case_test; injection H as <- <-; split_and!; try done.
  all: cbn; by destruct (state s).
Qed.

End Stream.
