(* ===== verification/Http.v ===== *)
(** A request and its answer, whichever version carries them
    ([src/http.rs], [src/http/response.rs]): the data, the builders, and the
    request target. *)

From Stdlib Require Import String.
From S2P Require Import Prelude Text Errors.

(** [codec::percent], of another package: the query of a request target
    written and read. *)
Class Percent := {
  encode_pairs : list field -> bytes;
  decode_pairs : bytes -> list field;
}.

(** One header's value, however the peer capitalized it. *)
Definition find (headers : list field) (name : bytes) : option bytes :=
  snd <$> List.find (fun f => eq_ignore_ascii_case f.1 name) headers.

Record Request : Type := mkRequest {
  method : bytes;
  path : bytes;
  query : list field;
  headers : list field;
  body : bytes;
}.
#[global] Instance Request_eq_dec : EqDecision Request.
Proof. solve_decision. Defined.

Module Request.

Definition new (method path : bytes) : Request := mkRequest method path [] [] [].

Definition with_query (name value : bytes) (self : Request) : Request :=
  mkRequest (method self) (path self) (query self ++ [(name, value)]) (headers self) (body self).
Definition header (name value : bytes) (self : Request) : Request :=
  mkRequest (method self) (path self) (query self) (headers self ++ [(name, value)]) (body self).
Definition with_body (bytes : Prelude.bytes) (self : Request) : Request :=
  mkRequest (method self) (path self) (query self) (headers self) bytes.

Definition header_value (self : Request) (name : bytes) : option bytes := find (headers self) name.

Definition query_value (self : Request) (name : bytes) : option bytes :=
  snd <$> List.find (fun f => bool_decide (f.1 = name)) (query self).

Definition target `{Percent} (self : Request) : bytes :=
  match query self with
  | [] => path self
  | query => path self ++ lit "?" ++ encode_pairs query
  end.

End Request.

Definition split_target `{Percent} (target : bytes) : bytes * list field :=
  let '(path, query) := default (target, []) (split_once 63 target) in
  (path, decode_pairs query).

Definition bodiless (status : Z) : bool := (status <? 200) || (status =? 204) || (status =? 304).

Definition reason (status : Z) : bytes :=
  match status with
  | 101 => lit "Switching Protocols"
  | 200 => lit "OK"
  | 201 => lit "Created"
  | 202 => lit "Accepted"
  | 204 => lit "No Content"
  | 207 => lit "Multi-Status"
  | 304 => lit "Not Modified"
  | 400 => lit "Bad Request"
  | 401 => lit "Unauthorized"
  | 403 => lit "Forbidden"
  | 404 => lit "Not Found"
  | 405 => lit "Method Not Allowed"
  | 408 => lit "Request Timeout"
  | 409 => lit "Conflict"
  | 423 => lit "Locked"
  | 429 => lit "Too Many Requests"
  | 500 => lit "Internal Server Error"
  | 503 => lit "Service Unavailable"
  | _ => lit "Status"
  end.

Record Response : Type := mkResponse {
  status : Z;
  phrase : bytes;
  r_headers : list field;
  r_body : bytes;
  trailers : list field;
}.
#[global] Instance Response_eq_dec : EqDecision Response.
Proof. solve_decision. Defined.

Module Response.

Definition new (status : Z) : Response := mkResponse status (reason status) [] [] [].

Definition header (name value : bytes) (self : Response) : Response :=
  mkResponse (status self) (phrase self) (r_headers self ++ [(name, value)]) (r_body self) (trailers self).
Definition with_body (bytes : Prelude.bytes) (self : Response) : Response :=
  mkResponse (status self) (phrase self) (r_headers self) bytes (trailers self).
Definition trailer (name value : bytes) (self : Response) : Response :=
  mkResponse (status self) (phrase self) (r_headers self) (r_body self) (trailers self ++ [(name, value)]).

Definition header_value (self : Response) (name : bytes) : option bytes := find (r_headers self) name.
Definition trailer_value (self : Response) (name : bytes) : option bytes := find (trailers self) name.

Definition text (self : Response) : result NetError bytes :=
  match utf8_error 0 (r_body self) with
  | None => Ok (r_body self)
  | Some refused =>
      Err (NetErr.new (lit "the answer's body is not UTF-8 text: " ++ utf8_error_text refused
        ++ lit " (status " ++ dec (status self) ++ lit ")"))
  end.

(** The body as it is, where it is text; otherwise a refusal that names the
    first octet that is not. *)
Lemma text_spec self :
  match text self with
  | Ok t => t = r_body self /\ utf8 (r_body self) = true
  | Err e => exists n refused, e = NetErr.new (lit "the answer's body is not UTF-8 text: " ++ utf8_error_text (n, refused)
               ++ lit " (status " ++ dec (status self) ++ lit ")")
             /\ utf8 (ztake n (r_body self)) = true
             /\ forall m, n < m <= len (r_body self) -> utf8 (ztake m (r_body self)) = false
  end.
Proof.
  unfold text. pose proof (utf8_error_spec (r_body self) 0) as H. destruct (utf8_error 0 (r_body self)) as [[n refused]|]; [|done].
  destruct H as (_ & Ht & Hm). rewrite Z.sub_0_r in Ht, Hm. by exists n, refused.
Qed.

End Response.

(** ** What they say *)

(** A target read back: its path and its query, where the path holds no [?]
    and the codec reads back what it wrote. *)
Lemma target_split `{Percent} (r : Request) :
  63 ∉ path r ->
  decode_pairs (match query r with [] => [] | query => encode_pairs query end) = query r ->
  split_target (Request.target r) = (path r, query r).
Proof.
  intros Hp Hq. unfold split_target, Request.target. destruct (query r) as [|q qs].
  - rewrite split_once_none by done. cbn. by f_equal.
  - change (lit "?" ++ ?l) with (63 :: l). rewrite split_once_first by done. cbn. by f_equal.
Qed.

(** A value found is that of a header of that name. *)
Lemma find_spec headers name v :
  find headers name = Some v ->
  exists n, (n, v) ∈ headers /\ eq_ignore_ascii_case n name = true.
Proof.
  unfold find. destruct (List.find _ headers) as [[n w]|] eqn:Hf; [|discriminate]. cbn. intros [= <-].
  apply List.find_some in Hf as [Hin He]. exists n. split; [by apply list_elem_of_In | done].
Qed.

Lemma find_none headers name n v :
  find headers name = None -> (n, v) ∈ headers -> eq_ignore_ascii_case n name = false.
Proof.
  unfold find. destruct (List.find _ headers) eqn:Hf; [discriminate|]. intros _ Hin.
  apply (List.find_none _ _ Hf (n, v)). by apply list_elem_of_In.
Qed.
