(* ===== verification/Http1.v ===== *)
(** HTTP/1.1 on the wire ([src/http.rs], [src/http/message.rs],
    [src/http/body.rs]): a message written, a message read, and the exchange
    of one for the other. *)

From Stdlib Require Import String.
From S2P Require Import Prelude Text Errors Wire Reading Head Http.

(** ** The body a head frames *)

Module Body.

Definition within (length : Z) : result NetError unit :=
  Errors.within length MAX_BODY (lit "Xmip reads in one body").

Definition broken : NetError := NetErr.new (lit "a chunked body is broken").
Definition broke {A} (m : M Reader IoError A) : M Reader NetError A :=
  mmap_err (NetErr.from_io (lit "reading a chunk")) m.

(** [u8::is_ascii_hexdigit], and [usize::from_str_radix] of such digits. *)
Definition hex_digit (b : Z) : option Z :=
  if is_ascii_digit b then Some (b - 48)
  else if (97 <=? b) && (b <=? 102) then Some (b - 87)
  else if (65 <=? b) && (b <=? 70) then Some (b - 55)
  else None.
Fixpoint parse_hex (acc : Z) (s : bytes) : option Z :=
  match s with
  | [] => Some acc
  | b :: s =>
      d ← hex_digit b;
      let acc := acc * 16 + d in
      if acc <=? USIZE_MAX then parse_hex acc s else None
  end.

(** The size a chunk's line opens with, its extensions passed over. *)
Definition chunk_size (line : bytes) : option Z :=
  match trim (default line (fst <$> split_once 59 line)) with
  | [] => None
  | digits => parse_hex 0 digits
  end.

(** One turn of the loop of [unchunk], [whole] so far. *)
Definition chunk_turn (whole : bytes) : M Reader NetError (bytes + bytes * list bytes) :=
  line <~ Read.line ;;
  line <~ mlift (ok_or line broken) ;;
  size <~ mlift (ok_or (chunk_size line) broken) ;;
  if size =? 0 then
    trailer <~ Head.read_head ;;
    mret (inr (whole, trailer))
  else
    mlift (within (Z.min (len whole + size) USIZE_MAX)) ;;;
    chunk <~ broke (read_exact (Z.to_nat size)) ;;
    ending <~ broke (read_exact 2) ;;
    if bool_decide (ending = [13; 10]) then mret (inl (whole ++ chunk)) else mfail broken.

Definition unchunk : M Reader NetError (bytes * list bytes) := loop chunk_turn to_come Read.unending [].

Definition unread_coding (codings : bytes) : NetError :=
  NetErr.new (lit "a transfer coding this client does not read: " ++ codings).
Definition not_a_length (value : bytes) : NetError :=
  NetErr.new (lit "a Content-Length '" ++ value ++ lit "' is not one").

(** What a [Content-Length] says. *)
Definition length_of (value : bytes) : option Z :=
  match value with
  | [] => None
  | _ => if forallb is_ascii_digit value then parse_uint USIZE_MAX value else None
  end.

Definition read (head : list bytes) (to_end : bool) : M Reader NetError (bytes * list bytes) :=
  match Head.header head (lit "transfer-encoding") with
  | Some codings =>
      if negb (eq_ignore_ascii_case (trim codings) (lit "chunked")) then mfail (unread_coding codings)
      else unchunk
  | None =>
      match Head.header head (lit "content-length") with
      | Some value =>
          length <~ mlift (ok_or (length_of value) (not_a_length value)) ;;
          mlift (within length) ;;;
          bytes <~ mmap_err (NetErr.from_io (lit "reading the body")) (read_exact (Z.to_nat length)) ;;
          mret (bytes, [])
      | None =>
          if to_end then bytes <~ Read.to_end MAX_BODY ;; mret (bytes, [])
          else mret ([], [])
      end
  end.

End Body.

Module Http1.

(** ** Writing *)

Record Message : Type := mkMessage {
  first : bytes;
  m_headers : list field;
  m_body : bytes;
  m_trailers : list field;
  close : bool;
  m_bodiless : bool;
}.

Definition lines (fields : list field) : bytes := Head.write_fields [] fields.

(** What is written before the body, and after it. *)
Definition head_and_tail (message : Message) : bytes * bytes :=
  let close :=
    if close message && bool_decide (find (m_headers message) (lit "connection") = None)
    then lit "Connection: close" ++ Head.CRLF else [] in
  let start := first message ++ Head.CRLF ++ lines (m_headers message) in
  let body := m_body message in
  if m_bodiless message then (start ++ close ++ Head.CRLF, [])
  else if bool_decide (m_trailers message = []) then
    (start ++ lit "Content-Length: " ++ dec (len body) ++ Head.CRLF ++ close ++ Head.CRLF, [])
  else
    let chunk := if bool_decide (body = []) then [] else hex (len body) ++ Head.CRLF in
    let end_ := if bool_decide (body = []) then [] else Head.CRLF in
    (start ++ lit "Transfer-Encoding: chunked" ++ Head.CRLF ++ close ++ Head.CRLF ++ chunk,
     end_ ++ lit "0" ++ Head.CRLF ++ lines (m_trailers message) ++ Head.CRLF).

Definition write_message (message : Message) (what : bytes) : M Wire NetError unit :=
  let '(head, tail) := head_and_tail message in
  let body := if m_bodiless message then [] else m_body message in
  mmap_err (NetErr.from_io (lit "writing " ++ what))
    (write_all head ;;; write_all body ;;; write_all tail ;;; flush).

Definition write_response (response : Response) : M Wire NetError unit :=
  let phrase := if bool_decide (phrase response = []) then reason (status response) else phrase response in
  write_message
    (mkMessage (lit "HTTP/1.1 " ++ dec (status response) ++ lit " " ++ phrase) (r_headers response)
       (r_body response) (trailers response) true (bodiless (status response)))
    (lit "the answer").

(** ** Reading *)

Definition no_answer : NetError := NetErr.new (lit "the connection closed before an answer").
Definition not_http (line : bytes) : NetError :=
  NetErr.new (lit "what came back is not an HTTP answer: " ++ line).

(** [splitn(3, ' ')] after the first of them: the second, and the third where
    there is one. *)
Definition status_words (rest : bytes) : option (bytes * bytes) :=
  '(_, rest) ← split_once 32 rest;
  Some (match split_once 32 rest with Some (code, phrase) => (code, phrase) | None => (rest, []) end).

Definition status_code (code : bytes) : option Z :=
  if bool_decide (length code = 3%nat) then parse_uint U16_MAX code else None.

Definition read_response : M Reader NetError Response :=
  head <~ Head.read_head ;;
  line <~ mlift (ok_or (head !! 0%nat) no_answer) ;;
  rest <~ mlift (ok_or (strip_prefix (lit "HTTP/1.") line) (not_http line)) ;;
  words <~ mlift (ok_or (status_words rest) (not_http line)) ;;
  let '(code, phrase) := words in
  status <~ mlift (ok_or (status_code code) (not_http line)) ;;
  framed <~ (if bodiless status then mret ([], []) else Body.read head true) ;;
  let '(body, trailer) := framed in
  mret (mkResponse status phrase (Head.fields (drop 1 head)) body (Head.fields trailer)).

Definition bad_request_line (line : bytes) : NetError :=
  NetErr.new (lit "a request line Xmip cannot read: " ++ line).

(** The method and the target of a request line. *)
Definition request_words (line : bytes) : option (bytes * bytes) :=
  '(method, rest) ← next_word line;
  '(target, _) ← next_word rest;
  Some (method, target).

Section exchange.
Context `{Percent}.

Definition read_request : M Reader NetError (option Request) :=
  head <~ Head.read_head ;;
  match head with
  | [] => mret None
  | line :: rest =>
      words <~ mlift (ok_or (request_words line) (bad_request_line line)) ;;
      let '(method, target) := words in
      let '(path, query) := split_target target in
      framed <~ Body.read head false ;;
      mret (Some (mkRequest method path query (Head.fields rest) (fst framed)))
  end.

(** A request written, the connection said to close after it or not. *)
Definition write (request : Request) (close : bool) : M Wire NetError unit :=
  write_message
    (mkMessage (method request ++ lit " " ++ Request.target request ++ lit " HTTP/1.1")
       (headers request) (body request) [] close false)
    (lit "the request").

Definition write_request (request : Request) : M Wire NetError unit := write request true.

(** What a [BufReader] over a connection reads; what it has read ahead is
    dropped with it. *)
Definition reading {A} (m : M Reader NetError A) : M Wire NetError A := fun w =>
  let '(x, r) := m (buffered w) in (x, inner r).

Definition exchange (request : Request) : M Wire NetError Response :=
  write_request request ;;; reading read_response.

(** Whether an answer leaves its connection to carry another. *)
Definition keeps_connection (answer : Response) : bool :=
  let closed := match Response.header_value answer (lit "connection") with
                | Some said => eq_ignore_ascii_case said (lit "close")
                | None => false
                end in
  let framed := bodiless (status answer)
    || bool_decide (is_Some (Response.header_value answer (lit "content-length")))
    || bool_decide (is_Some (Response.header_value answer (lit "transfer-encoding"))) in
  framed && negb closed.

Definition exchange_kept (request : Request) : M Wire NetError (Response * bool) :=
  write request false ;;;
  answer <~ reading read_response ;;
  mret (answer, keeps_connection answer).

End exchange.
End Http1.
