(* ===== verification/Http1Crossing.v ===== *)
(** HTTP/1.1 both ways: what is written of a message is read back as that
    message, its framing aside, and a chunked body is put back together. *)

From Stdlib Require Import String.
From S2P Require Import Prelude Text Errors Wire Reading Head Http Http1.

Module Crossing.
Import Head Http1.

(** ** Fields *)

(** A field that can be written on a line of its own and read back. *)
Record plain_field (f : field) : Prop := {
  pf_name : 58 ∉ f.1;
  pf_trimmed : trim f.1 = f.1 /\ trim f.2 = f.2;
  pf_line : writable_line (field_line f);
}.

Lemma split_field f : 58 ∉ f.1 -> split_once 58 (field_line f) = Some (f.1, 32 :: f.2).
Proof. intros H. exact (split_once_first 58 f.1 (32 :: f.2) H). Qed.

Lemma fields_read fs : Forall plain_field fs -> Head.fields (map field_line fs) = fs.
Proof.
  unfold Head.fields. induction 1 as [|f fs [H1 [H2 H3] _] Hfs IH]; [done|].
  cbn [map omap list_omap]. rewrite split_field by done. cbn [map fst snd].
  rewrite trim_space, H2, H3. f_equal; [by destruct f | exact IH].
Qed.

Lemma header_read first fs name :
  Forall plain_field fs -> Head.header (first :: map field_line fs) name = find fs name.
Proof.
  unfold Head.header, find. rewrite skipn_cons, drop_0.
  induction 1 as [|f fs [H1 [H2 H3] _] Hfs IH]; [done|]. cbn [map find_map List.find].
  unfold value_of at 1. rewrite split_field by done. cbn [mbind option_bind].
  rewrite trim_space, H2, H3. destruct (eq_ignore_ascii_case f.1 name); [done | exact IH].
Qed.

Lemma writable_printable s : printable s -> len s + 2 <= Read.MAX_LINE -> writable_line s.
Proof.
  intros Hp Hl. split; [apply (printable_without _ _ Hp); lia | by apply printable_utf8 | done].
Qed.

(** Fields no message needs checked: a name and a value that are short and
    printable. *)
Lemma plain_printable f :
  printable f.1 -> 58 ∉ f.1 -> printable f.2 -> len f.1 + len f.2 <= 64 -> plain_field f.
Proof.
  intros H1 H2 H3 Hl. split; [done | by split; apply printable_trim |].
  split.
  - unfold field_line. rewrite !not_elem_of_app. split_and!; [apply (printable_without _ _ H1); lia | | apply (printable_without _ _ H3); lia].
    apply (bool_decide_unpack _). by vm_compute.
  - unfold field_line. clear H2 Hl. induction H1 as [|b s Hb Hs IH]; cbn [app].
    + apply printable_utf8 in H3. cbn. exact H3.
    + cbn [utf8]. unfold between at 1. by destruct (Z.leb_spec 0 b), (Z.leb_spec b 127); try lia.
  - unfold field_line. rewrite !len_app. unfold Read.MAX_LINE. change (len (lit ": ")) with 2. lia.
Qed.

(** ** A chunked body *)

(** One chunk as it is written: its size, and an extension a reader passes
    over. *)
Definition chunk_line (size : Z) (extension : bytes) : bytes := hex size ++ extension.
Definition chunk (c : bytes * bytes) : bytes :=
  chunk_line (len c.1) c.2 ++ CRLF ++ c.1 ++ CRLF.
Definition chunked (chunks : list (bytes * bytes)) (trailer : list bytes) : bytes :=
  concat (map chunk chunks) ++ lit "0" ++ CRLF ++ written trailer ++ CRLF.

(** An extension, or none: a [;] and text. *)
Definition extension_ok (size : Z) (e : bytes) : Prop :=
  match e with [] => True | b :: _ => b = 59 end /\ writable_line (chunk_line size e).

Lemma parse_hex_step a d s :
  0 <= d < 16 -> 0 <= a -> a * 16 + d <= USIZE_MAX -> Body.parse_hex a (digit d :: s) = Body.parse_hex (a * 16 + d) s.
Proof.
  intros Hd Ha Hm. cbn [Body.parse_hex]. assert (Body.hex_digit (digit d) = Some d) as ->.
  { cut ((d <? 0) || bool_decide (Body.hex_digit (digit d) = Some d) = true).
    { intros H. apply orb_true_iff in H as [H|H]; [apply Z.ltb_lt in H; lia | by apply bool_decide_eq_true in H]. }
    check_range 16%nat d. }
  cbn [mbind option_bind]. by destruct (Z.leb_spec (a * 16 + d) USIZE_MAX); [|lia].
Qed.

Lemma parse_hex_hex n : 0 <= n <= USIZE_MAX -> Body.parse_hex 0 (hex n) = Some n.
Proof.
  intros Hn. unfold hex.
  rewrite (digits_of_read Body.parse_hex 16 USIZE_MAX); [done | lia | by apply parse_hex_step | lia | apply log2_fuel; lia | lia].
Qed.

Lemma chunk_size_read n e :
  0 <= n <= USIZE_MAX -> extension_ok n e -> Body.chunk_size (chunk_line n e) = Some n.
Proof.
  intros Hn [He _]. unfold Body.chunk_size, chunk_line.
  pose proof (hex_printable _ (hex_digits n)) as Hp.
  assert (59 ∉ hex n) as H59.
  { intros Hin. pose proof (hex_digits n) as Hd. rewrite Forall_forall in Hd. specialize (Hd _ Hin). unfold is_hex in Hd. lia. }
  assert (default (hex n ++ e) (fst <$> split_once 59 (hex n ++ e)) = hex n) as ->.
  { destruct e as [|b e].
    - rewrite app_nil_r, split_once_none by done. done.
    - subst b. by rewrite split_once_first. }
  rewrite (printable_trim _ Hp). pose proof (hex_ne n). rewrite <- (parse_hex_hex n Hn). by destruct (hex n).
Qed.

Lemma chunk_goes_down : goes_down Body.chunk_turn to_come (fun _ => True).
Proof.
  intros whole r whole' r' _ Ht. split; [|done]. unfold Body.chunk_turn, mthen in Ht. unfold to_come.
  destruct (Read.line r) as [[[line|]|e] r1] eqn:Hl; try discriminate. apply line_takes in Hl.
  cbn [ok_or mlift] in Ht. unfold mlift in Ht. destruct (Body.chunk_size line) as [size|]; [|discriminate]. cbn [ok_or] in Ht.
  destruct (size =? 0). { destruct (read_head r1) as [[?|?] ?]; discriminate. }
  destruct (Body.within _); [|discriminate]. unfold Body.broke, mmap_err in Ht.
  destruct (read_exact (Z.to_nat size) r1) as [[c|e] r2] eqn:H1; [|discriminate].
  destruct (read_exact 2 r2) as [[c2|e] r3] eqn:H2; [|discriminate]. cbn [map_err] in Ht.
  case_bool_decide; [|discriminate]. injection Ht as _ <-.
  apply read_exact_left in H1, H2. lia.
Qed.

Lemma zero_line : writable_line (lit "0").
Proof. by apply line_check. Qed.

(** Chunks read off a connection, put back together. *)
Lemma chunks_loop trailer chunks : forall whole r k,
  Forall (fun c => c.1 <> [] /\ extension_ok (len c.1) c.2) chunks ->
  Forall writable_line trailer -> Forall (fun l => l <> []) trailer -> len trailer <= MAX_HEADERS ->
  len whole + len (concat (map fst chunks)) <= MAX_BODY ->
  coming r (chunked chunks trailer ++ k) ->
  exists r', loop Body.chunk_turn to_come Read.unending whole r
    = (Ok (whole ++ concat (map fst chunks), trailer), r')
  /\ coming r' k /\ as_written (inner r) (inner r').
Proof.
  induction chunks as [|[c e] chunks IH]; intros whole r k Hch Htr Hne Hn Hl Hc;
    rewrite (loop_turn _ _ _ (fun _ => True)) by (apply chunk_goes_down || done);
    unfold Body.chunk_turn at 1, mthen, mlift; unfold chunked in Hc; cbn [map concat] in Hc, Hl.
  - rewrite app_nil_l, <- !(assoc_L (++)) in Hc.
    destruct (line_written r (lit "0") _ zero_line Hc)
      as (r1 & -> & Hr1 & Hw1). cbn [ok_or]. change (Body.chunk_size (lit "0")) with (Some 0). cbn [ok_or].
    destruct (head_loop trailer [] r1 k Htr Hne Hr1) as (x & r2 & H1 & H2).
    { rewrite len_nil. unfold MAX_HEADERS. lia. }
    unfold read_head. change (0 =? 0) with true. cbv beta iota. rewrite H1. rewrite len_nil, Z.add_0_l in H2.
    destruct (Z.leb_spec (len trailer) MAX_HEADERS); [|lia]. destruct H2 as (-> & H3 & H4).
    exists r2. unfold mret. rewrite app_nil_r. split_and!; [done | done | by etrans].
  - apply Forall_cons in Hch as [[Hcn He] Hch]. cbn [fst snd] in *.
    unfold chunk in Hc. cbn [fst snd] in Hc. rewrite <- !(assoc_L (++)) in Hc.
    destruct (line_written r (chunk_line (len c) e) _ (proj2 He) Hc) as (r1 & -> & Hr1 & Hw1). cbn [ok_or].
    rewrite len_app in Hl. pose proof (len_nonneg c) as Hcl. pose proof (len_nonneg whole) as Hwl.
    pose proof (len_nonneg (concat (map fst chunks))) as Hrl. unfold MAX_BODY in Hl.
    rewrite chunk_size_read by (unfold USIZE_MAX; lia || done). cbn [ok_or].
    assert (0 < len c) as Hpos. { destruct c; [done|]. rewrite len_cons. pose proof (len_nonneg c). lia. }
    destruct (Z.eqb_spec (len c) 0); [lia|]. unfold Body.within.
    rewrite within_fits by (unfold MAX_BODY, USIZE_MAX; lia).
    unfold Body.broke, mmap_err.
    destruct (read_exact_coming (Z.to_nat (len c)) r1 c _ Hr1) as (r2 & -> & Hr2 & Hw2); [unfold len; lia|].
    cbn [map_err]. destruct (read_exact_coming 2 r2 CRLF _ Hr2 eq_refl) as (r3 & -> & Hr3 & Hw3). cbn [map_err].
    rewrite bool_decide_eq_true_2 by done. unfold mret.
    destruct (IH (whole ++ c) r3 k Hch Htr Hne Hn) as (r4 & H1 & H2 & H3).
    { rewrite len_app. unfold MAX_BODY. lia. }
    { unfold chunked. by rewrite <- !(assoc_L (++)). }
    exists r4. rewrite H1, <- (assoc_L (++)). split_and!; [done | done |]. by repeat (etrans; [eassumption|]).
Qed.

(** C11. A chunked body is put back together: whatever its chunks, with
    whatever extensions, in whatever pieces they arrive, and up to
    [MAX_BODY] octets of them, what [unchunk] reads is the chunks' octets end
    to end and the lines of the trailer, and what follows is still to
    come. *)
Theorem chunks_put_back chunks trailer r k :
  Forall (fun c => c.1 <> [] /\ extension_ok (len c.1) c.2) chunks ->
  Forall writable_line trailer -> Forall (fun l => l <> []) trailer -> len trailer <= MAX_HEADERS ->
  len (concat (map fst chunks)) <= MAX_BODY ->
  coming r (chunked chunks trailer ++ k) ->
  exists r', Body.unchunk r = (Ok (concat (map fst chunks), trailer), r') /\ coming r' k.
Proof.
  intros Hch Htr Hne Hn Hl Hc.
  destruct (chunks_loop trailer chunks [] r k Hch Htr Hne Hn) as (r' & H1 & H2 & _); [by rewrite len_nil | done |].
  by exists r'.
Qed.

Lemma chunks_put_back_witness :
  let chunks := [(lit "hello ", lit ";q=1"); (lit "world", [])] in
  let r := buffered (mkWire [Got (chunked chunks [lit "x: y"])] [] []) in
  exists r', Body.unchunk r = (Ok (concat (map fst chunks), [lit "x: y"]), r') /\ coming r' [].
Proof.
  apply (chunks_put_back [(lit "hello ", lit ";q=1"); (lit "world", [])] [lit "x: y"]).
  - apply Forall_cons; split; [|apply Forall_cons; split; [|apply Forall_nil]]; split; try done; split; try done; by apply line_check.
  - by apply lines_check.
  - by repeat constructor.
  - vm_compute. congruence.
  - vm_compute. congruence.
  - apply buffered_coming. rewrite app_nil_r.
    exact (delivers_one (chunked [(lit "hello ", lit ";q=1"); (lit "world", [])] [lit "x: y"])).
Defined.

(** ** A message *)

(** The fields a message is framed with, after its own. *)
Definition framing (m : Message) : list field :=
  (if m_bodiless m then []
   else if bool_decide (m_trailers m = []) then [(lit "Content-Length", dec (len (m_body m)))]
   else [(lit "Transfer-Encoding", lit "chunked")])
  ++ (if close m && bool_decide (find (m_headers m) (lit "connection") = None)
      then [(lit "Connection", lit "close")] else []).

(** What its head frames. *)
Definition content (m : Message) : bytes :=
  if m_bodiless m then []
  else if bool_decide (m_trailers m = []) then m_body m
  else chunked (if bool_decide (m_body m = []) then [] else [(m_body m, [])]) (map field_line (m_trailers m)).

Definition message_lines (m : Message) : list bytes := first m :: map field_line (m_headers m ++ framing m).

Definition octets_of (m : Message) : bytes := written (message_lines m) ++ CRLF ++ content m.

Lemma written_app a b : written (a ++ b) = written a ++ written b.
Proof. unfold written. by rewrite map_app, concat_app. Qed.

Lemma head_and_tail_octets m :
  let '(head, tail) := head_and_tail m in
  head ++ (if m_bodiless m then [] else m_body m) ++ tail = octets_of m.
Proof.
  unfold head_and_tail, octets_of, message_lines, framing, content, lines.
  rewrite write_fields_lines, app_nil_l.
  change (first m :: ?l) with ([first m] ++ l). rewrite !map_app, !written_app.
  assert (written [first m] = first m ++ CRLF) as -> by (unfold written; cbn; by rewrite app_nil_r).
  destruct (close m && _); destruct (m_bodiless m); try case_bool_decide as Ht;
    try case_bool_decide as Hb; rewrite ?Ht, ?Hb, ?write_fields_lines;
    unfold chunked, chunk, chunk_line, written, field_line; cbn [map concat fst snd app];
    repeat rewrite <- (assoc_L (++)); rewrite ?app_nil_r; cbn [app]; repeat rewrite <- (assoc_L (++)); try done.
Qed.

Lemma write_all_wrote bs w :
  refusals w = [] -> write_all bs w = (Ok tt, mkWire (incoming w) (outgoing w ++ bs) []).
Proof.
  intros Hr. destruct w as [rs out rf]. cbn in Hr. subst rf. destruct bs as [|b bs]; [|done].
  cbn. by rewrite app_nil_r.
Qed.

Lemma message_wrote m what w :
  refusals w = [] ->
  write_message m what w = (Ok tt, mkWire (incoming w) (outgoing w ++ octets_of m) []).
Proof.
  intros Hr. unfold write_message. pose proof (head_and_tail_octets m) as Ho.
  destruct (head_and_tail m) as [head tail]. rewrite <- Ho. unfold mmap_err, mthen, flush.
  rewrite (write_all_wrote head w Hr). rewrite !write_all_wrote by done. cbn [incoming outgoing].
  unfold asked. cbn [refusals incoming outgoing map_err]. by rewrite app_nil_r, <- !(assoc_L (++)).
Qed.

Lemma find_app a b name : find (a ++ b) name = match find a name with Some v => Some v | None => find b name end.
Proof.
  unfold find. induction a as [|f a IH]; [done|]. cbn [app List.find]. destruct (eq_ignore_ascii_case f.1 name); [done | exact IH].
Qed.

Lemma find_cons f fs name :
  find (f :: fs) name = if eq_ignore_ascii_case f.1 name then Some f.2 else find fs name.
Proof. unfold find. cbn [List.find]. by destruct (eq_ignore_ascii_case f.1 name). Qed.

(** A [Connection: close], or none, frames no body. *)
Lemma find_closing (b : bool) name :
  eq_ignore_ascii_case (lit "Connection") name = false ->
  find (if b then [(lit "Connection", lit "close")] else []) name = None.
Proof. intros H. destruct b; [|done]. rewrite find_cons. cbn [fst]. by rewrite H. Qed.

(** A message that can be written and read back: its own fields plain and
    none of them framing, its lines short and not too many. *)
Record sendable (m : Message) : Prop := {
  se_first : writable_line (first m) /\ first m <> [];
  se_headers : Forall plain_field (m_headers m);
  se_length : find (m_headers m) (lit "content-length") = None;
  se_coding : find (m_headers m) (lit "transfer-encoding") = None;
  se_few : len (m_headers m) + 3 <= MAX_HEADERS;
  se_body : len (m_body m) <= MAX_BODY;
  se_trailers : Forall plain_field (m_trailers m) /\ len (m_trailers m) <= MAX_HEADERS;
}.

Lemma plain_length n : 0 <= n <= MAX_BODY -> plain_field (lit "Content-Length", dec n).
Proof.
  intros Hn. pose proof (hex_printable _ (dec_hex n ltac:(lia))) as Hp.
  destruct (number_len n) as [Hl _]; [unfold MAX_BODY in Hn; lia|].
  split; cbn [fst snd].
  - apply (bool_decide_unpack _). by vm_compute.
  - split; [done | by apply printable_trim].
  - split.
    + unfold field_line. cbn [fst snd]. rewrite !not_elem_of_app. split_and!;
        [apply (bool_decide_unpack _); by vm_compute | apply (bool_decide_unpack _); by vm_compute | apply (printable_without _ _ Hp); lia].
    + change (utf8 (field_line _)) with (utf8 (dec n)). by apply printable_utf8.
    + unfold field_line. cbn [fst snd]. rewrite !len_app. unfold Read.MAX_LINE.
      change (len (lit "Content-Length")) with 14. change (len (lit ": ")) with 2. lia.
Qed.

Lemma plain_check f :
  bool_decide (58 ∉ f.1) && bool_decide (trim f.1 = f.1) && bool_decide (trim f.2 = f.2) && writable_lineb (field_line f) = true ->
  plain_field f.
Proof.
  rewrite !andb_true_iff, !bool_decide_eq_true. intros [[[H1 H2] H3] H4]. split; [done | done | by apply line_check].
Qed.

Lemma framing_plain m : len (m_body m) <= MAX_BODY -> Forall plain_field (framing m) /\ len (framing m) <= 2.
Proof.
  intros Hb. pose proof (len_nonneg (m_body m)). unfold framing. split.
  - apply Forall_app. split.
    + destruct (m_bodiless m); [done|]. case_bool_decide; apply Forall_singleton; [by apply plain_length | by apply plain_check].
    + destruct (_ && _); [apply Forall_singleton; by apply plain_check | done].
  - rewrite len_app. destruct (m_bodiless m), (_ && _); try case_bool_decide; unfold len; cbn; lia.
Qed.

Lemma message_lines_ok m : sendable m ->
  Forall writable_line (message_lines m) /\ Forall (fun l => l <> []) (message_lines m)
  /\ len (message_lines m) <= MAX_HEADERS /\ Forall plain_field (m_headers m ++ framing m).
Proof.
  intros [[H1 H1'] H2 _ _ H5 H6 _]. destruct (framing_plain m H6) as [Hp Hl].
  assert (Forall plain_field (m_headers m ++ framing m)) as Hall by (by apply Forall_app).
  unfold message_lines. split_and!; [| | |done].
  - constructor; [done|]. apply Forall_map. eapply Forall_impl; [exact Hall|]. by intros f [].
  - constructor; [done|]. apply Forall_map. eapply Forall_impl; [exact Hall|]. intros f _. unfold field_line.
    cbn. by destruct f.1.
  - rewrite len_cons. unfold len. rewrite length_map. change (Z.of_nat (length ?l)) with (len l). rewrite len_app. lia.
Qed.

(** The head of a message, read. *)
Lemma message_head m r k :
  sendable m -> coming r (octets_of m ++ k) ->
  exists r', read_head r = (Ok (message_lines m), r') /\ coming r' (content m ++ k) /\ as_written (inner r) (inner r').
Proof.
  intros Hs Hc. destruct (message_lines_ok m Hs) as (H1 & H2 & H3 & _). unfold octets_of in Hc.
  rewrite <- !(assoc_L (++)) in Hc. destruct (head_loop (message_lines m) [] r _ H1 H2 Hc) as (x & r' & Hl & H).
  { rewrite len_nil. unfold MAX_HEADERS. lia. }
  rewrite len_nil, Z.add_0_l in H. destruct (Z.leb_spec (len (message_lines m)) MAX_HEADERS); [|lia].
  destruct H as (-> & H4 & H5). exists r'. by split_and!.
Qed.

(** The body its head frames, read. *)
Lemma message_body m to_end r k :
  sendable m -> m_bodiless m = false -> coming r (content m ++ k) ->
  exists r', Body.read (message_lines m) to_end r = (Ok (m_body m, map field_line (m_trailers m)), r')
    /\ coming r' k /\ as_written (inner r) (inner r').
Proof.
  intros Hs Hb Hc. destruct (message_lines_ok m Hs) as (_ & _ & _ & Hplain).
  destruct Hs as [_ _ H3 H4 _ H6 [H7 H8]]. unfold Body.read, message_lines.
  rewrite !(header_read _ _ _ Hplain), !find_app, H3, H4. clear Hplain. unfold framing, content in *. rewrite Hb in *.
  case_bool_decide as Ht.
  - rewrite !find_app, !find_closing by done. rewrite !find_cons. cbn [fst snd].
    change (eq_ignore_ascii_case (lit "Content-Length") (lit "transfer-encoding")) with false.
    change (eq_ignore_ascii_case (lit "Content-Length") (lit "content-length")) with true. cbn iota.
    change (find [] _) with (@None bytes). cbn iota.
    pose proof (len_nonneg (m_body m)) as Hn. unfold Body.length_of, mthen, mlift.
    pose proof (dec_digits (len (m_body m)) Hn) as Hd. pose proof (dec_ne (len (m_body m)) Hn) as Hne.
    rewrite (proj2 (List.forallb_forall is_ascii_digit (dec (len (m_body m))))) by (by apply List.Forall_forall).
    rewrite parse_dec by (unfold MAX_BODY, USIZE_MAX in *; lia).
    destruct (dec (len (m_body m))); [done|]. cbn [ok_or]. unfold Body.within. rewrite within_fits by done.
    unfold mmap_err. destruct (read_exact_coming (Z.to_nat (len (m_body m))) r (m_body m) k Hc) as (r' & -> & Hr & Hw).
    { unfold len. lia. }
    exists r'. rewrite Ht. by split_and!.
  - rewrite !find_app, find_cons. cbn [fst snd].
    change (eq_ignore_ascii_case (lit "Transfer-Encoding") (lit "transfer-encoding")) with true. cbn iota.
    change (negb (eq_ignore_ascii_case (trim (lit "chunked")) (lit "chunked"))) with false. cbn iota.
    assert (Forall writable_line (map field_line (m_trailers m)) /\ Forall (fun l => l <> []) (map field_line (m_trailers m))
      /\ len (map field_line (m_trailers m)) <= MAX_HEADERS) as (Ht1 & Ht2 & Ht3).
    { split_and!.
      - apply Forall_map. eapply Forall_impl; [exact H7|]. by intros f [].
      - apply Forall_map. eapply Forall_impl; [exact H7|]. intros f _. unfold field_line. cbn. by destruct f.1.
      - unfold len. by rewrite length_map. }
    set (chunks := if bool_decide (m_body m = []) then [] else [(m_body m, [])]) in *.
    assert (concat (map fst chunks) = m_body m) as Hcat.
    { unfold chunks. case_bool_decide as Hz; [by rewrite Hz|]. cbn. by rewrite app_nil_r. }
    destruct (chunks_loop (map field_line (m_trailers m)) chunks [] r k) as (r' & Hl & Hr & Hw); try done.
    + unfold chunks. case_bool_decide as Hz; [done|]. apply Forall_singleton. split; [done|]. split; [done|]. cbn [fst snd].
      unfold chunk_line. rewrite app_nil_r. apply writable_printable; [apply hex_printable, hex_digits|].
      pose proof (len_nonneg (m_body m)). destruct (number_len (len (m_body m))) as [_ Hx]; [unfold MAX_BODY in H6; lia|].
      unfold Read.MAX_LINE. lia.
    + rewrite Hcat, len_nil. lia.
    + exists r'. unfold Body.unchunk. rewrite Hl, Hcat. by split_and!.
Qed.

(** ** An answer *)

(** The phrase an answer is written with. *)
Definition phrase_of (r : Response) : bytes :=
  if bool_decide (phrase r = []) then reason (status r) else phrase r.

Definition answer_message (r : Response) : Message :=
  mkMessage (lit "HTTP/1.1 " ++ dec (status r) ++ lit " " ++ phrase_of r) (r_headers r)
    (r_body r) (trailers r) true (bodiless (status r)).

(** The answer the other side reads. *)
Definition as_answered (r : Response) : Response :=
  mkResponse (status r) (phrase_of r) (r_headers r ++ framing (answer_message r))
    (if bodiless (status r) then [] else r_body r) (if bodiless (status r) then [] else trailers r).

Lemma status_dec n : 100 <= n < 1000 -> exists a b c, dec n = [a; b; c] /\ (32 ∉ dec n) /\ status_code (dec n) = Some n.
Proof.
  intros Hn. assert (length (dec n) = 3%nat) as Hl.
  { cut ((n <? 100) || bool_decide (length (dec n) = 3%nat) = true).
    { intros H. apply orb_true_iff in H as [H|H]; [apply Z.ltb_lt in H; lia | by apply bool_decide_eq_true in H]. }
    check_range 1000%nat n. }
  destruct (dec n) as [|a [|b [|c [|d l]]]] eqn:Hd; try discriminate. exists a, b, c. split; [done|].
  rewrite <- Hd. split.
  - apply printable_without; [apply hex_printable, dec_hex; lia | lia].
  - unfold status_code. rewrite Hd, bool_decide_eq_true_2, <- Hd by done. apply parse_dec. unfold U16_MAX. lia.
Qed.

Lemma answer_line_read r : 100 <= status r < 1000 ->
  strip_prefix (lit "HTTP/1.") (first (answer_message r)) = Some (lit "1 " ++ dec (status r) ++ lit " " ++ phrase_of r)
  /\ status_words (lit "1 " ++ dec (status r) ++ lit " " ++ phrase_of r) = Some (dec (status r), phrase_of r)
  /\ status_code (dec (status r)) = Some (status r).
Proof.
  intros Hs. destruct (status_dec _ Hs) as (a & b & c & _ & Hn & Hc). split_and!; [|  | done].
  - exact (strip_prefix_app (lit "HTTP/1.") (lit "1 " ++ dec (status r) ++ lit " " ++ phrase_of r)).
  - unfold status_words. change (lit "1 " ++ ?l) with ([49] ++ (32 :: l)). rewrite split_once_first.
    + cbn [mbind option_bind]. change (lit " " ++ phrase_of r) with (32 :: phrase_of r). by rewrite split_once_first.
    + apply (bool_decide_unpack _). by vm_compute.
Qed.

Lemma http1_answer_read r rd k :
  100 <= status r < 1000 -> sendable (answer_message r) -> coming rd (octets_of (answer_message r) ++ k) ->
  exists rd', read_response rd = (Ok (as_answered r), rd') /\ coming rd' k /\ as_written (inner rd) (inner rd').
Proof.
  intros Hst Hs Hc. destruct (message_head _ _ _ Hs Hc) as (r1 & H1 & Hr1 & Hw1).
  destruct (answer_line_read r Hst) as (H2 & H3 & H4). destruct (message_lines_ok _ Hs) as (_ & _ & _ & Hplain).
  unfold read_response, mthen, mlift. rewrite H1. cbn [message_lines lookup list_lookup ok_or].
  rewrite H2. cbn [ok_or]. rewrite H3. cbn [ok_or]. rewrite H4. cbn [ok_or].
  change (drop 1 (message_lines (answer_message r))) with (map field_line (m_headers (answer_message r) ++ framing (answer_message r))).
  rewrite (fields_read _ Hplain). unfold as_answered. destruct (bodiless (status r)) eqn:Hb.
  - exists r1. unfold mret. split; [done|]. split; [|done]. unfold content in Hr1. cbn [m_bodiless answer_message] in Hr1.
    by rewrite Hb in Hr1.
  - destruct (message_body (answer_message r) true r1 k Hs Hb Hr1) as (r2 & -> & Hr2 & Hw2). exists r2. unfold mret.
    cbn [m_body m_trailers answer_message]. rewrite fields_read by apply Hs. split_and!; [done | done | by etrans].
Qed.

(** C10. An answer crosses HTTP/1.1: what [write_response] writes of any
    answer with a status of three digits and plain fields — none of its own
    framing it — is read by [read_response], in whatever pieces it comes, as
    that answer: its status, its phrase (the table's where it had none), its
    headers followed by the framing written, its body to the last octet and
    its trailers, neither of them where the status has none; and what follows
    is still to come. *)
Theorem answer_crosses r w rd k :
  100 <= status r < 1000 -> sendable (answer_message r) -> refusals w = [] ->
  exists out, write_response r w = (Ok tt, mkWire (incoming w) (outgoing w ++ out) [])
  /\ (coming rd (out ++ k) ->
      exists rd', read_response rd = (Ok (as_answered r), rd') /\ coming rd' k).
Proof.
  intros Hst Hs Hw. exists (octets_of (answer_message r)). split.
  - exact (message_wrote (answer_message r) (lit "the answer") w Hw).
  - intros Hc. destruct (http1_answer_read r rd k Hst Hs Hc) as (rd' & H1 & H2 & _). by exists rd'.
Qed.

(** [sendable], checked by computing. *)
Lemma sendable_check m :
  writable_lineb (first m) && negb (bool_decide (first m = []))
  && forallb (fun f => bool_decide (58 ∉ f.1) && bool_decide (trim f.1 = f.1) && bool_decide (trim f.2 = f.2)
                       && writable_lineb (field_line f)) (m_headers m ++ m_trailers m)
  && bool_decide (find (m_headers m) (lit "content-length") = None)
  && bool_decide (find (m_headers m) (lit "transfer-encoding") = None)
  && (len (m_headers m) + 3 <=? MAX_HEADERS) && (len (m_body m) <=? MAX_BODY)
  && (len (m_trailers m) <=? MAX_HEADERS) = true ->
  sendable m.
Proof.
  rewrite !andb_true_iff, !bool_decide_eq_true, !Z.leb_le, negb_true_iff, bool_decide_eq_false.
  intros [[[[[[[H1 H2] H3] H4] H5] H6] H7] H8]. rewrite List.forallb_forall in H3.
  assert (forall l, (forall f, In f l -> In f (m_headers m ++ m_trailers m)) -> Forall plain_field l) as Hp.
  { intros l Hl. apply List.Forall_forall. intros f Hf. by apply plain_check, H3, Hl. }
  split; try done.
  - split; [by apply line_check | done].
  - apply Hp. intros f Hf. apply in_app_iff. by left.
  - split; [|done]. apply Hp. intros f Hf. apply in_app_iff. by right.
Qed.

Definition example_response : Response :=
  mkResponse 200 [] [(lit "X-A", lit "1: 2")] (lit "hello") [(lit "Grpc-Status", lit "0")].

Lemma answer_crosses_witness :
  let w := mkWire [] [] [] in
  let rd := mkReader (octets_of (answer_message example_response)) (mkWire [] [] []) in
  exists out, write_response example_response w = (Ok tt, mkWire (incoming w) (outgoing w ++ out) [])
  /\ (coming rd (out ++ []) ->
      exists rd', read_response rd = (Ok (as_answered example_response), rd') /\ coming rd' []).
Proof.
  apply answer_crosses.
  - cbn; lia.
  - apply sendable_check. by vm_compute.
  - reflexivity.
Defined.

Example answer_crosses_by_running :
  (read_response (mkReader (octets_of (answer_message example_response)) (mkWire [] [] []))).1 = Ok (as_answered example_response).
Proof. by vm_compute. Qed.

(** ** A request *)

Section request.
Context `{Percent}.

Definition request_message (r : Request) (close : bool) : Message :=
  mkMessage (method r ++ lit " " ++ Request.target r ++ lit " HTTP/1.1") (headers r) (body r) [] close false.

(** The request the other side reads. *)
Definition as_asked (r : Request) (close : bool) : Request :=
  mkRequest (method r) (path r) (query r) (headers r ++ framing (request_message r close)) (body r).

(** A request whose line can be read back: words, and a query the codec
    reads as it wrote it. *)
Record askable (r : Request) : Prop := {
  as_method : printable (method r) /\ method r <> [];
  as_target : printable (Request.target r) /\ Request.target r <> [];
  as_path : 63 ∉ path r;
  as_query : decode_pairs (match query r with [] => [] | query => encode_pairs query end) = query r;
}.

Lemma next_word_printable s k : printable s -> s <> [] -> next_word (s ++ 32 :: k) = Some (s, 32 :: k).
Proof.
  intros Hp Hne. destruct Hp as [|b s Hb Hs]; [done|]. unfold next_word. cbn [app].
  rewrite trim_start_solid by (by apply printable_white).
  change (b :: s ++ 32 :: k) with ((b :: s) ++ 32 :: k). rewrite word_printable by (by constructor). done.
Qed.

Lemma request_line_read r close : askable r ->
  request_words (first (request_message r close)) = Some (method r, Request.target r).
Proof.
  intros [[H1 H2] [H3 H4] _ _]. unfold request_words. cbn [first request_message].
  change (lit " " ++ ?l) with (32 :: l). rewrite next_word_printable by done. cbn [mbind option_bind].
  assert (next_word (32 :: Request.target r ++ lit " HTTP/1.1") = next_word (Request.target r ++ lit " HTTP/1.1")) as ->.
  { unfold next_word. by rewrite trim_start_space. }
  change (lit " HTTP/1.1") with (32 :: lit "HTTP/1.1").
  by rewrite (next_word_printable (Request.target r) (lit "HTTP/1.1") H3 H4).
Qed.

Lemma http1_request_read r close rd k :
  askable r -> sendable (request_message r close) -> coming rd (octets_of (request_message r close) ++ k) ->
  exists rd', read_request rd = (Ok (Some (as_asked r close)), rd') /\ coming rd' k /\ as_written (inner rd) (inner rd').
Proof.
  intros Ha Hs Hc. destruct (message_head _ _ _ Hs Hc) as (r1 & H1 & Hr1 & Hw1).
  destruct (message_lines_ok _ Hs) as (_ & _ & _ & Hplain).
  unfold read_request, mthen, mlift. rewrite H1. cbn [message_lines]. rewrite request_line_read by done. cbn [ok_or].
  rewrite target_split by apply Ha.
  destruct (message_body (request_message r close) false r1 k Hs eq_refl Hr1) as (r2 & Hb & Hr2 & Hw2).
  change (Body.read _ false r1) with (Body.read (message_lines (request_message r close)) false r1). rewrite Hb.
  exists r2. unfold mret. cbn [fst].
  change (headers r) with (m_headers (request_message r close)). rewrite (fields_read _ Hplain).
  split_and!; [done | done | by etrans].
Qed.

(** C9. A request crosses HTTP/1.1: what [write_request] writes of any
    request with a method and a target of words, and plain fields of which
    none frames it, is read by [read_request], in whatever pieces it comes,
    as that request: its method, its path, its query decoded, its headers
    followed by its length and the connection's close where it named no
    [Connection] of its own, and its body; what follows is still to come. *)
Theorem request_crosses_http1 r w rd k :
  askable r -> sendable (request_message r true) -> refusals w = [] ->
  exists out, write_request r w = (Ok tt, mkWire (incoming w) (outgoing w ++ out) [])
  /\ (coming rd (out ++ k) ->
      exists rd', read_request rd = (Ok (Some (as_asked r true)), rd') /\ coming rd' k).
Proof.
  intros Ha Hs Hw. exists (octets_of (request_message r true)). split.
  - exact (message_wrote (request_message r true) (lit "the request") w Hw).
  - intros Hc. destruct (http1_request_read r true rd k Ha Hs Hc) as (rd' & H1 & H2 & _). by exists rd'.
Qed.

(** What an answer written by [write_response] says of its connection. *)
Definition says_keep (r : Response) : bool :=
  match find (r_headers r) (lit "connection") with
  | Some said => negb (eq_ignore_ascii_case said (lit "close"))
  | None => false
  end.

Lemma answer_keeps r :
  find (r_headers r) (lit "content-length") = None -> find (r_headers r) (lit "transfer-encoding") = None ->
  keeps_connection (as_answered r) = says_keep r.
Proof.
  intros H1 H2. unfold keeps_connection, says_keep, Response.header_value, as_answered. cbn [r_headers status].
  rewrite !find_app, H1, H2. unfold framing. cbn [m_bodiless m_trailers m_headers m_body close answer_message andb].
  destruct (bodiless (status r)); [|destruct (bool_decide (trailers r = []))];
    (destruct (find (r_headers r) (lit "connection")) as [said|] eqn:Hf; [|by vm_compute]).
  all: by vm_compute.
Qed.

End request.

Definition example_request : Request :=
  mkRequest (lit "PUT") (lit "/a%20b") [(lit "k", lit "v")] [(lit "Host", lit "h")] (lit "body").

(** A query of one name and value that need no encoding. *)
#[local] Instance plain : Percent := {|
  encode_pairs qs := match qs with (n, v) :: _ => n ++ lit "=" ++ v | [] => [] end;
  decode_pairs s := match split_once 61 s with Some (n, v) => [(n, v)] | None => [] end;
|}.

Lemma example_askable : askable example_request.
Proof.
  assert (forall s, forallb (fun b => (33 <=? b) && (b <? 127)) s = true -> printable s) as Hp.
  { intros s H. rewrite List.forallb_forall in H. apply List.Forall_forall. intros b Hb. specialize (H b Hb).
    apply andb_true_iff in H. lia. }
  split; [split; [by apply Hp | done] | split; [by apply Hp | done] | | reflexivity].
  apply (bool_decide_unpack _). by vm_compute.
Qed.

Lemma request_crosses_http1_witness :
  let w := mkWire [] [] [] in
  let rd := mkReader (octets_of (request_message example_request true)) (mkWire [] [] []) in
  exists out, write_request example_request w = (Ok tt, mkWire (incoming w) (outgoing w ++ out) [])
  /\ (coming rd (out ++ []) ->
      exists rd', read_request rd = (Ok (Some (as_asked example_request true)), rd') /\ coming rd' []).
Proof.
  apply request_crosses_http1.
  - exact example_askable.
  - apply sendable_check. by vm_compute.
  - reflexivity.
Defined.

Definition kept_response : Response :=
  mkResponse 200 (lit "Fine") [(lit "Connection", lit "keep-alive")] (lit "hello") [].


(** What HTTP/1.0 says closes is called kept: an answer of that version with
    a length and no [Connection]. *)
Lemma old_answer_called_kept :
  let answer := lit "HTTP/1.0 200 OK" ++ CRLF ++ lit "Content-Length: 2" ++ CRLF ++ CRLF ++ lit "ok" in
  match exchange_kept (Request.new (lit "GET") (lit "/")) (mkWire [Got answer] [] []) with
  | (Ok (r, kept), _) => status r = 200 /\ kept = true
  | _ => False
  end.
Proof. by vm_compute. Qed.

(** A status of three octets that are not three digits is read. *)
Lemma signed_status_read :
  match read_response (mkReader (lit "HTTP/1.1 +20 OK" ++ CRLF ++ CRLF) (mkWire [] [] [])) with
  | (Ok r, _) => status r = 20
  | _ => False
  end.
Proof. by vm_compute. Qed.

End Crossing.
