(* ===== verification/H2Message.v ===== *)
(** A request and its answer as HTTP/2 carries them, RFC 9113 section 8
    ([src/http2/message.rs]). *)

From Stdlib Require Import String.
From S2P Require Import Prelude Text Errors HpackTable Http.

Module Message.

Definition CONNECTION_SPECIFIC : list bytes :=
  [lit "connection"; lit "keep-alive"; lit "proxy-connection"; lit "transfer-encoding";
   lit "upgrade"; lit "host"].

Definition OVERHEAD : Z := 32.

Definition list_size (fields : list field) : Z :=
  foldr (fun f n => len f.1 + len f.2 + OVERHEAD + n) 0 fields.

(** [name.starts_with(':')]. *)
Definition pseudo (name : bytes) : bool := match name with 58 :: _ => true | _ => false end.

Definition list_over (size limit : Z) : Violation :=
  Viol.protocol (lit "a header list of " ++ dec size ++ lit " octets, over the " ++ dec limit
    ++ lit " announced").
(** [{name:?}] of a name with nothing to escape in it; the message of a
    refusal here is not sent to the peer, only its code is. *)
Definition bad_name (name : bytes) : Violation :=
  Viol.protocol (lit "a field name " ++ [34] ++ name ++ [34]).
Definition late_pseudo (name : bytes) : Violation :=
  Viol.protocol (name ++ lit " after a regular field").

Fixpoint check_names (fields : list field) (regular : bool) : result Violation unit :=
  match fields with
  | [] => Ok tt
  | (name, _) :: fields =>
      if bool_decide (name = []) || existsb is_ascii_uppercase name then Err (bad_name name)
      else if pseudo name && regular then Err (late_pseudo name)
      else check_names fields (regular || negb (pseudo name))
  end.

Definition check (fields : list field) (limit : Z) : result Violation unit :=
  if limit <? list_size fields then Err (list_over (list_size fields) limit)
  else check_names fields false.

Definition travels (f : field) : bool :=
  negb (bool_decide (f.1 ∈ CONNECTION_SPECIFIC))
  && (negb (bool_decide (f.1 = lit "te")) || bool_decide (f.2 = lit "trailers")).

Definition carried (headers : list field) : list field :=
  List.filter travels (map (fun f => (lowercase f.1, f.2)) headers).

Definition request_fields `{Percent} (scheme : bytes) (request : Request) : list field :=
  let target := Request.target request in
  [(lit ":method", method request); (lit ":scheme", scheme)]
  ++ (match Request.header_value request (lit "host") with
      | Some host => [(lit ":authority", host)]
      | None => []
      end)
  ++ [(lit ":path", if bool_decide (target = []) then lit "/" else target)]
  ++ carried (headers request).

(** What the loop of [request_of] has gathered. *)
Record gathered : Type := mkGathered {
  g_method : option bytes;
  g_scheme : option bytes;
  g_path : option bytes;
  g_headers : list field;
}.

Definition not_a_request's (name : bytes) : Violation := Viol.protocol (name ++ lit " in a request").
Definition no_request_line : Violation :=
  Viol.protocol (lit "a request without :method, :scheme or :path").
Definition wrong_length : Violation := Viol.protocol (lit "a content-length the body does not have").

Fixpoint gather (fields : list field) (g : gathered) : result Violation gathered :=
  match fields with
  | [] => Ok g
  | (name, value) :: fields =>
      if bool_decide (name = lit ":method") then
        gather fields (mkGathered (Some value) (g_scheme g) (g_path g) (g_headers g))
      else if bool_decide (name = lit ":scheme") then
        gather fields (mkGathered (g_method g) (Some value) (g_path g) (g_headers g))
      else if bool_decide (name = lit ":path") then
        gather fields (mkGathered (g_method g) (g_scheme g)
                         (if bool_decide (value = []) then None else Some value) (g_headers g))
      else if bool_decide (name = lit ":authority") then
        gather fields (mkGathered (g_method g) (g_scheme g) (g_path g) ((lit "host", value) :: g_headers g))
      else if pseudo name then Err (not_a_request's name)
      else gather fields (mkGathered (g_method g) (g_scheme g) (g_path g) (g_headers g ++ [(name, value)]))
  end.

(** [content-length] says what the body is, where it says anything. *)
Definition length_agrees (request : Request) : bool :=
  match Request.header_value request (lit "content-length") with
  | Some length => bool_decide (parse_uint USIZE_MAX length = Some (len (body request)))
  | None => true
  end.

Definition request_of `{Percent} (fields : list field) (body : bytes) : result Violation Request :=
  let? g := gather fields (mkGathered None None None []) in
  match g_method g, g_scheme g, g_path g with
  | Some method, Some _, Some target =>
      let '(path, query) := split_target target in
      let request := mkRequest method path query (g_headers g) body in
      if length_agrees request then Ok request else Err wrong_length
  | _, _, _ => Err no_request_line
  end.

Definition response_fields (response : Response) : list field :=
  (lit ":status", dec (status response)) :: carried (r_headers response).

Definition no_status : Violation := Viol.protocol (lit "an answer without a :status").

Definition status_of (value : bytes) : option Z :=
  if bool_decide (length value = 3%nat) then parse_uint U16_MAX value else None.

Fixpoint gather_answer (fields : list field) (status : option Z) (headers : list field) :
    option Z * list field :=
  match fields with
  | [] => (status, headers)
  | (name, value) :: fields =>
      if bool_decide (name = lit ":status") then gather_answer fields (status_of value) headers
      else if pseudo name then gather_answer fields status headers
      else gather_answer fields status (headers ++ [(name, value)])
  end.

Definition response_of (fields : list field) (body : bytes) (trailers : list field) :
    result Violation Response :=
  let '(status, headers) := gather_answer fields None [] in
  let? status := ok_or status no_status in
  Ok (mkResponse status (reason status) headers body trailers).

(** ** What travels *)

(** Headers a message may be given: names that are not empty and not
    pseudo-fields. *)
Definition ordinary (hs : list field) : Prop := Forall (fun f => f.1 <> [] /\ pseudo f.1 = false) hs.

Lemma lowercase_upper s : existsb is_ascii_uppercase (lowercase s) = false.
Proof.
  induction s as [|b s IH]; [done|]. cbn [lowercase map existsb]. fold (lowercase s).
  rewrite IH, orb_false_r.
  unfold to_ascii_lowercase, is_ascii_uppercase. case_test; lia.
Qed.

Lemma lowercase_pseudo s : pseudo (lowercase s) = pseudo s.
Proof.
  destruct s as [|b s]; [done|]. cbn [lowercase map]. unfold to_ascii_lowercase, is_ascii_uppercase.
  destruct (Z.eqb_spec b 58) as [->|Hb]; [done|].
  assert (forall x l, x <> 58 -> pseudo (x :: l) = false) as Hne.
  { intros x l Hx. unfold pseudo. repeat (case_match; try done). }
  rewrite !Hne; [done|done|]. case_test; lia.
Qed.

Lemma carried_names hs : ordinary hs ->
  Forall (fun f => f.1 <> [] /\ pseudo f.1 = false /\ existsb is_ascii_uppercase f.1 = false) (carried hs).
Proof.
  intros H. unfold carried. apply List.Forall_forall. intros f Hf. apply List.filter_In in Hf as [Hf _].
  apply in_map_iff in Hf as ([n v] & <- & Hin). unfold ordinary in H. rewrite List.Forall_forall in H. specialize (H _ Hin) as [Hn Hp].
  cbn [fst] in *. split_and!; [by destruct n | by rewrite lowercase_pseudo | apply lowercase_upper].
Qed.

(** No field of an HTTP/1.1 connection travels, whatever its case. *)
Lemma carried_host hs v : (lit "host", v) ∉ carried hs.
Proof.
  intros Hin. apply list_elem_of_In, List.filter_In in Hin as [_ Ht].
  vm_compute in Ht. discriminate.
Qed.

Lemma lowercase_idem s : lowercase (lowercase s) = lowercase s.
Proof.
  unfold lowercase. rewrite map_map. apply map_ext. intros b. unfold to_ascii_lowercase at 1.
  assert (is_ascii_uppercase (to_ascii_lowercase b) = false) as ->; [|done].
  unfold to_ascii_lowercase, is_ascii_uppercase. case_test; lia.
Qed.

(** A header HTTP/2 does carry is found in what travels as it was before. *)
Lemma find_carried hs name :
  (forall v, travels (lowercase name, v) = true) -> find (carried hs) name = find hs name.
Proof.
  intros Ht. unfold find, carried. induction hs as [|[n v] hs IH]; [done|]. cbn [map List.filter fst snd].
  assert (eq_ignore_ascii_case (lowercase n) name = eq_ignore_ascii_case n name) as He.
  { unfold eq_ignore_ascii_case. by rewrite lowercase_idem. }
  cbn [List.find fst]. destruct (eq_ignore_ascii_case n name) eqn:Hn.
  - pose proof Hn as Heq. unfold eq_ignore_ascii_case in Heq. apply bool_decide_eq_true in Heq.
    rewrite Heq, Ht. cbn [List.find fst]. rewrite <- Heq, He. done.
  - destruct (travels (lowercase n, v)); [|done]. cbn [List.find fst]. by rewrite He.
Qed.

Lemma gather_ordinary fields : forall g, Forall (fun f => pseudo f.1 = false) fields ->
  gather fields g = Ok (mkGathered (g_method g) (g_scheme g) (g_path g) (g_headers g ++ fields)).
Proof.
  induction fields as [|[name value] fields IH]; intros g H.
  - rewrite app_nil_r. by destruct g.
  - apply Forall_cons in H as [Hp H]. cbn [fst] in Hp.
    assert (forall l, pseudo (lit l) = true -> bool_decide (name = lit l) = false) as Hne.
    { intros l Hl. apply bool_decide_eq_false. intros ->. congruence. }
    cbn [gather]. rewrite !Hne by done. rewrite Hp, IH by done. cbn. by rewrite <- (assoc_L (++)).
Qed.

Lemma gather_answer_ordinary fields : forall status hs, Forall (fun f => pseudo f.1 = false) fields ->
  gather_answer fields status hs = (status, hs ++ fields).
Proof.
  induction fields as [|[name value] fields IH]; intros status hs H.
  - by rewrite app_nil_r.
  - apply Forall_cons in H as [Hp H]. cbn [fst] in Hp. cbn [gather_answer].
    assert (bool_decide (name = lit ":status") = false) as ->.
    { apply bool_decide_eq_false. intros ->. discriminate. }
    rewrite Hp, IH by done. by rewrite <- (assoc_L (++)).
Qed.

(** Regular fields are well formed after any others. *)
Lemma check_regular fields regular :
  Forall (fun f => f.1 <> [] /\ pseudo f.1 = false /\ existsb is_ascii_uppercase f.1 = false) fields ->
  check_names fields regular = Ok tt.
Proof.
  intros H. revert regular. induction H as [|[name value] fields (Hn & Hp & Hu) H IH]; intros regular; [done|].
  cbn [fst] in *. cbn [check_names]. rewrite Hu, Hp, bool_decide_eq_false_2 by done. cbn. apply IH.
Qed.

(** The request the other side reads. *)
Definition as_read (r : Request) : Request :=
  mkRequest (method r) (path r) (query r)
    (match Request.header_value r (lit "host") with Some host => [(lit "host", host)] | None => [] end
     ++ carried (headers r)) (body r).

Lemma length_agrees_as_read r : length_agrees (as_read r) = length_agrees r.
Proof.
  unfold length_agrees, Request.header_value at 1. cbn [as_read headers body].
  assert (forall host, find (match host with Some host => [(lit "host", host)] | None => [] end
            ++ carried (headers r)) (lit "content-length") = Request.header_value r (lit "content-length")) as ->.
  { intros host. transitivity (find (carried (headers r)) (lit "content-length")); [by destruct host|].
    by rewrite find_carried. }
  done.
Qed.

Lemma request_fields_checked `{Percent} scheme r limit :
  ordinary (headers r) -> list_size (request_fields scheme r) <= limit ->
  check (request_fields scheme r) limit = Ok tt.
Proof.
  intros Ho Hl. unfold check. destruct (Z.ltb_spec limit (list_size (request_fields scheme r))); [lia|].
  transitivity (check_names (carried (headers r)) false).
  - unfold request_fields. by destruct (Request.header_value r (lit "host")).
  - apply check_regular, carried_names, Ho.
Qed.

Lemma request_fields_read `{Percent} scheme r :
  ordinary (headers r) -> 63 ∉ path r ->
  decode_pairs (match query r with [] => [] | query => encode_pairs query end) = query r ->
  length_agrees r = true -> (path r <> [] \/ query r <> []) ->
  request_of (request_fields scheme r) (body r) = Ok (as_read r).
Proof.
  intros Ho Hp Hq Hl Hne. unfold request_of, request_fields.
  assert (Request.target r <> []) as Ht.
  { unfold Request.target. destruct (query r); [by destruct Hne|]. by destruct (path r). }
  rewrite (bool_decide_eq_false_2 (Request.target r = [])) by done.
  assert (Forall (fun f => pseudo f.1 = false) (carried (headers r))) as Hc.
  { eapply Forall_impl; [by apply carried_names|]. by intros f (_ & Hf & _). }
  assert (gather ([(lit ":method", method r); (lit ":scheme", scheme)]
    ++ (match Request.header_value r (lit "host") with Some host => [(lit ":authority", host)] | None => [] end)
    ++ [(lit ":path", Request.target r)] ++ carried (headers r)) (mkGathered None None None [])
    = Ok (mkGathered (Some (method r)) (Some scheme) (Some (Request.target r)) (headers (as_read r)))) as ->.
  { unfold as_read. destruct (Request.header_value r (lit "host")) as [host|]; cbn [app headers].
    - do 4 (cbn [gather]; repeat (rewrite bool_decide_eq_false_2 by done); rewrite bool_decide_eq_true_2 by done).
      rewrite bool_decide_eq_false_2 by done. by rewrite gather_ordinary.
    - do 3 (cbn [gather]; repeat (rewrite bool_decide_eq_false_2 by done); rewrite bool_decide_eq_true_2 by done).
      rewrite bool_decide_eq_false_2 by done. by rewrite gather_ordinary. }
  cbn [res_bind g_method g_scheme g_path g_headers]. rewrite target_split by done.
  change (match length_agrees (as_read r) with true => Ok (as_read r) | false => Err wrong_length end
    = Ok (as_read r)).
  by rewrite length_agrees_as_read, Hl.
Qed.


(** A query of names and values that need no encoding. *)
#[local] Instance plain : Percent := {|
  encode_pairs qs := match qs with (n, v) :: _ => n ++ lit "=" ++ v | [] => [] end;
  decode_pairs s := match split_once 61 s with Some (n, v) => [(n, v)] | None => [] end;
|}.


(** [status.to_string()] of a status of three digits, read back. *)
Lemma status_of_dec n : 100 <= n < 1000 -> status_of (dec n) = Some n.
Proof.
  intros Hn. cut ((n <? 100) || bool_decide (status_of (dec n) = Some n) = true).
  { intros H. apply orb_true_iff in H as [H|H]; [apply Z.ltb_lt in H; lia | by apply bool_decide_eq_true in H]. }
  check_range 1000%nat n.
Qed.

(** The answer the other side reads. *)
Definition as_answered (r : Response) : Response :=
  mkResponse (status r) (reason (status r)) (carried (r_headers r)) (r_body r) (carried (trailers r)).

Lemma response_fields_read r :
  ordinary (r_headers r) -> 100 <= status r < 1000 ->
  response_of (response_fields r) (r_body r) (carried (trailers r)) = Ok (as_answered r).
Proof.
  intros Ho Hs. unfold response_of, response_fields. cbn [gather_answer].
  rewrite bool_decide_eq_true_2, status_of_dec by done. rewrite gather_answer_ordinary; [done|].
  eapply Forall_impl; [by apply carried_names|]. by intros f (_ & Hf & _).
Qed.

(** An answer crosses HTTP/2 as it was: the fields written of any answer
    with ordinary headers and a status of three digits are well formed under
    the list limit, and are read at the other end with the same status, body,
    headers and trailers, in lowercase and without those of an HTTP/1.1
    connection, and the phrase of its status. *)
Theorem response_crosses r limit :
  ordinary (r_headers r) -> 100 <= status r < 1000 -> list_size (response_fields r) <= limit ->
  check (response_fields r) limit = Ok tt
  /\ response_of (response_fields r) (r_body r) (carried (trailers r)) = Ok (as_answered r).
Proof.
  intros Ho Hs Hl. split; [|by apply response_fields_read]. unfold check.
  destruct (Z.ltb_spec limit (list_size (response_fields r))); [lia|].
  transitivity (check_names (carried (r_headers r)) false); [done|]. apply check_regular, carried_names, Ho.
Qed.

Lemma response_crosses_witness :
  let r := mkResponse 404 (lit "Gone fishing") [(lit "X-A", lit "1"); (lit "TE", lit "gzip")] (lit "no")
             [(lit "Grpc-Status", lit "5")] in
  check (response_fields r) 65536 = Ok tt
  /\ response_of (response_fields r) (r_body r) (carried (trailers r)) = Ok (as_answered r).
Proof.
  apply (response_crosses (mkResponse 404 (lit "Gone fishing") [(lit "X-A", lit "1"); (lit "TE", lit "gzip")]
    (lit "no") [(lit "Grpc-Status", lit "5")]) 65536).
  - repeat constructor; done.
  - cbn; lia.
  - vm_compute. congruence.
Defined.

(** A [:status] of three octets that are not three digits: [str::parse]
    takes a sign, so [+20] is read as the status 20. *)
Lemma signed_status_accepted : status_of (lit "+20") = Some 20.
Proof. reflexivity. Qed.

(** What a header list that passed its check holds. *)
Lemma check_spec fields limit u :
  check fields limit = Ok u -> list_size fields <= limit.
Proof. unfold check. destruct (Z.ltb_spec limit (list_size fields)); [discriminate | done]. Qed.

End Message.
