(* ===== verification/H2Preface.v ===== *)
(** The connection preface of RFC 9113 section 3.4, and telling a connection
    that opens with it without losing what was read to tell
    ([src/http2/preface.rs]). *)

From Stdlib Require Import String.
From S2P Require Import Prelude Errors Wire.

Module Preface.

Definition PREFACE : bytes :=
  lit "PRI * HTTP/2.0" ++ [13; 10; 13; 10] ++ lit "SM" ++ [13; 10; 13; 10].

Definition starts_with (s prefix : bytes) : bool := bool_decide (prefix = take (length prefix) s).

Definition closed_early : NetError :=
  NetErr.new (lit "the connection closed before sending anything").

(** One turn of the loop of [sniff], [read] what has come so far. *)
Definition sniff_turn (read : bytes) : M Wire NetError (bytes + bytes) := fun w =>
  if (length read <? length PREFACE)%nat && starts_with PREFACE read then
    match read1 (length PREFACE - length read) w with
    | (Ok [], w) => if bool_decide (read = []) then (Err closed_early, w) else (Ok (inr read), w)
    | (Ok bs, w) => (Ok (inl (read ++ bs)), w)
    | (Err failed, w) =>
        if decide (io_kind failed = Interrupted) then (Ok (inl read), w)
        else (Err (NetErr.from_io (lit "reading the first octets") failed), w)
    end
  else (Ok (inr read), w).

Definition sniff : M Wire NetError (bool * bytes) :=
  read <~ loop sniff_turn (fun _ w => pending w) closed_early [] ;;
  mret (bool_decide (read = PREFACE), read).

(** A connection read again from the start: [Replayed], whose [at] is how
    many of [first] have been read again. *)
Record Replayed : Type := mkReplayed { first : bytes; at_ : nat; inner : Wire }.

Definition replay (first : bytes) (inner : Wire) : Replayed := mkReplayed first 0 inner.

Definition replayed_read (n : nat) (r : Replayed) : result IoError bytes * Replayed :=
  if (at_ r <? length (first r))%nat then
    let count := Nat.min n (length (first r) - at_ r) in
    (Ok (take count (drop (at_ r) (first r))), mkReplayed (first r) (at_ r + count) (inner r))
  else let '(got, w) := read1 n (inner r) in (got, mkReplayed (first r) (at_ r) w).

(** The wire a [Replayed] reads as. *)
Definition as_wire (r : Replayed) : Wire :=
  match drop (at_ r) (first r) with
  | [] => inner r
  | more => mkWire (Got more :: incoming (inner r)) (outgoing (inner r)) (refusals (inner r))
  end.

Lemma sniff_goes_down : goes_down sniff_turn (fun _ w => pending w) (fun _ => True).
Proof.
  intros read w read' w' _ H. split; [|done]. unfold sniff_turn in H.
  destruct ((length read <? length PREFACE)%nat && starts_with PREFACE read) eqn:Ht; [|discriminate].
  apply andb_true_iff in Ht as [Hlt _]. apply Nat.ltb_lt in Hlt.
  destruct (read1 _ w) as [[[|b bs]|e] w1] eqn:Hr.
  - case_test; discriminate.
  - injection H as <- <-. apply read1_pending in Hr. cbn [length] in Hr. lia.
  - case_decide; [|discriminate]. injection H as <- <-. by apply read1_pending in Hr.
Qed.

(** Where the loop of [sniff] stops, what it read tells the preface. *)
Lemma told read rest :
  (length read <= length PREFACE)%nat ->
  ((length read <? length PREFACE)%nat && starts_with PREFACE read = false \/ rest = []) ->
  bool_decide (read = PREFACE) = bool_decide (PREFACE `prefix_of` read ++ rest).
Proof.
  intros Hl Hstop. apply bool_decide_ext. split; [intros ->; by exists rest|]. intros [k Hk].
  destruct (decide (length read = length PREFACE)) as [He|He].
  - symmetry in Hk. by apply app_inj_1 in Hk as [-> _].
  - destruct Hstop as [Hstop | ->].
    + destruct (Nat.ltb_spec (length read) (length PREFACE)); [|lia]. unfold starts_with in Hstop.
      apply bool_decide_eq_false in Hstop. destruct Hstop.
      transitivity (take (length read) (read ++ rest)); [by rewrite take_app_length|].
      rewrite Hk, take_app_le by lia. done.
    + apply (f_equal length) in Hk. rewrite app_nil_r, length_app in Hk. lia.
Qed.

Lemma sniff_loop n : forall w read bs,
  (pending w < n)%nat -> delivers (incoming w) bs -> read ++ bs <> [] ->
  (length read <= length PREFACE)%nat ->
  exists taken w' rest, spin sniff_turn closed_early n read w = (Ok taken, w')
    /\ read ++ bs = taken ++ rest /\ delivers (incoming w') rest
    /\ bool_decide (taken = PREFACE) = bool_decide (PREFACE `prefix_of` read ++ bs).
Proof.
  induction n as [|n IH]; intros w read bs Hn Hd Hne Hl; [lia|]. cbn [spin].
  pose proof (sniff_goes_down read w) as Hdown. unfold sniff_turn in *.
  destruct ((length read <? length PREFACE)%nat && starts_with PREFACE read) eqn:Ht.
  2: { exists read, w, bs. split_and!; [done..|]. by apply told; [|left]. }
  apply andb_true_iff in Ht as [Hlt _]. apply Nat.ltb_lt in Hlt.
  assert (0 < length PREFACE - length read)%nat as Hroom by lia.
  destruct (read1 _ w) as [got w1] eqn:Hr. pose proof (read1_delivers _ _ _ _ _ Hd Hroom Hr) as Hg.
  destruct got as [[|b got]|e].
  - destruct Hg as (rest & Hbs & Hd1 & Hend & _). specialize (Hend eq_refl). cbn [app] in Hbs. subst rest bs.
    assert (read ++ [] = read) as Hnil by apply app_nil_r.
    assert (read <> []) as Hread by (by rewrite Hnil in Hne). rewrite bool_decide_eq_false_2 by done.
    exists read, w1, []. split_and!; [done | done | done |]. by apply told; [|right].
  - destruct Hg as (rest & -> & Hd1 & _ & Hlen).
    assert ((pending w1 < n)%nat) as Hp by (specialize (Hdown _ _ Logic.I eq_refl); lia).
    rewrite app_assoc in Hne |- *. destruct (IH w1 (read ++ b :: got) rest Hp Hd1 Hne) as (taken & w2 & k & H1 & H2 & H3 & H4).
    { rewrite length_app. lia. }
    exists taken, w2, k. done.
  - destruct Hg as [He Hd1]. destruct (decide (io_kind e = Interrupted)); [|done].
    assert ((pending w1 < n)%nat) as Hp by (specialize (Hdown _ _ Logic.I eq_refl); lia).
    by apply IH.
Qed.

(** C24. Looking at how a connection opens loses none of it: of a peer that
    sends anything, in whatever pieces, [sniff] tells rightly whether it
    opens with the preface, and the octets it took, put back in front of the
    connection, read as the connection did. *)
Theorem sniff_loses_nothing w bs :
  carrying w bs -> bs <> [] ->
  exists taken w', sniff w = (Ok (bool_decide (PREFACE `prefix_of` bs), taken), w')
    /\ carrying (as_wire (replay taken w')) bs.
Proof.
  intros Hd Hne. destruct (sniff_loop (S (pending w)) w [] bs) as (taken & w' & rest & H1 & H2 & H3 & H4);
    [lia | done | done | cbn; lia|].
  exists taken, w'. cbn [app] in *. split.
  - unfold sniff, mthen, loop, mret. by rewrite H1, H4.
  - rewrite H2. unfold carrying, as_wire, replay. cbn [at_ first inner drop].
    destruct taken as [|b taken]; [done | by apply delivers_got].
Qed.

Lemma sniff_loses_nothing_witness :
  exists taken w', sniff (mkWire [Got (lit "PR"); Got (lit "OPFIND / ")] [] [])
    = (Ok (bool_decide (PREFACE `prefix_of` lit "PROPFIND / "), taken), w')
    /\ carrying (as_wire (replay taken w')) (lit "PROPFIND / ").
Proof.
  apply sniff_loses_nothing; [|done].
  apply (delivers_got 80 [82] _ (lit "OPFIND / ")), (delivers_got 79 (lit "PFIND / ") [] []). constructor.
Defined.

(** A read of a [Replayed] is a read of the wire it stands for. *)
Lemma replayed_read_wire n r :
  (at_ r <= length (first r))%nat -> (0 < n)%nat ->
  let '(got, r') := replayed_read n r in
  read1 n (as_wire r) = (got, as_wire r') /\ (at_ r' <= length (first r'))%nat.
Proof.
  intros Hr Hn. unfold replayed_read. destruct (Nat.ltb_spec (at_ r) (length (first r))) as [Hlt|Hge].
  - split; [|cbn; lia]. unfold as_wire at 1.
    destruct (drop (at_ r) (first r)) as [|b more] eqn:Hd.
    { apply (f_equal length) in Hd. rewrite length_drop in Hd. cbn in Hd. lia. }
    unfold read1. cbn [incoming outgoing refusals].
    assert (length (b :: more) = length (first r) - at_ r)%nat as Hlen by (by rewrite <- Hd, length_drop).
    rewrite <- Hlen. f_equal.
    + f_equal. destruct (Nat.min_spec n (length (b :: more))) as [[_ ->]|[H ->]]; [done|]. by rewrite !take_ge.
    + unfold as_wire. cbn [at_ first inner]. rewrite <- drop_drop, Hd.
      destruct (Nat.min_spec n (length (b :: more))) as [[H ->]|[H ->]].
      * by destruct (drop n (b :: more)), (inner r).
      * rewrite !drop_ge by lia. by destruct (inner r).
  - destruct (read1 n (inner r)) as [got w] eqn:H1. split; [|cbn; lia]. unfold as_wire. cbn [at_ first inner].
    by rewrite drop_ge.
Qed.

End Preface.
