(* ===== verification/H2Connection.v ===== *)
(** One HTTP/2 connection, either side ([src/http2/connection.rs]): what it
    keeps, and the half that writes. *)

From Stdlib Require Import String.
From stdpp Require Import sorting.
From S2P Require Import Prelude Errors Wire HpackInteger HpackTable Hpack H2Frame H2Settings H2Stream H2Preface.

Module Conn.

Definition ENCODER_TABLE : Z := 4096.

Record Continuing : Type := mkContinuing { c_stream : Z; c_block : bytes; c_end : bool }.

Record t : Type := mkConnection {
  io : Wire;
  client : bool;
  local : Settings.t;
  remote : Settings.t;
  encoder : Encoder.t;
  decoder : Decoder.t;
  send : Window.t;
  receive : Window.t;
  streams : gmap Z Stream.t;
  continuing : option Continuing;
  highest : Z;
  last_peer : Z;
  goaway : option (Z * ErrorCode);
  going_away : bool;
  settings_seen : bool;
  pongs : list bytes;
  stalls : Z;
  held : option bytes;
}.

Definition set_io (x : Wire) (c : t) : t :=
  mkConnection x (client c) (local c) (remote c) (encoder c) (decoder c) (send c) (receive c)
    (streams c) (continuing c) (highest c) (last_peer c) (goaway c) (going_away c) (settings_seen c)
    (pongs c) (stalls c) (held c).
Definition set_remote (x : Settings.t) (c : t) : t :=
  mkConnection (io c) (client c) (local c) x (encoder c) (decoder c) (send c) (receive c) (streams
    c) (continuing c) (highest c) (last_peer c) (goaway c) (going_away c) (settings_seen c) (pongs
    c) (stalls c) (held c).
Definition set_encoder (x : Encoder.t) (c : t) : t :=
  mkConnection (io c) (client c) (local c) (remote c) x (decoder c) (send c) (receive c) (streams c)
    (continuing c) (highest c) (last_peer c) (goaway c) (going_away c) (settings_seen c) (pongs c)
    (stalls c) (held c).
Definition set_decoder (x : Decoder.t) (c : t) : t :=
  mkConnection (io c) (client c) (local c) (remote c) (encoder c) x (send c) (receive c) (streams c)
    (continuing c) (highest c) (last_peer c) (goaway c) (going_away c) (settings_seen c) (pongs c)
    (stalls c) (held c).
Definition set_send (x : Window.t) (c : t) : t :=
  mkConnection (io c) (client c) (local c) (remote c) (encoder c) (decoder c) x (receive c) (streams
    c) (continuing c) (highest c) (last_peer c) (goaway c) (going_away c) (settings_seen c) (pongs
    c) (stalls c) (held c).
Definition set_receive (x : Window.t) (c : t) : t :=
  mkConnection (io c) (client c) (local c) (remote c) (encoder c) (decoder c) (send c) x (streams c)
    (continuing c) (highest c) (last_peer c) (goaway c) (going_away c) (settings_seen c) (pongs c)
    (stalls c) (held c).
Definition set_streams (x : gmap Z Stream.t) (c : t) : t :=
  mkConnection (io c) (client c) (local c) (remote c) (encoder c) (decoder c) (send c) (receive c) x
    (continuing c) (highest c) (last_peer c) (goaway c) (going_away c) (settings_seen c) (pongs c)
    (stalls c) (held c).
Definition set_continuing (x : option Continuing) (c : t) : t :=
  mkConnection (io c) (client c) (local c) (remote c) (encoder c) (decoder c) (send c) (receive c)
    (streams c) x (highest c) (last_peer c) (goaway c) (going_away c) (settings_seen c) (pongs c)
    (stalls c) (held c).
Definition set_highest (x : Z) (c : t) : t :=
  mkConnection (io c) (client c) (local c) (remote c) (encoder c) (decoder c) (send c) (receive c)
    (streams c) (continuing c) x (last_peer c) (goaway c) (going_away c) (settings_seen c) (pongs c)
    (stalls c) (held c).
Definition set_last_peer (x : Z) (c : t) : t :=
  mkConnection (io c) (client c) (local c) (remote c) (encoder c) (decoder c) (send c) (receive c)
    (streams c) (continuing c) (highest c) x (goaway c) (going_away c) (settings_seen c) (pongs c)
    (stalls c) (held c).
Definition set_goaway (x : option (Z * ErrorCode)) (c : t) : t :=
  mkConnection (io c) (client c) (local c) (remote c) (encoder c) (decoder c) (send c) (receive c)
    (streams c) (continuing c) (highest c) (last_peer c) x (going_away c) (settings_seen c) (pongs
    c) (stalls c) (held c).
Definition set_going_away (x : bool) (c : t) : t :=
  mkConnection (io c) (client c) (local c) (remote c) (encoder c) (decoder c) (send c) (receive c)
    (streams c) (continuing c) (highest c) (last_peer c) (goaway c) x (settings_seen c) (pongs c)
    (stalls c) (held c).
Definition set_settings_seen (x : bool) (c : t) : t :=
  mkConnection (io c) (client c) (local c) (remote c) (encoder c) (decoder c) (send c) (receive c)
    (streams c) (continuing c) (highest c) (last_peer c) (goaway c) (going_away c) x (pongs c)
    (stalls c) (held c).
Definition set_pongs (x : list bytes) (c : t) : t :=
  mkConnection (io c) (client c) (local c) (remote c) (encoder c) (decoder c) (send c) (receive c)
    (streams c) (continuing c) (highest c) (last_peer c) (goaway c) (going_away c) (settings_seen c)
    x (stalls c) (held c).
Definition set_stalls (x : Z) (c : t) : t :=
  mkConnection (io c) (client c) (local c) (remote c) (encoder c) (decoder c) (send c) (receive c)
    (streams c) (continuing c) (highest c) (last_peer c) (goaway c) (going_away c) (settings_seen c)
    (pongs c) x (held c).
Definition set_held (x : option bytes) (c : t) : t :=
  mkConnection (io c) (client c) (local c) (remote c) (encoder c) (decoder c) (send c) (receive c)
    (streams c) (continuing c) (highest c) (last_peer c) (goaway c) (going_away c) (settings_seen c)
    (pongs c) (stalls c) x.

(** What a method asks of the connection it rides on. *)
Definition on_io {E A} (m : M Wire E A) : M t E A := fun c =>
  let '(r, w) := m (io c) in (r, set_io w c).

(** What a method asks of one stream, where there is one: [get_mut]. *)
Definition on_stream {E A} (id : Z) (m : M Stream.t E A) (none : M t E A) : M t E A := fun c =>
  match streams c !! id with
  | Some s => let '(r, s) := m s in (r, set_streams (<[id := s]> (streams c)) c)
  | None => none c
  end.
Definition update_stream {E} (id : Z) (f : Stream.t -> Stream.t) : M t E unit :=
  on_stream id (mset f) (mret tt).

(** The streams in the order a [BTreeMap] goes through them. *)
Definition ids (streams : gmap Z Stream.t) : list Z := merge_sort Z.le (elements (dom streams)).

Definition flushing : M Wire NetError unit :=
  mmap_err (NetErr.from_io (lit "flushing a frame")) flush.

Definition emit (f : frame) : M t NetError unit := fun c =>
  match held c with
  | Some held => (Ok tt, set_held (Some (held ++ H2.encode f)) c)
  | None => on_io (H2.write f ;;; flushing) c
  end.

Definition initial (io : Wire) (client : bool) : t :=
  mkConnection io client Settings.ours Settings.default (Encoder.new ENCODER_TABLE true)
    (Decoder.new (Settings.header_table_size Settings.ours)) (Window.new Settings.DEFAULT_WINDOW)
    (Window.new Settings.DEFAULT_WINDOW) ∅ None 0 0 None false false [] 0 None.

Definition start (io : Wire) (client : bool) : result NetError t :=
  let '(r, c) :=
    ((if client
      then on_io (mmap_err (NetErr.from_io (lit "writing the preface")) (write_all Preface.PREFACE))
      else mret tt) ;;;
     emit (mkFrame Settings 0 0 (Settings.encode Settings.ours))) (initial io client) in
  let? _ := r in Ok c.

(** The stream [open] returns is the one [id] then names. *)
Definition open (id : Z) (c : t) : t :=
  let c := set_highest (Z.max (highest c) id) c in
  match streams c !! id with
  | Some _ => c
  | None =>
      set_streams (<[id := Stream.new (Settings.initial_window_size (remote c))
                             (Settings.initial_window_size (local c))]> (streams c)) c
  end.

Definition release : M t NetError unit := fun c =>
  match held c with
  | None | Some [] => (Ok tt, c)
  | Some held =>
      on_io (mmap_err (NetErr.from_io (lit "writing frames")) (write_all held ;;; flush))
        (set_held (Some []) c)
  end.

Definition together {A} (build : M t NetError A) : M t NetError A := fun c =>
  let '(made, c) := build (set_held (Some []) c) in
  let '(written, c) := release c in
  let c := set_held None c in
  (let? made := made in let? _ := written in Ok made, c).

(** [slice::chunks], of a size that is not 0: the settings of either side
    hold a frame size of 2^14 or more. *)
Fixpoint chunks_from (fuel most : nat) (l : bytes) : list bytes :=
  match fuel, l with
  | S fuel, _ :: _ => take most l :: chunks_from fuel most (drop most l)
  | _, _ => []
  end.
Definition chunks (most : nat) (l : bytes) : list bytes := chunks_from (length l) most l.

(** The loop of [send_headers] over what is left of the pieces. *)
Fixpoint send_pieces (id : Z) (end_ : bool) (kind : Kind) (first : bool) (pieces : list bytes) :
    M t NetError unit :=
  let ended := if first && end_ then END_STREAM else 0 in
  match pieces with
  | [] =>
      if first then emit (mkFrame kind (Z.lor END_HEADERS ended) id []) else mret tt
  | piece :: pieces =>
      let flags := match pieces with [] => END_HEADERS | _ => 0 end in
      emit (mkFrame kind (Z.lor flags ended) id piece) ;;;
      send_pieces id end_ Continuation false pieces
  end.

Definition end_locally (id : Z) : M t NetError unit :=
  update_stream id (fun s => Stream.set_state (State.ended_locally (Stream.state s)) s).

Definition encode_block (fields : list field) : M t NetError bytes := fun c =>
  let '(block, e) := Encoder.encode (encoder c) fields in (Ok block, set_encoder e c).

Definition send_headers (id : Z) (fields : list field) (end_ : bool) : M t NetError unit :=
  block <~ encode_block fields ;;
  c <~ mget ;;
  send_pieces id end_ Headers true
    (chunks (Z.to_nat (Settings.max_frame_size (remote c))) block) ;;;
  (if end_ then end_locally id else mret tt).

Definition refused (id : Z) (code : ErrorCode) : NetError :=
  mkNetError (lit "stream " ++ dec id ++ lit " was reset: " ++ ErrCode.debug code)
    (if decide (code = RefusedStream) then Some ConnectionAborted else None).

Definition not_open (id : Z) : NetError := NetErr.new (lit "stream " ++ dec id ++ lit " is not open").
Definition not_sending (id : Z) : NetError :=
  NetErr.new (lit "stream " ++ dec id ++ lit " is closed to sending").

Definition open_window (c : t) (id : Z) : result NetError Z :=
  let? stream := ok_or (streams c !! id) (not_open id) in
  match Stream.reset stream with
  | Some code => Err (refused id code)
  | None =>
      if negb (State.sending (Stream.state stream)) then Err (not_sending id)
      else Ok (Z.min (Window.available (send c)) (Window.available (Stream.send stream)))
  end.

Definition reset (id : Z) (code : ErrorCode) : M t NetError unit :=
  update_stream id (fun s => Stream.set_reset (Some code) (Stream.set_state Closed s)) ;;;
  emit (H2.reset id code).

Definition go_away (code : ErrorCode) (debug : bytes) : M t NetError unit :=
  mset (set_going_away true) ;;;
  c <~ mget ;;
  emit (H2.goaway (last_peer c) code debug).

(** The failure the caller returns, whether the [GOAWAY] could be written or
    not. *)
Definition fail {A} (violation : Violation) : M t NetError A := fun c =>
  let '(_, c) := go_away (v_code violation) (v_message violation) c in
  (Err (NetError_of violation), c).

End Conn.
