(* ===== verification/H2Receive.v ===== *)
(** The reading half of a connection ([src/http2/receive.rs]): one frame at
    a time, a breach of the connection ended with [GOAWAY], a breach of one
    stream with [RST_STREAM]. *)

From Stdlib Require Import String.
From S2P Require Import Prelude Errors Wire HpackTable Hpack H2Frame H2Settings H2Stream H2Message H2Connection.

Module Receive.
Import Conn.

Definition MAX_BLOCK : Z := 1024 * 1024.

Inductive Breach : Type :=
| OnConnection (v : Violation)
| OnStream (id : Z) (v : Violation).

(** The connection broke while answering the peer. *)
Definition lost (failure : NetError) : Breach := OnConnection (mkViolation Internal (message failure)).

(** A frame on a stream the peer has already ended. *)
Definition closed (what : bytes) : Violation :=
  mkViolation StreamClosed (what ++ lit " on a closed stream").

Definition idle (c : t) (id : Z) : bool := highest c <? id.

(** A call on one window of the connection or of a stream. *)
Definition on_window {St} (get : St -> Window.t) (set : Window.t -> St -> St)
    (f : Window.t -> result Violation Window.t) : M St Violation unit := fun s =>
  match f (get s) with
  | Ok w => (Ok tt, set w s)
  | Err v => (Err v, s)
  end.

(** [u32::try_from(length).unwrap_or(MAX_STREAM_ID)]. *)
Definition increment_of (length : Z) : Z := if length <=? U32_MAX then length else MAX_STREAM_ID.

Definition body_over : Violation := mkViolation Cancel (lit "a body over the most Xmip reads").
Definition idle_data (id : Z) : Violation := Viol.protocol (lit "DATA on idle stream " ++ dec id).

(** What [data] does to the stream the frame is on: whether a
    [WINDOW_UPDATE] on it is due. *)
Definition data_stream (f : frame) : M Stream.t Breach bool :=
  let id := stream f in
  let length := len (payload f) in
  s <~ mget ;;
  match Stream.reset s with
  | Some _ => mret false
  | None =>
      if negb (State.receiving (Stream.state s)) then mfail (OnStream id (closed (lit "DATA")))
      else
        mmap_err (OnStream id)
          (on_window Stream.receive Stream.set_receive (fun w => Window.take w length)) ;;;
        content <~ mlift (map_err OnConnection (H2.content f)) ;;
        s <~ mget ;;
        if MAX_BODY <? len (Stream.body s) + len content then mfail (OnStream id body_over)
        else
          mset (Stream.set_body (Stream.body s ++ content)) ;;;
          (if H2.has f END_STREAM then
             mset (fun s => Stream.set_state (State.ended_remotely (Stream.state s)) s) ;;; mret false
           else if 0 <? length then
             mmap_err OnConnection
               (on_window Stream.receive Stream.set_receive
                  (fun w => Window.grant w (increment_of length))) ;;;
             mret true
           else mret false)
  end.

Definition data (f : frame) : M t Breach unit :=
  let id := stream f in
  let length := len (payload f) in
  mmap_err OnConnection (on_window receive set_receive (fun w => Window.take w length)) ;;;
  (if 0 <? length then
     mmap_err lost (emit (H2.window_update 0 (increment_of length))) ;;;
     mmap_err OnConnection (on_window receive set_receive (fun w => Window.grant w (increment_of length)))
   else mret tt) ;;;
  c <~ mget ;;
  if idle c id then mfail (OnConnection (idle_data id))
  else
    due <~ on_stream id (data_stream f) (mfail (OnStream id (closed (lit "DATA")))) ;;
    if due : bool then mmap_err lost (emit (H2.window_update id (increment_of length))) else mret tt.

Definition block_over : Violation := mkViolation EnhanceYourCalm (lit "a header block over 1 MiB").
Definition block_on (id : Z) : Violation := Viol.protocol (lit "a header block on stream " ++ dec id).
Definition too_many : Violation := mkViolation RefusedStream (lit "too many streams at once").

(** [map_or(usize::MAX, ..)]. *)
Definition or_max (limit : option Z) : Z := default USIZE_MAX limit.

(** The streams that are not closed. *)
Definition is_open (s : Stream.t) : bool := negb (bool_decide (Stream.state s = Closed)).
Definition open_count (streams : gmap Z Stream.t) : Z :=
  Z.of_nat (size (filter (fun p : Z * Stream.t => is_open p.2 = true) streams)).

Definition decode_block (block : bytes) : M t Violation (list field) := fun c =>
  let '(r, d) := Decoder.decode block (decoder c) in (r, set_decoder d c).

Definition give_headers (id : Z) (fields : list field) (end_ : bool) : M t Breach unit :=
  on_stream id (mmap_err (OnStream id) (Stream.headers fields end_)) (mret tt).

(** A block whole and well formed, on a stream this side has no record of. *)
Definition open_by_peer (id : Z) (fields : list field) (end_ : bool) : M t Breach unit :=
  c <~ mget ;;
  if client c || (id mod 2 =? 0) || (id <=? last_peer c) then mfail (OnConnection (block_on id))
  else
    mset (set_last_peer id) ;;;
    mset (set_highest (Z.max (highest c) id)) ;;;
    (if going_away c then mret tt
     else if or_max (Settings.max_concurrent_streams (local c)) <=? open_count (streams c) then
       mfail (OnStream id too_many)
     else mset (open id) ;;; give_headers id fields end_).

(** A block whole and well formed, on any stream. *)
Definition take_block (id : Z) (fields : list field) (end_ : bool) : M t Breach unit := fun c =>
  match streams c !! id with
  | Some s =>
      match Stream.reset s with
      | Some _ => (Ok tt, c)
      | None => give_headers id fields end_ c
      end
  | None => open_by_peer id fields end_ c
  end.

Definition block (id : Z) (block : bytes) (end_ whole : bool) : M t Breach unit :=
  if MAX_BLOCK <? len block then mfail (OnConnection block_over)
  else if negb whole then mset (set_continuing (Some (mkContinuing id block end_)))
  else
    fields <~ mmap_err OnConnection (decode_block block) ;;
    c <~ mget ;;
    mlift (map_err (OnStream id)
             (Message.check fields (or_max (Settings.max_header_list_size (local c))))) ;;;
    take_block id fields end_.

Definition no_block : Violation := Viol.protocol (lit "a CONTINUATION that continues nothing").

Definition continuation (f : frame) : M t Breach unit :=
  c <~ mget ;;
  match continuing c with
  | None => mfail (OnConnection no_block)
  | Some k =>
      mset (set_continuing None) ;;;
      block (c_stream k) (c_block k ++ payload f) (c_end k) (H2.has f END_HEADERS)
  end.

(** [frame.word(0).filter(|_| frame.payload.len() == 4)]. *)
Definition only_word (f : frame) : option Z :=
  if bool_decide (length (payload f) = 4%nat) then H2.word f 0 else None.

Definition bad_rst : Violation := Viol.frame_size (lit "a RST_STREAM that is not 4 octets").
Definition idle_rst : Violation := Viol.protocol (lit "a RST_STREAM on an idle stream").

Definition rst_stream (f : frame) : M t Breach unit :=
  code <~ mlift (ok_or (only_word f) (OnConnection bad_rst)) ;;
  c <~ mget ;;
  if idle c (stream f) then mfail (OnConnection idle_rst)
  else update_stream (stream f)
         (fun s => Stream.set_state Closed (Stream.set_reset (Some (ErrCode.of_code code)) s)).

(** The loop of [settings] over the streams. *)
Fixpoint shift_all (delta : Z) (ids : list Z) : M t Violation unit :=
  match ids with
  | [] => mret tt
  | id :: ids =>
      on_stream id (on_window Stream.send Stream.set_send (fun w => Window.shift w delta)) (mret tt) ;;;
      shift_all delta ids
  end.

Definition bad_ack : Violation := Viol.frame_size (lit "a SETTINGS acknowledgement with a payload").

Definition apply_settings (payload : bytes) : M t Violation unit := fun c =>
  let '(r, s) := Settings.apply payload (client c) (remote c) in (r, set_remote s c).

Definition settings (f : frame) : M t Breach unit :=
  if H2.has f ACK then
    if negb (bool_decide (payload f = [])) then mfail (OnConnection bad_ack) else mret tt
  else
    c <~ mget ;;
    let before := Settings.initial_window_size (remote c) in
    mmap_err OnConnection (apply_settings (payload f)) ;;;
    c <~ mget ;;
    let delta := Settings.initial_window_size (remote c) - before in
    mmap_err OnConnection (shift_all delta (ids (streams c))) ;;;
    mset (set_encoder (Encoder.resize (encoder c)
            (Z.min (Settings.header_table_size (remote c)) 4096))) ;;;
    mset (set_settings_seen true) ;;;
    mmap_err lost (emit (mkFrame Settings ACK 0 [])).

Definition bad_ping : Violation := Viol.frame_size (lit "a PING that is not 8 octets").

Definition ping_frame (f : frame) : M t Breach unit :=
  if negb (bool_decide (length (payload f) = 8%nat)) then mfail (OnConnection bad_ping)
  else if H2.has f ACK then c <~ mget ;; mset (set_pongs (pongs c ++ [payload f]))
  else mmap_err lost (emit (H2.ping (payload f) true)).

Definition short_goaway : Violation := Viol.frame_size (lit "a GOAWAY under 8 octets").

(** What a [GOAWAY] that names [last] does to a stream: one of this side's,
    above it, was passed over. *)
Definition passed_over (client : bool) (last id : Z) (s : Stream.t) : Stream.t :=
  if (last <? id) && Bool.eqb (id mod 2 =? 1) client && bool_decide (Stream.reset s = None) then
    Stream.set_reset (Some RefusedStream) s
  else s.

Definition goaway_frame (f : frame) : M t Breach unit :=
  match H2.word f 0, H2.word f 4 with
  | Some last, Some code =>
      let last := Z.land last MAX_STREAM_ID in
      mset (set_goaway (Some (last, ErrCode.of_code code))) ;;;
      c <~ mget ;;
      mset (set_streams (map_imap (fun id s => Some (passed_over (client c) last id s)) (streams c)))
  | _, _ => mfail (OnConnection short_goaway)
  end.

Definition bad_update : Violation := Viol.frame_size (lit "a WINDOW_UPDATE that is not 4 octets").
Definition idle_update : Violation := Viol.protocol (lit "a WINDOW_UPDATE on an idle stream").

Definition window_update (f : frame) : M t Breach unit :=
  word <~ mlift (ok_or (only_word f) (OnConnection bad_update)) ;;
  let increment := Z.land word MAX_STREAM_ID in
  let id := stream f in
  c <~ mget ;;
  if id =? 0 then mmap_err OnConnection (on_window send set_send (fun w => Window.grant w increment))
  else if idle c id then mfail (OnConnection idle_update)
  else on_stream id (mmap_err (OnStream id)
         (on_window Stream.send Stream.set_send (fun w => Window.grant w increment))) (mret tt).

Definition not_settings : Violation := Viol.protocol (lit "the peer's first frame is not SETTINGS").
Definition interrupted : Violation := Viol.protocol (lit "a header block interrupted").
Definition on_wrong_stream (f : frame) : Violation :=
  Viol.protocol (KindCode.debug (kind f) ++ lit " on stream " ++ dec (stream f)).
Definition push_off : Violation := Viol.protocol (lit "a PUSH_PROMISE, and push is off").
Definition bad_priority : Violation := Viol.frame_size (lit "a PRIORITY that is not 5 octets").

Definition wrong_stream (f : frame) : bool :=
  let on_connection := stream f =? 0 in
  match kind f with
  | Settings | Ping | Goaway => negb on_connection
  | Data | Headers | Priority | RstStream | Continuation => on_connection
  | PushPromise | WindowUpdate | Unknown _ => false
  end.

(** Whether a block is being continued, and [f] does not continue it. *)
Definition interrupts (c : t) (f : frame) : bool :=
  match continuing c with
  | Some k => negb (bool_decide (kind f = Continuation)) || negb (stream f =? c_stream k)
  | None => false
  end.

Definition handle_kind (f : frame) : M t Breach unit :=
  match kind f with
  | Data => data f
  | Headers =>
      content <~ mlift (map_err OnConnection (H2.content f)) ;;
      block (stream f) content (H2.has f END_STREAM) (H2.has f END_HEADERS)
  | Continuation => continuation f
  | Priority =>
      if negb (bool_decide (length (payload f) = 5%nat)) then mfail (OnStream (stream f) bad_priority)
      else mret tt
  | Unknown _ => mret tt
  | RstStream => rst_stream f
  | Settings => settings f
  | PushPromise => mfail (OnConnection push_off)
  | Ping => ping_frame f
  | Goaway => goaway_frame f
  | WindowUpdate => window_update f
  end.

Definition handle (f : frame) : M t Breach unit :=
  c <~ mget ;;
  if negb (settings_seen c) && negb (bool_decide (kind f = Settings)) then
    mfail (OnConnection not_settings)
  else if interrupts c f then mfail (OnConnection interrupted)
  else if wrong_stream f then mfail (OnConnection (on_wrong_stream f))
  else handle_kind f.

(** [frame::read] of the connection's [io]. *)
Definition read_frame : M t ReadFailure (option frame) := fun c =>
  on_io (H2.read (Settings.max_frame_size (local c))) c.

(** What [pump] does with a frame read. *)
Definition answer (f : frame) : M t NetError bool := fun c =>
  match handle f c with
  | (Ok _, c) => (Ok true, c)
  | (Err (OnConnection violation), c) => fail violation c
  | (Err (OnStream id violation), c) => (reset id (v_code violation) ;;; mret true) c
  end.

Definition pump : M t NetError bool := fun c =>
  match read_frame c with
  | (Ok (Some f), c) => answer f c
  | (Ok None, c) => (Ok false, c)
  | (Err (Net failure), c) => (Err failure, c)
  | (Err (Breached violation), c) => fail violation c
  end.

End Receive.
