(* ===== verification/H2Send.v ===== *)
(** What a connection writes as the peer's windows allow, reading while they
    are shut: [send_data] and [ping] of [src/http2/connection.rs]. *)

From Stdlib Require Import String.
From S2P Require Import Prelude Errors Wire HpackTable Hpack H2Frame H2Settings H2Stream H2Connection H2Receive.

Module Send.
Import Conn Receive.

Definition shut : NetError := NetErr.new (lit "the connection closed while a window was shut").

(** [self.send.take(n)?] and [stream.send.take(n)?]. *)
Definition take_windows (id n : Z) : M t NetError unit :=
  mmap_err NetError_of (on_window send set_send (fun w => Window.take w n)) ;;;
  on_stream id
    (mmap_err NetError_of (on_window Stream.send Stream.set_send (fun w => Window.take w n))) (mret tt).

(** A window shut: a stall, counted, and a frame of the peer's read. *)
Definition stall (rest : bytes) : M t NetError (bytes + unit) :=
  mset (fun c => set_stalls (stalls c + 1) c) ;;;
  release ;;;
  more <~ pump ;;
  if more : bool then mret (inl rest) else mfail shut.

(** One [DATA] of [rest], of [most] octets at most. *)
Definition send_piece (id : Z) (end_ : bool) (most : Z) (rest : bytes) : M t NetError (bytes + unit) :=
  let n := Z.min (len rest) most in
  let piece := ztake n rest in
  let after := zdrop n rest in
  let last := bool_decide (after = []) in
  emit (mkFrame Data (if last && end_ then END_STREAM else 0) id piece) ;;;
  take_windows id (len piece) ;;;
  mret (if last then inr tt else inl after).

(** One turn of the loop of [send_data]. *)
Definition send_turn (id : Z) (end_ : bool) (rest : bytes) : M t NetError (bytes + unit) :=
  c <~ mget ;;
  open <~ mlift (open_window c id) ;;
  let most := Z.min (Settings.max_frame_size (remote c)) open in
  if (most =? 0) && negb (bool_decide (rest = [])) then stall rest
  else send_piece id end_ most rest.

(** What is left to send and to read. *)
Definition send_left (rest : bytes) (c : t) : nat := length rest + pending (io c).

Definition send_data (id : Z) (body : bytes) (end_ : bool) : M t NetError unit :=
  loop (send_turn id end_) send_left shut body ;;;
  (if end_ then end_locally id else mret tt).

Definition no_pong : NetError := NetErr.new (lit "the connection closed before the PING came back").

Definition ping_turn (opaque : bytes) (_ : unit) : M t NetError (unit + unit) :=
  c <~ mget ;;
  if bool_decide (opaque ∈ pongs c) then mret (inr tt)
  else more <~ pump ;; if more : bool then mret (inl tt) else mfail no_pong.

Definition pending_io {A} (_ : A) (c : t) : nat := pending (io c).

Definition ping (opaque : bytes) : M t NetError unit :=
  emit (H2.ping opaque false) ;;;
  loop (ping_turn opaque) pending_io no_pong tt.

End Send.
