(* ===== verification/H2Invariant.v ===== *)
(** What holds of a connection whatever its peer sends: an invariant closed
    under the few ways the code changes a connection is kept by every one of
    its operations. *)

From Stdlib Require Import String.
From S2P Require Import Prelude Errors Wire HpackInteger HpackTable Hpack H2Frame H2Settings H2Stream H2Message H2Connection H2Receive H2Send.

Module Invariant.
Import Conn Receive.

(** ** One stream *)

Definition stream_ok (s : Stream.t) : Prop :=
  Window.left (Stream.send s) <= MAX_STREAM_ID
  /\ 0 <= Window.left (Stream.receive s) <= MAX_STREAM_ID
  /\ len (Stream.body s) <= MAX_BODY.

(** What may become of a stream: it stays in its bounds, and once closed it
    stays closed. *)
Definition evolves (s s' : Stream.t) : Prop :=
  (stream_ok s -> stream_ok s') /\ (Stream.state s = Closed -> Stream.state s' = Closed).

#[global] Instance evolves_preorder : PreOrder evolves.
Proof.
  split; [by intros s; split|]. intros s1 s2 s3 [H1 H2] [H3 H4]. split; auto.
Qed.

Lemma evolves_state s s1 x :
  evolves s s1 -> (Stream.state s1 = Closed -> x = Closed) -> evolves s (Stream.set_state x s1).
Proof. intros [H1 H2] Hx. split; cbn; auto. Qed.

Lemma evolves_reset s s1 x : evolves s s1 -> evolves s (Stream.set_reset x s1).
Proof. by intros [H1 H2]. Qed.
Lemma evolves_head s s1 x : evolves s s1 -> evolves s (Stream.set_head x s1).
Proof. by intros [H1 H2]. Qed.

Lemma evolves_body s s1 x : evolves s s1 -> len x <= MAX_BODY -> evolves s (Stream.set_body x s1).
Proof. intros [H1 H2] Hx. split; [|done]. intros Hs. by destruct (H1 Hs) as (? & ? & _). Qed.

Lemma ended_remotely_closed x : x = Closed -> State.ended_remotely x = Closed.
Proof. by intros ->. Qed.
Lemma ended_locally_closed x : x = Closed -> State.ended_locally x = Closed.
Proof. by intros ->. Qed.

(** A window of a stream moved by [take] or [grant]. *)
Definition moves (f : Window.t -> result Violation Window.t) : Prop :=
  forall w w', f w = Ok w' ->
    (Window.left w <= MAX_STREAM_ID -> Window.left w' <= MAX_STREAM_ID)
    /\ (0 <= Window.left w -> 0 <= Window.left w').

Lemma moves_take n : 0 <= n -> moves (fun w => Window.take w n).
Proof.
  unfold moves, Window.take. intros Hn w w' H. case_test; [discriminate|]. apply Ok_inj in H as <-.
  cbn. apply Z.ltb_ge in Heqb. unfold Window.I64_MAX in *. lia.
Qed.

Lemma moves_grant n : 0 <= n -> moves (fun w => Window.grant w n).
Proof. intros Hn w w' H. apply Window.grant_ok in H. lia. Qed.

Lemma evolves_receive s f :
  moves f -> keeps (evolves s) (on_window Stream.receive Stream.set_receive f).
Proof.
  intros Hf s1 [H1 H2]. unfold on_window. destruct (f (Stream.receive s1)) as [w|v] eqn:Hw; [|done].
  apply Hf in Hw as [Hw1 Hw2]. split; [|done]. intros Hs. destruct (H1 Hs) as (? & [? ?] & ?).
  unfold stream_ok. cbn. auto.
Qed.

Lemma evolves_send s f :
  (forall w w', f w = Ok w' -> Window.left w <= MAX_STREAM_ID -> Window.left w' <= MAX_STREAM_ID) ->
  keeps (evolves s) (on_window Stream.send Stream.set_send f).
Proof.
  intros Hf s1 [H1 H2]. unfold on_window. destruct (f (Stream.send s1)) as [w|v] eqn:Hw; [|done].
  split; [|done]. intros Hs. destruct (H1 Hs) as (? & ? & ?). unfold stream_ok. cbn. eauto.
Qed.

Lemma increment_nonneg n : 0 <= n -> 0 <= increment_of n.
Proof. unfold increment_of, MAX_STREAM_ID. case_test; lia. Qed.

Lemma evolves_headers s fields e : keeps (evolves s) (Stream.headers fields e).
Proof.
  intros s1 [H1 H2]. destruct (Stream.headers fields e s1) as [r s2] eqn:Hh.
  apply Stream.headers_frame in Hh as (Hs & Hr & Hb & _ & Hc).
  assert (evolves s s2); [|by destruct r]. split; [|auto]. unfold stream_ok in *. by rewrite Hs, Hr, Hb.
Qed.

(** Take a method apart along its binds and tests. *)
Ltac keep :=
  repeat (cbv beta zeta; lazymatch goal with
    | |- keeps _ (mthen mget _) => apply keeps_get; intros ? ?
    | |- keeps _ (mthen _ _) => apply keeps_then; [|intros ?]
    | |- keeps _ (mret _) => apply keeps_ret
    | |- keeps _ (mfail _) => apply keeps_fail
    | |- keeps _ (mlift _) => apply keeps_lift
    | |- keeps _ (mmap_err _ _) => apply keeps_map_err
    | |- keeps _ (match ?x with _ => _ end) => destruct x eqn:?
    end).

Lemma evolves_data s f : keeps (evolves s) (data_stream f).
Proof.
  pose proof (len_nonneg (payload f)) as Hn. unfold data_stream. keep.
  - by apply evolves_receive, moves_take.
  - apply keeps_set. intros s2 Hs2. apply evolves_body; [done|]. rewrite len_app.
    match goal with H : (MAX_BODY <? _) = false |- _ => apply Z.ltb_ge in H; lia end.
  - apply keeps_set. intros s2 Hs2. by apply evolves_state, ended_remotely_closed.
  - by apply evolves_receive, moves_grant, increment_nonneg.
Qed.

(** ** The connection

    [stable I]: [I] is closed under the ways a connection changes. [Id] says
    which streams a frame may be on. *)

Section stable.
Context (Id : Z -> Prop) (Payload : bytes -> Prop) (I : t -> Prop).

Record stable : Prop := {
  st_io c w : I c -> incoming w = incoming (io c) -> I (set_io w c);
  st_held c x : I c -> I (set_held x c);
  st_away c x : I c -> I (set_going_away x c);
  st_stalls c x : I c -> I (set_stalls x c);
  st_pongs c x : I c -> I (set_pongs x c);
  st_goaway c x : I c -> I (set_goaway x c);
  st_seen c x : I c -> I (set_settings_seen x c);
  st_send c w : I c -> (Window.left (send c) <= MAX_STREAM_ID -> Window.left w <= MAX_STREAM_ID) ->
    (0 <= Window.left (send c) -> 0 <= Window.left w) -> I (set_send w c);
  st_receive c w : I c -> (Window.left (receive c) <= MAX_STREAM_ID -> Window.left w <= MAX_STREAM_ID) ->
    (0 <= Window.left (receive c) -> 0 <= Window.left w) -> I (set_receive w c);
  st_stream c id s s' : I c -> streams c !! id = Some s -> evolves s s' ->
    I (set_streams (<[id := s']> (streams c)) c);
  st_passed c last : I c ->
    I (set_streams (map_imap (fun id s => Some (passed_over (client c) last id s)) (streams c)) c);
  st_decoder c block : I c -> I (set_decoder (Decoder.decode block (decoder c)).2 c);
  st_encoder c fields : I c -> I (set_encoder (Encoder.encode (encoder c) fields).2 c);
  st_resize c c' : I c -> I c' ->
    I (set_encoder (Encoder.resize (encoder c') (Z.min (Settings.header_table_size (remote c')) 4096)) c);
  st_remote c p : I c -> Payload p ->
    I (set_remote (Settings.apply p (client c) (remote c)).2 c);
  st_whole c : I c -> I (set_continuing None c);
  st_part c id block e : I c -> Id id -> len block <= MAX_BLOCK ->
    I (set_continuing (Some (mkContinuing id block e)) c);
  st_passed_by c id : I c -> Id id -> client c = false -> id mod 2 <> 0 -> last_peer c < id ->
    I (set_highest (Z.max (highest c) id) (set_last_peer id c));
  st_opened c id : I c -> Id id -> client c = false -> id mod 2 <> 0 -> last_peer c < id ->
    streams c !! id = None ->
    open_count (streams c) < or_max (Settings.max_concurrent_streams (local c)) ->
    I (open id (set_highest (Z.max (highest c) id) (set_last_peer id c)));
}.

Hypothesis Hst : stable.

Lemma keeps_on_io {E A} (m : M Wire E A) :
  (forall rs, keeps (fun w => incoming w = rs) m) -> keeps I (on_io m).
Proof.
  intros Hm c Hc. unfold on_io. specialize (Hm _ (io c) eq_refl).
  destruct (m (io c)) as [[a|e] w]; by apply st_io.
Qed.

Lemma keeps_asked bs rs : keeps (fun w => incoming w = rs) (asked bs).
Proof. intros w Hw. unfold asked. by destruct (refusals w) as [|[[n e]|] l]. Qed.
Lemma keeps_write_all bs rs : keeps (fun w => incoming w = rs) (write_all bs).
Proof. destruct bs; [apply keeps_ret | apply keeps_asked]. Qed.

Lemma keeps_emit f : keeps I (emit f).
Proof.
  intros c Hc. unfold emit. destruct (held c).
  - by apply st_held.
  - revert c Hc. apply keeps_on_io. intros rs. unfold flushing, H2.write. keep;
      [apply keeps_write_all | apply keeps_asked].
Qed.

Lemma keeps_release : keeps I release.
Proof.
  intros c Hc. unfold release. destruct (held c) as [[|b bs]|]; [done| |done].
  apply (st_held Hst c (Some [])) in Hc. revert Hc. generalize (set_held (Some []) c).
  apply keeps_on_io. intros rs. keep; [apply keeps_write_all | apply keeps_asked].
Qed.

Lemma keeps_together {A} (build : M t NetError A) : keeps I build -> keeps I (together build).
Proof.
  intros Hb c Hc. unfold together. apply (st_held Hst c (Some [])) in Hc.
  destruct (build _) as [made c1] eqn:H1. apply (keeps_run I build _ _ _ Hb Hc) in H1.
  destruct (release c1) as [written c2] eqn:H2. apply (keeps_run I _ _ _ _ keeps_release H1) in H2.
  apply (st_held Hst c2 None) in H2. by destruct made, written.
Qed.

Lemma keeps_on_stream {E A} id (m : M Stream.t E A) none :
  (forall s, keeps (evolves s) m) -> keeps I none -> keeps I (on_stream id m none).
Proof.
  intros Hm Hnone c Hc. unfold on_stream. destruct (streams c !! id) as [s|] eqn:Hs; [|by apply Hnone].
  assert (evolves s s) as Hss by done. specialize (Hm s s Hss). destruct (m s) as [[a|e] s'];
    by apply (st_stream Hst c id s s').
Qed.

Lemma keeps_update_stream {E} id f :
  (forall s, evolves s (f s)) -> keeps (E := E) I (update_stream id f).
Proof.
  intros Hf. apply keeps_on_stream; [|apply keeps_ret]. intros s. apply keeps_set.
  intros s1 Hs1. by transitivity s1.
Qed.

Lemma keeps_on_window_send f :
  moves f -> keeps I (on_window send set_send f).
Proof.
  intros Hf c Hc. unfold on_window. destruct (f (send c)) as [w|v] eqn:Hw; [|done].
  apply Hf in Hw as [? ?]. by apply st_send.
Qed.
Lemma keeps_on_window_receive f :
  moves f -> keeps I (on_window receive set_receive f).
Proof.
  intros Hf c Hc. unfold on_window. destruct (f (receive c)) as [w|v] eqn:Hw; [|done].
  apply Hf in Hw as [? ?]. by apply st_receive.
Qed.

(** *** What the connection writes *)

Lemma keeps_end_locally id : keeps I (end_locally id).
Proof. apply keeps_update_stream. intros s. by apply evolves_state, ended_locally_closed. Qed.

Lemma keeps_send_pieces id e kind first pieces : keeps I (send_pieces id e kind first pieces).
Proof.
  revert kind first. induction pieces as [|piece pieces IH]; intros kind first; cbn [send_pieces].
  - destruct first; [apply keeps_emit | apply keeps_ret].
  - keep; [apply keeps_emit | apply IH].
Qed.

Lemma keeps_send_headers id fields e : keeps I (send_headers id fields e).
Proof.
  unfold send_headers. keep.
  - intros c Hc. unfold encode_block. pose proof (st_encoder Hst c fields Hc) as H.
    by destruct (Encoder.encode (encoder c) fields).
  - apply keeps_send_pieces.
  - apply keeps_end_locally.
Qed.

Lemma keeps_reset id code : keeps I (reset id code).
Proof.
  unfold reset. keep; [|apply keeps_emit]. apply keeps_update_stream. intros s.
  apply evolves_reset, evolves_state; [done|by intros _].
Qed.

Lemma keeps_go_away code debug : keeps I (go_away code debug).
Proof. unfold go_away. keep; [apply keeps_set; intros; by apply st_away | apply keeps_emit]. Qed.

Lemma keeps_fail_with {A} v : keeps I (fail (A := A) v).
Proof.
  intros c Hc. unfold fail. destruct (go_away _ _ c) as [r c1] eqn:H1.
  by apply (keeps_run I _ _ _ _ (keeps_go_away _ _) Hc) in H1.
Qed.

(** *** What it does with a frame *)

Lemma keeps_data f : keeps I (data f).
Proof.
  pose proof (len_nonneg (payload f)) as Hn. unfold data. keep; try apply keeps_emit.
  - by apply keeps_on_window_receive, moves_take.
  - by apply keeps_on_window_receive, moves_grant, increment_nonneg.
  - apply keeps_on_stream; [intros s'; apply evolves_data | apply keeps_fail].
Qed.

Lemma keeps_give_headers id fields e : keeps I (give_headers id fields e).
Proof.
  apply keeps_on_stream; [|apply keeps_ret]. intros s. apply keeps_map_err, evolves_headers.
Qed.

Lemma keeps_open_by_peer id fields e :
  Id id -> forall c, I c -> streams c !! id = None ->
  match open_by_peer id fields e c with (Ok _, c') => I c' | (Err _, c') => I c' end.
Proof.
  intros Hid c Hc Hnone. unfold open_by_peer, mthen, mget, mset.
  destruct (client c || (id mod 2 =? 0) || (id <=? last_peer c)) eqn:Ht; [done|].
  apply orb_false_iff in Ht as [Ht Hlast]. apply orb_false_iff in Ht as [Hcl Hodd].
  apply Z.eqb_neq in Hodd. apply Z.leb_gt in Hlast.
  destruct (going_away c); [by apply st_passed_by|].
  destruct (Z.leb_spec (or_max (Settings.max_concurrent_streams (local c))) (open_count (streams c))) as [Hm|Hm].
  - by apply st_passed_by.
  - apply keeps_give_headers. by apply st_opened.
Qed.

Lemma keeps_block id bs e whole : Id id -> keeps I (block id bs e whole).
Proof.
  intros Hid. unfold block. destruct (Z.ltb_spec MAX_BLOCK (len bs)); [apply keeps_fail|].
  destruct whole; cbn [negb]; [|apply keeps_set; intros; by apply st_part].
  apply keeps_then.
  { apply keeps_map_err. intros c Hc. unfold decode_block. pose proof (st_decoder Hst c bs Hc) as H1.
    by destruct (Decoder.decode bs (decoder c)) as [[a|v] d]. }
  intros fields c Hc. unfold mthen at 1, mget. unfold mthen, mlift.
  destruct (map_err _ _) as [[]|b]; [|done]. unfold take_block. destruct (streams c !! id) as [s|] eqn:Hs.
  - destruct (Stream.reset s); [done | by apply keeps_give_headers].
  - by apply keeps_open_by_peer.
Qed.

(** A block being continued is on a stream a frame may be on. *)
Definition continues_on : Prop := forall c k, I c -> continuing c = Some k -> Id (c_stream k).

Lemma keeps_continuation f : continues_on -> keeps I (continuation f).
Proof.
  intros Hon. unfold continuation. apply keeps_get. intros c Hc. destruct (continuing c) as [k|] eqn:Hk; [|apply keeps_fail].
  keep; [apply keeps_set; intros; by apply st_whole | by apply keeps_block, (Hon c)].
Qed.

Lemma keeps_rst_stream f : keeps I (rst_stream f).
Proof.
  unfold rst_stream. keep. apply keeps_update_stream. intros s'. apply evolves_state; [by apply evolves_reset|].
  by intros _.
Qed.

Lemma shift_bound d w w' : Window.shift w d = Ok w' -> Window.left w' <= MAX_STREAM_ID.
Proof. intros H. apply Window.shift_ok in H. lia. Qed.

Lemma keeps_shift_all delta l : keeps I (shift_all delta l).
Proof.
  induction l as [|id l IH]; cbn [shift_all]; keep; [|exact IH].
  apply keeps_on_stream; [|apply keeps_ret]. intros s. apply evolves_send.
  intros w w' Hw _. by apply shift_bound in Hw.
Qed.

Lemma keeps_settings f : Payload (payload f) -> keeps I (settings f).
Proof.
  intros Hp. unfold settings. keep.
  - intros c Hc. unfold apply_settings. pose proof (st_remote Hst c (payload f) Hc Hp) as H1.
    by destruct (Settings.apply _ _ _) as [[u|v] s'].
  - apply keeps_shift_all.
  - apply keeps_set. intros c' Hc'. by apply st_resize.
  - apply keeps_set. intros c' Hc'. by apply st_seen.
  - apply keeps_emit.
Qed.

Lemma keeps_ping_frame f : keeps I (ping_frame f).
Proof. unfold ping_frame. keep; [apply keeps_set; intros; by apply st_pongs | apply keeps_emit]. Qed.

Lemma keeps_goaway_frame f : keeps I (goaway_frame f).
Proof.
  intros c Hc. unfold goaway_frame. destruct (H2.word f 0) as [last|], (H2.word f 4) as [code|]; try done.
  unfold mthen, mset, mget. by apply (st_passed Hst), (st_goaway Hst).
Qed.

Lemma keeps_window_update f : keeps I (window_update f).
Proof.
  assert (forall w, 0 <= Z.land w MAX_STREAM_ID) as Hm by (intros w; apply Z.land_nonneg; right; done).
  unfold window_update. keep.
  - by apply keeps_on_window_send, moves_grant.
  - apply keeps_on_stream; [|apply keeps_ret]. intros s'. apply keeps_map_err, evolves_send.
    intros w w' Hw _. apply Window.grant_ok in Hw. lia.
Qed.

Lemma keeps_handle_kind f :
  continues_on -> Id (stream f) -> Payload (payload f) -> keeps I (handle_kind f).
Proof.
  intros Hon Hid Hp. unfold handle_kind. destruct (kind f).
  - apply keeps_data.
  - keep. by apply keeps_block.
  - keep.
  - apply keeps_rst_stream.
  - by apply keeps_settings.
  - keep.
  - apply keeps_ping_frame.
  - apply keeps_goaway_frame.
  - apply keeps_window_update.
  - by apply keeps_continuation.
  - keep.
Qed.

(** Whatever a frame holds, answering it keeps the invariant: where it was
    handled, where it ends its stream, and where it ends the connection. *)
Lemma keeps_answer f :
  continues_on -> Id (stream f) -> Payload (payload f) -> keeps I (answer f).
Proof.
  intros Hon Hid Hp c Hc. unfold answer.
  assert (keeps I (handle f)) as Hh.
  { unfold handle. keep. by apply keeps_handle_kind. }
  destruct (handle f c) as [r c1] eqn:H1. apply (keeps_run I _ _ _ _ Hh Hc) in H1.
  destruct r as [u|[v|id v]]; [done | by apply keeps_fail_with|].
  assert (keeps I (reset id (v_code v) ;;; mret true)) as Hr by (keep; apply keeps_reset).
  exact (Hr c1 H1).
Qed.

End stable.

(** ** What handling a frame leaves alone

    Handling a frame reads nothing, and adds at most the stream the frame is
    on. *)

Definition handled (rs : list Wire.answer) (D : gset Z) (id : Z) (c : t) : Prop :=
  incoming (io c) = rs
  /\ (dom (streams c) = D \/ dom (streams c) = {[id]} ∪ D)
  /\ (forall k, continuing c = Some k -> c_stream k = id).

Lemma dom_passed cl last (m : gmap Z Stream.t) :
  dom (map_imap (fun id s => Some (passed_over cl last id s)) m) = dom m.
Proof.
  apply set_eq. intros id. rewrite !elem_of_dom, map_lookup_imap. by destruct (m !! id).
Qed.

Lemma dom_insert_same (m : gmap Z Stream.t) id s s' : m !! id = Some s -> dom (<[id := s']> m) = dom m.
Proof. intros H. apply dom_insert_lookup_L. eauto. Qed.

Lemma handled_stable rs D id : stable (fun id' => id' = id) (fun _ => True) (handled rs D id).
Proof.
  split; unfold handled; try done.
  - intros c w (H1 & H2 & H3) Hw. cbn. by rewrite Hw.
  - intros c id' s s' (H1 & H2 & H3) Hs _. cbn. by rewrite (dom_insert_same _ _ _ _ Hs).
  - intros c last (H1 & H2 & H3). cbn. by rewrite dom_passed.
  - intros c (H1 & H2 & _). by split_and!.
  - intros c id' bs e (H1 & H2 & H3) -> _. cbn. split_and!; [done..|]. by intros k [= <-].
  - intros c id' (H1 & H2 & H3) -> _ _ _ Hn _. unfold open. cbn. rewrite Hn. cbn. split_and!; [done| |done].
    right. rewrite dom_insert_L. clear -H2. destruct H2 as [-> | ->]; [done|]. by rewrite (assoc_L (∪)), (idemp_L (∪)).
Qed.

(** What the connection does of itself reads nothing, and keeps its streams:
    [quiet]. *)
Definition quiet (rs : list Wire.answer) (D : gset Z) (c : t) : Prop :=
  incoming (io c) = rs /\ dom (streams c) = D.

Lemma quiet_stable rs D : stable (fun _ => False) (fun _ => True) (quiet rs D).
Proof.
  split; unfold quiet; try done.
  - intros c w [H1 H2] Hw. cbn. by rewrite Hw.
  - intros c id' s s' [H1 H2] Hs _. cbn. by rewrite (dom_insert_same _ _ _ _ Hs).
  - intros c last [H1 H2]. cbn. by rewrite dom_passed.
Qed.

Lemma quiet_run {A E} (m : M t E A) c r c' :
  (forall rs D, keeps (quiet rs D) m) -> m c = (r, c') ->
  incoming (io c') = incoming (io c) /\ dom (streams c') = dom (streams c).
Proof. intros Hm H. by apply (keeps_run (quiet (incoming (io c)) (dom (streams c))) m c r c'). Qed.

(** What a frame is answered with reads nothing, and the streams are those
    there were, and perhaps the one it is on. *)
Lemma answer_handled f c r c' :
  answer f c = (r, c') ->
  incoming (io c') = incoming (io c)
  /\ (dom (streams c') = dom (streams c) \/ dom (streams c') = {[stream f]} ∪ dom (streams c)).
Proof.
  intros Ha. destruct (interrupts c f) eqn:Hi.
  - cut (incoming (io c') = incoming (io c) /\ dom (streams c') = dom (streams c)); [intros [? ?]; auto|].
    unfold answer, handle, mthen, mget in Ha. rewrite Hi in Ha.
    destruct (negb (settings_seen c) && _); revert Ha; apply quiet_run;
      intros rs D; apply (keeps_fail_with _ _ _ (quiet_stable rs D)).
  - assert (handled (incoming (io c)) (dom (streams c)) (stream f) c) as Hc.
    { split_and!; [done | by left|]. intros k Hk. unfold interrupts in Hi. rewrite Hk in Hi.
      apply orb_false_iff in Hi as [_ Hi]. apply negb_false_iff, Z.eqb_eq in Hi. done. }
    set (D := dom (streams c)) in *. set (rs := incoming (io c)) in *.
    assert (keeps (handled rs D (stream f)) (answer f)) as Hk.
    { apply (keeps_answer _ _ _ (handled_stable rs D (stream f))); try done. by intros c0 k (_ & _ & H3) Hk; apply H3. }
    by destruct (keeps_run _ _ _ _ _ Hk Hc Ha) as (H1 & H2 & _).
Qed.

(** ** What reading takes off *)

Lemma fill_from_takes n acc rs bs rs' :
  fill_from n acc rs = (Whole bs, rs') -> (pending_of rs' + n <= pending_of rs)%nat.
Proof.
  revert n acc. induction rs as [|[cs|e] rs IH]; intros n acc H.
  - destruct n; simpl in H; [injection H as <- <-; cbn; lia | discriminate].
  - destruct n as [|n]; [injection H as <- <-; lia|]. cbn [fill_from] in H.
    destruct cs as [|c cs]; [discriminate|].
    destruct (Nat.ltb_spec (S n) (length (c :: cs))).
    + injection H as <- <-. cbn [pending_of]. rewrite length_drop. cbn [length] in *; lia.
    + apply IH in H. cbn [pending_of length] in *; lia.
  - destruct n as [|n]; [injection H as <- <-; lia|]. cbn [fill_from] in H.
    case_decide; [apply IH in H; cbn [pending_of]; lia | discriminate].
Qed.

Lemma fill_pending n w x w' : fill n w = (x, w') -> (pending w' <= pending w)%nat.
Proof.
  unfold fill, pending. destruct (fill_from n [] (incoming w)) as [y rs] eqn:H. intros [= <- <-].
  by apply fill_from_pending in H.
Qed.

Lemma fill_takes n w bs w' : fill n w = (Whole bs, w') -> (pending w' + n <= pending w)%nat.
Proof.
  unfold fill, pending. destruct (fill_from n [] (incoming w)) as [y rs] eqn:H. intros [= -> <-].
  by apply fill_from_takes in H.
Qed.

Lemma read_exact_pending n w r w' : read_exact n w = (r, w') -> (pending w' <= pending w)%nat.
Proof.
  unfold read_exact. destruct (fill n w) as [[bs|bs|e] w1] eqn:H; apply fill_pending in H; by intros [= _ <-].
Qed.

(** A frame read took its header at least off what is to come. *)
Lemma read_pending max w r w' :
  H2.read max w = (r, w') ->
  (pending w' <= pending w)%nat
  /\ (forall f, r = Ok (Some f) -> (pending w' + 9 <= pending w)%nat).
Proof.
  unfold H2.read. destruct (fill HEADER_LEN w) as [[bs|bs|e] w1] eqn:H.
  - pose proof (fill_takes _ _ _ _ H) as Ht. unfold HEADER_LEN in Ht.
    case_test; [intros [= <- <-]; split; [lia | done]|].
    unfold mmap_err. destruct (read_exact _ w1) as [[p|e] w2] eqn:H2; apply read_exact_pending in H2;
      intros [= <- <-]; split; try lia; done.
  - apply fill_pending in H. destruct bs; intros [= <- <-]; done.
  - apply fill_pending in H. intros [= <- <-]; done.
Qed.

(** ** Reading ends: [pump] takes something off what is to come *)

Definition size_of (c : t) : nat := size (streams c).

Lemma size_of_dom (c c' : t) : dom (streams c') = dom (streams c) -> size_of c' = size_of c.
Proof. intros H. unfold size_of. rewrite <- !size_dom. by rewrite H. Qed.

Lemma size_dom_insert (c c' : t) id :
  dom (streams c') = {[id]} ∪ dom (streams c) -> (size_of c' <= S (size_of c))%nat.
Proof.
  intros H. unfold size_of. rewrite <- !size_dom, H. rewrite size_union_alt.
  etransitivity; [apply Nat.add_le_mono_l, (subseteq_size _ (dom (streams c)))|].
  - apply subseteq_difference_l; done.
  - rewrite size_singleton. lia.
Qed.

(** The streams before are there after, one more of them at most; what is to
    come is less where a frame was read. *)
Record took (n : nat) (c c' : t) : Prop := {
  took_pending : (pending (io c') + n <= pending (io c))%nat;
  took_streams : dom (streams c) ⊆ dom (streams c');
  took_size : (pending (io c') + size_of c' <= pending (io c) + size_of c)%nat;
}.

Lemma took_quiet c c' :
  incoming (io c') = incoming (io c) /\ dom (streams c') = dom (streams c) -> took 0 c c'.
Proof.
  intros [Hi Hd]. pose proof (size_of_dom c c' Hd). split; unfold pending; rewrite ?Hi; [lia | by rewrite Hd | lia].
Qed.

Lemma took_trans n m c1 c2 c3 : took n c1 c2 -> took m c2 c3 -> took (n + m) c1 c3.
Proof. intros [H1 H2 H3] [H4 H5 H6]. split; [lia | by etransitivity | lia]. Qed.

Lemma pump_took c r c' :
  pump c = (r, c') -> took (match r with Ok true => 1 | _ => 0 end) c c'.
Proof.
  unfold pump, read_frame, on_io. destruct (H2.read _ (io c)) as [x w] eqn:Hr.
  apply read_pending in Hr as [Hle Hlt].
  assert (took 0 c (set_io w c)) as H0 by (split; cbn; [lia | done | unfold size_of; cbn; lia]).
  destruct x as [[f|]|[e|v]].
  - intros Ha. apply answer_handled in Ha as [Hi Hd]. specialize (Hlt f eq_refl). cbn in Hi, Hd.
    assert ((size_of c' <= S (size_of c))%nat /\ dom (streams c) ⊆ dom (streams c')) as [Hs Hsub].
    { destruct Hd as [Hd|Hd]; [rewrite (size_of_dom c c' Hd); split; [lia | by rewrite Hd]|].
      split; [by eapply size_dom_insert | rewrite Hd; apply union_subseteq_r]. }
    unfold pending in *. split; unfold pending; rewrite ?Hi; [repeat case_match; lia | done | lia].
  - by intros [= <- <-].
  - by intros [= <- <-].
  - intros Hf. pose proof Hf as Hf0. eapply quiet_run in Hf; [|intros rs D; apply (keeps_fail_with _ _ _ (quiet_stable rs D))].
    apply took_quiet in Hf. pose proof (took_trans _ _ _ _ _ H0 Hf) as Ht.
    assert (exists e, r = Err e) as [e ->]; [|exact Ht].
    clear -Hf0. unfold fail in Hf0. destruct (go_away _ _ _). injection Hf0 as <- _. eauto.
Qed.

(** ** The invariant of a connection *)

Definition encoder_ok (e : Encoder.t) : Prop :=
  Table.wf (Encoder.table e) /\ 0 <= Table.max_size (Encoder.table e) <= 4096.

Record ok (side : bool) (c : t) : Prop := {
  ok_side : client c = side;
  ok_wire : wire_octets (io c);
  ok_local : local c = Settings.ours;
  ok_remote : Settings.valid (remote c);
  ok_encoder : encoder_ok (encoder c);
  ok_decoder : Decoder.wf (decoder c) /\ Decoder.limit (decoder c) = 4096;
  ok_send : 0 <= Window.left (send c) <= MAX_STREAM_ID;
  ok_receive : 0 <= Window.left (receive c) <= MAX_STREAM_ID;
  ok_streams : forall id s, streams c !! id = Some s ->
    0 < id <= highest c /\ stream_ok s /\ (client c = false -> id <= last_peer c);
  ok_few : client c = false -> open_count (streams c) <= 100;
  ok_block : forall k, continuing c = Some k -> 0 <= c_stream k <= MAX_STREAM_ID /\ len (c_block k) <= MAX_BLOCK;
  ok_highest : 0 <= last_peer c <= highest c /\ highest c <= MAX_STREAM_ID;
}.

Lemma encode_field_ok e f : encoder_ok e -> encoder_ok (Encoder.encode_field e f).2.
Proof.
  intros [Hw Hm]. destruct f as [name value]. unfold Encoder.encode_field.
  destruct (Table.insert_newest_core _ name value Hw) as (_ & Hw' & Hm' & _).
  destruct (Table.find _ name value) as [[i|i]|]; cbn [snd]; unfold encoder_ok; cbn [Encoder.table]; rewrite ?Hm'; done.
Qed.

Lemma encode_fields_ok fields : forall e, encoder_ok e -> encoder_ok (Encoder.encode_fields e fields).2.
Proof.
  induction fields as [|f fields IH]; intros e He; [done|]. cbn [Encoder.encode_fields].
  pose proof (encode_field_ok e f He) as H1. destruct (Encoder.encode_field e f) as [out e1].
  specialize (IH e1 H1). by destruct (Encoder.encode_fields e1 fields).
Qed.

Lemma encode_ok e fields : encoder_ok e -> encoder_ok (Encoder.encode e fields).2.
Proof.
  intros He. unfold Encoder.encode.
  pose proof (encode_fields_ok fields (Encoder.mkEncoder (Encoder.table e) (Encoder.huffman e) None) He) as H.
  by destruct (Encoder.encode_fields _ fields).
Qed.

Lemma resize_ok e m : encoder_ok e -> 0 <= m <= 4096 -> encoder_ok (Encoder.resize e m).
Proof.
  intros [Hw Hm] Hr. unfold Encoder.resize. case_test; [|done].
  destruct (Table.resize_newest_core (Encoder.table e) m (proj1 Hw)) as (_ & Hw' & Hm'); [lia|].
  unfold encoder_ok. cbn [Encoder.table]. by rewrite Hm'.
Qed.

(** A stream is counted open only where one was counted open before. *)
Lemma open_count_le (m m' : gmap Z Stream.t) (extra : gset Z) :
  (forall id s', m' !! id = Some s' -> is_open s' = true ->
     id ∈ extra \/ exists s, m !! id = Some s /\ is_open s = true) ->
  open_count m' <= Z.of_nat (size extra) + open_count m.
Proof.
  intros H. unfold open_count. rewrite <- !size_dom, <- Nat2Z.inj_add. apply Nat2Z.inj_le.
  set (B := dom (filter _ m)). transitivity (size (extra ∪ B)).
  - apply subseteq_size. intros id Hid. apply elem_of_dom in Hid as [s' Hs].
    apply map_lookup_filter_Some in Hs as [Hs Ho]. apply elem_of_union.
    destruct (H id s' Hs Ho) as [He | (s & Hm & Hso)]; [by left|]. right.
    apply elem_of_dom. exists s. by apply map_lookup_filter_Some.
  - rewrite size_union_alt. apply Nat.add_le_mono_l, subseteq_size, subseteq_difference_l. done.
Qed.

Lemma open_count_mono (m m' : gmap Z Stream.t) :
  (forall id s', m' !! id = Some s' -> is_open s' = true -> exists s, m !! id = Some s /\ is_open s = true) ->
  open_count m' <= open_count m.
Proof.
  intros H. pose proof (open_count_le m m' ∅) as Hl. rewrite size_empty in Hl.
  apply Hl. intros id s' Hs Ho. right. eauto.
Qed.

Lemma is_open_spec s : is_open s = true <-> Stream.state s <> Closed.
Proof. unfold is_open. rewrite negb_true_iff. apply bool_decide_eq_false. Qed.

Lemma open_count_evolves m id s s' :
  m !! id = Some s -> evolves s s' -> open_count (<[id := s']> m) <= open_count m.
Proof.
  intros Hs [_ Hc]. apply open_count_mono. intros id' x Hx Ho.
  destruct (decide (id' = id)) as [->|Hne].
  - rewrite lookup_insert_eq in Hx. injection Hx as <-. exists s. split; [done|].
    apply is_open_spec. apply is_open_spec in Ho. auto.
  - rewrite lookup_insert_ne in Hx by done. eauto.
Qed.

Lemma open_count_add m id s : open_count (<[id := s]> m) <= 1 + open_count m.
Proof.
  change 1 with (Z.of_nat 1). rewrite <- (size_singleton (C := gset Z) id). apply open_count_le.
  intros id' x Hx Ho. destruct (decide (id' = id)) as [->|Hne]; [left; by apply elem_of_singleton|].
  rewrite lookup_insert_ne in Hx by done. eauto.
Qed.

Lemma passed_over_evolves cl last id s : evolves s (passed_over cl last id s).
Proof. unfold passed_over. case_test; [by apply evolves_reset | done]. Qed.

Lemma open_count_passed cl last m :
  open_count (map_imap (fun id s => Some (passed_over cl last id s)) m) <= open_count m.
Proof.
  apply open_count_mono. intros id x Hx Ho. rewrite map_lookup_imap in Hx.
  destruct (m !! id) as [s|] eqn:Hs; [|discriminate]. injection Hx as <-. exists s. split; [done|].
  apply is_open_spec. apply is_open_spec in Ho. intros Hc. by apply (passed_over_evolves cl last id s) in Hc.
Qed.

Definition on_31_bits (id : Z) : Prop := 0 <= id <= MAX_STREAM_ID.

Lemma new_stream_ok a b : 0 <= a <= MAX_STREAM_ID -> 0 <= b <= MAX_STREAM_ID -> stream_ok (Stream.new a b).
Proof. unfold stream_ok, MAX_BODY, MAX_STREAM_ID. intros. split_and!; cbn; lia || done. Qed.

Lemma ok_stable side : stable on_31_bits octets (ok side).
Proof.
  split; try (intros c x []; by split).
  - intros c w [] Hw. split; cbn; try done. unfold wire_octets in *. by rewrite Hw.
  - intros c w [] H1 H2. split; cbn; try done. split; [apply H2 | apply H1]; lia.
  - intros c w [] H1 H2. split; cbn; try done. split; [apply H2 | apply H1]; lia.
  - intros c id s s' [] Hs He. pose proof (open_count_evolves _ _ _ _ Hs He).
    split; cbn; try done; [|intros Hc; specialize (ok_few0 Hc); lia].
    intros id' x Hx. destruct (decide (id' = id)) as [->|Hne].
    + rewrite lookup_insert_eq in Hx. injection Hx as <-. destruct (ok_streams0 _ _ Hs) as (? & ? & ?).
      split_and!; try done; lia || by apply He.
    + rewrite lookup_insert_ne in Hx by done. eauto.
  - intros c last []. pose proof (open_count_passed (client c) last (streams c)).
    split; cbn; try done; [|intros Hc; specialize (ok_few0 Hc); lia].
    intros id x Hx. rewrite map_lookup_imap in Hx. destruct (streams c !! id) as [s|] eqn:Hs; [|discriminate].
    injection Hx as <-. destruct (ok_streams0 _ _ Hs) as (? & ? & ?).
    split_and!; try done; lia || by apply passed_over_evolves.
  - intros c bs []. split; cbn; try done. destruct ok_decoder0 as [Hw Hl].
    destruct (Decoder.decode bs (decoder c)) as [r d] eqn:Hd.
    apply Decoder.decode_loop_wf in Hd as [? ?]; [|done]. cbn. split; [done | congruence].
  - intros c fields []. split; cbn; try done. by apply encode_ok.
  - intros c c' [] []. split; cbn; try done. apply resize_ok; [done|]. destruct ok_remote1 as (? & _). lia.
  - intros c p [] Hp. split; cbn; try done. destruct (Settings.apply _ _ _) as [r s'] eqn:Ha.
    by apply (keeps_run _ _ _ _ _ (Settings.apply_valid p (client c) Hp) ok_remote0) in Ha.
  - intros c []. by split.
  - intros c id bs e [] Hid Hl. split; cbn; try done. by intros k [= <-].
  - intros c id [] [Hid1 Hid2] Hcl Hodd Hlast. destruct ok_highest0 as [? ?].
    split; cbn; try done; [|lia].
    intros id' s Hs. destruct (ok_streams0 _ _ Hs) as (? & ? & Hl). specialize (Hl Hcl). split_and!; [lia|lia|done|lia].
  - intros c id [] [Hid1 Hid2] Hcl Hodd Hlast Hn Hmost. destruct ok_highest0 as [? ?].
    unfold open. cbn. rewrite Hn. rewrite ok_local0 in Hmost |- *. change (or_max _) with 100 in Hmost.
    pose proof (open_count_add (streams c) id (Stream.new (Settings.initial_window_size (remote c))
      (Settings.initial_window_size Settings.ours))) as Hadd.
    assert (1 + open_count (streams c) <= 100) as Hroom by lia. pose proof (Z.le_trans _ _ _ Hadd Hroom) as Hfew.
    split; cbn; try done; [|lia].
    intros id' s Hs. destruct (decide (id' = id)) as [->|Hne].
    + rewrite lookup_insert_eq in Hs. injection Hs as <-. destruct ok_remote0 as (_ & Hw & _).
      split_and!; [lia|lia| |lia]. apply new_stream_ok; [done|]. cbn. unfold MAX_STREAM_ID, Settings.DEFAULT_WINDOW. lia.
    + rewrite lookup_insert_ne in Hs by done. destruct (ok_streams0 _ _ Hs) as (? & ? & Hl). specialize (Hl Hcl).
      split_and!; [lia|lia|done|lia].
Qed.

End Invariant.
