(* ===== verification/H2Safety.v ===== *)
(** What a connection keeps, whatever is sent to it and whatever is done
    with it: the invariant of [H2Invariant], over every operation, from the
    handshake on; and that every loop of the connection ends. *)

From Stdlib Require Import String.
From S2P Require Import Prelude Errors Wire HpackInteger HpackTable Hpack H2Frame H2Settings H2Stream H2Message H2Preface H2Connection H2Receive H2Send H2Invariant.

Module Safety.
Import Conn Receive Invariant.

(** ** A frame read off a wire of octets *)

Lemma fill_octets n w x w' :
  wire_octets w -> fill n w = (x, w') ->
  wire_octets w' /\ match x with Whole bs | Ended bs => octets bs | Broke _ => True end.
Proof.
  unfold fill, wire_octets. destruct (fill_from n [] (incoming w)) as [y rs] eqn:H. intros Hw [= <- <-].
  eapply fill_from_octets; [exact Hw | constructor | exact H].
Qed.

Lemma read_exact_octets n w r w' :
  wire_octets w -> read_exact n w = (r, w') ->
  wire_octets w' /\ match r with Ok bs => octets bs | Err _ => True end.
Proof.
  unfold read_exact. intros Hw. destruct (fill n w) as [[bs|bs|e] w1] eqn:H; apply fill_octets in H as [? ?];
    try done; by intros [= <- <-].
Qed.

Lemma read_exact_length n w bs w' : read_exact n w = (Ok bs, w') -> length bs = n.
Proof.
  unfold read_exact, fill. destruct (fill_from n [] (incoming w)) as [[x|x|e] rs] eqn:H; [|discriminate..].
  intros [= <- _]. by apply fill_from_len in H.
Qed.

Definition frame_ok (max_size : Z) (f : frame) : Prop :=
  on_31_bits (stream f) /\ octets (payload f) /\ len (payload f) <= max_size.

Lemma read_frame_ok max_size w r w' :
  0 <= max_size -> wire_octets w -> H2.read max_size w = (r, w') ->
  wire_octets w' /\ forall f, r = Ok (Some f) -> frame_ok max_size f.
Proof.
  intros Hm Hw. unfold H2.read. destruct (fill HEADER_LEN w) as [[h|h|e] w1] eqn:H1;
    apply fill_octets in H1 as [Hw1 Hh]; try done.
  - destruct (Z.ltb_spec max_size (of_be (0 :: take 3 h))) as [Hlt|Hge]; [by intros [= <- <-]|].
    unfold mmap_err. destruct (read_exact _ w1) as [r2 w2] eqn:H2. pose proof H2 as H3.
    apply (read_exact_octets _ _ _ _ Hw1) in H2 as [Hw2 Hp].
    destruct r2 as [p|e]; cbn [map_err]; intros [= <- <-]; [|done].
    split; [done|]. intros f [= <-]. apply read_exact_length in H3. unfold frame_ok, on_31_bits. split_and!; cbn [stream payload]; [| |done|].
    + apply Z.land_nonneg. right. done.
    + change MAX_STREAM_ID with (2 ^ 31 - 1). rewrite land_low by lia.
      pose proof (Z.mod_pos_bound (of_be (take 4 (drop 5 h))) (2 ^ 31)). lia.
    + unfold len. lia.
  - destruct h; intros [= <- <-]; done.
  - intros [= <- <-]. done.
Qed.

(** ** The invariant over every operation *)

Section side.
Context (side : bool).
Abbreviation ok := (ok side).
Abbreviation ok_stable := (ok_stable side).

Lemma ok_continues : continues_on on_31_bits ok.
Proof. intros c k [] Hk. by apply ok_block0 in Hk as [? _]. Qed.

Lemma keeps_answer_ok f : on_31_bits (stream f) -> octets (payload f) -> keeps ok (answer f).
Proof. intros. apply (keeps_answer _ _ _ ok_stable f ok_continues); done. Qed.

Lemma keeps_pump : keeps ok pump.
Proof.
  intros c Hc. unfold pump, read_frame, on_io. destruct (H2.read _ (io c)) as [x w] eqn:Hr.
  assert (0 <= Settings.max_frame_size (local c)) as Hm by (by rewrite (ok_local _ c Hc)).
  destruct (read_frame_ok _ _ _ _ Hm (ok_wire _ c Hc) Hr) as [Hw Hf].
  assert (ok (set_io w c)) as Hc1 by (destruct Hc; by split).
  destruct x as [[f|]|[e|v]]; try done.
  - destruct (Hf f eq_refl) as (Hid & Hp & _). by apply keeps_answer_ok.
  - by apply (keeps_fail_with _ _ _ ok_stable v).
Qed.

Lemma keeps_take_windows id n : 0 <= n -> keeps ok (Send.take_windows id n).
Proof.
  intros Hn. unfold Send.take_windows. keep.
  - by apply (keeps_on_window_send _ _ _ ok_stable), moves_take.
  - apply (keeps_on_stream _ _ _ ok_stable); [|apply keeps_ret]. intros s. apply keeps_map_err, evolves_send.
    intros w w' Hw. by apply (moves_take n Hn) in Hw as [? _].
Qed.

Lemma keeps_send_turn id e rest : keeps ok (Send.send_turn id e rest).
Proof.
  unfold Send.send_turn. keep.
  - unfold Send.stall. keep; [|apply (keeps_release _ _ _ ok_stable) | apply keeps_pump].
    apply keeps_set. intros c Hc. by apply (st_stalls _ _ _ ok_stable).
  - unfold Send.send_piece. keep; [apply (keeps_emit _ _ _ ok_stable) | apply keeps_take_windows, len_nonneg].
Qed.

Lemma keeps_send_data id body e : keeps ok (Send.send_data id body e).
Proof.
  unfold Send.send_data. keep; [|apply (keeps_end_locally _ _ _ ok_stable)].
  apply keeps_loop, keeps_send_turn.
Qed.

Lemma keeps_ping opaque : keeps ok (Send.ping opaque).
Proof.
  unfold Send.ping. keep; [apply (keeps_emit _ _ _ ok_stable)|]. apply keeps_loop. intros u. unfold Send.ping_turn.
  keep. apply keeps_pump.
Qed.

End side.

(** What is done with a connection, by its client and by its server. *)
Inductive action : Type :=
| Pump
| SendHeaders (id : Z) (fields : list field) (end_ : bool)
| SendData (id : Z) (body : bytes) (end_ : bool)
| Reset (id : Z) (code : ErrorCode)
| GoAway (code : ErrorCode) (debug : bytes)
| PingPeer (opaque : bytes)
| Open (id : Z)
| Taken (id : Z)
| Removed (id : Z).

(** A client opens streams, and only on numbers there are; a server's
    streams are the ones its peer opened. *)
Definition may_open (client : bool) (a : action) : Prop :=
  match a with Open id => client = true /\ 0 < id <= MAX_STREAM_ID | _ => True end.

Definition perform1 (a : action) : M t NetError unit :=
  match a with
  | Pump => _ <~ pump ;; mret tt
  | SendHeaders id fields e => send_headers id fields e
  | SendData id body e => Send.send_data id body e
  | Reset id code => reset id code
  | GoAway code debug => go_away code debug
  | PingPeer opaque => Send.ping opaque
  | Open id => mset (open id)
  | Taken id => update_stream id (fun s => Stream.set_head None (Stream.set_body [] s))
  | Removed id => mset (fun c => set_streams (delete id (streams c)) c)
  end.

(** One after another, until one fails. *)
Fixpoint perform (actions : list action) : M t NetError unit :=
  match actions with
  | [] => mret tt
  | a :: actions => perform1 a ;;; perform actions
  end.

(** A run of a connection: actions one by one, or held to be written as
    one. *)
Inductive move : Type :=
| Alone (a : action)
| AsOne (actions : list action).

Definition moved (c : t) (m : move) : t :=
  snd (match m with
       | Alone a => perform1 a c
       | AsOne actions => together (perform actions) c
       end).
Definition run (c : t) (moves : list move) : t := fold_left moved moves c.

Definition move_ok (client : bool) (m : move) : Prop :=
  match m with Alone a => may_open client a | AsOne actions => Forall (may_open client) actions end.

Lemma ok_removed side c id : ok side c -> ok side (set_streams (delete id (streams c)) c).
Proof.
  intros []. split; cbn; try done.
  - intros id' s Hs. apply lookup_delete_Some in Hs as [_ Hs]. eauto.
  - intros Hc. etransitivity; [|by apply ok_few0]. apply open_count_mono. intros id' s Hs Ho.
    apply lookup_delete_Some in Hs as [_ Hs]. eauto.
Qed.

Lemma ok_open c id : ok true c -> 0 < id <= MAX_STREAM_ID -> ok true (open id c).
Proof.
  intros [] Hid. unfold open. cbn [set_highest streams remote local].
  destruct (streams c !! id) as [s|] eqn:Hs; split; cbn; try done; try lia; try congruence.
  - intros id' s' Hs'. destruct (ok_streams0 _ _ Hs') as (? & ? & ?). split_and!; [lia | lia | done | done].
  - intros id' s' Hs'. destruct (decide (id' = id)) as [->|Hne].
    + rewrite lookup_insert_eq in Hs'. injection Hs' as <-. destruct ok_remote0 as (_ & Hw & _).
      split_and!; [lia | lia | | congruence]. apply new_stream_ok; [done|]. rewrite ok_local0. cbn.
      unfold MAX_STREAM_ID, Settings.DEFAULT_WINDOW. lia.
    + rewrite lookup_insert_ne in Hs' by done. destruct (ok_streams0 _ _ Hs') as (? & ? & ?).
      split_and!; [lia | lia | done | done].
Qed.

Lemma keeps_perform1 side a : may_open side a -> keeps (ok side) (perform1 a).
Proof.
  intros Ha. destruct a; cbn [perform1]; keep.
  - apply keeps_pump.
  - apply (keeps_send_headers _ _ _ (ok_stable side)).
  - apply keeps_send_data.
  - apply (keeps_reset _ _ _ (ok_stable side)).
  - apply (keeps_go_away _ _ _ (ok_stable side)).
  - apply keeps_ping.
  - destruct Ha as [-> Hid]. apply keeps_set. intros c Hc. by apply ok_open.
  - apply (keeps_update_stream _ _ _ (ok_stable side)). intros s.
    apply evolves_head, evolves_body; [done | rewrite len_nil; unfold MAX_BODY; lia].
  - apply keeps_set. intros c Hc. by apply ok_removed.
Qed.

Lemma keeps_perform side actions : Forall (may_open side) actions -> keeps (ok side) (perform actions).
Proof.
  induction 1 as [|a actions Ha Hs IH]; cbn [perform]; keep; [by apply keeps_perform1 | exact IH].
Qed.

Lemma moved_ok side c m : move_ok side m -> ok side c -> ok side (moved c m).
Proof.
  intros Hm Hc. unfold moved. destruct m as [a|actions]; cbn [move_ok] in Hm.
  - destruct (perform1 a c) as [r c1] eqn:H. by apply (keeps_run _ _ _ _ _ (keeps_perform1 side a Hm) Hc) in H.
  - destruct (together _ c) as [r c1] eqn:H.
    by apply (keeps_run _ _ _ _ _ (keeps_together _ _ _ (ok_stable side) _ (keeps_perform side _ Hm)) Hc) in H.
Qed.

Lemma initial_ok io client : wire_octets io -> ok client (initial io client).
Proof. intros Hw. split; cbn; done. Qed.

Lemma start_ok io client c : wire_octets io -> start io client = Ok c -> ok client c.
Proof.
  intros Hw H. unfold start in H.
  pose proof (initial_ok io client Hw) as H0.
  match type of H with (let '(r, c) := ?m ?s in _) = _ => destruct (m s) as [r c1] eqn:Hr end.
  inv_ok. subst c1. revert Hr. apply keeps_run; [|exact H0]. destruct client; keep;
    try apply (keeps_emit _ _ _ (ok_stable _)).
  apply (keeps_on_io _ _ _ (ok_stable true)). intros rs. keep. apply keeps_write_all.
Qed.

Lemma run_ok side moves : Forall (move_ok side) moves -> forall c, ok side c -> ok side (run c moves).
Proof.
  unfold run. induction 1 as [|m moves Hm Hms IH]; intros c Hc; [done|]. cbn [fold_left]. by apply IH, moved_ok.
Qed.

(** C4. A connection stays in its bounds whatever its peer sends and however
    its reads and writes are answered: after any run of frames read, messages
    sent one by one or held as one, resets, pings and [GOAWAY]s, and whether
    each succeeds or fails, both settings are ones RFC 9113 allows, no window
    passes 2^31 - 1 and none of the peer's goes below zero, the compression
    tables keep their sizes and limits, every stream is on a number opened
    before with a body of at most 64 MiB, a header block being continued
    holds at most 1 MiB, and a server has at most the hundred streams open it
    announced. *)
Theorem connection_stays_in_bounds io client c moves :
  wire_octets io -> start io client = Ok c -> Forall (move_ok client) moves -> ok client (run c moves).
Proof.
  intros Hw Hs Hm. apply run_ok; [exact Hm | by apply (start_ok io)].
Qed.

(** A server's connection: the peer's settings, then a request in two
    pieces, then one stream that is not a client's. *)
Definition example_wire : Wire :=
  mkWire [Got [0; 0; 0; 4; 0; 0; 0; 0; 0; 0; 0; 1; 1; 1; 0; 0]; Got [0; 1; 0x82; 0; 0; 1; 9; 4; 0; 0; 0; 1; 0x87];
          Got [0; 0; 1; 1; 5; 0; 0; 0; 2; 0x82]] [] [].

Lemma connection_stays_in_bounds_witness :
  match start example_wire false with
  | Ok c => ok false (run c [Alone Pump; Alone Pump; Alone Pump;
              AsOne [SendHeaders 1 [(lit ":status", lit "200")] true]; Alone Pump; Alone Pump])
  | Err _ => False
  end.
Proof.
  apply (connection_stays_in_bounds example_wire false).
  - by apply wire_octets_check.
  - reflexivity.
  - repeat constructor.
Defined.

(** ** Every loop of a connection ends *)

Lemma then_ok {St E A B} (m : M St E A) (f : A -> M St E B) s b s' :
  mthen m f s = (Ok b, s') -> exists a s1, m s = (Ok a, s1) /\ f a s1 = (Ok b, s').
Proof. unfold mthen. destruct (m s) as [[a|e] s1]; [eauto | discriminate]. Qed.

Lemma stall_down rest c x c' :
  Send.stall rest c = (Ok (inl x), c') -> x = rest /\ took 1 c c'.
Proof.
  unfold Send.stall. intros H. apply then_ok in H as (u & c1 & H1 & H). injection H1 as <- <-.
  apply then_ok in H as (u1 & c2 & H2 & H). apply then_ok in H as (more & c3 & H3 & H).
  destruct more; [|discriminate]. injection H as <- <-. split; [done|].
  apply quiet_run in H2; [|intros rs D; apply (keeps_release _ _ _ (quiet_stable rs D))].
  apply took_quiet in H2. apply pump_took in H3. 
  destruct (took_trans _ _ _ _ _ H2 H3) as [H4 H5 H6]. by split.
Qed.

Lemma send_piece_quiet id e most rest c r c' :
  Send.send_piece id e most rest c = (r, c') ->
  incoming (io c') = incoming (io c) /\ dom (streams c') = dom (streams c).
Proof.
  apply quiet_run. intros rs D. unfold Send.send_piece, Send.take_windows.
  pose proof (quiet_stable rs D) as Hst. keep.
  - apply (keeps_emit _ _ _ Hst).
  - apply (keeps_on_window_send _ _ _ Hst), moves_take, len_nonneg.
  - apply (keeps_on_stream _ _ _ Hst); [|apply keeps_ret]. intros s. apply keeps_map_err, evolves_send.
    intros w w' Hw. by apply (moves_take _ (len_nonneg _)) in Hw as [? _].
Qed.

Lemma available_nonneg w : 0 <= Window.available w.
Proof. unfold Window.available. lia. Qed.

Lemma open_window_nonneg c id n : open_window c id = Ok n -> 0 <= n.
Proof.
  unfold open_window. intros H. inv_ok. destruct (Stream.reset a); [discriminate|]. case_test; [discriminate|].
  apply Ok_inj in H as <-. pose proof (available_nonneg (send c)). pose proof (available_nonneg (Stream.send a)). lia.
Qed.

Lemma send_goes_down side id e : goes_down (Send.send_turn id e) Send.send_left (ok side).
Proof.
  intros rest c x c' Hc H. split.
  2: { refine (keeps_run _ _ _ _ _ _ Hc H). apply keeps_send_turn. }
  unfold Send.send_turn in H. apply then_ok in H as (c0 & c1 & H1 & H). injection H1 as <- <-.
  apply then_ok in H as (open & c1 & H1 & H). injection H1 as Ho <-. apply open_window_nonneg in Ho.
  destruct (ok_remote _ _ Hc) as (_ & _ & [Hm _] & _). unfold DEFAULT_MAX_FRAME_SIZE in Hm.
  set (most := Z.min _ open) in *. unfold Send.send_left.
  destruct ((most =? 0) && negb (bool_decide (rest = []))) eqn:Ht.
  - apply stall_down in H as [-> [Hp _ _]]. lia.
  - pose proof (send_piece_quiet _ _ _ _ _ _ _ H) as [Hi _]. unfold pending. rewrite Hi.
    unfold Send.send_piece in H. apply then_ok in H as (u1 & c2 & _ & H). apply then_ok in H as (u2 & c3 & _ & H).
    case_bool_decide as Hlast; [discriminate|]. injection H as <- _.
    assert (rest <> []) as Hr. { intros ->. by unfold zdrop in Hlast; rewrite drop_nil in Hlast. }
    rewrite (bool_decide_eq_false_2 _ Hr), andb_true_r in Ht. apply Z.eqb_neq in Ht.
    assert (0 < len rest) as Hlen. { destruct rest as [|b l]; [done|]. rewrite len_cons. pose proof (len_nonneg l). lia. }
    unfold zdrop. rewrite length_drop. unfold len in *. lia.
Qed.

(** C6. Sending a body ends, whatever the peer does with its windows and
    however the connection answers: each turn of the loop sends an octet or
    more, or reads a frame of a connection that has so much to give, until
    the body is sent, the stream is refused, or the connection closes. *)
Theorem send_data_ends side id body e c :
  ok side c ->
  runs (Send.send_turn id e) body c (loop (Send.send_turn id e) Send.send_left Send.shut body c).
Proof. intros Hc. apply (loop_runs _ _ _ (ok side)); [apply send_goes_down | exact Hc]. Qed.

(** A client's connection after its peer's settings, which shut the window of
    its stream and open it by 2. *)
Definition example_client : t :=
  match start (mkWire [Got [0; 0; 6; 4; 0; 0; 0; 0; 0; 0; 4; 0; 0; 0; 0]; Got [0; 0; 4; 8; 0; 0; 0; 0; 1; 0; 0; 0; 2]] [] []) true with
  | Ok c => run c [Alone (Open 1); Alone Pump]
  | Err _ => initial (mkWire [] [] []) true
  end.

Lemma send_data_ends_witness :
  runs (Send.send_turn 1 true) (lit "abcd") example_client
    (loop (Send.send_turn 1 true) Send.send_left Send.shut (lit "abcd") example_client).
Proof.
  apply (send_data_ends true). unfold example_client.
  destruct (start _ true) as [c|e] eqn:Hs; [|discriminate]. apply run_ok.
  - repeat constructor; unfold MAX_STREAM_ID; lia.
  - refine (start_ok _ _ _ _ Hs). by apply wire_octets_check.
Defined.

Example send_stalls_once :
  let '(r, c) := Send.send_data 1 (lit "abcd") true example_client in
  r = Err Send.shut /\ stalls c = 2 /\ Window.left (send c) = 65533.
Proof. vm_compute. done. Qed.

Lemma ping_goes_down opaque : goes_down (Send.ping_turn opaque) Send.pending_io (fun _ => True).
Proof.
  intros u c u' c' _ H. split; [|done]. unfold Send.ping_turn in H.
  apply then_ok in H as (c0 & c1 & H1 & H). injection H1 as <- <-. case_bool_decide; [discriminate|].
  apply then_ok in H as (more & c1 & H1 & H). destruct more; [|discriminate]. injection H as _ <-.
  apply pump_took in H1 as [Hp _ _]. unfold Send.pending_io. lia.
Qed.

End Safety.
