(* ===== verification/H2Transfer.v ===== *)
(** What one connection sends, another reads: a header block over [HEADERS]
    and [CONTINUATION], compressed on one side and decoded on the other. *)

From Stdlib Require Import String.
From S2P Require Import Prelude Errors Wire HpackInteger HpackTable Hpack H2Frame H2Settings H2Stream H2Message H2Connection H2Receive H2Send H2Invariant H2Safety.

Module Transfer.
Import Conn Receive Invariant.

(** ** What is written *)

(** Every write to come succeeds. *)
Definition writable (c : t) : Prop := refusals (io c) = [].

(** What has been written, and what is held to be. *)
Definition sent (c : t) : bytes := outgoing (io c) ++ default [] (held c).

(** All a connection keeps but its two ends, and the count of its stalls. *)
Definition core (c : t) : t := set_io (mkWire [] [] []) (set_held None (set_stalls 0 c)).

(** [c'] is [c] after writing [bs]: nothing else is changed, nothing read. *)
Record wrote (bs : bytes) (c c' : t) : Prop := {
  wrote_sent : sent c' = sent c ++ bs;
  wrote_core : core c' = core c;
  wrote_writable : writable c';
  wrote_incoming : incoming (io c') = incoming (io c);
  wrote_held : is_Some (held c) <-> is_Some (held c');
}.

(** What holds nothing back holds nothing back after. *)
Lemma unheld c c' : (is_Some (held c) <-> is_Some (held c')) -> held c = None -> held c' = None.
Proof. intros H. rewrite !eq_None_not_Some. by rewrite H. Qed.

Lemma wrote_nothing c : writable c -> wrote [] c c.
Proof. intros H. split; try done. by rewrite app_nil_r. Qed.

Lemma wrote_trans a b c1 c2 c3 : wrote a c1 c2 -> wrote b c2 c3 -> wrote (a ++ b) c1 c3.
Proof.
  intros [H1 H2 H3 H4 H5] [H6 H7 H8 H9 H10]. split; try congruence; [|by rewrite H5].
  rewrite H6, H1. by rewrite (assoc_L (++)).
Qed.

Lemma wrote_same {A} (get : t -> A) bs c c' :
  (forall c, get (core c) = get c) -> wrote bs c c' -> get c' = get c.
Proof. intros Hg [_ H _ _ _]. by rewrite <- (Hg c'), H, Hg. Qed.

(** A change to a connection that leaves its two ends alone. *)
Definition inner (F : t -> t) : Prop :=
  forall c, io (F c) = io c /\ held (F c) = held c /\ core (F c) = F (core c).

Lemma wrote_inner F bs c c' : inner F -> wrote bs c c' -> wrote bs (F c) (F c').
Proof.
  intros HF [H1 H2 H3 H4 H5]. destruct (HF c) as (I1 & I2 & I3). destruct (HF c') as (J1 & J2 & J3).
  split; unfold sent, writable in *; rewrite ?I1, ?I2, ?J1, ?J2; try done. by rewrite I3, J3, H2.
Qed.

Lemma wrote_under F a b c1 c2 c3 : inner F -> wrote a c1 c2 -> wrote b (F c2) c3 -> wrote (a ++ b) (F c1) c3.
Proof. intros HF H1 H2. exact (wrote_trans _ _ _ _ _ (wrote_inner F _ _ _ HF H1) H2). Qed.

Lemma inner_compose F G : inner F -> inner G -> inner (fun c => F (G c)).
Proof.
  intros HF HG c. destruct (HG c) as (I1 & I2 & I3). destruct (HF (G c)) as (J1 & J2 & J3).
  rewrite J1, J2, J3, I3. done.
Qed.

Lemma emit_wrote f c : writable c -> exists c', emit f c = (Ok tt, c') /\ wrote (H2.encode f) c c'.
Proof.
  unfold writable. intros Hw. unfold emit. destruct (held c) as [h|] eqn:Hh.
  - eexists. split; [done|]. split; cbn; try done.
    unfold sent. cbn. rewrite Hh. cbn. by rewrite (assoc_L (++)).
  - destruct (H2.encode f) as [|b bs] eqn:He; [done|].
    unfold on_io, mthen, H2.write, flushing, mmap_err. rewrite He. cbn [write_all].
    unfold flush, asked. rewrite Hw. cbn [map_err incoming outgoing refusals].
    eexists. split; [done|]. split; cbn; try done.
    unfold sent. cbn. rewrite Hh. cbn. by rewrite !app_nil_r.
Qed.

(** [c] when [id] is ended on this side. *)
Definition ended (id : Z) (c : t) : t :=
  set_streams (alter (fun s => Stream.set_state (State.ended_locally (Stream.state s)) s) id (streams c)) c.

(** [c] when [n] octets have been sent on [id]. *)
Definition less (n : Z) (w : Window.t) : Window.t := Window.mkWindow (Window.left w - n).
Definition spent (id n : Z) (c : t) : t :=
  set_send (less n (send c))
    (set_streams (alter (fun s => Stream.set_send (less n (Stream.send s)) s) id (streams c)) c).

Lemma inner_encoder e : inner (set_encoder e). Proof. by intros []. Qed.
Lemma inner_ended id : inner (ended id). Proof. by intros []. Qed.
Lemma inner_spent id n : inner (spent id n). Proof. by intros []. Qed.
Lemma inner_receive w : inner (set_receive w). Proof. by intros []. Qed.
Lemma inner_streams m : inner (set_streams m). Proof. by intros []. Qed.

Lemma less_less a b w : less b (less a w) = less (a + b) w.
Proof. unfold less. cbn. f_equal. lia. Qed.

Lemma spent_spent id a b c : spent id b (spent id a c) = spent id (a + b) c.
Proof.
  unfold spent, set_send, set_streams. cbn. rewrite less_less, alter_alter_eq. f_equal.
  apply alter_ext. intros s _. cbn. by rewrite less_less.
Qed.

Lemma less_nothing w : less 0 w = w.
Proof. destruct w. unfold less. cbn. f_equal. lia. Qed.

Lemma spent_nothing id c : spent id 0 c = c.
Proof.
  unfold spent. rewrite less_nothing.
  rewrite alter_id by (intros s _; rewrite less_nothing; by destruct s). by destruct c.
Qed.

(** What [end_locally] does, the stream there or not. *)
Lemma ended_there id c : end_locally id c = (Ok tt, ended id c).
Proof.
  unfold end_locally, update_stream, on_stream, ended. destruct (streams c !! id) as [s|] eqn:Hs.
  - unfold mset. by rewrite (alter_alt_Some _ _ _ _ Hs).
  - unfold mret. rewrite alter_id' by done. by destruct c.
Qed.

(** The frames of a header block. *)
Fixpoint block_frames (id : Z) (end_ : bool) (kind : Kind) (first : bool) (pieces : list bytes) : list frame :=
  let ended := if first && end_ then END_STREAM else 0 in
  match pieces with
  | [] => if first then [mkFrame kind (Z.lor END_HEADERS ended) id []] else []
  | piece :: pieces =>
      mkFrame kind (Z.lor (match pieces with [] => END_HEADERS | _ => 0 end) ended) id piece
      :: block_frames id end_ Continuation false pieces
  end.

Definition wire_of (fs : list frame) : bytes := concat (map H2.encode fs).

Lemma send_pieces_wrote id e pieces : forall kind first c, writable c ->
  exists c', send_pieces id e kind first pieces c = (Ok tt, c')
    /\ wrote (wire_of (block_frames id e kind first pieces)) c c'.
Proof.
  induction pieces as [|piece pieces IH]; intros kind first c Hw; cbn [send_pieces block_frames].
  - destruct first; [|by eauto using wrote_nothing].
    unfold wire_of. cbn [map concat]. rewrite app_nil_r. by apply emit_wrote.
  - unfold wire_of. cbn [map concat]. unfold mthen.
    destruct (emit_wrote (mkFrame kind (Z.lor (match pieces with [] => END_HEADERS | _ => 0 end)
      (if first && e then END_STREAM else 0)) id piece) c Hw) as (c1 & -> & H1).
    destruct (IH Continuation false c1 (wrote_writable _ _ _ H1)) as (c2 & H2 & H3).
    exists c2. split; [exact H2 | by eapply wrote_trans].
Qed.

Lemma chunks_from_concat most : (0 < most)%nat -> forall fuel l, (length l <= fuel)%nat ->
  concat (chunks_from fuel most l) = l /\ Forall (fun p => (length p <= most)%nat) (chunks_from fuel most l).
Proof.
  intros Hm. induction fuel as [|fuel IH]; intros l Hl.
  - destruct l; [by split | cbn in Hl; lia].
  - destruct l as [|b l]; [by split|]. cbn [chunks_from concat].
    destruct (IH (drop most (b :: l))) as [Hc Hf]; [rewrite length_drop; cbn [length] in *; lia|].
    rewrite Hc, take_drop. split; [done|]. constructor; [rewrite length_take; lia | done].
Qed.

Lemma chunks_concat most l : (0 < most)%nat ->
  concat (chunks most l) = l /\ Forall (fun p => (length p <= most)%nat) (chunks most l).
Proof. intros Hm. by apply chunks_from_concat. Qed.

(** ** What is read *)

(** [n] frames pumped, each of them handled. *)
Fixpoint pumps (n : nat) : M t NetError bool :=
  match n with
  | O => mret true
  | S n => more <~ pump ;; if more : bool then pumps n else mret false
  end.

Definition ready_to_read (c : t) : Prop := local c = Settings.ours /\ settings_seen c = true.

(** A frame a connection may be sent. *)
Definition sendable (f : frame) : Prop :=
  KindCode.of_code (KindCode.code (kind f)) = kind f
  /\ 0 <= stream f <= MAX_STREAM_ID /\ len (payload f) <= 16384.

(** [c] when [w] is what is left of its wire: what came before is read,
    nothing is written. *)
Definition read_up_to (w : Wire) (k : bytes) (c : t) : Prop :=
  carrying w k /\ outgoing w = outgoing (io c) /\ refusals w = refusals (io c).

Lemma pump_any f k c :
  local c = Settings.ours -> sendable f -> carrying (io c) (H2.encode f ++ k) ->
  exists w, pump c = answer f (set_io w c) /\ read_up_to w k c.
Proof.
  intros Hl (Hkk & Hs & Hlen) Hc.
  assert (len (payload f) < 2 ^ 24) as H24 by lia.
  destruct (H2.read_encoded 16384 f k (io c) H24 Hc) as [Hread _]. destruct (Hread Hlen) as (w & Hr & Hk' & Ho & Hrf).
  exists w. split; [|done]. unfold pump, read_frame, on_io. rewrite Hl.
  change (Settings.max_frame_size Settings.ours) with 16384. rewrite Hr, Hkk, H2.mask_small by done. by destruct f.
Qed.

Lemma pump_frame f k c :
  ready_to_read c -> sendable f -> carrying (io c) (H2.encode f ++ k) ->
  exists w, pump c = answer f (set_io w c) /\ read_up_to w k c.
Proof. intros [Hl _]. by apply pump_any. Qed.

(** What [answer] makes of what handling a frame came to. *)
Definition settle (m : M t Breach unit) : M t NetError bool := fun c =>
  match m c with
  | (Ok _, c) => (Ok true, c)
  | (Err (OnConnection violation), c) => fail violation c
  | (Err (OnStream id violation), c) => (reset id (v_code violation) ;;; mret true) c
  end.

Lemma pumps_one c : pumps 1 c = pump c.
Proof. cbn [pumps]. unfold mthen, mret. destruct (pump c) as [[[|]|e] c']; done. Qed.

Lemma pumps_next n c c1 : pump c = (Ok true, c1) -> pumps (S n) c = pumps n c1.
Proof. intros H. cbn [pumps]. unfold mthen. by rewrite H. Qed.

(** [P] holds before each of [n] frames is read. *)
Definition before (P : t -> Prop) (n : nat) (c : t) : Prop :=
  forall i, (i < n)%nat -> exists ci, pumps i c = (Ok true, ci) /\ P ci.

(** [ci] holds the streams of [c], and knows of its peer's leaving what [c]
    does. *)
Definition as_was (c ci : t) : Prop := streams ci = streams c /\ goaway ci = goaway c.

Lemma before_one (P : t -> Prop) c : P c -> before P 1 c.
Proof. intros H i Hi. destruct i; [by exists c | lia]. Qed.

Lemma before_next (P : t -> Prop) n c c1 :
  P c -> pump c = (Ok true, c1) -> before P n c1 -> before P (S n) c.
Proof.
  intros Hc Hp Hb i Hi. destruct i as [|i]; [by exists c|]. rewrite (pumps_next _ _ _ Hp). apply Hb. lia.
Qed.

Lemma pumps_app n m c c1 : pumps n c = (Ok true, c1) -> pumps (n + m) c = pumps m c1.
Proof.
  revert c. induction n as [|n IH]; intros c H; [by injection H as <-|].
  cbn [pumps Nat.add] in *. unfold mthen in *. destruct (pump c) as [[[|]|e] c0]; [by apply IH | discriminate..].
Qed.

Lemma before_app (P : t -> Prop) n m c c1 :
  before P n c -> pumps n c = (Ok true, c1) -> before P m c1 -> before P (n + m) c.
Proof.
  intros H1 Hp H2 i Hi. destruct (Nat.lt_ge_cases i n) as [Hlt|Hge]; [by apply H1|].
  replace i with (n + (i - n))%nat by lia. rewrite (pumps_app _ _ _ _ Hp). apply H2. lia.
Qed.

Lemma before_impl (P Q : t -> Prop) n c : before P n c -> (forall c', P c' -> Q c') -> before Q n c.
Proof. intros H HPQ i Hi. destruct (H i Hi) as (ci & Hp & HP). eauto. Qed.

Definition block_flags (whole ended : bool) : Z :=
  Z.lor (if whole then END_HEADERS else 0) (if ended then END_STREAM else 0).

Lemma block_flags_has whole ended id piece kd :
  let f := mkFrame kd (block_flags whole ended) id piece in
  H2.has f END_HEADERS = whole /\ H2.has f END_STREAM = ended
  /\ H2.has f PADDED = false /\ H2.has f PRIORITY = false.
Proof. by destruct whole, ended. Qed.

Lemma content_plain whole ended id piece :
  H2.content (mkFrame Headers (block_flags whole ended) id piece) = Ok piece.
Proof.
  unfold H2.content. destruct (block_flags_has whole ended id piece Headers) as (_ & _ & -> & ->).
  rewrite andb_false_r. cbn [res_bind]. destruct (Z.ltb_spec (len (payload (mkFrame Headers (block_flags whole ended) id piece))) 0) as [H|H].
  { cbn [payload] in H. pose proof (len_nonneg piece). lia. }
  cbn [payload]. by rewrite Z.sub_0_r, ztake_all.
Qed.

(** A [CONTINUATION] of the block being continued. *)
Lemma answer_continuation id e acc piece whole c :
  settings_seen c = true -> 0 < id -> continuing c = Some (mkContinuing id acc e) ->
  answer (mkFrame Continuation (block_flags whole false) id piece) c
  = settle (block id (acc ++ piece) e whole) (set_continuing None c).
Proof.
  intros Hs Hid Hk. unfold answer, settle, handle, mthen, mget, interrupts. rewrite Hs, Hk. cbn [negb andb orb kind stream c_stream].
  rewrite bool_decide_eq_true_2, Z.eqb_refl by done. cbn [negb orb]. unfold wrong_stream. cbn [kind stream].
  destruct (Z.eqb_spec id 0); [lia|]. unfold handle_kind, continuation, mthen, mget, mset. cbn [kind].
  rewrite Hk. cbn [c_stream c_block c_end payload].
  by destruct (block_flags_has whole false id piece Continuation) as (-> & _).
Qed.

Lemma answer_headers id piece e whole c :
  settings_seen c = true -> 0 < id -> continuing c = None ->
  answer (mkFrame Headers (block_flags whole e) id piece) c = settle (block id piece e whole) c.
Proof.
  intros Hs Hid Hk. unfold answer, settle, handle, mthen, mget, interrupts. rewrite Hs, Hk. cbn [negb andb].
  unfold wrong_stream. cbn [kind stream]. destruct (Z.eqb_spec id 0); [lia|].
  unfold handle_kind, mthen, mlift. cbn [kind stream].
  rewrite content_plain. cbn [map_err].
  by destruct (block_flags_has whole e id piece Headers) as (-> & -> & _).
Qed.

Lemma settle_part id bs e c :
  len bs <= MAX_BLOCK ->
  settle (block id bs e false) c = (Ok true, set_continuing (Some (mkContinuing id bs e)) c).
Proof. intros Hl. unfold settle, block. by destruct (Z.ltb_spec MAX_BLOCK (len bs)); [lia|]. Qed.

Lemma read_continuations id e : 0 < id <= MAX_STREAM_ID -> forall pieces acc k c,
  pieces <> [] -> Forall (fun p => len p <= 16384) pieces ->
  ready_to_read c -> continuing c = Some (mkContinuing id acc e) ->
  len acc + len (concat pieces) <= MAX_BLOCK ->
  carrying (io c) (wire_of (block_frames id e Continuation false pieces) ++ k) ->
  exists w, pumps (length pieces) c
      = settle (block id (acc ++ concat pieces) e true) (set_continuing None (set_io w c))
    /\ read_up_to w k c /\ before (as_was c) (length pieces) c.
Proof.
  intros Hid. induction pieces as [|piece pieces IH]; intros acc k c Hne Hsz Hr Hk Hl Hc; [done|].
  apply Forall_cons in Hsz as [Hp Hps]. cbn [block_frames concat] in *.
  change (if false && e then END_STREAM else 0) with 0 in Hc.
  unfold wire_of in Hc. cbn [map concat] in Hc. rewrite <- (assoc_L (++)) in Hc.
  rewrite len_app in Hl. pose proof (len_nonneg (concat pieces)).
  assert (sendable (mkFrame Continuation (Z.lor (match pieces with [] => END_HEADERS | _ => 0 end) 0) id piece)) as Hsend.
  { split_and!; cbn [kind stream payload]; [done | lia | lia | lia]. }
  destruct (pump_frame _ _ _ Hr Hsend Hc) as (w & Hpump & Hw & Ho & Hrf).
  destruct pieces as [|p2 pieces].
  - exists w. cbn [length]. rewrite pumps_one, Hpump. split; [|split; [by rewrite app_nil_l in Hw | by apply before_one]].
    rewrite (answer_continuation id e acc piece true) by (done || lia || apply Hr). cbn [concat]. by rewrite app_nil_r.
  - rewrite (answer_continuation id e acc piece false) in Hpump by (done || lia || apply Hr).
    rewrite settle_part in Hpump by (rewrite len_app; lia).
    cbn [length]. rewrite (pumps_next _ _ _ Hpump).
    destruct (IH (acc ++ piece) k (set_continuing (Some (mkContinuing id (acc ++ piece) e)) (set_io w c)))
      as (w2 & H2 & (Hw2 & Ho2 & Hrf2) & Hbef); [done | done | exact Hr | done | rewrite len_app; lia | exact Hw |].
    exists w2. rewrite <- (assoc_L (++)) in H2. split; [exact H2|].
    cbn in Ho2, Hrf2. split; [split_and!; [done | congruence | congruence]|].
    exact (before_next (as_was c) _ _ _ (conj eq_refl eq_refl) Hpump Hbef).
Qed.

(** A header block sent over any number of frames is handled as one block. *)
Lemma read_block id e blk most k c :
  0 < id <= MAX_STREAM_ID -> 0 < Z.of_nat most <= 16384 -> len blk <= MAX_BLOCK ->
  ready_to_read c -> continuing c = None ->
  carrying (io c) (wire_of (block_frames id e Headers true (chunks most blk)) ++ k) ->
  exists n w, pumps n c = settle (block id blk e true) (set_continuing None (set_io w c)) /\ read_up_to w k c
    /\ before (as_was c) n c.
Proof.
  intros Hid Hm Hl Hr Hk Hc. destruct (chunks_concat most blk) as [Hcat Hsz]; [lia|].
  set (pieces := chunks most blk) in *. clearbody pieces. subst blk.
  assert (forall w, set_continuing None (set_io w c) = set_io w c) as Hnone.
  { intros w. destruct c; cbn in *. by subst. }
  assert (exists piece rest, concat pieces = piece ++ concat rest /\ len piece <= 16384
    /\ Forall (fun p => len p <= 16384) rest
    /\ wire_of (block_frames id e Headers true pieces)
       = H2.encode (mkFrame Headers (block_flags (match rest with [] => true | _ => false end) e) id piece)
         ++ wire_of (block_frames id e Continuation false rest)) as (piece & rest & Hcat & Hp & Hrest & Hwire).
  { destruct pieces as [|piece rest].
    - exists [], []. split_and!; [done | rewrite len_nil; lia | by apply Forall_nil |]. by destruct e.
    - apply Forall_cons in Hsz as [Hp Hrest]. exists piece, rest. split_and!; [done | unfold len; lia | |].
      + eapply Forall_impl; [exact Hrest|]. cbn. unfold len. intros; lia.
      + unfold wire_of. cbn [block_frames map concat]. by destruct rest, e. }
  rewrite Hwire, <- (assoc_L (++)) in Hc. rewrite Hcat in Hl |- *. rewrite len_app in Hl.
  pose proof (len_nonneg (concat rest)).
  assert (sendable (mkFrame Headers (block_flags (match rest with [] => true | _ => false end) e) id piece)) as Hsend.
  { split_and!; cbn [kind stream payload]; [done | lia | lia | lia]. }
  destruct (pump_frame _ _ _ Hr Hsend Hc) as (w & Hpump & Hw & Ho & Hrf).
  rewrite answer_headers in Hpump by (done || lia || apply Hr).
  destruct rest as [|p2 rest].
  - exists 1%nat, w. rewrite pumps_one, Hpump, Hnone. cbn [concat]. rewrite app_nil_r. split; [done|].
    split; [by rewrite app_nil_l in Hw | by apply before_one].
  - rewrite settle_part in Hpump by lia.
    destruct (read_continuations id e Hid (p2 :: rest) piece k
      (set_continuing (Some (mkContinuing id piece e)) (set_io w c))) as (w2 & H2 & (Hw2 & Ho2 & Hrf2) & Hbef);
      [done | done | exact Hr | done | lia | exact Hw |].
    exists (S (length (p2 :: rest))), w2. rewrite (pumps_next _ _ _ Hpump), H2. split; [done|].
    cbn in Ho2, Hrf2. split; [split_and!; [done | congruence | congruence]|].
    exact (before_next (as_was c) _ _ _ (conj eq_refl eq_refl) Hpump Hbef).
Qed.

(** ** What becomes of a block *)

(** A block whose list its reader takes is never refused for its size. *)
Lemma block_small enc fields limit :
  Forall Sync.field_ok fields -> Message.check fields limit = Ok tt -> limit <= 65536 ->
  len (Encoder.encode enc fields).1 <= MAX_BLOCK.
Proof.
  intros Hok Hc Hl. pose proof (Sync.encode_small enc fields Hok) as Hs.
  assert (Message.list_size fields = Table.total fields) as Ht.
  { clear. induction fields as [|f fields IH]; [done|]. cbn [Table.total]. rewrite <- IH. done. }
  unfold Message.check in Hc. destruct (Z.ltb_spec limit (Message.list_size fields)); [discriminate|].
  unfold MAX_BLOCK. lia.
Qed.

Lemma block_decoded id blk e fields c d :
  len blk <= MAX_BLOCK -> Decoder.decode blk (decoder c) = (Ok fields, d) ->
  Message.check fields (or_max (Settings.max_header_list_size (local c))) = Ok tt ->
  block id blk e true c = take_block id fields e (set_decoder d c).
Proof.
  intros Hl Hd Hc. unfold block. destruct (Z.ltb_spec MAX_BLOCK (len blk)); [lia|]. cbn [negb].
  unfold mthen, mget, mlift, mmap_err, decode_block. rewrite Hd. cbn [map_err].
  change (local (set_decoder d c)) with (local c). by rewrite Hc.
Qed.

(** A server that will take a stream its client opens. *)
Record expecting (c : t) (id : Z) : Prop := {
  exp_server : client c = false;
  exp_odd : id mod 2 = 1;
  exp_above : last_peer c < id;
  exp_here : going_away c = false;
  exp_room : open_count (streams c) < 100;
  exp_new : streams c !! id = None;
}.

(** The stream a request's head opens. *)
Definition opened (c : t) (fields : list field) (e : bool) : Stream.t :=
  Stream.mkStream (if e then HalfClosedRemote else Open)
    (Window.new (Settings.initial_window_size (remote c))) (Window.new (Settings.initial_window_size (local c)))
    (Some fields) [] [] None.

(** The server after it. *)
Definition after_head (c : t) (id : Z) (fields : list field) (e : bool) : t :=
  set_streams (<[id := opened c fields e]> (streams c)) (set_highest (Z.max (highest c) id) (set_last_peer id c)).

Lemma take_block_opens id fields e c :
  ready_to_read c -> expecting c id -> Stream.informational fields = false ->
  take_block id fields e c = (Ok tt, after_head c id fields e).
Proof.
  intros [Hl _] [Hs Ho Ha Hh Hr Hn] Hi. unfold take_block. rewrite Hn.
  unfold open_by_peer, mthen, mget, mset. rewrite Hs, Ho, Hh, Hl. cbn [orb].
  destruct (Z.leb_spec id (last_peer c)); [lia|]. change (or_max _) with 100. change (1 =? 0) with false. cbn [orb].
  destruct (Z.leb_spec 100 (open_count (streams c))); [lia|].
  unfold give_headers, on_stream, open. cbn [streams set_highest set_last_peer]. rewrite Hn.
  cbn [streams set_streams]. rewrite lookup_insert_eq. unfold mmap_err, Stream.headers. cbn [Stream.state Stream.new State.receiving negb].
  rewrite Hi. cbn [Stream.head Stream.new orb]. rewrite bool_decide_eq_true_2 by done. cbn [orb negb map_err].
  unfold after_head. f_equal. rewrite insert_insert_eq. unfold set_streams, set_highest, opened.
  cbn [highest io client local remote encoder decoder send receive continuing last_peer goaway going_away
       settings_seen pongs stalls held set_last_peer].
  rewrite <- Z.max_assoc, Z.max_id. by destruct e.
Qed.

(** A header block sent: its frames are written, and the stream is ended
    where they say so. *)
Lemma headers_wrote cs id fields e :
  writable cs ->
  let '(blk, en) := Encoder.encode (encoder cs) fields in
  let c := set_encoder en cs in
  exists cs', send_headers id fields e cs = (Ok tt, cs')
    /\ wrote (wire_of (block_frames id e Headers true (chunks (Z.to_nat (Settings.max_frame_size (remote cs))) blk)))
         (if e then ended id c else c) cs'.
Proof.
  intros Hw. destruct (Encoder.encode (encoder cs) fields) as [blk en] eqn:He. intros c.
  destruct (send_pieces_wrote id e (chunks (Z.to_nat (Settings.max_frame_size (remote cs))) blk) Headers true c Hw)
    as (c1 & H1 & Hw1).
  unfold send_headers, mthen, mget, encode_block. rewrite He. fold c. change (remote c) with (remote cs). rewrite H1.
  destruct e; [|by exists c1]. rewrite ended_there. exists (ended id c1). split; [done|]. by apply wrote_inner, Hw1; apply inner_ended.
Qed.

(** The head read: the state of the server, exactly. *)
Lemma head_read cr id fields e k enc most :
  0 < Z.of_nat most <= 16384 -> ready_to_read cr -> continuing cr = None -> expecting cr id ->
  0 < id <= MAX_STREAM_ID -> Sync.in_step enc (decoder cr) -> Forall Sync.field_ok fields ->
  Stream.informational fields = false -> Message.check fields 65536 = Ok tt ->
  carrying (io cr) (wire_of (block_frames id e Headers true (chunks most (Encoder.encode enc fields).1)) ++ k) ->
  exists n w d, pumps n cr = (Ok true, after_head (set_decoder d (set_continuing None (set_io w cr))) id fields e)
    /\ read_up_to w k cr /\ Sync.in_step (Encoder.encode enc fields).2 d /\ before (as_was cr) n cr.
Proof.
  intros Hm Hr Hk Hx Hid Hin Hok Hinf Hch Hc. pose proof (block_small enc fields _ Hok Hch ltac:(done)) as Hl.
  destruct (read_block id e _ _ k cr Hid Hm Hl Hr Hk Hc) as (n & w & Hp & Hup & Hbef).
  pose proof (Sync.block_read enc (decoder cr) fields Hin Hok) as Hb.
  destruct (Encoder.encode enc fields) as [blk en]. cbn [fst snd] in *. destruct Hb as (d & Hd & Hin').
  exists n, w, d. split; [|done]. rewrite Hp. unfold settle.
  rewrite (block_decoded id blk e fields _ d); [|done|done|].
  - rewrite take_block_opens; [done | exact Hr | | done]. destruct Hx. by split.
  - change (local _) with (local cr). by rewrite (proj1 Hr).
Qed.

(** C7. A request's head arrives: the fields a client sends, compressed and
    cut into as many frames as the server's frame size asks, and delivered in
    whatever pieces, open the stream at the server with those very fields,
    ended where the client ended it; nothing sent after them is read, and the
    two sides' tables are in step for the next. *)
Theorem head_arrives cs cr id fields e k :
  writable cs -> 0 < Settings.max_frame_size (remote cs) <= 16384 ->
  ready_to_read cr -> continuing cr = None -> expecting cr id -> 0 < id <= MAX_STREAM_ID ->
  Sync.in_step (encoder cs) (decoder cr) -> Forall Sync.field_ok fields ->
  Stream.informational fields = false -> Message.check fields 65536 = Ok tt ->
  exists cs' out, send_headers id fields e cs = (Ok tt, cs') /\ sent cs' = sent cs ++ out
  /\ (carrying (io cr) (out ++ k) ->
      exists n cr', pumps n cr = (Ok true, cr')
        /\ streams cr' = <[id := opened cr fields e]> (streams cr)
        /\ carrying (io cr') k /\ Sync.in_step (encoder cs') (decoder cr')).
Proof.
  intros Hw Hm Hr Hk Hx Hid Hin Hok Hinf Hch.
  pose proof (headers_wrote cs id fields e Hw) as Hs.
  destruct (Encoder.encode (encoder cs) fields) as [blk en] eqn:He. destruct Hs as (cs' & H1 & H2).
  eexists cs', _. split; [done|]. split; [rewrite (wrote_sent _ _ _ H2); by destruct e|]. intros Hc.
  assert (encoder cs' = en) as H4 by (rewrite (wrote_same encoder _ _ _ ltac:(done) H2); by destruct e).
  assert (0 < Z.of_nat (Z.to_nat (Settings.max_frame_size (remote cs))) <= 16384) as Hm' by lia.
  destruct (head_read cr id fields e k (encoder cs) (Z.to_nat (Settings.max_frame_size (remote cs)))) as (n & w & d & Hp & Hup & Hin' & _);
    rewrite ?He in *; try done.
  exists n. eexists. rewrite H4. split; [exact Hp|]. split; [done|]. split; [apply Hup | exact Hin'].
Qed.

Lemma head_arrives_witness :
  let cs := initial (mkWire [] [] []) true in
  let fields := [(lit ":method", lit "GET"); (lit "x-a", lit "1")] in
  let cr := set_settings_seen true
              (initial (mkWire [Got (sent (send_headers 7 fields true cs).2)] [] []) false) in
  exists cs' out, send_headers 7 fields true cs = (Ok tt, cs') /\ sent cs' = sent cs ++ out
  /\ (carrying (io cr) (out ++ []) ->
      exists n cr', pumps n cr = (Ok true, cr')
        /\ streams cr' = <[7 := opened cr fields true]> (streams cr)
        /\ carrying (io cr') [] /\ Sync.in_step (encoder cs') (decoder cr')).
Proof.
  apply head_arrives.
  - reflexivity.
  - cbn; unfold DEFAULT_MAX_FRAME_SIZE; lia.
  - by split.
  - reflexivity.
  - by split.
  - unfold MAX_STREAM_ID; lia.
  - apply Sync.in_step_new; cbn; unfold U32_MAX, ENCODER_TABLE; lia.
  - repeat constructor; vm_compute; congruence.
  - reflexivity.
  - reflexivity.
Defined.

(** ** A body *)

(** The frames of a body. *)
Fixpoint data_frames (id : Z) (end_ : bool) (pieces : list bytes) : list frame :=
  match pieces with
  | [] => [mkFrame Data (if end_ then END_STREAM else 0) id []]
  | [piece] => [mkFrame Data (if end_ then END_STREAM else 0) id piece]
  | piece :: pieces => mkFrame Data 0 id piece :: data_frames id end_ pieces
  end.

Lemma set_receive_back c w : set_receive (receive c) (set_receive w c) = c.
Proof. by destruct c. Qed.

(** The stream after [piece] of its body. *)
Definition with_piece (piece : bytes) (e : bool) (s : Stream.t) : Stream.t :=
  Stream.mkStream (if e then State.ended_remotely (Stream.state s) else Stream.state s) (Stream.send s)
    (if e then Window.mkWindow (Window.left (Stream.receive s) - len piece) else Stream.receive s)
    (Stream.head s) (Stream.body s ++ piece) (Stream.trailers s) (Stream.reset s).

(** A stream that has room for [n] more octets of body. *)
Record has_room (n : Z) (s : Stream.t) : Prop := {
  room_reset : Stream.reset s = None;
  room_state : State.receiving (Stream.state s) = true;
  room_window : n <= Window.left (Stream.receive s) <= MAX_STREAM_ID;
  room_body : len (Stream.body s) + n <= MAX_BODY;
}.

Lemma content_data e id piece :
  H2.content (mkFrame Data (if e : bool then END_STREAM else 0) id piece) = Ok piece.
Proof.
  unfold H2.content. assert (H2.has (mkFrame Data (if e then END_STREAM else 0) id piece) PADDED = false) as -> by (by destruct e).
  cbn [res_bind kind payload]. rewrite bool_decide_eq_false_2 by done. cbn [andb res_bind].
  pose proof (len_nonneg piece). destruct (Z.ltb_spec (len piece) 0); [lia|]. by rewrite Z.sub_0_r, ztake_all.
Qed.

Lemma increment_small n : n <= 16384 -> increment_of n = n.
Proof. intros. unfold increment_of, U32_MAX. destruct (Z.leb_spec n 4294967295); [done|lia]. Qed.

Lemma data_stream_taken e id piece s :
  len piece <= 16384 -> has_room (len piece) s ->
  data_stream (mkFrame Data (if e : bool then END_STREAM else 0) id piece) s
  = (Ok (negb e && (0 <? len piece)), with_piece piece e s).
Proof.
  intros Hl [H1 H2 H3 H4]. pose proof (len_nonneg piece) as Hn. unfold data_stream.
  unfold mthen at 1, mget. rewrite H1, H2. cbn [negb payload stream].
  unfold mthen at 1, mmap_err at 1, on_window at 1.
  rewrite Window.take_fits by (unfold Window.I64_MAX; lia). cbn [map_err].
  unfold mthen, mlift, mget, mset. rewrite content_data. cbn [map_err Stream.body Stream.set_receive].
  destruct (Z.ltb_spec MAX_BODY (len (Stream.body s) + len piece)); [lia|].
  assert (H2.has (mkFrame Data (if e then END_STREAM else 0) id piece) END_STREAM = e) as -> by (by destruct e).
  destruct e; [by destruct s|]. cbn [negb andb]. destruct (Z.ltb_spec 0 (len piece)) as [Hp|Hp].
  - unfold mmap_err, on_window. cbn [Stream.receive Stream.set_receive Stream.set_body]. rewrite increment_small by done.
    rewrite (Window.grant_back (Stream.receive s)); [|apply Window.take_fits; unfold Window.I64_MAX; lia | unfold Window.I64_MAX; lia | lia].
    by destruct s.
  - destruct piece as [|b l]; [|rewrite len_cons in Hp; pose proof (len_nonneg l); lia].
    destruct s as [st sn [lf] hd bd tr rs]. unfold with_piece, mret. cbn. by rewrite Z.sub_0_r.
Qed.

Lemma then_after {E A B D} (m : M t E A) (k : A -> M t E B) (r : B -> M t E D) c b c1 :
  (x <~ m ;; k x) c = (Ok b, c1) -> (x <~ m ;; y <~ k x ;; r y) c = r b c1.
Proof. unfold mthen. destruct (m c) as [[a|e] c0]; [|discriminate]. by destruct (k a c0) as [[y|e] c2]; intros [= -> ->]. Qed.

(** What a receiver gives back of the windows a [DATA] took. *)
Definition credit (id : Z) (e : bool) (piece : bytes) : list frame :=
  if 0 <? len piece then
    H2.window_update 0 (len piece) :: (if e then [] else [H2.window_update id (len piece)])
  else [].

(** What it gives back of a whole body. *)
Fixpoint credits (id : Z) (e : bool) (pieces : list bytes) : list frame :=
  match pieces with
  | [] => []
  | [piece] => credit id e piece
  | piece :: pieces => credit id false piece ++ credits id e pieces
  end.

(** One [DATA] on a stream with room for it: its octets are added to the
    body, and both windows are given back what it took of them. *)
Lemma data_taken e id piece s c :
  len piece <= 16384 -> writable c -> 0 < id <= highest c -> streams c !! id = Some s ->
  len piece <= Window.left (receive c) <= MAX_STREAM_ID -> has_room (len piece) s ->
  exists c', data (mkFrame Data (if e : bool then END_STREAM else 0) id piece) c = (Ok tt, c')
    /\ wrote (wire_of (credit id e piece)) (set_streams (<[id := with_piece piece e s]> (streams c)) c) c'.
Proof.
  intros Hl Hw Hid Hs Hwin Hroom. pose proof (len_nonneg piece) as Hn. unfold data. cbn [stream payload].
  assert (exists c1, (mmap_err OnConnection (on_window receive set_receive (fun w => Window.take w (len piece))) ;;;
    (if 0 <? len piece then
       mmap_err lost (emit (H2.window_update 0 (increment_of (len piece)))) ;;;
       mmap_err OnConnection (on_window receive set_receive (fun w => Window.grant w (increment_of (len piece))))
     else mret tt)) c = (Ok tt, c1)
    /\ wrote (if 0 <? len piece then H2.encode (H2.window_update 0 (len piece)) else []) c c1) as (c1 & H1 & Hw1).
  { unfold mthen at 1, mmap_err at 1, on_window at 1. rewrite Window.take_fits by (unfold Window.I64_MAX; lia). cbn [map_err].
    set (w := Window.mkWindow (Window.left (receive c) - len piece)).
    destruct (Z.ltb_spec 0 (len piece)) as [Hp|Hp].
    - unfold mthen at 1, mmap_err at 1.
      destruct (emit_wrote (H2.window_update 0 (increment_of (len piece))) (set_receive w c) Hw) as (c1 & -> & Hc1).
      cbn [map_err]. unfold mmap_err, on_window.
      rewrite (wrote_same receive _ _ _ ltac:(done) Hc1). cbn [receive set_receive]. rewrite increment_small in Hc1 |- * by done.
      rewrite (Window.grant_back (receive c)); [|apply Window.take_fits; unfold Window.I64_MAX; lia | unfold Window.I64_MAX; lia | lia].
      exists (set_receive (receive c) c1). split; [done|].
      apply (wrote_inner _ _ _ _ (inner_receive (receive c))) in Hc1. by rewrite set_receive_back in Hc1.
    - assert (len piece = 0) as Hz by lia. exists c. unfold w. rewrite Hz, Z.sub_0_r. split; [|by apply wrote_nothing].
      cbn [mret]. unfold mret. f_equal. destruct c; cbn. by destruct receive0. }
  rewrite (then_after _ _ _ _ _ _ H1). unfold mthen at 1, mget.
  pose proof (wrote_same highest _ _ _ ltac:(done) Hw1) as Hhi.
  pose proof (wrote_same streams _ _ _ ltac:(done) Hw1) as Hst.
  unfold idle. rewrite Hhi. destruct (Z.ltb_spec (highest c) id); [lia|].
  unfold mthen, on_stream. rewrite Hst, Hs, (data_stream_taken e id piece s Hl Hroom).
  apply (wrote_inner _ _ _ _ (inner_streams (<[id := with_piece piece e s]> (streams c)))) in Hw1.
  unfold credit. destruct (Z.ltb_spec 0 (len piece)) as [Hp|Hp]; [|rewrite andb_false_r; by eexists].
  rewrite andb_true_r. destruct e; cbn [negb].
  { eexists. split; [done|]. unfold wire_of. cbn [map concat]. by rewrite app_nil_r. }
  destruct (emit_wrote (H2.window_update id (increment_of (len piece)))
    (set_streams (<[id := with_piece piece false s]> (streams c)) c1)) as (c2 & Hem & Hw2); [apply Hw1|].
  exists c2. unfold mmap_err. rewrite Hem. split; [done|]. rewrite increment_small in Hw2 by done.
  unfold wire_of. cbn [map concat]. rewrite app_nil_r. by eapply wrote_trans.
Qed.

(** A receiver with room for a body of [n] octets on [id]. *)
Record room_for (n : Z) (id : Z) (s : Stream.t) (c : t) : Prop := {
  rf_ready : ready_to_read c;
  rf_block : continuing c = None;
  rf_writable : writable c;
  rf_known : 0 < id <= highest c /\ highest c <= MAX_STREAM_ID;
  rf_stream : streams c !! id = Some s;
  rf_window : 16384 <= Window.left (receive c) <= MAX_STREAM_ID;
  rf_receive : 16384 <= Window.left (Stream.receive s) <= MAX_STREAM_ID;
  rf_reset : Stream.reset s = None;
  rf_state : State.receiving (Stream.state s) = true;
  rf_body : len (Stream.body s) + n <= MAX_BODY;
}.

Lemma answer_data e id piece s c :
  len piece <= 16384 -> room_for (len piece) id s c ->
  exists c', answer (mkFrame Data (if e : bool then END_STREAM else 0) id piece) c = (Ok true, c')
    /\ wrote (wire_of (credit id e piece)) (set_streams (<[id := with_piece piece e s]> (streams c)) c) c'.
Proof.
  intros Hl [[Hlo Hse] Hk Hw [Hid Hhi] Hs H1 H2 H3 H4 H5]. pose proof (len_nonneg piece).
  destruct (data_taken e id piece s c) as (c' & Hd & Hwr); try done; [lia | by split; try lia|].
  exists c'. split; [|done]. unfold answer, handle, mthen, mget, interrupts. rewrite Hse, Hk. cbn [negb andb].
  unfold wrong_stream. cbn [kind stream]. destruct (Z.eqb_spec id 0); [lia|]. unfold handle_kind. cbn [kind].
  by rewrite Hd.
Qed.

Lemma room_read_up_to n id s c w k : room_for n id s c -> read_up_to w k c -> room_for n id s (set_io w c).
Proof. intros [] (_ & _ & Hr). split; try done. unfold writable in *. cbn. by rewrite Hr. Qed.

Lemma data_frames_cons id e piece pieces :
  pieces <> [] -> data_frames id e (piece :: pieces) = mkFrame Data 0 id piece :: data_frames id e pieces.
Proof. by destruct pieces. Qed.

(** The peer has not ended [id]. *)
Definition unfinished (id : Z) (c : t) : Prop :=
  exists s, streams c !! id = Some s /\ Stream.finished s = false.

Lemma room_unfinished n id s c : room_for n id s c -> unfinished id c.
Proof. intros []. exists s. split; [done|]. unfold Stream.finished. by rewrite rf_reset0, rf_state0. Qed.

(** [ci] is on its way from [c] to the end of [id]: nothing else is changed
    that a wait would look at. *)
Record under_way (id : Z) (c ci : t) : Prop := {
  uw_unfinished : unfinished id ci;
  uw_goaway : goaway ci = goaway c;
  uw_others : forall id', id' <> id -> streams ci !! id' = streams c !! id';
}.

Lemma under_way_trans id c1 c2 c3 : under_way id c1 c2 -> under_way id c2 c3 -> under_way id c1 c3.
Proof.
  intros [A1 A2 A3] [B1 B2 B3]. split; [done | congruence|]. intros id' Hne. by rewrite B3, A3.
Qed.

(** [c'] is [c] after reading what changed its streams and its decoder alone,
    [bs] written meanwhile. *)
Record heard (bs : bytes) (c c' : t) : Prop := {
  heard_sent : sent c' = sent c ++ bs;
  heard_core : core c' = core (set_streams (streams c') (set_decoder (decoder c') c));
  heard_writable : writable c';
  heard_held : is_Some (held c) <-> is_Some (held c');
}.

Lemma heard_trans a b c1 c2 c3 : heard a c1 c2 -> heard b c2 c3 -> heard (a ++ b) c1 c3.
Proof.
  intros [H1 H2 H3 H4] [H5 H6 H7 H8]. split; [|..]; try done.
  - by rewrite H5, H1, (assoc_L (++)).
  - rewrite H6. change (set_streams (streams c3) (set_decoder (decoder c3) (core c2))
      = core (set_streams (streams c3) (set_decoder (decoder c3) c1))). by rewrite H2.
  - by rewrite H4.
Qed.

Lemma heard_nothing c : writable c -> heard [] c c.
Proof. intros H. split; [by rewrite app_nil_r | by destruct c | done | done]. Qed.

Lemma heard_same {A} (get : t -> A) bs c c' :
  (forall c, get (core c) = get c) -> (forall m d c, get (set_streams m (set_decoder d c)) = get c) ->
  heard bs c c' -> get c' = get c.
Proof. intros H1 H2 [_ H _ _]. by rewrite <- (H1 c'), H, H1, H2. Qed.

(** A frame read, and what was written over it. *)
Lemma wrote_heard bs w m c c' k :
  read_up_to w k c -> wrote bs (set_streams m (set_io w c)) c' -> heard bs c c'.
Proof.
  intros (_ & Ho & _) Hw. split; [|..].
  - rewrite (wrote_sent _ _ _ Hw). unfold sent. cbn. by rewrite Ho.
  - rewrite (wrote_core _ _ _ Hw). rewrite (wrote_same streams _ _ _ ltac:(done) Hw), (wrote_same decoder _ _ _ ltac:(done) Hw).
    by destruct c.
  - apply Hw.
  - exact (wrote_held _ _ _ Hw).
Qed.

(** The room left for more of a body, some of it read. *)
Lemma room_after n m id s s' c c' cw :
  room_for (n + m) id s c -> heard cw c c' -> streams c' !! id = Some s' ->
  Stream.reset s' = None -> Stream.state s' = Stream.state s -> Stream.receive s' = Stream.receive s ->
  len (Stream.body s') <= len (Stream.body s) + n ->
  room_for m id s' c'.
Proof.
  intros [[Hlo Hse] Hk Hw Hid Hs H1 H2 H3 H4 H5] Hh Hs' Hr Hst Hrc Hb.
  pose proof (fun A (get : t -> A) Hg Hm => heard_same get _ _ _ Hg Hm Hh) as Hsame.
  split; rewrite ?Hst, ?Hrc; try done.
  - split; [by rewrite (Hsame _ local) | by rewrite (Hsame _ settings_seen)].
  - by rewrite (Hsame _ continuing).
  - apply Hh.
  - by rewrite (Hsame _ highest).
  - by rewrite (Hsame _ receive).
  - lia.
Qed.

Lemma room_less n m id s c : room_for (n + m) id s c -> 0 <= m -> room_for n id s c.
Proof. intros [] Hm. split; try done. lia. Qed.

(** [w] is read as [b] of the body of [id], and [cw] is written back. *)
Definition body_reads (id : Z) (e : bool) (w cw b : bytes) : Prop :=
  forall s c k, room_for (len b) id s c -> carrying (io c) (w ++ k) ->
  exists n c' s', pumps n c = (Ok true, c') /\ streams c' = <[id := s']> (streams c)
    /\ Stream.head s' = Stream.head s /\ Stream.trailers s' = Stream.trailers s
    /\ Stream.body s' = Stream.body s ++ b
    /\ Stream.reset s' = None
    /\ Stream.state s' = (if e then State.ended_remotely (Stream.state s) else Stream.state s)
    /\ carrying (io c') k /\ decoder c' = decoder c
    /\ Stream.send s' = Stream.send s
    /\ heard cw c c' /\ before (under_way id c) n c
    /\ (e = false -> Stream.receive s' = Stream.receive s).

(** One part of a body is read, then the next. *)
Lemma body_reads_app id e w1 cw1 b1 w2 cw2 b2 :
  body_reads id false w1 cw1 b1 -> body_reads id e w2 cw2 b2 -> body_reads id e (w1 ++ w2) (cw1 ++ cw2) (b1 ++ b2).
Proof.
  intros R1 R2 s c k Hroom Hc. rewrite <- (assoc_L (++)) in Hc. rewrite len_app in Hroom.
  destruct (R1 s c _ (room_less _ _ _ _ _ Hroom (len_nonneg b2)) Hc)
    as (n1 & c1 & s1 & A1 & A2 & A3 & A4 & A5 & A6 & A7 & A8 & A9 & A10 & A11 & A12 & A13). specialize (A13 eq_refl).
  assert (streams c1 !! id = Some s1) as Hs1 by (by rewrite A2, lookup_insert_eq).
  assert (room_for (len b2) id s1 c1) as Hroom1.
  { eapply room_after; [exact Hroom | exact A11 | done..|]. rewrite A5, len_app. lia. }
  destruct (R2 s1 c1 k Hroom1 A8) as (n2 & c2 & s2 & D1 & D2 & D3 & D4 & D5 & D6 & D7 & D8 & D9 & D10 & D11 & D12 & D13).
  exists (n1 + n2)%nat, c2, s2. rewrite (pumps_app _ _ _ _ A1). split_and!; try done; try congruence.
  - by rewrite D2, A2, insert_insert_eq.
  - by rewrite D5, A5, (assoc_L (++)).
  - rewrite D7. by destruct e; rewrite A7.
  - by eapply heard_trans.
  - eapply before_app; [exact A12 | exact A1|]. eapply before_impl; [exact D12|]. intros ci. apply under_way_trans.
    split; [exact (room_unfinished _ _ _ _ Hroom1) | exact (heard_same goaway _ _ _ ltac:(done) ltac:(done) A11)|].
    intros id' Hx. by rewrite A2, lookup_insert_ne.
  - intros He. by rewrite D13.
Qed.

Lemma body_reads_piece id e piece : len piece <= 16384 ->
  body_reads id e (wire_of (data_frames id e [piece])) (wire_of (credit id e piece)) piece.
Proof.
  intros Hp s c k Hroom Hc. pose proof (len_nonneg piece).
  assert (sendable (mkFrame Data (if e then END_STREAM else 0) id piece)) as Hsend.
  { destruct Hroom as [_ _ _ [? ?] _ _ _ _ _ _]. split_and!; cbn [kind stream payload]; [done | lia | lia | lia]. }
  unfold wire_of in Hc. cbn [data_frames map concat] in Hc. rewrite <- (assoc_L (++)), app_nil_l in Hc.
  destruct (pump_frame _ _ _ (rf_ready _ _ _ _ Hroom) Hsend Hc) as (w & Hpump & Hup).
  destruct (answer_data e id piece s (set_io w c) Hp (room_read_up_to _ _ _ _ _ _ Hroom Hup)) as (c' & Ha & Hwr).
  exists 1%nat, c', (with_piece piece e s). rewrite pumps_one, Hpump. split; [done|].
  rewrite (wrote_same streams _ _ _ ltac:(done) Hwr), (wrote_same decoder _ _ _ ltac:(done) Hwr). split_and!; try done.
  - apply Hroom.
  - unfold carrying. rewrite (wrote_incoming _ _ _ Hwr). apply Hup.
  - exact (wrote_heard _ _ _ _ _ _ Hup Hwr).
  - apply before_one. split; [exact (room_unfinished _ _ _ _ Hroom) | done..].
  - by intros ->.
Qed.

Lemma wire_of_app a b : wire_of (a ++ b) = wire_of a ++ wire_of b.
Proof. unfold wire_of. by rewrite map_app, concat_app. Qed.

(** A body sent over any number of frames is read as one. *)
Lemma read_pieces id e pieces :
  pieces <> [] -> Forall (fun p => len p <= 16384) pieces ->
  body_reads id e (wire_of (data_frames id e pieces)) (wire_of (credits id e pieces)) (concat pieces).
Proof.
  induction pieces as [|piece pieces IH]; intros Hne Hsz; [done|]. apply Forall_cons in Hsz as [Hp Hps].
  destruct pieces as [|p2 pieces]; cbn [concat]; [rewrite app_nil_r; by apply body_reads_piece|].
  rewrite data_frames_cons by done. change (mkFrame Data 0 id piece :: ?fs) with ([mkFrame Data 0 id piece] ++ fs).
  change (credits id e (piece :: p2 :: pieces)) with (credit id false piece ++ credits id e (p2 :: pieces)).
  rewrite !wire_of_app. apply body_reads_app; [by apply (body_reads_piece id false) | by apply IH].
Qed.

(** ** Sending a body the windows have room for *)

Lemma chunks_from_fuel most : (0 < most)%nat -> forall f1 f2 l,
  (length l <= f1)%nat -> (length l <= f2)%nat -> chunks_from f1 most l = chunks_from f2 most l.
Proof.
  intros Hm. induction f1 as [|f1 IH]; intros f2 l H1 H2.
  - destruct l; [by destruct f2 | cbn in H1; lia].
  - destruct l as [|b l]; [by destruct f2|]. destruct f2 as [|f2]; [cbn in H2; lia|]. cbn [chunks_from]. f_equal.
    apply IH; rewrite length_drop; cbn [length] in *; lia.
Qed.

Lemma chunks_cons most l : (0 < most)%nat -> l <> [] -> chunks most l = take most l :: chunks most (drop most l).
Proof.
  intros Hm Hl. destruct l as [|b l]; [done|]. unfold chunks at 1. cbn [length chunks_from]. f_equal.
  apply chunks_from_fuel; [done | rewrite length_drop; cbn [length]; lia | done].
Qed.

Lemma chunks_read id e most b :
  0 < Z.of_nat most <= 16384 -> b <> [] ->
  body_reads id e (wire_of (data_frames id e (chunks most b))) (wire_of (credits id e (chunks most b))) b.
Proof.
  intros Hm Hb. destruct (chunks_concat most b) as [Hcat Hsz]; [lia|]. rewrite <- Hcat at 3. apply read_pieces.
  - rewrite chunks_cons by (done || lia). done.
  - eapply Forall_impl; [exact Hsz|]. cbn. unfold len. intros; lia.
Qed.

(** A stream this side may send [n] octets on at once. *)
Record may_send (n : Z) (id : Z) (c : t) : Prop := {
  ms_writable : writable c;
  ms_small : n <= MAX_STREAM_ID;
  ms_window : n <= Window.left (send c);
  ms_stream : exists s, streams c !! id = Some s /\ Stream.reset s = None
    /\ State.sending (Stream.state s) = true /\ n <= Window.left (Stream.send s);
}.

Lemma may_send_less n m id c : m <= n -> may_send n id c -> may_send m id c.
Proof. intros Hmn [H1 H2 H3 (s & H4 & H5 & H6 & H7)]. split; [done | lia | lia |]. exists s. split_and!; done || lia. Qed.

Lemma open_window_room n id c : 0 <= n -> may_send n id c -> exists w, open_window c id = Ok w /\ n <= w.
Proof.
  intros Hn [_ _ Hw (s & Hs & Hr & Hst & Hws)]. unfold open_window. rewrite Hs. cbn [ok_or res_bind].
  rewrite Hr, Hst. cbn [negb]. eexists. split; [done|]. unfold Window.available. lia.
Qed.

(** One piece of a body, the windows open to it, and what they are after. *)
Lemma send_piece_spends id e most rest c :
  0 <= most -> may_send (Z.min (len rest) most) id c ->
  let piece := ztake (Z.min (len rest) most) rest in
  let after := zdrop (Z.min (len rest) most) rest in
  let last := bool_decide (after = []) in
  exists c', Send.send_piece id e most rest c = (Ok (if last then inr tt else inl after), c')
    /\ wrote (H2.encode (mkFrame Data (if last && e then END_STREAM else 0) id piece)) (spent id (len piece) c) c'.
Proof.
  intros Hm [Hw Hsm Hwin (s & Hs & Hr & Hst & Hws)] piece after last. pose proof (len_nonneg rest) as Hn.
  assert (len piece = Z.min (len rest) most) as Hlp by (apply len_ztake; lia).
  unfold Send.send_piece. fold piece after last.
  destruct (emit_wrote (mkFrame Data (if last && e then END_STREAM else 0) id piece) c Hw) as (c1 & He & Hwr).
  unfold mthen at 1. rewrite He. unfold Send.take_windows, mthen, mmap_err at 1, on_window at 1.
  pose proof (wrote_same send _ _ _ ltac:(done) Hwr) as Hsend. pose proof (wrote_same streams _ _ _ ltac:(done) Hwr) as Hstr.
  unfold MAX_STREAM_ID in Hsm.
  rewrite Hsend, Window.take_fits by (unfold Window.I64_MAX; lia). cbn [map_err].
  unfold on_stream. cbn [streams set_send]. rewrite Hstr, Hs. unfold mmap_err, on_window.
  rewrite Window.take_fits by (unfold Window.I64_MAX; lia). cbn [map_err mret]. unfold mret.
  exists (spent id (len piece) c1). split.
  { f_equal. unfold spent. cbn [streams set_send]. by rewrite Hstr, Hsend, (alter_alt_Some _ _ _ _ Hs). }
  by apply wrote_inner, Hwr; apply inner_spent.
Qed.

(** What is left of the windows, some of them spent. *)
Lemma may_send_spent n m id c c' bs :
  0 <= n -> may_send (n + m) id c -> wrote bs (spent id n c) c' -> may_send m id c'.
Proof.
  intros Hn [Hw Hsm Hwin (s & Hs & Hr & Hst & Hws)] Hwr. split.
  - apply Hwr.
  - lia.
  - rewrite (wrote_same send _ _ _ ltac:(done) Hwr). cbn. lia.
  - exists (Stream.set_send (less n (Stream.send s)) s). rewrite (wrote_same streams _ _ _ ltac:(done) Hwr).
    cbn [streams spent set_streams set_send]. rewrite lookup_alter_eq, Hs. split; [done|]. cbn. split_and!; [done | done | lia].
Qed.

Lemma send_loop_wrote side id e body n : forall c,
  (length body <= n)%nat -> ok side c -> may_send (len body) id c ->
  let most := Settings.max_frame_size (remote c) in
  exists c', loop (Send.send_turn id e) Send.send_left Send.shut body c = (Ok tt, c')
    /\ wrote (wire_of (data_frames id e (chunks (Z.to_nat most) body))) (spent id (len body) c) c'.
Proof.
  revert body. induction n as [n IH] using lt_wf_ind. intros body c Hn Hc Hms most.
  pose proof (len_nonneg body) as Hb.
  destruct (ok_remote _ _ Hc) as (_ & _ & [Hm _] & _). fold most in Hm. unfold DEFAULT_MAX_FRAME_SIZE in Hm.
  rewrite (loop_turn _ _ _ (ok side)) by (apply Safety.send_goes_down || exact Hc).
  destruct (open_window_room _ _ _ Hb Hms) as (w & How & Hw).
  destruct (Send.send_turn id e body c) as [r0 c0] eqn:Hturn.
  pose proof (keeps_run _ _ _ _ _ (Safety.keeps_send_turn side id e body) Hc Hturn) as Hc0.
  unfold Send.send_turn, mthen at 1, mget, mthen, mlift in Hturn. rewrite How in Hturn. fold most in Hturn.
  assert ((Z.min most w =? 0) && negb (bool_decide (body = [])) = false) as Hns.
  { destruct body as [|x l]; [by rewrite andb_false_r|]. rewrite len_cons in Hw. pose proof (len_nonneg l).
    destruct (Z.eqb_spec (Z.min most w) 0); [lia | done]. }
  rewrite Hns in Hturn.
  destruct (send_piece_spends id e (Z.min most w) body c) as (c' & Hp & Hs); [lia | by apply (may_send_less (len body)); [lia|] |].
  replace (Z.min (len body) (Z.min most w)) with (Z.min (len body) most) in * by lia.
  rewrite Hturn in Hp. injection Hp as -> ->.
  set (after := zdrop (Z.min (len body) most) body) in *. set (piece := ztake (Z.min (len body) most) body) in *.
  assert (piece = take (Z.to_nat most) body /\ after = drop (Z.to_nat most) body) as [Hpiece Hafter].
  { unfold piece, after, ztake, zdrop, len. destruct (Z.min_spec (Z.of_nat (length body)) most) as [[? ->]|[? ->]]; [|done].
    rewrite Nat2Z.id, !take_ge, !drop_ge by lia. done. }
  assert (len body = len piece + len after) as Hlen by (by rewrite Hpiece, Hafter, <- len_app, take_drop).
  pose proof (len_nonneg piece). assert (may_send (len after) id c') as Hms' by (eapply may_send_spent; [| by rewrite <- Hlen | exact Hs]; done).
  case_bool_decide as Hlast.
  - exists c'. split; [done|]. rewrite Hlast, len_nil, Z.add_0_r in Hlen. rewrite Hlen.
    assert (data_frames id e (chunks (Z.to_nat most) body) = [mkFrame Data (if e then END_STREAM else 0) id piece]) as ->.
    { destruct body as [|x l]; [by rewrite Hpiece, take_nil|].
      rewrite chunks_cons by (done || lia). rewrite <- Hpiece, <- Hafter, Hlast. done. }
    unfold wire_of. cbn [map concat andb] in *. by rewrite app_nil_r.
  - assert (body <> []) as Hbne. { intros Hz. apply Hlast. by rewrite Hafter, Hz, drop_nil. }
    assert (length after < length body)%nat as Hlt.
    { rewrite Hafter, length_drop. destruct body; [done | cbn [length]; lia]. }
    destruct (IH (length after) ltac:(lia) after c' ltac:(lia) Hc0 Hms') as (c2 & H1 & H2).
    exists c2. split; [done|]. rewrite (wrote_same remote _ _ _ ltac:(done) Hs) in H2.
    rewrite Hlen, <- spent_spent.
    rewrite (chunks_cons _ body) by (done || lia). rewrite <- Hpiece, <- Hafter.
    rewrite data_frames_cons. 2: { rewrite chunks_cons by (done || lia). done. }
    exact (wrote_under _ _ _ _ _ _ (inner_spent id (len after)) Hs H2).
Qed.

(** A body sent, and ended with it where it is the last of the stream. *)
Lemma send_data_wrote side id e body c :
  ok side c -> may_send (len body) id c ->
  let c1 := spent id (len body) c in
  exists c', Send.send_data id body e c = (Ok tt, c')
    /\ wrote (wire_of (data_frames id e (chunks (Z.to_nat (Settings.max_frame_size (remote c))) body)))
         (if e then ended id c1 else c1) c'.
Proof.
  intros Hc Hms c1. destruct (send_loop_wrote side id e body (length body) c) as (c2 & H1 & H2); [lia|done|done|].
  unfold Send.send_data, mthen. rewrite H1. destruct e; [|by exists c2].
  rewrite ended_there. exists (ended id c2). split; [done|]. by apply wrote_inner, H2; apply inner_ended.
Qed.

End Transfer.
