(* ===== verification/H2Server.v ===== *)
(** The answering side of HTTP/2 ([src/http2/server.rs]): each request taken
    whole off its stream as it ends, and answered on it. *)

From Stdlib Require Import String.
From S2P Require Import Prelude Errors Wire HpackTable Hpack H2Frame H2Settings H2Stream Http H2Message H2Preface H2Connection H2Receive H2Send.

Module Server.
Import Conn Receive.

Definition DRAIN : nat := 1024.

Record t : Type := mkServer { connection : Conn.t; answering : gset Z }.

Definition on_connection {E A} (m : M Conn.t E A) : M t E A := fun s =>
  let '(r, c) := m (connection s) in (r, mkServer c (answering s)).

Definition bad_preface : NetError :=
  NetErr.new (lit "the connection did not open with the HTTP/2 preface").

Definition handshake (io : Wire) : result NetError t :=
  let '(preface, io) :=
    mmap_err (NetErr.from_io (lit "reading the preface")) (read_exact (length Preface.PREFACE)) io in
  let? preface := preface in
  if negb (bool_decide (preface = Preface.PREFACE)) then Err bad_preface
  else let? connection := start io false in Ok (mkServer connection ∅).

(** The first stream that is finished and not taken, in order. *)
Definition is_ready (s : t) (id : Z) : bool :=
  match streams (connection s) !! id with
  | Some stream => Stream.finished stream && negb (bool_decide (id ∈ answering s))
  | None => false
  end.
Definition ready (s : t) : option Z := List.find (is_ready s) (ids (streams (connection s))).

(** What a ready stream holds, taken off it: [head.take()] and
    [mem::take(body)]. *)
Definition take_message (stream : Stream.t) : option (list field * bytes) :=
  match Stream.reset stream, Stream.head stream with
  | None, Some head => Some (head, Stream.body stream)
  | _, _ => None
  end.

Definition remove_stream (id : Z) : M t NetError unit :=
  on_connection (mset (fun c => set_streams (delete id (streams c)) c)).

Section server.
Context `{Percent}.

(** One turn of the loop of [finished]. *)
Definition finished_turn (_ : unit) : M t NetError (unit + option (Z * Request)) :=
  s <~ mget ;;
  match ready s with
  | None => mret (inr None)
  | Some id =>
      match streams (connection s) !! id with
      | None => mret (inr None)
      | Some stream =>
          on_connection (update_stream id (fun s => Stream.set_head None (Stream.set_body [] s))) ;;;
          match (fun m => Message.request_of m.1 m.2) <$> take_message stream with
          | Some (Ok request) =>
              mset (fun s => mkServer (connection s) ({[id]} ∪ answering s)) ;;;
              mret (inr (Some (id, request)))
          | Some (Err malformed) =>
              on_connection (reset id (v_code malformed)) ;;;
              remove_stream id ;;; mret (inl tt)
          | None => remove_stream id ;;; mret (inl tt)
          end
      end
  end.

(** Every turn that goes round takes a stream off; the error is one no run
    returns. *)
Definition unending : NetError := NetErr.new [].
Definition streams_left {A} (_ : A) (s : t) : nat := size (streams (connection s)).

Definition finished : M t NetError (option (Z * Request)) :=
  loop finished_turn streams_left unending tt.

Definition read_frame : M t NetError bool :=
  s <~ mget ;;
  match goaway (connection s) with
  | Some _ => mret false
  | None => on_connection pump
  end.

Definition next_turn (_ : unit) : M t NetError (unit + option (Z * Request)) :=
  taken <~ finished ;;
  match taken with
  | Some taken => mret (inr (Some taken))
  | None =>
      more <~ read_frame ;;
      if more : bool then mret (inl tt) else mret (inr None)
  end.

Definition to_read {A} (_ : A) (s : t) : nat := pending (io (connection s)).

Definition next_request : M t NetError (option (Z * Request)) := loop next_turn to_read unending tt.

Definition not_waiting (id : Z) : NetError :=
  NetErr.new (lit "no request waits on stream " ++ dec id).

(** What [respond] sends of an answer. *)
Definition send_answer (id : Z) (response : Response) : M Conn.t NetError unit :=
  let head := Message.response_fields response in
  let trailers := Message.carried (trailers response) in
  let bodiless := bool_decide (r_body response = []) in
  let trailing := bool_decide (trailers = []) in
  send_headers id head (bodiless && trailing) ;;;
  (if negb bodiless then Send.send_data id (r_body response) trailing else mret tt) ;;;
  (if negb trailing then send_headers id trailers true else mret tt).

Definition respond (id : Z) (response : Response) : M t NetError unit := fun s =>
  if negb (bool_decide (id ∈ answering s)) then (Err (not_waiting id), s)
  else
    let '(answered, s) :=
      on_connection (together (send_answer id response)) (mkServer (connection s) (answering s ∖ {[id]})) in
    let c := connection s in
    (answered, mkServer (set_streams (delete id (streams c)) c) (answering s)).

Definition go_away : M t NetError unit := on_connection (Conn.go_away NoError []).

(** [for _ in 0..DRAIN]: read until the client closes. *)
Fixpoint drain (n : nat) (c : Conn.t) : Conn.t :=
  match n with
  | O => c
  | S n => match pump c with
           | (Ok true, c) => drain n c
           | (_, c) => c
           end
  end.

Definition close (s : t) : Conn.t :=
  let s := if negb (going_away (connection s)) then snd (go_away s) else s in
  drain DRAIN (connection s).

(** What [serve] is given to answer with keeps a state of its own. *)
Context {X : Type} (answer : X -> Request -> Response * X).

Definition serve_turn (served : Z * X) : M t NetError ((Z * X) + Z) :=
  let '(answered, x) := served in
  next <~ next_request ;;
  match next with
  | Some (id, request) =>
      let '(response, x) := answer x request in
      respond id response ;;;
      mret (inl (answered + 1, x))
  | None => mret (inr answered)
  end.

Definition serve (io : Wire) (x : X) : result NetError (Z * Conn.t) :=
  let? server := handshake io in
  let '(answered, server) :=
    loop serve_turn (fun _ s => (pending (Conn.io (connection s))
                                 + size (streams (connection s)))%nat) unending (0, x) server in
  let? answered := answered in Ok (answered, close server).

End server.
End Server.
