(* ===== verification/H2Client.v ===== *)
(** The asking side of HTTP/2 ([src/http2/client.rs]): one request after
    another, each on a new odd stream, its answer read back whole. *)

From Stdlib Require Import String.
From S2P Require Import Prelude Errors Wire HpackTable Hpack H2Frame H2Settings H2Stream Http H2Message H2Preface H2Connection H2Receive H2Send.

Module Client.
Import Conn Receive.

Record t : Type := mkClient { connection : Conn.t; scheme : bytes; next : Z }.

Definition on_connection {E A} (m : M Conn.t E A) : M t E A := fun s =>
  let '(r, c) := m (connection s) in (r, mkClient c (scheme s) (next s)).

Definition handshake (io : Wire) (scheme : bytes) : result NetError t :=
  let? connection := start io true in Ok (mkClient connection scheme 1).

Definition went_away (last : Z) (code : ErrorCode) : NetError :=
  mkNetError (lit "the server went away (" ++ ErrCode.debug code ++ lit ") after stream " ++ dec last
    ++ lit "; the request was not sent") (Some ConnectionAborted).
Definition used_up : NetError := NetErr.new (lit "the connection has used every stream it has").
Definition closed_early : NetError :=
  NetErr.new (lit "the connection closed before the answer ended").
Definition stream_lost : NetError := NetErr.new (lit "the stream was lost").
Definition no_head : NetError := NetErr.new (lit "the answer ended without a head").

Definition remove_stream (id : Z) : M Conn.t NetError unit :=
  mset (fun c => set_streams (delete id (streams c)) c).

(** One turn of the loop that reads the answer. *)
Definition answer_turn (id : Z) (_ : unit) : M Conn.t NetError (unit + unit) :=
  c <~ mget ;;
  match streams c !! id with
  | Some stream =>
      if negb (Stream.finished stream) then
        more <~ pump ;;
        if more : bool then mret (inl tt) else remove_stream id ;;; mfail closed_early
      else mret (inr tt)
  | None => mret (inr tt)
  end.

Section client.
Context `{Percent}.

(** What [send] sends of a request, and the answer it waits for. *)
Definition send_request (id : Z) (scheme : bytes) (request : Request) : M Conn.t NetError unit :=
  let bodiless := bool_decide (body request = []) in
  send_headers id (Message.request_fields scheme request) bodiless ;;;
  (if negb bodiless then Send.send_data id (body request) true else mret tt).

Definition read_answer (id : Z) : M Conn.t NetError Response :=
  loop (answer_turn id) Send.pending_io closed_early tt ;;;
  c <~ mget ;;
  stream <~ mlift (ok_or (streams c !! id) stream_lost) ;;
  remove_stream id ;;;
  match Stream.reset stream with
  | Some code => mfail (refused id code)
  | None =>
      head <~ mlift (ok_or (Stream.head stream) no_head) ;;
      mlift (map_err NetError_of (Message.response_of head (Stream.body stream) (Stream.trailers stream)))
  end.

Definition send (request : Request) : M t NetError Response := fun s =>
  match goaway (connection s) with
  | Some (last, code) => (Err (went_away last code), s)
  | None =>
      let id := next s in
      if MAX_STREAM_ID <? id then (Err used_up, s)
      else
        on_connection
          (mset (open id) ;;;
           together (send_request id (scheme s) request) ;;;
           read_answer id)
          (mkClient (connection s) (scheme s) (id + 2))
  end.

(** [u64::to_be_bytes] of the next stream. *)
Definition ping : M t NetError unit := fun s =>
  on_connection (Send.ping ([0; 0; 0; 0] ++ be_bytes32 (next s))) s.

Definition going_away (s : t) : bool := bool_decide (is_Some (goaway (connection s))).

Definition close (s : t) : Conn.t := snd (Conn.go_away NoError [] (connection s)).

Definition exchange (io : Wire) (scheme : bytes) (request : Request) : result NetError (Response * Conn.t) :=
  let? client := handshake io scheme in
  let '(response, client) := send request client in
  let? response := response in Ok (response, close client).

End client.
End Client.
