(* ===== verification/H2Exchange.v ===== *)
(** A request end to end: what [Client::send] writes of it, the server's
    connection reads and [Server::finished] takes off as the same request. *)

From Stdlib Require Import String.
From stdpp Require Import sorting.
From S2P Require Import Prelude Errors Wire HpackInteger HpackTable Hpack H2Frame H2Settings H2Stream Http H2Message H2Connection H2Receive H2Send H2Invariant H2Safety H2Transfer H2Server H2Client.

Module Exchange.
Import Conn Receive Invariant Transfer.

(** ** The streams in order *)

Lemma elem_of_ids (m : gmap Z Stream.t) id : id ∈ ids m <-> is_Some (m !! id).
Proof.
  unfold ids. rewrite (merge_sort_Permutation Z.le). rewrite elem_of_elements. apply elem_of_dom.
Qed.

(** The only stream ready is the one taken. *)
Lemma ready_only s id :
  Server.is_ready s id = true -> (forall id', id' <> id -> Server.is_ready s id' = false) ->
  Server.ready s = Some id.
Proof.
  intros Hid Hother. unfold Server.ready.
  destruct (List.find (Server.is_ready s) _) as [x|] eqn:Hf.
  - apply List.find_some in Hf as [_ Hx]. destruct (decide (x = id)) as [->|Hne]; [done|].
    rewrite Hother in Hx by done. discriminate.
  - assert (id ∈ ids (streams (Server.connection s))) as Hin.
    { apply elem_of_ids. unfold Server.is_ready in Hid. destruct (_ !! id) eqn:Hs; [eauto|discriminate]. }
    apply list_elem_of_In in Hin. rewrite (List.find_none _ _ Hf _ Hin) in Hid. discriminate.
Qed.

(** [s]'s first ready stream, whole and well formed: the request it holds is
    taken, and nothing more is done. *)
Lemma finished_takes `{Percent} s id st head request :
  Server.ready s = Some id -> streams (Server.connection s) !! id = Some st ->
  Stream.reset st = None -> Stream.head st = Some head ->
  Message.request_of head (Stream.body st) = Ok request ->
  let c := Server.connection s in
  Server.finished s = (Ok (Some (id, request)),
    Server.mkServer (set_streams (<[id := Stream.set_head None (Stream.set_body [] st)]> (streams c)) c)
      ({[id]} ∪ Server.answering s)).
Proof.
  intros Hr Hs Hre Hh Hreq. unfold Server.finished, loop. cbn [spin].
  unfold Server.finished_turn, mthen, mget, mset, mret. rewrite Hr, Hs.
  unfold Server.on_connection, update_stream, on_stream. rewrite Hs. unfold mset.
  unfold Server.take_message. rewrite Hre, Hh. cbn [fmap option_fmap option_map fst snd]. rewrite Hreq.
  done.
Qed.

(** ** A request is not an interim answer *)

Lemma request_not_informational `{Percent} scheme r :
  Message.ordinary (headers r) -> Stream.informational (Message.request_fields scheme r) = false.
Proof.
  intros Ho. unfold Stream.informational. apply not_true_iff_false. rewrite existsb_exists.
  intros ([n v] & Hin & Hi). unfold Stream.informational_field in Hi. apply andb_true_iff in Hi as [Hn _].
  apply bool_decide_eq_true in Hn. cbn [fst] in Hn. subst n.
  unfold Message.request_fields in Hin. rewrite !in_app_iff in Hin.
  destruct Hin as [Hin | [Hin | [Hin | Hin]]].
  - by destruct Hin as [Hin|[Hin|[]]].
  - destruct (Request.header_value r _); [|done]. by destruct Hin as [Hin|[]].
  - by destruct Hin as [Hin|[]].
  - pose proof (Message.carried_names _ Ho) as Hc. rewrite List.Forall_forall in Hc.
    by destruct (Hc _ Hin) as (_ & Hp & _).
Qed.

(** ** The two ends *)

(** A client that may send [r] on [id] at once, however its server answers. *)
Record asking (id : Z) (r : Request) (c : t) : Prop := {
  ask_ok : ok true c;
  ask_send : may_send (len (body r)) id c;
  ask_frame : Settings.max_frame_size (remote c) <= 16384;
}.

(** A server that will take a stream and a body of [n] octets on it. *)
Record serving (id n : Z) (c : t) : Prop := {
  srv_ready : ready_to_read c;
  srv_block : continuing c = None;
  srv_expecting : expecting c id;
  srv_writable : writable c;
  srv_window : 16384 <= Window.left (receive c) <= MAX_STREAM_ID;
  srv_highest : highest c <= MAX_STREAM_ID;
  srv_body : n <= MAX_BODY;
}.

(** A request HTTP/2 can carry. *)
Record carriable `{Percent} (scheme : bytes) (r : Request) : Prop := {
  car_ordinary : Message.ordinary (headers r);
  car_path : 63 ∉ path r;
  car_query : decode_pairs (match query r with [] => [] | query => encode_pairs query end) = query r;
  car_length : Message.length_agrees r = true;
  car_target : path r <> [] \/ query r <> [];
  car_size : Message.list_size (Message.request_fields scheme r) <= 65536;
  car_text : Forall Sync.field_ok (Message.request_fields scheme r);
}.

(** What the client writes of a request: its head, and its body where it has
    one, as [w]. *)
Definition request_with `{Percent} (id : Z) (most : nat) (enc : Encoder.t) (scheme : bytes) (r : Request) (w : bytes) : bytes :=
  let bodiless := bool_decide (body r = []) in
  wire_of (block_frames id bodiless Headers true
    (chunks most (Encoder.encode enc (Message.request_fields scheme r)).1))
  ++ (if bodiless then [] else w).

(** Its body cut to the frame size, the windows open to all of it. *)
Definition request_wire `{Percent} (id : Z) (most : nat) (enc : Encoder.t) (scheme : bytes) (r : Request) : bytes :=
  request_with id most enc scheme r (wire_of (data_frames id true (chunks most (body r)))).

Lemma may_send_encoder n id e c c' bs :
  wrote bs (set_encoder e c) c' -> may_send n id c -> may_send n id c'.
Proof.
  intros Hwr [_ H1 H2 H3].
  split; [apply Hwr | done | by rewrite (wrote_same send _ _ _ ltac:(done) Hwr)
    | by rewrite (wrote_same streams _ _ _ ltac:(done) Hwr)].
Qed.

Lemma request_sent `{Percent} id scheme r c :
  asking id r c ->
  let most := Z.to_nat (Settings.max_frame_size (remote c)) in
  exists c', Client.send_request id scheme r c = (Ok tt, c')
    /\ wrote (request_wire id most (encoder c) scheme r)
         (ended id (spent id (len (body r)) (set_encoder (Encoder.encode (encoder c) (Message.request_fields scheme r)).2 c))) c'.
Proof.
  intros [Hok Hms Hm] most. unfold request_wire, request_with, Client.send_request. set (fields := Message.request_fields scheme r).
  pose proof (headers_wrote c id fields (bool_decide (body r = [])) (ms_writable _ _ _ Hms)) as Hh. fold most in Hh.
  destruct (Encoder.encode (encoder c) fields) as [blk en]. cbn [fst snd].
  destruct Hh as (c1 & H1 & H2). unfold mthen. rewrite H1.
  case_bool_decide as Hb; cbn [negb].
  - exists c1. rewrite Hb, len_nil, spent_nothing, app_nil_r. done.
  - pose proof (may_send_encoder _ _ _ _ _ _ H2 Hms) as Hms1.
    pose proof (keeps_run _ _ _ _ _ (keeps_send_headers _ _ _ (ok_stable true) id fields false) Hok H1) as Hok1.
    destruct (send_data_wrote true id true (body r) c1 Hok1 Hms1) as (c2 & H7 & H8).
    exists c2. rewrite H7. split; [done|]. rewrite (wrote_same remote _ _ _ ltac:(done) H2) in H8.
    exact (wrote_under _ _ _ _ _ _ (inner_compose _ _ (inner_ended id) (inner_spent id (len (body r)))) H2 H8).
Qed.

(** [ci] is on its way from [c] to a request whole on [id]. *)
Record waiting (id : Z) (c ci : t) : Prop := {
  wt_goaway : goaway ci = goaway c;
  wt_others : forall id', id' <> id -> streams ci !! id' = streams c !! id';
  wt_stream : match streams ci !! id with Some s => Stream.finished s = false | None => True end;
}.

(** The server, a request read whole. *)
Lemma request_read id fields e k enc most rbody w cw cr :
  0 < Z.of_nat most <= 16384 -> serving id (len rbody) cr -> 0 < id <= MAX_STREAM_ID ->
  Sync.in_step enc (decoder cr) -> Forall Sync.field_ok fields -> Stream.informational fields = false ->
  Message.check fields 65536 = Ok tt ->
  e = bool_decide (rbody = []) -> (rbody <> [] -> body_reads id true w cw rbody) ->
  carrying (io cr) ((wire_of (block_frames id e Headers true (chunks most (Encoder.encode enc fields).1))
    ++ (if e then [] else w)) ++ k) ->
  exists n cr' st, pumps n cr = (Ok true, cr') /\ streams cr' = <[id := st]> (streams cr)
    /\ Stream.head st = Some fields /\ Stream.body st = rbody /\ Stream.reset st = None
    /\ Stream.state st = HalfClosedRemote
    /\ Stream.send st = Window.new (Settings.initial_window_size (remote cr))
    /\ carrying (io cr') k /\ Sync.in_step (Encoder.encode enc fields).2 (decoder cr')
    /\ heard (if e then [] else cw)
         (set_highest (Z.max (highest cr) id) (set_last_peer id cr)) cr'
    /\ before (waiting id cr) n cr.
Proof.
  intros Hm [Hr Hk Hx Hw Hwin Hhi Hbody] Hid Hin Hok Hinf Hch He Hreads Hc.
  rewrite <- (assoc_L (++)) in Hc.
  destruct (head_read cr id fields e _ enc most Hm Hr Hk Hx Hid Hin Hok Hinf Hch Hc) as (n1 & w0 & d & Hp & (Hcw & Ho & Hrf) & Hin' & Hb1).
  set (c1 := set_decoder d (set_continuing None (set_io w0 cr))) in *.
  assert (before (waiting id cr) n1 cr) as Hb1'.
  { eapply before_impl; [exact Hb1|]. intros ci [Hs Hg]. split; [done | by rewrite Hs|].
    rewrite Hs, (exp_new _ _ Hx). done. }
  assert (heard [] (set_highest (Z.max (highest cr) id) (set_last_peer id cr)) (after_head c1 id fields e)) as Hh1.
  { split; [|..].
    - rewrite app_nil_r. unfold sent. cbn. by rewrite Ho.
    - clear -Hk. unfold c1. destruct cr. cbn in Hk. by subst.
    - unfold writable. cbn. by rewrite Hrf.
    - done. }
  destruct e.
  - symmetry in He. apply bool_decide_eq_true in He. subst rbody. rewrite app_nil_l in Hcw.
    exists n1, (after_head c1 id fields true), (opened c1 fields true). split_and!; done.
  - symmetry in He. apply bool_decide_eq_false in He.
    destruct (Hreads He (opened c1 fields false) (after_head c1 id fields false) k)
      as (n2 & c2 & st & H1 & H2 & H3 & _ & H4 & H5 & H6 & H7 & H8 & H9 & H10 & H11 & _).
    + split; try done.
      * unfold writable. cbn. by rewrite Hrf.
      * cbn. lia.
      * cbn. apply lookup_insert_eq.
      * cbn. rewrite (proj1 Hr). cbn. unfold Settings.DEFAULT_WINDOW, MAX_STREAM_ID. lia.
    + exact Hcw.
    + exists (n1 + n2)%nat, c2, st. rewrite (pumps_app _ _ _ _ Hp). split; [done|]. rewrite H2, H4, H6, H8, H9.
      cbn [streams set_streams after_head]. rewrite insert_insert_eq. split_and!; try done.
      * exact (heard_trans _ _ _ _ _ Hh1 H10).
      * eapply before_app; [exact Hb1' | exact Hp|]. eapply before_impl; [exact H11|]. intros ci [(si & Hsi & Hf) Hg Ho'].
        split; [done | | by rewrite Hsi].
        intros id' Hne. rewrite Ho' by done. cbn. by rewrite lookup_insert_ne.
Qed.

(** C2. A request arrives whole: what the client's [send] writes of it —
    its fields compressed, its body cut to the server's frame size — and a
    connection delivers in whatever pieces, is read by the server frame by
    frame and taken off by [finished] as that request: its method, path and
    query, its headers in lowercase with its [Host] first, its body to the
    last octet; what the client sends next is still to come, and the tables
    are in step for it. *)
Theorem request_arrives `{Percent} id scheme r cs cr ans k :
  0 < id <= MAX_STREAM_ID -> asking id r cs -> serving id (len (body r)) cr -> carriable scheme r ->
  Sync.in_step (encoder cs) (decoder cr) ->
  id ∉ ans -> (forall id', id' <> id -> Server.is_ready (Server.mkServer cr ans) id' = false) ->
  exists cs' out, Client.send_request id scheme r cs = (Ok tt, cs') /\ sent cs' = sent cs ++ out
  /\ (carrying (io cr) (out ++ k) ->
      exists n cr' s, pumps n cr = (Ok true, cr') /\ carrying (io cr') k
        /\ Server.finished (Server.mkServer cr' ans) = (Ok (Some (id, Message.as_read r)), s)
        /\ Sync.in_step (encoder cs') (decoder cr')).
Proof.
  intros Hid Hask Hsrv [C1 C2 C3 C4 C5 C6 C7] Hin Hans Hother.
  destruct (request_sent id scheme r cs Hask) as (cs' & H1 & H2).
  destruct Hask as [Hok _ Hm]. destruct (ok_remote _ _ Hok) as (_ & _ & [Hlo _] & _). unfold DEFAULT_MAX_FRAME_SIZE in Hlo.
  eexists cs', _. split; [exact H1|]. split; [exact (wrote_sent _ _ _ H2)|]. intros Hc.
  assert (0 < Z.of_nat (Z.to_nat (Settings.max_frame_size (remote cs))) <= 16384) as Hm' by lia.
  destruct (request_read id (Message.request_fields scheme r) _ k (encoder cs) _ (body r) _ _ cr Hm' Hsrv Hid Hin C7
    (request_not_informational scheme r C1) (Message.request_fields_checked scheme r 65536 C1 C6) eq_refl
    (chunks_read id true _ (body r) Hm') Hc)
    as (n & cr' & st & Hp & Hs & Hh & Hb & Hre & Hst & _ & Hk & Hin' & _).
  assert (Server.is_ready (Server.mkServer cr' ans) id = true) as Hready.
  { unfold Server.is_ready. cbn [Server.connection Server.answering]. rewrite Hs, lookup_insert_eq.
    unfold Stream.finished. by rewrite Hre, Hst, (bool_decide_eq_false_2 (id ∈ ans)). }
  eexists n, cr', _. split; [done|]. split; [done|]. split.
  - apply (finished_takes (Server.mkServer cr' ans) id st (Message.request_fields scheme r) (Message.as_read r)).
    + apply ready_only; [done|].
      intros id' Hne. specialize (Hother id' Hne). unfold Server.is_ready in *. cbn [Server.connection Server.answering] in *.
      by rewrite Hs, lookup_insert_ne.
    + cbn [Server.connection]. by rewrite Hs, lookup_insert_eq.
    + done.
    + done.
    + rewrite Hb. by apply Message.request_fields_read.
  - by rewrite (wrote_same encoder _ _ _ ltac:(done) H2).
Qed.

(** A client and a server past their handshakes, the client's stream 1 open. *)
Definition example_request : Request :=
  mkRequest (lit "PUT") (lit "/a") [(lit "k", lit "v")] [(lit "Host", lit "h"); (lit "X-A", lit "1")] (lit "body").
Definition example_client : t := open 1 (initial (mkWire [] [] []) true).
Definition example_server : t :=
  set_settings_seen true
    (initial (mkWire [Got (sent (Client.send_request (H := Message.plain) 1 (lit "http") example_request example_client).2)] [] []) false).

Lemma request_arrives_witness :
  exists cs' out, Client.send_request (H := Message.plain) 1 (lit "http") example_request example_client = (Ok tt, cs')
  /\ sent cs' = sent example_client ++ out
  /\ (carrying (io example_server) (out ++ []) ->
      exists n cr' s, pumps n example_server = (Ok true, cr') /\ carrying (io cr') []
        /\ Server.finished (H := Message.plain) (Server.mkServer cr' ∅) = (Ok (Some (1, Message.as_read example_request)), s)
        /\ Sync.in_step (encoder cs') (decoder cr')).
Proof.
  apply (request_arrives (H := Message.plain) 1 (lit "http") example_request example_client example_server ∅ []).
  - unfold MAX_STREAM_ID; lia.
  - split.
    + apply Safety.ok_open; [|unfold MAX_STREAM_ID; lia]. by apply Safety.initial_ok, wire_octets_check.
    + split; [done | vm_compute; congruence | vm_compute; congruence |]. eexists. split; [reflexivity|].
      split_and!; [done | done | vm_compute; congruence].
    + vm_compute. congruence.
  - split; try done; try (vm_compute; congruence).
  - split.
    + repeat constructor; done.
    + apply (bool_decide_unpack _). vm_compute. done.
    + reflexivity.
    + reflexivity.
    + by left.
    + apply Z.leb_le. reflexivity.
    + by apply Sync.fields_check.
  - apply Sync.in_step_new; cbn; unfold U32_MAX, ENCODER_TABLE; lia.
  - set_solver.
  - intros id' Hne. reflexivity.
Defined.

Example request_arrives_by_running :
  match pumps 2 example_server with
  | (Ok true, c) =>
      match Server.finished (H := Message.plain) (Server.mkServer c ∅) with
      | (Ok (Some (1, r)), _) => r = Message.as_read example_request
      | _ => False
      end
  | _ => False
  end.
Proof. vm_compute. reflexivity. Qed.

End Exchange.
