(* ===== verification/H2Serving.v ===== *)
(** The loops of the server and the client end: a request is taken, a
    connection served and an answer read in as many turns as there are
    streams to take and octets to come. *)

From Stdlib Require Import String.
From S2P Require Import Prelude Errors Wire HpackTable Hpack H2Frame H2Settings H2Stream Http H2Message H2Connection H2Receive H2Send H2Invariant H2Safety H2Server H2Client.

Module Serving.
Import Conn Receive Invariant Safety.

Section serving.
Context `{Percent}.
Implicit Types s : Server.t.

Definition conn (s : Server.t) : Conn.t := Server.connection s.

(** ** Taking what is finished *)

Lemma ready_there s id : Server.ready s = Some id -> is_Some (streams (conn s) !! id).
Proof.
  unfold Server.ready. intros Hr. apply List.find_some in Hr as [_ Hr]. unfold Server.is_ready in Hr. unfold conn.
  destruct (_ !! id); [eauto | discriminate].
Qed.

Lemma on_connection_run {A} (m : M Conn.t NetError A) s r s' :
  Server.on_connection m s = (r, s') ->
  exists c', m (conn s) = (r, c') /\ conn s' = c' /\ Server.answering s' = Server.answering s.
Proof. unfold Server.on_connection, conn. destruct (m _) as [r1 c1]. intros [= <- <-]. by exists c1. Qed.

(** A stream's head and body taken, and perhaps the stream reset. *)
Lemma update_quiet {E} id f c (r : result E unit) c' :
  update_stream id f c = (r, c') ->
  incoming (io c') = incoming (io c) /\ dom (streams c') = dom (streams c).
Proof.
  unfold update_stream, on_stream, mset. destruct (streams c !! id) as [st|] eqn:Hs; intros [= <- <-]; [|done].
  cbn. by rewrite (dom_insert_same _ _ _ _ Hs).
Qed.

Lemma reset_quiet id code c r c' :
  reset id code c = (r, c') ->
  incoming (io c') = incoming (io c) /\ dom (streams c') = dom (streams c).
Proof. apply quiet_run. intros rs D. apply (keeps_reset _ _ _ (quiet_stable rs D)). Qed.

Lemma remove_run id s r s' :
  Server.remove_stream id s = (r, s') ->
  r = Ok tt /\ incoming (io (conn s')) = incoming (io (conn s))
  /\ dom (streams (conn s')) = dom (streams (conn s)) ∖ {[id]}.
Proof. unfold Server.remove_stream, Server.on_connection, mset. intros [= <- <-]. cbn. by rewrite dom_delete_L. Qed.

(** One turn of [finished] reads nothing; one that goes round takes a stream
    off, and one that ends with a request leaves its stream to be answered. *)
Lemma finished_turn_run s r s' :
  Server.finished_turn tt s = (r, s') ->
  incoming (io (conn s')) = incoming (io (conn s))
  /\ match r with
     | Ok (inl _) => exists id, id ∈ dom (streams (conn s)) /\ dom (streams (conn s')) = dom (streams (conn s)) ∖ {[id]}
     | Ok (inr (Some (id, _))) => id ∈ dom (streams (conn s)) /\ dom (streams (conn s')) = dom (streams (conn s))
         /\ id ∈ Server.answering s'
     | _ => dom (streams (conn s')) = dom (streams (conn s))
     end.
Proof.
  unfold Server.finished_turn, mthen at 1, mget. destruct (Server.ready s) as [id|] eqn:Hr; [|by intros [= <- <-]].
  destruct (ready_there _ _ Hr) as [st Hs]. pose proof (elem_of_dom_2 _ _ _ Hs) as Hid.
  unfold conn in Hs. rewrite Hs. unfold mthen at 1.
  destruct (Server.on_connection (update_stream id _) s) as [[u|e] s1] eqn:H1;
    apply on_connection_run in H1 as (c1 & H1 & <- & Ha); apply update_quiet in H1 as [Hi1 Hd1]; [|by intros [= <- <-]].
  destruct ((fun m => Message.request_of m.1 m.2) <$> Server.take_message st) as [[request|malformed]|].
  - unfold mthen, mset, mret. intros [= <- <-]. cbn [conn Server.connection Server.answering].
    split_and!; try done. by apply elem_of_union_l, elem_of_singleton.
  - unfold mthen. destruct (Server.on_connection (reset id (v_code malformed)) s1) as [[u1|e] s2] eqn:H2;
      apply on_connection_run in H2 as (c2 & H2 & <- & _); apply reset_quiet in H2 as [Hi2 Hd2].
    + destruct (Server.remove_stream id s2) as [r3 s3] eqn:H3. apply remove_run in H3 as (-> & Hi3 & Hd3).
      unfold mret. intros [= <- <-]. split; [congruence|]. exists id. split; [done|]. by rewrite Hd3, Hd2, Hd1.
    + intros [= <- <-]. split; congruence.
  - unfold mthen. destruct (Server.remove_stream id s1) as [r3 s3] eqn:H3. apply remove_run in H3 as (-> & Hi3 & Hd3).
    unfold mret. intros [= <- <-]. split; [congruence|]. exists id. split; [done|]. by rewrite Hd3, Hd1.
Qed.

Lemma size_less s s' id :
  id ∈ dom (streams (conn s)) -> dom (streams (conn s')) = dom (streams (conn s)) ∖ {[id]} ->
  (S (size_of (conn s')) = size_of (conn s))%nat.
Proof.
  intros Hid Hd. unfold size_of. rewrite <- !size_dom, Hd.
  rewrite size_difference by (by apply singleton_subseteq_l). rewrite size_singleton.
  assert (size ({[id]} : gset Z) <= size (dom (streams (conn s))))%nat as Hle.
  { by apply subseteq_size, singleton_subseteq_l. }
  rewrite size_singleton in Hle. lia.
Qed.

Lemma finished_goes_down : goes_down Server.finished_turn Server.streams_left (fun _ => True).
Proof.
  intros [] s u s' _ Ht. split; [|done]. apply finished_turn_run in Ht as [_ (id & Hid & Hd)].
  pose proof (size_less s s' id Hid Hd) as Hs. unfold Server.streams_left. unfold size_of, conn in Hs. lia.
Qed.

(** [finished] reads nothing and adds no stream; a request it takes is on a
    stream there is. *)
Lemma finished_run s r s' :
  Server.finished s = (r, s') ->
  incoming (io (conn s')) = incoming (io (conn s)) /\ (size_of (conn s') <= size_of (conn s))%nat
  /\ (forall id request, r = Ok (Some (id, request)) -> id ∈ dom (streams (conn s'))).
Proof.
  unfold Server.finished. intros Hf. pose proof (loop_runs _ _ Server.unending _ tt s finished_goes_down Logic.I) as Hr.
  rewrite Hf in Hr. clear Hf. remember tt as u eqn:Hu. remember (r, s') as out eqn:Hout. revert r s' Hout Hu.
  induction Hr as [u s u' s1 out Ht Hr IH|u s a s1 Ht|u s e s1 Ht]; intros r s' Hout Hu; subst u;
    apply finished_turn_run in Ht as [Hi Hd].
  - destruct u'. destruct (IH r s' Hout eq_refl) as (H1 & H2 & H3). destruct Hd as (id & Hid & Hd).
    pose proof (size_less s s1 id Hid Hd). split_and!; [congruence | lia | done].
  - injection Hout as <- <-. destruct a as [[id request]|].
    + destruct Hd as (Hid & Hd & _). rewrite (size_of_dom _ _ Hd), Hd. split_and!; try done.
      by intros id' rq' [= <- <-].
    + by rewrite (size_of_dom _ _ Hd).
  - injection Hout as <- <-. by rewrite (size_of_dom _ _ Hd).
Qed.

(** ** Serving *)

(** What a server has left: octets to come and streams to take. *)
Definition left_of (s : Server.t) : nat := (pending (io (conn s)) + size_of (conn s))%nat.

Lemma read_frame_run s r s' :
  Server.read_frame s = (r, s') ->
  (left_of s' <= left_of s)%nat
  /\ (r = Ok true -> (pending (io (conn s')) < pending (io (conn s)))%nat).
Proof.
  unfold Server.read_frame, mthen, mget. destruct (goaway _); [by intros [= <- <-]|]. intros Hr.
  apply on_connection_run in Hr as (c & Hr & <- & _). apply pump_took in Hr as [H1 _ H3]. unfold left_of.
  split; [lia|]. intros ->. lia.
Qed.

Lemma pending_same c c' : incoming (io c') = incoming (io c) -> pending (io c') = pending (io c).
Proof. unfold pending. by intros ->. Qed.

Lemma next_goes_down : goes_down Server.next_turn Server.to_read (fun _ => True).
Proof.
  intros u s u' s' _ Ht. split; [|done]. unfold Server.next_turn in Ht.
  apply then_ok in Ht as (taken & s1 & H1 & Ht). apply finished_run in H1 as (Hi & _ & _).
  destruct taken; [discriminate|]. apply then_ok in Ht as (more & s2 & H2 & Ht).
  destruct more; [|discriminate]. injection Ht as _ <-. apply read_frame_run in H2 as [_ H2]. specialize (H2 eq_refl).
  rewrite (pending_same _ _ Hi) in H2. unfold Server.to_read. exact H2.
Qed.

Lemma next_request_run s r s' :
  Server.next_request s = (r, s') ->
  (left_of s' <= left_of s)%nat
  /\ (forall id request, r = Ok (Some (id, request)) -> id ∈ dom (streams (conn s'))).
Proof.
  unfold Server.next_request. intros Hf. pose proof (loop_runs _ _ Server.unending _ tt s next_goes_down Logic.I) as Hr.
  rewrite Hf in Hr. clear Hf. remember (r, s') as out eqn:Hout. revert r s' Hout.
  assert (forall u s x s1, Server.next_turn u s = (x, s1) -> (left_of s1 <= left_of s)%nat
    /\ (forall id request, x = Ok (inr (Some (id, request))) -> id ∈ dom (streams (conn s1)))) as Hturn.
  { clear. intros u s x s1 Ht. unfold Server.next_turn, mthen at 1 in Ht.
    destruct (Server.finished s) as [[taken|e] s2] eqn:H1; pose proof H1 as H2; apply finished_run in H2 as (Hi & Hs & Hid);
      apply pending_same in Hi; [|injection Ht as <- <-; split; [unfold left_of; lia | done]].
    destruct taken as [[id request]|].
    - injection Ht as <- <-. split; [unfold left_of; lia|]. intros id' rq' [= <- <-]. by apply (Hid id request).
    - unfold mthen in Ht. destruct (Server.read_frame s2) as [[more|e] s3] eqn:H3; apply read_frame_run in H3 as [H3 _].
      + destruct more; injection Ht as <- <-; (split; [unfold left_of in *; lia | done]).
      + injection Ht as <- <-. split; [unfold left_of in *; lia | done]. }
  induction Hr as [u s u' s1 out Ht Hr IH|u s a s1 Ht|u s e s1 Ht]; intros r s' Hout; apply Hturn in Ht as [Hl Hid].
  - destruct (IH r s' Hout) as [H1 H2]. split; [lia | done].
  - injection Hout as <- <-. split; [done|]. intros id request [= ->]. eauto.
  - injection Hout as <- <-. by split.
Qed.

(** ** Answering *)

Lemma took_refl c : took 0 c c.
Proof. by apply took_quiet. Qed.

Lemma took_stable c0 : stable (fun _ => False) (fun _ => True) (took 0 c0).
Proof.
  assert (forall c c', took 0 c0 c -> incoming (io c') = incoming (io c) /\ dom (streams c') = dom (streams c) ->
    took 0 c0 c') as Hq.
  { intros c c' Ht Hc. apply took_quiet in Hc. exact (took_trans _ _ _ _ _ Ht Hc). }
  split; try done; intros; try (by match goal with Hc : took 0 c0 ?c |- _ => apply (Hq c) end).
  - eapply Hq; [eassumption|]. split; [done | by eapply dom_insert_same].
  - eapply Hq; [eassumption|]. cbn. by rewrite dom_passed.
  - match goal with Hc : took 0 c0 ?c |- took 0 c0 (set_encoder _ ?c) => apply (Hq c _ Hc); by split end.
Qed.

Lemma keeps_took_pump c0 : keeps (took 0 c0) pump.
Proof.
  intros c Hc. destruct (pump c) as [r c'] eqn:Hp. apply pump_took in Hp.
  pose proof (took_trans _ _ _ _ _ Hc Hp) as [H1 H2 H3].
  assert (took 0 c0 c') by (split; [lia | done | done]). by destruct r.
Qed.

Lemma keeps_took_send_data c0 id bs e : keeps (took 0 c0) (Send.send_data id bs e).
Proof.
  pose proof (took_stable c0) as Hst. unfold Send.send_data.
  keep; [|apply (keeps_end_locally _ _ _ Hst)]. apply keeps_loop. intros rest. unfold Send.send_turn. keep.
  - unfold Send.stall. keep; [|apply (keeps_release _ _ _ Hst) | apply keeps_took_pump].
    apply keeps_set. intros c Hc. by apply (st_stalls _ _ _ Hst).
  - unfold Send.send_piece, Send.take_windows. keep; [apply (keeps_emit _ _ _ Hst)| |].
    + apply (keeps_on_window_send _ _ _ Hst), moves_take, len_nonneg.
    + apply (keeps_on_stream _ _ _ Hst); [|apply keeps_ret]. intros st. apply keeps_map_err, evolves_send.
      intros w w' Hw. by apply (moves_take _ (len_nonneg _)) in Hw as [? _].
Qed.

Lemma keeps_took_answer c0 id response : keeps (took 0 c0) (together (Server.send_answer id response)).
Proof.
  pose proof (took_stable c0) as Hst. apply (keeps_together _ _ _ Hst). unfold Server.send_answer.
  keep; try apply (keeps_send_headers _ _ _ Hst). apply keeps_took_send_data.
Qed.

Lemma respond_run id response s u s' :
  Server.respond id response s = (Ok u, s') -> id ∈ dom (streams (conn s)) -> (left_of s' < left_of s)%nat.
Proof.
  unfold Server.respond. destruct (negb _); [discriminate|].
  destruct (Server.on_connection _ _) as [r s1] eqn:H1. intros [= -> <-] Hid.
  apply on_connection_run in H1 as (c1 & H1 & <- & _). cbn [conn Server.connection] in H1.
  pose proof (keeps_run _ _ _ _ _ (keeps_took_answer (conn s) id response) (took_refl _) H1) as [Hp Hd Hs].
  unfold left_of. cbn [conn Server.connection io set_streams].
  assert (S (size_of (set_streams (delete id (streams (conn s1))) (conn s1))) = size_of (conn s1)) as Hsz.
  { unfold size_of. cbn [streams set_streams]. apply Hd in Hid. apply elem_of_dom in Hid as [st Hst].
    rewrite map_size_delete, Hst. assert (size (streams (conn s1)) <> 0)%nat; [|lia].
    intros Hz. apply map_size_empty_iff in Hz. rewrite Hz in Hst. done. }
  unfold conn in *. lia.
Qed.

Context {X : Type} (answer : X -> Request -> Response * X).

Lemma serve_goes_down :
  goes_down (Server.serve_turn answer)
    (fun _ s => (pending (Conn.io (Server.connection s)) + size (streams (Server.connection s)))%nat) (fun _ => True).
Proof.
  intros [n x] s [n' x'] s' _ Ht. split; [|done]. unfold Server.serve_turn in Ht.
  apply then_ok in Ht as (next & s1 & H1 & Ht). apply next_request_run in H1 as [Hl Hid].
  destruct next as [[id request]|]; [|discriminate]. specialize (Hid id request eq_refl).
  destruct (answer x request) as [response x1]. apply then_ok in Ht as (u & s2 & H2 & Ht). injection Ht as _ _ <-.
  apply respond_run in H2; [|done]. unfold left_of, size_of, conn in *. lia.
Qed.


(** ** Asking *)

Lemma answer_turn_down id : goes_down (Client.answer_turn id) Send.pending_io (fun _ => True).
Proof.
  intros u c u' c' _ Ht. split; [|done]. unfold Client.answer_turn, mthen at 1, mget in Ht.
  destruct (streams c !! id) as [st|]; [|discriminate]. destruct (negb _); [|discriminate].
  apply then_ok in Ht as (more & c1 & H1 & Ht). destruct more.
  - injection Ht as _ <-. apply pump_took in H1 as [Hp _ _]. unfold Send.pending_io. lia.
  - apply then_ok in Ht as (u1 & c2 & _ & Ht). discriminate.
Qed.

(** A client waits no longer than its server can talk: reading an answer
    and waiting for a [PING] to come back both end, with what they waited
    for or with the connection. *)
Lemma asking_ends id opaque c :
  runs (Client.answer_turn id) tt c (loop (Client.answer_turn id) Send.pending_io Client.closed_early tt c)
  /\ runs (Send.ping_turn opaque) tt c (loop (Send.ping_turn opaque) Send.pending_io Send.no_pong tt c).
Proof.
  split.
  - by apply (loop_runs _ _ _ _ _ _ (answer_turn_down id)).
  - by apply (loop_runs _ _ _ _ _ _ (ping_goes_down opaque)).
Qed.

(** C8. A server serves and stops, whatever its clients send: taking what is
    finished ends, waiting for the next request ends, and so does the loop
    that answers one after another — each turn takes a stream off or reads a
    frame of a connection that has only so much to give; and so do a client's
    waits, for an answer and for a [PING] to come back. *)
Theorem serving_ends s x :
  runs Server.finished_turn tt s (Server.finished s)
  /\ runs Server.next_turn tt s (Server.next_request s)
  /\ runs (Server.serve_turn answer) (0, x) s
       (loop (Server.serve_turn answer) (fun _ s => (pending (Conn.io (Server.connection s))
          + size (streams (Server.connection s)))%nat) Server.unending (0, x) s)
  /\ (forall id opaque c,
        runs (Client.answer_turn id) tt c (loop (Client.answer_turn id) Send.pending_io Client.closed_early tt c)
        /\ runs (Send.ping_turn opaque) tt c (loop (Send.ping_turn opaque) Send.pending_io Send.no_pong tt c)).
Proof.
  split_and!; [| | |apply asking_ends].
  - by apply (loop_runs _ _ _ _ _ _ finished_goes_down).
  - by apply (loop_runs _ _ _ _ _ _ next_goes_down).
  - by apply (loop_runs _ _ _ _ _ _ serve_goes_down).
Qed.

End serving.
End Serving.
