(* ===== verification/H2Answer.v ===== *)
(** An answer end to end: what [Server::respond] writes of it — head, body
    and trailers — the client's connection reads, and [Client::send] takes
    off as the same answer. *)

From Stdlib Require Import String.
From S2P Require Import Prelude Errors Wire HpackInteger HpackTable Hpack H2Frame H2Settings H2Stream Http H2Message H2Connection H2Receive H2Send H2Invariant H2Safety H2Transfer H2Server H2Client H2Exchange H2Serving.

Module Answer.
Import Conn Receive Invariant Transfer.

(** ** A block on a stream there is *)

Lemma take_block_lands id fields e s s' c :
  streams c !! id = Some s -> Stream.reset s = None -> Stream.headers fields e s = (Ok tt, s') ->
  take_block id fields e c = (Ok tt, set_streams (<[id := s']> (streams c)) c).
Proof.
  intros Hs Hr Hh. unfold take_block. rewrite Hs, Hr. unfold give_headers, on_stream. rewrite Hs.
  unfold mmap_err. by rewrite Hh.
Qed.

(** [c] after a block on [id] that left [s'] of its stream. *)
Definition after_block (id : Z) (s' : Stream.t) (d : Decoder.t) (w : Wire) (c : t) : t :=
  set_streams (<[id := s']> (streams c)) (set_decoder d (set_continuing None (set_io w c))).

Lemma block_lands id fields e k enc most s s' cr :
  0 < Z.of_nat most <= 16384 -> ready_to_read cr -> continuing cr = None -> 0 < id <= MAX_STREAM_ID ->
  streams cr !! id = Some s -> Stream.reset s = None -> Stream.headers fields e s = (Ok tt, s') ->
  Stream.finished s = false ->
  Sync.in_step enc (decoder cr) -> Forall Sync.field_ok fields -> Message.check fields 65536 = Ok tt ->
  carrying (io cr) (wire_of (block_frames id e Headers true (chunks most (Encoder.encode enc fields).1)) ++ k) ->
  exists n w d, pumps n cr = (Ok true, after_block id s' d w cr) /\ read_up_to w k cr
    /\ Sync.in_step (Encoder.encode enc fields).2 d /\ before (under_way id cr) n cr
    /\ (writable cr -> heard [] cr (after_block id s' d w cr)).
Proof.
  intros Hm Hr Hk Hid Hs Hre Hh Hf Hin Hok Hch Hc. pose proof (block_small enc fields _ Hok Hch ltac:(done)) as Hl.
  destruct (read_block id e _ _ k cr Hid Hm Hl Hr Hk Hc) as (n & w & Hp & Hup & Hbef).
  pose proof (Sync.block_read enc (decoder cr) fields Hin Hok) as Hb.
  destruct (Encoder.encode enc fields) as [blk en]. cbn [fst snd] in *. destruct Hb as (d & Hd & Hin').
  exists n, w, d. split; [|split; [exact Hup | split; [exact Hin' | split]]].
  - rewrite Hp. unfold settle. rewrite (block_decoded id blk e fields _ d); [|done|done|].
    + by rewrite (take_block_lands id fields e s s').
    + change (local _) with (local cr). by rewrite (proj1 Hr).
  - eapply before_impl; [exact Hbef|]. intros ci [Hci Hg]. split; [exists s; by rewrite Hci | done | by rewrite Hci].
  - intros Hw. destruct Hup as (_ & Ho & Hrf). split.
    + rewrite app_nil_r. unfold sent. cbn. by rewrite Ho.
    + clear -Hk. destruct cr. cbn in Hk. by subst.
    + unfold writable. cbn. by rewrite Hrf.
    + done.
Qed.

(** ** What the server writes *)

(** A server that may send [r] on [id] at once, however its client answers. *)
Record replying (id : Z) (r : Response) (c : t) : Prop := {
  rep_ok : ok false c;
  rep_send : may_send (len (r_body r)) id c;
  rep_frame : Settings.max_frame_size (remote c) <= 16384;
}.

Definition bodiless (r : Response) : bool := bool_decide (r_body r = []).
Definition trailing (r : Response) : bool := bool_decide (Message.carried (trailers r) = []).

(** The octets of an answer, its blocks compressed by [enc] and its body, where
    it has one, as [w]. *)
Definition answer_with (id : Z) (most : nat) (enc : Encoder.t) (r : Response) (w : bytes) : bytes :=
  let '(blk, enc1) := Encoder.encode enc (Message.response_fields r) in
  wire_of (block_frames id (bodiless r && trailing r) Headers true (chunks most blk))
  ++ (if bodiless r then [] else w)
  ++ (if trailing r then []
      else wire_of (block_frames id true Headers true
             (chunks most (Encoder.encode enc1 (Message.carried (trailers r))).1))).

(** Its body cut to the frame size, the windows open to all of it. *)
Definition answer_wire (id : Z) (most : nat) (enc : Encoder.t) (r : Response) : bytes :=
  answer_with id most enc r (wire_of (data_frames id (trailing r) (chunks most (r_body r)))).

Definition answer_encoder (enc : Encoder.t) (r : Response) : Encoder.t :=
  let '(_, enc1) := Encoder.encode enc (Message.response_fields r) in
  if trailing r then enc1 else (Encoder.encode enc1 (Message.carried (trailers r))).2.

Lemma answer_sent id r c :
  replying id r c ->
  exists c', Server.send_answer id r c = (Ok tt, c')
    /\ wrote (answer_wire id (Z.to_nat (Settings.max_frame_size (remote c))) (encoder c) r)
         (ended id (spent id (len (r_body r)) (set_encoder (answer_encoder (encoder c) r) c))) c'.
Proof.
  intros [Hok Hms Hm]. unfold Server.send_answer. fold (bodiless r) (trailing r). unfold answer_wire, answer_with, answer_encoder.
  set (most := Z.to_nat (Settings.max_frame_size (remote c))).
  pose proof (headers_wrote c id (Message.response_fields r) (bodiless r && trailing r) (ms_writable _ _ _ Hms)) as Hh. fold most in Hh.
  destruct (Encoder.encode (encoder c) (Message.response_fields r)) as [blk e1].
  destruct Hh as (c1 & H1 & H2). unfold mthen at 1. rewrite H1.
  set (n := len (r_body r)).
  assert (exists c2, (if negb (bodiless r) then Send.send_data id (r_body r) (trailing r) else mret tt) c1 = (Ok tt, c2)
    /\ wrote (wire_of (block_frames id (bodiless r && trailing r) Headers true (chunks most blk))
              ++ (if bodiless r then [] else wire_of (data_frames id (trailing r) (chunks most (r_body r)))))
         (if trailing r then ended id (spent id n (set_encoder e1 c)) else spent id n (set_encoder e1 c)) c2)
    as (c2 & H7 & H8).
  { unfold bodiless in *. case_bool_decide as Hb; cbn [negb andb] in *.
    - exists c1. split; [done|]. unfold n. by rewrite Hb, len_nil, spent_nothing, app_nil_r.
    - pose proof (Exchange.may_send_encoder _ _ _ _ _ _ H2 Hms) as Hms1.
      pose proof (keeps_run _ _ _ _ _ (keeps_send_headers _ _ _ (ok_stable false) id (Message.response_fields r) false) Hok H1) as Hok1.
      destruct (send_data_wrote false id (trailing r) (r_body r) c1 Hok1 Hms1) as (c2 & Hd & Hw).
      exists c2. split; [done|]. rewrite (wrote_same remote _ _ _ ltac:(done) H2) in Hw. change (remote (set_encoder e1 c)) with (remote c) in Hw.
      fold most n in Hw. destruct (trailing r).
      + exact (wrote_under _ _ _ _ _ _ (inner_compose _ _ (inner_ended id) (inner_spent id n)) H2 Hw).
      + exact (wrote_under _ _ _ _ _ _ (inner_spent id n) H2 Hw). }
  unfold mthen. rewrite H7, (assoc_L (++)). destruct (trailing r) eqn:Ht; cbn [negb].
  - exists c2. rewrite app_nil_r. done.
  - pose proof (headers_wrote c2 id (Message.carried (trailers r)) true ltac:(apply H8)) as Hh.
    rewrite (wrote_same encoder _ _ _ ltac:(done) H8), (wrote_same remote _ _ _ ltac:(done) H8) in Hh.
    change (encoder (spent id n (set_encoder e1 c))) with e1 in Hh. change (remote (spent id n (set_encoder e1 c))) with (remote c) in Hh.
    fold most in Hh. destruct (Encoder.encode e1 (Message.carried (trailers r))) as [b2 e2].
    destruct Hh as (c3 & H11 & H12). exists c3. rewrite H11. split; [done|].
    exact (wrote_under _ _ _ _ _ _ (inner_compose _ _ (inner_ended id) (inner_encoder e2)) H8 H12).
Qed.

(** ** What the client reads *)

(** A client whose stream [id], [s] so far, waits for an answer with [n]
    octets of body. *)
Record awaiting (id n : Z) (s : Stream.t) (c : t) : Prop := {
  aw_ready : ready_to_read c;
  aw_block : continuing c = None;
  aw_writable : writable c;
  aw_known : id <= highest c <= MAX_STREAM_ID;
  aw_stream : streams c !! id = Some s;
  aw_window : 16384 <= Window.left (receive c) <= MAX_STREAM_ID;
  aw_receive : 16384 <= Window.left (Stream.receive s) <= MAX_STREAM_ID;
  aw_head : Stream.head s = None;
  aw_body : Stream.body s = [];
  aw_trailers : Stream.trailers s = [];
  aw_reset : Stream.reset s = None;
  aw_state : State.receiving (Stream.state s) = true;
  aw_fits : n <= MAX_BODY;
}.

(** An answer HTTP/2 can carry. *)
Record answerable (r : Response) : Prop := {
  an_headers : Message.ordinary (r_headers r);
  an_trailers : Message.ordinary (trailers r);
  an_status : 200 <= status r < 1000;
  an_size : Message.list_size (Message.response_fields r) <= 65536;
  an_trailing_size : Message.list_size (Message.carried (trailers r)) <= 65536;
  an_text : Forall Sync.field_ok (Message.response_fields r);
  an_trailing_text : Forall Sync.field_ok (Message.carried (trailers r));
}.

(** A field of a message is a status only where it is the status itself. *)
Lemma ordinary_not_informational hs : Message.ordinary hs -> Stream.informational (Message.carried hs) = false.
Proof.
  intros Ho. unfold Stream.informational. apply not_true_iff_false. rewrite existsb_exists.
  intros ([n v] & Hin & Hi). unfold Stream.informational_field in Hi. apply andb_true_iff in Hi as [Hn _].
  apply bool_decide_eq_true in Hn. cbn [fst] in Hn. subst n.
  pose proof (Message.carried_names _ Ho) as Hc. rewrite List.Forall_forall in Hc.
  by destruct (Hc _ Hin) as (_ & Hp & _).
Qed.

Lemma final_status n : 200 <= n < 1000 -> Stream.informational_field (lit ":status", dec n) = false.
Proof.
  intros Hn. cut ((n <? 200) || negb (Stream.informational_field (lit ":status", dec n)) = true).
  { intros H. apply orb_true_iff in H as [H|H]; [apply Z.ltb_lt in H; lia | by apply negb_true_iff in H]. }
  check_range 1000%nat n.
Qed.

Lemma answer_not_informational r :
  Message.ordinary (r_headers r) -> 200 <= status r < 1000 ->
  Stream.informational (Message.response_fields r) = false.
Proof.
  intros Ho Hs. unfold Stream.informational, Message.response_fields. cbn [existsb].
  rewrite (final_status _ Hs). exact (ordinary_not_informational _ Ho).
Qed.

Lemma trailers_checked hs limit :
  Message.ordinary hs -> Message.list_size (Message.carried hs) <= limit ->
  Message.check (Message.carried hs) limit = Ok tt.
Proof.
  intros Ho Hl. unfold Message.check. destruct (Z.ltb_spec limit (Message.list_size (Message.carried hs))); [lia|].
  by apply Message.check_regular, Message.carried_names.
Qed.

(** The stream an answer's head leaves, and its trailers. *)
Definition headed (fields : list field) (e : bool) (s : Stream.t) : Stream.t :=
  let s := Stream.set_head (Some fields) s in
  if e then Stream.set_state (State.ended_remotely (Stream.state s)) s else s.
Definition trailed (fields : list field) (s : Stream.t) : Stream.t :=
  let s := Stream.set_trailers fields s in
  Stream.set_state (State.ended_remotely (Stream.state s)) s.

Lemma head_given fields e s :
  Stream.head s = None -> State.receiving (Stream.state s) = true -> Stream.informational fields = false ->
  Stream.headers fields e s = (Ok tt, headed fields e s).
Proof. intros Hh Hs Hi. unfold Stream.headers. rewrite Hs, Hi, bool_decide_eq_true_2 by done. done. Qed.

Lemma trailers_given fields s :
  is_Some (Stream.head s) -> State.receiving (Stream.state s) = true -> Stream.informational fields = false ->
  Stream.headers fields true s = (Ok tt, trailed fields s).
Proof.
  intros [h Hh] Hs Hi. unfold Stream.headers. rewrite Hs, Hi, bool_decide_eq_false_2 by congruence. done.
Qed.

Lemma not_finished s : Stream.reset s = None -> State.receiving (Stream.state s) = true -> Stream.finished s = false.
Proof. intros Hr Hs. unfold Stream.finished. by rewrite Hr, Hs. Qed.

Lemma ended_not_receiving st : State.receiving (State.ended_remotely st) = false.
Proof. by destruct st. Qed.

(** What is left of an answer's stream when it has been read. *)
Record holds (r : Response) (s : Stream.t) : Prop := {
  h_head : Stream.head s = Some (Message.response_fields r);
  h_body : Stream.body s = r_body r;
  h_trailers : Stream.trailers s = Message.carried (trailers r);
  h_reset : Stream.reset s = None;
  h_state : State.receiving (Stream.state s) = false;
}.

(** A body, or none of it, read on a stream with room for it. *)
Lemma body_read id e rbody w cw s c k :
  (rbody <> [] -> body_reads id e w cw rbody) -> room_for (len rbody) id s c ->
  carrying (io c) ((if bool_decide (rbody = []) then [] else w) ++ k) ->
  exists n c' s', pumps n c = (Ok true, c') /\ streams c' !! id = Some s'
    /\ Stream.head s' = Stream.head s /\ Stream.trailers s' = Stream.trailers s
    /\ Stream.body s' = Stream.body s ++ rbody /\ Stream.reset s' = None
    /\ Stream.state s' = (if negb (bool_decide (rbody = [])) && e then State.ended_remotely (Stream.state s) else Stream.state s)
    /\ carrying (io c') k /\ decoder c' = decoder c
    /\ ready_to_read c' /\ continuing c' = None
    /\ (forall id', id' <> id -> streams c' !! id' = streams c !! id')
    /\ heard (if bool_decide (rbody = []) then [] else cw) c c'
    /\ before (under_way id c) n c.
Proof.
  intros Hreads Hroom Hc. case_bool_decide as Hb.
  - subst rbody. rewrite app_nil_l in Hc. exists 0%nat, c, s. rewrite app_nil_r.
    split_and!; try done; try apply Hroom; [apply heard_nothing, Hroom|]. intros i Hi. lia.
  - destruct (Hreads Hb s c k Hroom Hc) as (n & c' & s' & H1 & H2 & H3 & H3t & H4 & H5 & H6 & H7 & H8 & _ & H9 & H11 & _).
    exists n, c', s'. split_and!; try done.
    + by rewrite H2, lookup_insert_eq.
    + split; [rewrite (heard_same local _ _ _ ltac:(done) ltac:(done) H9) | rewrite (heard_same settings_seen _ _ _ ltac:(done) ltac:(done) H9)];
        apply Hroom.
    + rewrite (heard_same continuing _ _ _ ltac:(done) ltac:(done) H9). apply Hroom.
    + intros id' Hne'. by rewrite H2, lookup_insert_ne.
Qed.

Lemma response_checked r : answerable r -> Message.check (Message.response_fields r) 65536 = Ok tt.
Proof.
  intros [N1 N2 N3 N4 N5 N6 N7]. unfold Message.check. destruct (Z.ltb_spec 65536 (Message.list_size (Message.response_fields r))); [lia|].
  transitivity (Message.check_names (Message.carried (r_headers r)) false); [done|]. by apply Message.check_regular, Message.carried_names.
Qed.

(** [cr] reads on to [c], an answer under way on [id] until then; [bs] is what
    it sends meanwhile. *)
Definition reads_on (id : Z) (bs : bytes) (cr c : t) : Prop :=
  exists n, pumps n cr = (Ok true, c) /\ (forall id', id' <> id -> streams c !! id' = streams cr !! id')
    /\ heard bs cr c /\ before (under_way id cr) n cr.

Lemma reads_on_trans id a b s cr c c' :
  reads_on id a cr c -> streams c !! id = Some s -> Stream.finished s = false -> reads_on id b c c' -> reads_on id (a ++ b) cr c'.
Proof.
  intros (n & Hp & Ho & Hh & Hb) Hs Hf (m & Hp' & Ho' & Hh' & Hb'). exists (n + m)%nat.
  split; [by rewrite (pumps_app _ _ _ _ Hp)|]. split; [intros id' Hne; by rewrite Ho', Ho|]. split; [by eapply heard_trans|].
  eapply before_app; [exact Hb | exact Hp|]. eapply before_impl; [exact Hb'|]. intros ci. apply under_way_trans.
  split; [by exists s | exact (heard_same goaway _ _ _ ltac:(done) ltac:(done) Hh) | done].
Qed.

(** An answer's head read, the stream with room for its body. *)
Lemma answer_head_read id most r enc s cr k :
  let fields := Message.response_fields r in
  let e := bodiless r && trailing r in
  0 < Z.of_nat most <= 16384 -> 0 < id <= MAX_STREAM_ID -> awaiting id (len (r_body r)) s cr ->
  Sync.in_step enc (decoder cr) -> answerable r ->
  carrying (io cr) (wire_of (block_frames id e Headers true (chunks most (Encoder.encode enc fields).1)) ++ k) ->
  exists c, reads_on id [] cr c /\ streams c !! id = Some (headed fields e s)
    /\ carrying (io c) k /\ Sync.in_step (Encoder.encode enc fields).2 (decoder c)
    /\ (e = false -> room_for (len (r_body r)) id (headed fields e s) c).
Proof.
  intros fields e Hm Hid [A1 A2 A3 A4 A5 A6 A7 A8 A9 A10 A11 A12 A13] Hin Han Hc. pose proof Han as [N1 N2 N3 N4 N5 N6 N7].
  pose proof (head_given fields e s A8 A12 (answer_not_informational r N1 N3)) as Hhead.
  destruct (block_lands id fields e k enc most s _ cr Hm A1 A2 Hid A5 A11 Hhead (not_finished _ A11 A12) Hin N6 (response_checked r Han) Hc)
    as (n1 & w & d & Hp1 & (Hw & Ho & Hrf) & Hin1 & Hb1 & Hh1).
  exists (after_block id (headed fields e s) d w cr).
  split; [exists n1; split; [done|split; [intros id' Hne; by apply lookup_insert_ne|split; [by apply Hh1|done]]]|].
  split; [apply lookup_insert_eq|]. split; [done|]. split; [done|]. intros ->.
  split; cbn; try done; try lia; [unfold writable; cbn; by rewrite Hrf | apply lookup_insert_eq | rewrite A9, len_nil; lia].
Qed.

(** An answer's trailers read, its head and its body before them. *)
Lemma answer_trailers_read id most r enc s cr k :
  let fields := Message.carried (trailers r) in
  0 < Z.of_nat most <= 16384 -> 0 < id <= MAX_STREAM_ID -> ready_to_read cr -> continuing cr = None -> writable cr ->
  streams cr !! id = Some s -> Stream.head s = Some (Message.response_fields r) -> Stream.body s = r_body r ->
  Stream.reset s = None -> State.receiving (Stream.state s) = true ->
  Sync.in_step enc (decoder cr) -> answerable r ->
  carrying (io cr) (wire_of (block_frames id true Headers true (chunks most (Encoder.encode enc fields).1)) ++ k) ->
  exists c s', reads_on id [] cr c /\ streams c !! id = Some s' /\ holds r s'
    /\ carrying (io c) k /\ Sync.in_step (Encoder.encode enc fields).2 (decoder c).
Proof.
  intros fields Hm Hid Hr Hk Hw Hs Hh Hb Hre Hst Hin [N1 N2 N3 N4 N5 N6 N7] Hc.
  pose proof (trailers_given fields s ltac:(by rewrite Hh) Hst (ordinary_not_informational _ N2)) as Htr.
  destruct (block_lands id fields true k enc most s _ cr Hm Hr Hk Hid Hs Hre Htr (not_finished _ Hre Hst) Hin N7
    ltac:(by apply trailers_checked) Hc) as (n & w & d & Hp & (Hcw & _ & _) & Hin' & Hbef & Hheard).
  exists (after_block id (trailed fields s) d w cr), (trailed fields s).
  split; [exists n; split; [done|split; [intros id' Hne; by apply lookup_insert_ne|split; [by apply Hheard|done]]]|].
  split; [apply lookup_insert_eq|]. split; [|done]. split; cbn; [done | done | done | done | apply ended_not_receiving].
Qed.

(** The whole of an answer, read: no frame of it comes after its end. *)
Lemma answer_read id most r enc w0 cw s cr k :
  0 < Z.of_nat most <= 16384 -> 0 < id <= MAX_STREAM_ID -> awaiting id (len (r_body r)) s cr ->
  Sync.in_step enc (decoder cr) -> answerable r ->
  (r_body r <> [] -> body_reads id (trailing r) w0 cw (r_body r)) ->
  carrying (io cr) (answer_with id most enc r w0 ++ k) ->
  exists c s', reads_on id (if bodiless r then [] else cw) cr c /\ streams c !! id = Some s' /\ holds r s'
    /\ carrying (io c) k /\ Sync.in_step (answer_encoder enc r) (decoder c).
Proof.
  intros Hm Hid Haw Hin Han Hreads Hc. pose proof (answer_head_read id most r enc s cr) as Hland.
  unfold answer_with, answer_encoder in *. destruct (Encoder.encode enc (Message.response_fields r)) as [blk e1]. cbn [fst snd] in *.
  rewrite <- !(assoc_L (++)) in Hc. destruct (Hland _ Hm Hid Haw Hin Han Hc) as (c1 & R1 & Hs1 & Hw & Hin1 & Hroom). clear Hland Hc.
  destruct Haw as [A1 A2 A3 A4 A5 A6 A7 A8 A9 A10 A11 A12 A13].
  destruct (bodiless r && trailing r) eqn:Hend.
  { apply andb_true_iff in Hend as [Hb Ht]. rewrite Hb, Ht, !app_nil_l in Hw. rewrite Hb, Ht.
    apply bool_decide_eq_true in Hb. apply bool_decide_eq_true in Ht.
    exists c1, (headed (Message.response_fields r) true s). split; [done|]. split; [done|]. split; [|done].
    split; cbn; [done | congruence | congruence | done | apply ended_not_receiving]. }
  destruct (body_read id (trailing r) (r_body r) _ _ _ c1 _ Hreads (Hroom eq_refl) Hw) as
    (n2 & c2 & s2 & Hp2 & Hs2 & H3 & H3t & H4 & H5 & H6 & H7 & H8 & H9 & H10 & Ho2 & Hh2 & Hb2).
  fold (bodiless r) in H6, Hh2. cbn [headed Stream.set_head Stream.head Stream.trailers Stream.body Stream.state] in H3, H3t, H4, H6.
  rewrite A9, app_nil_l in H4. rewrite A10 in H3t.
  assert (reads_on id (if bodiless r then [] else cw) cr c2) as R2.
  { apply (reads_on_trans id [] _ _ _ _ _ R1 Hs1); [by apply not_finished | by exists n2]. }
  destruct (trailing r) eqn:Ht.
  { rewrite andb_true_r in H6, Hend. rewrite Hend in H6. apply bool_decide_eq_true in Ht.
    exists c2, s2. rewrite H8. split_and!; try done.
    split; try done; [by rewrite H3t | rewrite H6; apply ended_not_receiving]. }
  rewrite andb_false_r in H6. assert (State.receiving (Stream.state s2) = true) as Hs2r by (by rewrite H6).
  destruct (answer_trailers_read id most r e1 s2 c2 k) as (c3 & s3 & R3 & Hs3 & H3h & Hw3 & Hin3); try done.
  { apply (heard_writable _ _ _ Hh2). }
  { by rewrite H8. }
  exists c3, s3. rewrite <- (app_nil_r (if bodiless r then _ else _)). split; [|done].
  apply (reads_on_trans _ _ _ _ _ _ _ R2 Hs2); [by apply not_finished | done].
Qed.

(** ** The loop that waits *)

(** The loop stops at the frame that finished the stream. *)
Lemma answer_loop id n st c' : forall c,
  before (unfinished id) n c -> pumps n c = (Ok true, c') ->
  streams c' !! id = Some st -> Stream.finished st = true ->
  loop (Client.answer_turn id) Send.pending_io Client.closed_early tt c = (Ok tt, c').
Proof.
  induction n as [|n IH]; intros c Hb Hp Hs Hf;
    rewrite (loop_turn _ _ _ (fun _ => True)) by (apply Serving.answer_turn_down || done);
    unfold Client.answer_turn at 1, mthen at 1, mget.
  - injection Hp as <-. by rewrite Hs, Hf.
  - destruct (Hb 0%nat) as (c0 & H0 & s & Hs0 & Hf0); [lia|]. injection H0 as <-. rewrite Hs0, Hf0. cbn [negb].
    cbn [pumps] in Hp. unfold mthen in Hp |- *. destruct (pump c) as [[[|]|e] c1] eqn:Hpump; try discriminate.
    unfold mret. apply IH; try done. intros i Hi. destruct (Hb (S i)) as (ci & Hci & Hu); [lia|].
    exists ci. split; [|done]. by rewrite (pumps_next _ _ _ Hpump) in Hci.
Qed.

Lemma answer_taken id n c c' s r :
  before (unfinished id) n c -> pumps n c = (Ok true, c') -> streams c' !! id = Some s -> holds r s ->
  Message.ordinary (r_headers r) -> 100 <= status r < 1000 ->
  Client.read_answer id c = (Ok (Message.as_answered r), set_streams (delete id (streams c')) c').
Proof.
  intros Hb Hp Hs [H1 H2 H3 H4 H5] Ho Hst. unfold Client.read_answer, mthen at 1.
  rewrite (answer_loop id n s c') by (done || (unfold Stream.finished; by rewrite H4, H5)).
  unfold mthen, mget, mlift, mset. rewrite Hs. cbn [ok_or]. unfold Client.remove_stream, mset. rewrite H4, H1. cbn [ok_or].
  by rewrite H2, H3, Message.response_fields_read.
Qed.

(** C3. An answer arrives whole: what the server's [respond] writes of it —
    its head, its body cut to the client's frame size, its trailers — and a
    connection delivers in whatever pieces, ends the client's wait at its
    last frame with that answer: its status, its headers and its trailers in
    lowercase, its body to the last octet. What the server sends next is
    still to come, the stream is given up, and the tables are in step. *)
Theorem answer_arrives id r cs cr s k :
  0 < id <= MAX_STREAM_ID -> replying id r cs -> awaiting id (len (r_body r)) s cr ->
  answerable r -> Sync.in_step (encoder cs) (decoder cr) ->
  exists cs' out, Server.send_answer id r cs = (Ok tt, cs') /\ sent cs' = sent cs ++ out
  /\ (carrying (io cr) (out ++ k) ->
      exists cr', Client.read_answer id cr = (Ok (Message.as_answered r), cr')
        /\ streams cr' !! id = None /\ carrying (io cr') k
        /\ Sync.in_step (encoder cs') (decoder cr')).
Proof.
  intros Hid Hrep Haw Han Hin. destruct (answer_sent id r cs Hrep) as (cs' & H1 & H2).
  destruct Hrep as [Hok _ Hm]. destruct (ok_remote _ _ Hok) as (_ & _ & [Hlo _] & _). unfold DEFAULT_MAX_FRAME_SIZE in Hlo.
  eexists cs', _. split; [exact H1|]. split; [exact (wrote_sent _ _ _ H2)|]. intros Hc.
  assert (0 < Z.of_nat (Z.to_nat (Settings.max_frame_size (remote cs))) <= 16384) as Hm' by lia.
  destruct (answer_read id _ r (encoder cs) _ _ s cr k Hm' Hid Haw Hin Han (chunks_read id (trailing r) _ (r_body r) Hm') Hc) as
    (c & s' & (n & Hp & _ & _ & Hb) & Hs & Hh & Hk & Hin').
  eexists. split; [apply (answer_taken id n cr c s' r); try done; [|apply Han | destruct Han; lia]|].
  { eapply before_impl; [exact Hb|]. intros ci. apply uw_unfinished. }
  rewrite (wrote_same encoder _ _ _ ltac:(done) H2). split; [apply lookup_delete_eq | by split].
Qed.

(** A server with a request on stream 1 read, and the client that sent it. *)
Definition example_answer : Response :=
  mkResponse 404 (lit "Not Found") [(lit "X-A", lit "1"); (lit "Connection", lit "close")] (lit "gone")
    [(lit "Grpc-Status", lit "5")].
(** The server of the request's example, that request read; the client that
    asked it, its answer on the way. *)
Definition example_replier : t := (pumps 2 Exchange.example_server).2.
Definition example_waiter : t :=
  set_settings_seen true (set_io (mkWire [Got (drop (length (sent example_replier)) (sent (Server.send_answer 1 example_answer example_replier).2))] [] [])
    (Client.send_request (H := Message.plain) 1 (lit "http") Exchange.example_request Exchange.example_client).2).
Definition example_stream : Stream.t := default (Stream.new 0 0) (streams example_waiter !! 1).

Lemma keeps_pumps side n : keeps (ok side) (pumps n).
Proof.
  induction n as [|n IH]; cbn [pumps]; [apply keeps_ret|].
  apply keeps_then; [apply Safety.keeps_pump|]. intros [|]; [exact IH | apply keeps_ret].
Qed.

Lemma example_replier_ok : ok false example_replier.
Proof.
  unfold example_replier. destruct (pumps 2 Exchange.example_server) as [r c] eqn:Hp.
  refine (keeps_run _ _ _ _ _ (keeps_pumps false 2) _ Hp).
  apply (st_seen _ _ _ (ok_stable false)). by apply Safety.initial_ok, wire_octets_check.
Qed.

Lemma example_in_step : Sync.in_step (encoder example_replier) (decoder example_waiter).
Proof.
  assert (encoder example_replier = Encoder.new ENCODER_TABLE true) as -> by (by vm_compute).
  assert (decoder example_waiter = Decoder.new ENCODER_TABLE) as -> by (by vm_compute).
  apply Sync.in_step_new; unfold U32_MAX, ENCODER_TABLE; lia.
Qed.

Lemma answer_arrives_witness :
  exists cs' out, Server.send_answer 1 example_answer example_replier = (Ok tt, cs')
  /\ sent cs' = sent example_replier ++ out
  /\ (carrying (io example_waiter) (out ++ []) ->
      exists cr', Client.read_answer 1 example_waiter = (Ok (Message.as_answered example_answer), cr')
        /\ streams cr' !! 1 = None /\ carrying (io cr') []
        /\ Sync.in_step (encoder cs') (decoder cr')).
Proof.
  apply (answer_arrives 1 example_answer example_replier example_waiter example_stream []).
  - unfold MAX_STREAM_ID; lia.
  - split.
    + apply example_replier_ok.
    + split; [by vm_compute | vm_compute; congruence.. |]. eexists. split; [vm_compute; reflexivity|].
      split_and!; vm_compute; [reflexivity | reflexivity | congruence].
    + vm_compute. congruence.
  - split; vm_compute; first [reflexivity | congruence | split; congruence | split; reflexivity].
  - split.
    + repeat constructor; done.
    + repeat constructor; done.
    + cbn; lia.
    + vm_compute. congruence.
    + vm_compute. congruence.
    + by apply Sync.fields_check.
    + by apply Sync.fields_check.
  - apply example_in_step.
Defined.

Example answer_arrives_by_running :
  (Client.read_answer 1 example_waiter).1 = Ok (Message.as_answered example_answer).
Proof. vm_compute. reflexivity. Qed.

End Answer.
