(* ===== verification/H2Rules.v ===== *)
(** What the reading half does with the frames that end a stream or the
    connection, and what modelling it showed. *)

From Stdlib Require Import String.
From S2P Require Import Prelude Errors Wire HpackTable Hpack H2Frame H2Settings H2Stream Http H2Message H2Connection H2Receive H2Send H2Invariant H2Safety H2Transfer H2Server H2Client.

Module Rules.
Import Conn Receive Invariant Transfer.

(** ** Frames out of turn *)

(** A frame that may not come now: before the peer's settings, in the middle
    of another's header block, on a stream its type is not for, or a push. *)
Definition out_of_turn (c : t) (f : frame) : bool :=
  (negb (settings_seen c) && negb (bool_decide (kind f = Settings)))
  || interrupts c f || wrong_stream f || bool_decide (kind f = PushPromise).

Lemma out_of_turn_breach c f :
  out_of_turn c f = true -> exists v, handle f c = (Err (OnConnection v), c) /\ v_code v = Protocol.
Proof.
  unfold out_of_turn, handle, mthen, mget.
  destruct (negb (settings_seen c) && _); [by eexists|]. destruct (interrupts c f); [by eexists|].
  destruct (wrong_stream f); [by eexists|]. cbn [orb]. intros Hk. apply bool_decide_eq_true in Hk.
  unfold handle_kind. rewrite Hk. by eexists.
Qed.

Lemma fail_wrote {A} v c :
  writable c -> exists c', fail (A := A) v c = (Err (NetError_of v), c')
    /\ wrote (H2.encode (H2.goaway (last_peer c) (v_code v) (v_message v))) (set_going_away true c) c'.
Proof.
  intros Hw. unfold fail, go_away, mthen, mset, mget.
  destruct (emit_wrote (H2.goaway (last_peer c) (v_code v) (v_message v)) (set_going_away true c) Hw) as (c' & He & Hc').
  exists c'. cbn [last_peer set_going_away]. by rewrite He.
Qed.

(** C20. A peer out of turn is sent away: a frame before its settings, inside
    another header block, on a stream its type is not for, or a push, changes
    nothing the connection keeps, is answered with one [GOAWAY] that carries
    [PROTOCOL_ERROR] and the last stream the peer opened, and ends the
    connection with the same breach. *)
Theorem out_of_turn_ends_connection f c :
  writable c -> out_of_turn c f = true ->
  exists v c', answer f c = (Err (NetError_of v), c') /\ v_code v = Protocol
    /\ wrote (H2.encode (H2.goaway (last_peer c) Protocol (v_message v))) (set_going_away true c) c'.
Proof.
  intros Hw Ho. destruct (out_of_turn_breach c f Ho) as (v & Hh & Hc).
  destruct (fail_wrote (A := bool) v c Hw) as (c' & Hf & Hwr). exists v, c'. unfold answer. rewrite Hh. by rewrite <- Hc.
Qed.

Lemma out_of_turn_ends_connection_witness :
  let c := set_continuing (Some (mkContinuing 1 [0x82] true)) (set_settings_seen true (initial (mkWire [] [] []) false)) in
  exists v c', answer (mkFrame Continuation END_HEADERS 3 []) c = (Err (NetError_of v), c') /\ v_code v = Protocol
    /\ wrote (H2.encode (H2.goaway (last_peer c) Protocol (v_message v))) (set_going_away true c) c'.
Proof. apply out_of_turn_ends_connection; reflexivity. Defined.

(** ** Going away *)

(** A stream this side opened. *)
Definition own (c : t) (id : Z) : Prop := (id mod 2 =? 1) = client c.

Lemma goaway_words last code debug :
  0 <= last <= MAX_STREAM_ID -> 0 <= ErrCode.code code <= U32_MAX ->
  H2.word (H2.goaway last code debug) 0 = Some last
  /\ H2.word (H2.goaway last code debug) 4 = Some (ErrCode.code code).
Proof.
  intros Hl Hc. unfold H2.word, H2.goaway. cbn [payload]. rewrite H2.mask_small by done.
  set (tail := be_bytes32 (ErrCode.code code) ++ debug).
  split.
  - change (take 4 (drop 0 (be_bytes32 last ++ tail))) with (be_bytes32 last).
    rewrite of_be_bytes32 by (unfold MAX_STREAM_ID in Hl; lia). done.
  - change (take 4 (drop 4 (be_bytes32 last ++ tail))) with (be_bytes32 (ErrCode.code code)).
    rewrite of_be_bytes32 by (unfold U32_MAX in Hc; lia). done.
Qed.

(** C21. A [GOAWAY] marks exactly what it passed over: the streams of this
    side above the one it names that were not already reset are refused, may
    be sent again on a new connection — the failure says so — and send no
    more; every other stream is as it was, and the frame's code and stream
    are kept. *)
Theorem goaway_passes_over last code debug c :
  settings_seen c = true -> continuing c = None ->
  0 <= last <= MAX_STREAM_ID -> 0 <= ErrCode.code code <= U32_MAX -> ErrCode.known code ->
  exists c', answer (H2.goaway last code debug) c = (Ok true, c')
    /\ goaway c' = Some (last, code)
    /\ forall id s, streams c !! id = Some s ->
       (own c id /\ last < id /\ Stream.reset s = None ->
          streams c' !! id = Some (Stream.set_reset (Some RefusedStream) s)
          /\ exists e, open_window c' id = Err e /\ Errors.io e = Some ConnectionAborted)
       /\ (~ own c id \/ id <= last \/ Stream.reset s <> None -> streams c' !! id = Some s).
Proof.
  intros Hs Hk Hl Hc Hkn. destruct (goaway_words last code debug Hl Hc) as [H0 H4].
  eexists. split; [|split].
  - unfold answer, handle, mthen, mget, interrupts. rewrite Hs, Hk. cbn [negb andb]. unfold wrong_stream.
    cbn [kind H2.goaway stream]. unfold handle_kind. cbn [kind H2.goaway]. unfold goaway_frame.
    rewrite H0, H4, H2.mask_small by done. unfold mthen, mset, mget. reflexivity.
  - cbn [goaway set_streams set_goaway]. by rewrite Hkn.
  - intros id s Hid. cbn [streams set_streams client set_goaway]. unfold open_window.
    cbn [streams set_streams]. rewrite map_lookup_imap, Hid. cbn [mbind option_bind ok_or res_bind]. unfold passed_over, own.
    split.
    + intros (Ho & Hlt & Hr). rewrite Ho, eqb_reflx. destruct (Z.ltb_spec last id); [|lia].
      rewrite bool_decide_eq_true_2 by done. cbn [andb Stream.reset Stream.set_reset]. split; [done|].
      eexists. by split.
    + intros Hor. destruct (Z.ltb_spec last id); cbn [andb]; [|done].
      destruct (Bool.eqb_spec (id mod 2 =? 1) (client c)) as [He|He]; cbn [andb]; [|done].
      rewrite bool_decide_eq_false_2; [done|]. destruct Hor as [Hn | [Hn | Hn]]; [done | lia | done].
Qed.

Lemma goaway_passes_over_witness :
  let c := open 3 (open 1 (set_settings_seen true (initial (mkWire [] [] []) true))) in
  exists c', answer (H2.goaway 1 EnhanceYourCalm (lit "busy")) c = (Ok true, c')
    /\ goaway c' = Some (1, EnhanceYourCalm)
    /\ forall id s, streams c !! id = Some s ->
       (own c id /\ 1 < id /\ Stream.reset s = None ->
          streams c' !! id = Some (Stream.set_reset (Some RefusedStream) s)
          /\ exists e, open_window c' id = Err e /\ Errors.io e = Some ConnectionAborted)
       /\ (~ own c id \/ id <= 1 \/ Stream.reset s <> None -> streams c' !! id = Some s).
Proof.
  apply goaway_passes_over.
  - reflexivity.
  - reflexivity.
  - unfold MAX_STREAM_ID; lia.
  - cbn; unfold U32_MAX; lia.
  - reflexivity.
Defined.

(** ** What modelling showed *)

(** A server that has gone away passes over the streams a client still opens,
    and yet counts the last of them as one it took: a second [GOAWAY], sent
    over a breach, names a stream the first one told the client was not
    processed, and which was not. *)
Lemma goaway_names_a_stream_passed_over id fields e c v :
  writable c -> client c = false -> going_away c = true -> id mod 2 = 1 -> last_peer c < id ->
  streams c !! id = None ->
  exists c1 c2, take_block id fields e c = (Ok tt, c1) /\ streams c1 = streams c
    /\ fail (A := bool) v c1 = (Err (NetError_of v), c2)
    /\ sent c2 = sent c ++ H2.encode (H2.goaway id (v_code v) (v_message v)).
Proof.
  intros Hw Hcl Hg Ho Hlt Hn. set (c1 := set_highest (Z.max (highest c) id) (set_last_peer id c)).
  destruct (fail_wrote (A := bool) v c1 Hw) as (c2 & Hf & [Hs _ _ _ _]). exists c1, c2.
  split; [|split; [done | split; [exact Hf | exact Hs]]].
  unfold take_block. rewrite Hn. unfold open_by_peer, mthen, mget, mset. rewrite Hcl, Ho, Hg. cbn [orb].
  change (1 =? 0) with false. by destruct (Z.leb_spec id (last_peer c)); [lia|].
Qed.

(** A server's wire: the client's settings, then [frames]. *)
Definition served (frames : list frame) : t :=
  initial (mkWire [Got (wire_of (mkFrame Settings 0 0 [] :: frames))] [] []) false.

(** A request that carries a [:status] of 1xx is taken for an interim
    answer: its head is passed over, and the stream, ended, is dropped with
    neither an answer nor a reset. *)
Lemma request_with_a_status_is_dropped :
  let head := (Encoder.encode (Encoder.new 4096 true)
                 [(lit ":method", lit "GET"); (lit ":scheme", lit "http"); (lit ":path", lit "/"); (lit ":status", lit "100")]).1 in
  let '(r, c) := pumps 2 (served [mkFrame Headers (Z.lor END_HEADERS END_STREAM) 1 head]) in
  let '(taken, s) := Server.finished (H := Message.plain) (Server.mkServer c ∅) in
  r = Ok true /\ size (streams c) = 1%nat /\ taken = Ok None
  /\ size (streams (Server.connection s)) = 0%nat
  /\ outgoing (io (Server.connection s)) = H2.encode (mkFrame Settings ACK 0 []).
Proof. vm_compute. done. Qed.

(** A head that is malformed, or over the list limit, ends its stream with
    [RST_STREAM]; but the stream is not counted as opened, so the [DATA] that
    was already on its way is on an idle stream, and ends the connection. *)
Lemma data_after_a_malformed_head_ends_the_connection :
  let head := [0x40; 1; 65; 1; 98] in
  let c := served [mkFrame Headers END_HEADERS 1 head; mkFrame Data END_STREAM 1 (lit "x")] in
  let '(r2, c2) := pumps 2 c in
  let '(r3, c3) := pumps 1 c2 in
  r2 = Ok true
  /\ outgoing (io c2) = H2.encode (mkFrame Settings ACK 0 []) ++ H2.encode (H2.reset 1 Protocol)
  /\ r3 = Err (NetError_of (idle_data 1)).
Proof. vm_compute. done. Qed.

(** A stream this side reset and took off is forgotten: a block that was
    already on its way to it ends the connection. *)
Lemma block_on_a_forgotten_stream id fields e c :
  client c = false -> streams c !! id = None -> id <= last_peer c ->
  take_block id fields e c = (Err (OnConnection (block_on id)), c).
Proof.
  intros Hcl Hn Hl. unfold take_block. rewrite Hn. unfold open_by_peer, mthen, mget. rewrite Hcl. cbn [orb].
  destruct (Z.leb_spec id (last_peer c)); [|lia]. by rewrite orb_true_r.
Qed.

Lemma trailers_after_a_reset_end_the_connection :
  let head := (Encoder.encode (Encoder.new 4096 true) [(lit ":method", lit "GET")]).1 in
  let more := [0x40; 1; 97; 1; 98] in
  let '(r2, c2) := pumps 3 (served [mkFrame Headers END_HEADERS 1 head; mkFrame Headers END_HEADERS 1 more;
                                    mkFrame Headers (Z.lor END_HEADERS END_STREAM) 1 more]) in
  let '(taken, s) := Server.finished (H := Message.plain) (Server.mkServer c2 ∅) in
  let '(r3, _) := pumps 1 (Server.connection s) in
  r2 = Ok true
  /\ outgoing (io c2) = H2.encode (mkFrame Settings ACK 0 []) ++ H2.encode (H2.reset 1 Protocol)
  /\ taken = Ok None /\ r3 = Err (NetError_of (block_on 1)).
Proof. vm_compute. done. Qed.

End Rules.
