(* ===== verification/H2Dues.v ===== *)
(** What one end of a connection owes the other between two calls: the
    [SETTINGS] it opened with, the acknowledgement of the other's, and the
    credit of the windows it has read from. Read before what comes next, they
    change what their reader keeps and nothing it waits for. *)

From Stdlib Require Import String.
From S2P Require Import Prelude Errors Wire HpackTable Hpack H2Frame H2Settings H2Stream H2Connection H2Receive H2Transfer.

Module Dues.
Import Conn Receive Transfer.

Inductive due : Type :=
| Hello
| Ack
| Credit (id n : Z).

Definition frame_of (d : due) : frame :=
  match d with
  | Hello => mkFrame Settings 0 0 (Settings.encode Settings.ours)
  | Ack => mkFrame Settings ACK 0 []
  | Credit id n => H2.window_update id n
  end.
Definition due_wire (ds : list due) : bytes := wire_of (map frame_of ds).

(** What is written back. *)
Definition replies (ds : list due) : list due := omap (fun d => match d with Hello => Some Ack | _ => None end) ds.

Definition more (n : Z) (w : Window.t) : Window.t := Window.mkWindow (Window.left w + n).

(** What reading one changes. *)
Definition settled (d : due) (c : t) : t :=
  match d with
  | Hello => set_settings_seen true (set_remote Settings.ours c)
  | Ack => c
  | Credit id n =>
      if id =? 0 then set_send (more n (send c)) c
      else set_streams (alter (fun s => Stream.set_send (more n (Stream.send s)) s) id (streams c)) c
  end.
Definition settle_all (ds : list due) (c : t) : t := fold_left (fun c d => settled d c) ds c.

(** One its reader has room for. *)
Definition due_ok (d : due) (c : t) : Prop :=
  match d with
  | Hello => remote c = Settings.default /\ Table.max_size (Encoder.table (encoder c)) = 4096
      /\ forall id s, streams c !! id = Some s -> Window.left (Stream.send s) <= MAX_STREAM_ID
  | Ack => settings_seen c = true
  | Credit id n => settings_seen c = true /\ 0 < n <= MAX_STREAM_ID
      /\ (if id =? 0 then Window.left (send c) + n <= MAX_STREAM_ID
          else 0 < id <= highest c /\ highest c <= MAX_STREAM_ID
               /\ forall s, streams c !! id = Some s -> Window.left (Stream.send s) + n <= MAX_STREAM_ID)
  end.
Fixpoint dues_ok (ds : list due) (c : t) : Prop :=
  match ds with
  | [] => True
  | d :: ds => due_ok d c /\ dues_ok ds (settled d c)
  end.

Lemma dues_ok_app a b c : dues_ok (a ++ b) c <-> dues_ok a c /\ dues_ok b (settle_all a c).
Proof. revert c. induction a as [|d a IH]; intros c; cbn [app dues_ok settle_all fold_left]; [tauto|]. rewrite IH. tauto. Qed.

Lemma settle_app a b c : settle_all (a ++ b) c = settle_all b (settle_all a c).
Proof. apply fold_left_app. Qed.

Lemma inner_settled d : inner (settled d).
Proof. intros []. destruct d as [| |id n]; [done..|]. cbn [settled]. by destruct (id =? 0). Qed.

Lemma inner_settle_all ds : inner (settle_all ds).
Proof.
  induction ds as [|d ds IH]; [by intros []|]. exact (inner_compose _ _ IH (inner_settled d)).
Qed.

Lemma dues_ok_core ds : forall c, dues_ok ds (core c) <-> dues_ok ds c.
Proof.
  induction ds as [|d ds IH]; intros c; [done|]. cbn [dues_ok].
  destruct (inner_settled d c) as (_ & _ & <-). rewrite IH. by destruct d.
Qed.

Lemma dues_ok_same ds c c' : core c' = core c -> dues_ok ds c -> dues_ok ds c'.
Proof. intros H. rewrite <- (dues_ok_core ds c), <- (dues_ok_core ds c'). by rewrite H. Qed.

(** ** One read *)

Lemma shift_none (l : list Z) c :
  (forall id s, streams c !! id = Some s -> Window.left (Stream.send s) <= MAX_STREAM_ID) ->
  shift_all 0 l c = (Ok tt, c).
Proof.
  intros H. induction l as [|id l IH]; [done|]. cbn [shift_all]. unfold mthen, on_stream.
  destruct (streams c !! id) as [s|] eqn:Hs; [|exact IH]. unfold on_window, Window.shift.
  rewrite Z.add_0_r. destruct (Z.ltb_spec MAX_STREAM_ID (Window.left (Stream.send s))); [specialize (H _ _ Hs); lia|].
  assert (Stream.set_send (Window.mkWindow (Window.left (Stream.send s))) s = s) as ->.
  { destruct s as [a [b]]. done. }
  rewrite insert_id by done. by destruct c.
Qed.

Lemma ours_applied side : Settings.apply (Settings.encode Settings.ours) side Settings.default = (Ok tt, Settings.ours).
Proof. by destruct side. Qed.

Lemma only_word_update id n : 0 <= n <= MAX_STREAM_ID -> only_word (H2.window_update id n) = Some n.
Proof.
  intros Hn. unfold only_word, H2.window_update. cbn [payload]. rewrite H2.mask_small by done.
  rewrite bool_decide_eq_true_2 by done. unfold H2.word. cbn [payload].
  change (Some (of_be (be_bytes32 n)) = Some n). by rewrite of_be_bytes32 by (unfold MAX_STREAM_ID in Hn; lia).
Qed.

Lemma grant_more n w : 0 < n -> Window.left w + n <= MAX_STREAM_ID -> Window.grant w n = Ok (more n w).
Proof.
  intros Hn Hw. unfold Window.grant, Window.shift. destruct (Z.eqb_spec n 0); [lia|].
  by destruct (Z.ltb_spec MAX_STREAM_ID (Window.left w + n)); [lia|].
Qed.

Lemma due_answered d c :
  due_ok d c -> continuing c = None -> writable c ->
  exists c', answer (frame_of d) c = (Ok true, c') /\ wrote (due_wire (replies [d])) (settled d c) c'.
Proof.
  intros Hd Hk Hw. destruct d as [| |id n]; cbn [due_ok] in Hd.
  - destruct Hd as (Hr & Ht & Hs).
    destruct (emit_wrote (mkFrame Settings ACK 0 []) (settled Hello c) Hw) as (c' & He & Hwr).
    exists c'. split; [|exact Hwr].
    unfold answer, handle, mthen, mget, interrupts. rewrite Hk. cbn [kind frame_of]. rewrite bool_decide_eq_true_2 by done.
    rewrite andb_false_r. unfold wrong_stream. cbn [kind stream Z.eqb negb]. unfold handle_kind. cbn [kind].
    unfold settings. change (H2.has _ ACK) with false. cbn iota. unfold mthen, mget, mmap_err, apply_settings, mset.
    rewrite Hr. cbn [payload]. rewrite ours_applied. cbn [map_err remote set_remote].
    change (_ - _) with 0. rewrite shift_none by done. cbn [map_err encoder set_remote].
    change (Z.min _ 4096) with 4096. unfold Encoder.resize. rewrite Ht. cbn [Z.eqb Pos.eqb negb].
    replace (set_settings_seen true (set_encoder (encoder c) (set_remote Settings.ours c))) with (settled Hello c) by (by destruct c).
    by rewrite He.
  - exists c. split; [|by apply wrote_nothing].
    unfold answer, handle, mthen, mget, interrupts. rewrite Hk, Hd. done.
  - destruct Hd as (Hs & Hn & Hi). exists (settled (Credit id n) c). split; [|by apply wrote_nothing; unfold writable; destruct (inner_settled (Credit id n) c) as (-> & _)].
    unfold answer, handle, mthen, mget, interrupts. rewrite Hk, Hs. cbn [negb andb frame_of].
    change (wrong_stream (H2.window_update id n)) with false. cbn iota. unfold handle_kind. cbn [kind H2.window_update].
    unfold window_update, mthen, mget, mlift. change (mkFrame WindowUpdate 0 id _) with (H2.window_update id n).
    rewrite only_word_update by lia. cbn [ok_or stream H2.window_update]. rewrite H2.mask_small by lia. cbn [settled].
    destruct (id =? 0).
    + unfold mmap_err, on_window. by rewrite grant_more by lia.
    + destruct Hi as (Hi & _ & Hst). unfold idle. destruct (Z.ltb_spec (highest c) id); [lia|].
      unfold on_stream. destruct (streams c !! id) as [s|] eqn:He.
      * unfold mmap_err, on_window. rewrite grant_more by (lia || by apply Hst). cbn [map_err].
        by rewrite (alter_alt_Some _ _ _ _ He).
      * unfold mret. rewrite alter_id' by done. by destruct c.
Qed.

(** ** All of them read *)

(** [ci] is nearer no end than [c]. *)
Definition alike (c ci : t) : Prop :=
  goaway ci = goaway c /\ forall id, Stream.finished <$> streams ci !! id = Stream.finished <$> streams c !! id.

Lemma alike_trans c1 c2 c3 : alike c1 c2 -> alike c2 c3 -> alike c1 c3.
Proof. intros [A1 A2] [B1 B2]. split; [congruence|]. intros id. by rewrite B2, A2. Qed.

Lemma settled_alike d c : alike c (settled d c).
Proof.
  split; [destruct d as [| |id n]; [done..|]; cbn; by destruct (id =? 0)|]. intros i.
  destruct d as [| |id n]; [done..|]. cbn [settled]. destruct (id =? 0); [done|]. cbn [streams set_streams].
  destruct (decide (id = i)) as [->|Hne]; [rewrite lookup_alter_eq | by rewrite lookup_alter_ne].
  by destruct (streams c !! i).
Qed.

Lemma settle_alike ds : forall c, alike c (settle_all ds c).
Proof.
  induction ds as [|d ds IH]; intros c; [by split|]. cbn [settle_all fold_left]. exact (alike_trans _ _ _ (settled_alike d c) (IH _)).
Qed.

Lemma alike_core c ci cj : core cj = core ci -> alike c ci -> alike c cj.
Proof.
  intros Hc [A1 A2]. split.
  - change (goaway (core cj) = goaway c). by rewrite Hc.
  - intros id. change (Stream.finished <$> streams (core cj) !! id = Stream.finished <$> streams c !! id). by rewrite Hc.
Qed.

Lemma due_sendable d c : due_ok d c -> sendable (frame_of d).
Proof.
  destruct d as [| |id n]; cbn [due_ok]; intros H; (split; [done|]); (split; [|vm_compute; congruence || done]); cbn [frame_of stream H2.window_update].
  - unfold MAX_STREAM_ID; lia.
  - unfold MAX_STREAM_ID; lia.
  - destruct H as (_ & _ & H). destruct (Z.eqb_spec id 0); [unfold MAX_STREAM_ID; lia | lia].
Qed.

(** [c'] is [c] with all of [ds] read. *)
Record caught_up (ds : list due) (c c' : t) : Prop := {
  cu_sent : sent c' = sent c ++ due_wire (replies ds);
  cu_core : core c' = core (settle_all ds c);
  cu_writable : writable c';
  cu_held : is_Some (held c) <-> is_Some (held c');
}.

Lemma dues_read ds : forall c k,
  dues_ok ds c -> local c = Settings.ours -> continuing c = None -> writable c ->
  carrying (io c) (due_wire ds ++ k) ->
  exists c', pumps (length ds) c = (Ok true, c') /\ carrying (io c') k /\ caught_up ds c c'
    /\ before (alike c) (length ds) c.
Proof.
  induction ds as [|d ds IH]; intros c k Hds Hl Hk Hw Hc.
  - exists c. split; [done|]. split; [done|]. split; [split; [by rewrite app_nil_r | done..]|]. intros i Hi. cbn in Hi. lia.
  - destruct Hds as [Hd Hds]. unfold due_wire, wire_of in Hc. cbn [map concat] in Hc. rewrite <- (assoc_L (++)) in Hc.
    destruct (pump_any _ _ _ Hl (due_sendable _ _ Hd) Hc) as (w & Hp & Hcw & Ho & Hrf).
    assert (due_ok d (set_io w c)) as Hd' by (by destruct d).
    destruct (due_answered d (set_io w c) Hd' Hk) as (c1 & Ha & Hwr); [unfold writable; cbn; by rewrite Hrf|].
    rewrite Ha in Hp. destruct Hwr as [W1 W2 W3 W4 W5].
    destruct (inner_settled d (set_io w c)) as (S1 & S2 & S3).
    assert (core c1 = core (settled d c)) as Hcore.
    { rewrite W2, S3. destruct (inner_settled d c) as (_ & _ & ->). done. }
    assert (forall A (get : t -> A), (forall c, get (core c) = get c) -> get (settled d c) = get c -> get c1 = get c) as Hsame.
    { intros A get Hg Hs. by rewrite <- (Hg c1), Hcore, Hg. }
    destruct (IH c1 k) as (c' & H1 & H2 & [U1 U2 U3 U4] & H4).
    + by apply (dues_ok_same ds (settled d c)).
    + rewrite (Hsame _ local); [done|done|]. destruct d as [| |id n]; [done..|]. cbn. by destruct (id =? 0).
    + rewrite (Hsame _ continuing); [done|done|]. destruct d as [| |id n]; [done..|]. cbn. by destruct (id =? 0).
    + done.
    + unfold carrying. rewrite W4, S1. exact Hcw.
    + exists c'. cbn [length]. rewrite (pumps_next _ _ _ Hp). split; [done|]. split; [done|]. split.
      * split; [| |done|].
        -- rewrite U1, W1. unfold sent at 1. rewrite S1, S2. cbn. rewrite Ho, <- (assoc_L (++)). f_equal.
           destruct d; unfold due_wire, wire_of; cbn; by rewrite ?app_nil_r.
        -- rewrite U2. cbn [settle_all fold_left]. change (core (settle_all ds c1) = core (settle_all ds (settled d c))).
           destruct (inner_settle_all ds c1) as (_ & _ & ->), (inner_settle_all ds (settled d c)) as (_ & _ & ->). by rewrite Hcore.
        -- rewrite <- U4, <- W5, S2. done.
      * assert (alike c c1) as Hal by exact (alike_core _ _ _ Hcore (settled_alike d c)).
        refine (before_next (alike c) _ _ _ _ Hp _); [done|].
        eapply before_impl; [exact H4|]. intros ci. by apply alike_trans.
Qed.

(** ** Credit *)

(** What a body read gives back, as [credits] writes it. *)
Definition credit_dues (id : Z) (e : bool) (piece : bytes) : list due :=
  if 0 <? len piece then Credit 0 (len piece) :: (if e then [] else [Credit id (len piece)]) else [].
Fixpoint credits_dues (id : Z) (e : bool) (pieces : list bytes) : list due :=
  match pieces with
  | [] => []
  | [piece] => credit_dues id e piece
  | piece :: pieces => credit_dues id false piece ++ credits_dues id e pieces
  end.

Lemma credits_are_due id e pieces : map frame_of (credits_dues id e pieces) = credits id e pieces.
Proof.
  assert (forall e piece, map frame_of (credit_dues id e piece) = credit id e piece) as H1.
  { intros e0 piece. unfold credit_dues, credit. destruct (0 <? len piece); [by destruct e0 | done]. }
  induction pieces as [|p pieces IH]; [done|]. destruct pieces as [|q pieces]; [apply H1|].
  change (map frame_of (credit_dues id false p ++ credits_dues id e (q :: pieces))
    = credit id false p ++ credits id e (q :: pieces)). by rewrite map_app, H1, IH.
Qed.

(** What [ds] give back of [id]; of the connection, where [id] is 0. *)
Definition granted (id : Z) (ds : list due) : Z :=
  foldr (fun d n => match d with Credit i k => if i =? id then k + n else n | _ => n end) 0 ds.

Lemma granted_app id a b : granted id (a ++ b) = granted id a + granted id b.
Proof.
  induction a as [|d a IH]; [done|]. cbn [app granted foldr]. fold (granted id (a ++ b)) (granted id a). rewrite IH.
  destruct d as [| |i n]; [done..|]. destruct (i =? id); lia.
Qed.

Definition credit_ok (top : Z) (d : due) : Prop :=
  match d with Credit i n => 0 < n <= MAX_STREAM_ID /\ 0 <= i <= top | _ => False end.

Lemma credits_dues_fit id e top pieces :
  Forall (fun p => len p <= 16384) pieces -> 0 < id <= top ->
  Forall (credit_ok top) (credits_dues id e pieces)
  /\ granted 0 (credits_dues id e pieces) = len (concat pieces)
  /\ 0 <= granted id (credits_dues id e pieces) <= len (concat pieces).
Proof.
  intros Hp Hid.
  assert (forall e p, len p <= 16384 -> Forall (credit_ok top) (credit_dues id e p)
    /\ granted 0 (credit_dues id e p) = len p /\ 0 <= granted id (credit_dues id e p) <= len p) as H1.
  { clear -Hid. intros e p Hp. pose proof (len_nonneg p). unfold credit_dues.
    destruct (Z.ltb_spec 0 (len p)); [|by unfold granted; cbn; split_and!; [done | lia..]].
    assert (forall i, 0 <= i <= top -> credit_ok top (Credit i (len p))) as Hok by (intros i Hi; cbn; unfold MAX_STREAM_ID; lia).
    destruct e; (split; [repeat first [apply Hok; lia | constructor]|]); unfold granted; cbn [foldr];
      rewrite ?Z.eqb_refl; destruct (Z.eqb_spec 0 id), (Z.eqb_spec id 0); try lia. }
  induction Hp as [|p pieces Hp0 Hp IH]; [done|]. destruct pieces as [|q pieces].
  - cbn [credits_dues concat]. rewrite app_nil_r. by apply H1.
  - destruct (H1 false p Hp0) as (A1 & A2 & A3). destruct IH as (B1 & B2 & B3).
    change (credits_dues id e (p :: q :: pieces)) with (credit_dues id false p ++ credits_dues id e (q :: pieces)).
    change (concat (p :: q :: pieces)) with (p ++ concat (q :: pieces)).
    rewrite !granted_app, len_app. split; [by apply Forall_app_2 | lia].
Qed.

(** Credit read: what it grants is added, stream by stream. *)
Lemma settle_credits top ds : forall c, Forall (credit_ok top) ds ->
  exists m, settle_all ds c = set_streams m (set_send (more (granted 0 ds) (send c)) c)
    /\ forall id, m !! id = (fun s => Stream.set_send (more (if id =? 0 then 0 else granted id ds) (Stream.send s)) s)
                           <$> streams c !! id.
Proof.
  assert (forall w, more 0 w = w) as Hz by (intros [l]; unfold more; cbn; f_equal; lia).
  assert (forall a b w, more b (more a w) = more (a + b) w) as Hm by (intros; unfold more; cbn; f_equal; lia).
  induction ds as [|d ds IH]; intros c Hok.
  - exists (streams c). cbn [granted foldr settle_all fold_left]. rewrite Hz. split; [by destruct c|]. intros id.
    destruct (streams c !! id) as [s|]; [|done]. cbn. f_equal.
    destruct (id =? 0); rewrite Hz; by destruct s.
  - inversion_clear Hok as [|? ? Hd Hds]. destruct d as [| |i n]; [done..|].
    destruct (IH (settled (Credit i n) c) Hds) as (m & H1 & H2). exists m.
    cbn [settle_all fold_left granted foldr]. fold (granted 0 ds). change (fold_left _ ds ?x) with (settle_all ds x).
    rewrite H1. cbn [settled]. destruct (Z.eqb_spec i 0) as [->|Hi]; cbn [settled] in H2.
    + split; [cbn; by rewrite Hm|]. intros id. rewrite Z.eqb_refl in H2. rewrite H2. cbn [streams set_send].
      by destruct (Z.eqb_spec 0 id) as [<-|Hne].
    + split; [done|]. intros id. apply Z.eqb_neq in Hi as Hi'. rewrite Hi' in H2. rewrite H2.
      cbn [streams set_streams]. destruct (Z.eqb_spec i id) as [->|Hne].
      * rewrite lookup_alter_eq, Hi'. destruct (streams c !! id) as [s|]; [|done]. cbn. by rewrite Hm.
      * by rewrite lookup_alter_ne.
Qed.

(** Credit there is room for is taken. *)
Lemma credits_ok ds : forall c,
  Forall (credit_ok (highest c)) ds -> settings_seen c = true -> highest c <= MAX_STREAM_ID ->
  Window.left (send c) + granted 0 ds <= MAX_STREAM_ID ->
  (forall id s, streams c !! id = Some s -> Window.left (Stream.send s) + granted id ds <= MAX_STREAM_ID) ->
  dues_ok ds c.
Proof.
  induction ds as [|d ds IH]; intros c Hok Hse Hhi H0 Hs; [done|]. inversion_clear Hok as [|? ? Hd Hds].
  destruct d as [| |i n]; [done..|]. destruct Hd as [Hn Hi]. cbn [granted foldr] in H0, Hs.
  assert (forall id, 0 <= granted id ds) as Hg.
  { intros id. clear -Hds. induction Hds as [|d ds Hd Hds IH]; [done|]. cbn [granted foldr]. fold (granted id ds).
    destruct d as [| |i n]; [done..|]. destruct Hd. destruct (i =? id); lia. }
  fold (granted 0 ds) in H0. pose proof (Hg 0). split.
  - cbn [due_ok]. split; [done|]. split; [done|]. destruct (Z.eqb_spec i 0) as [->|Hne]; [lia|].
    split; [lia|]. split; [done|]. intros s He. specialize (Hs _ _ He). rewrite Z.eqb_refl in Hs. fold (granted i ds) in Hs.
    specialize (Hg i). lia.
  - cbn [settled]. destruct (Z.eqb_spec i 0) as [->|Hne]; apply IH; try done.
    + cbn. lia.
    + intros id s He. specialize (Hs _ _ He). fold (granted id ds) in Hs. destruct (0 =? id); lia.
    + intros id s He. cbn [streams set_streams] in He. destruct (Z.eqb_spec i id) as [->|Hx].
      * rewrite lookup_alter_eq in He. destruct (streams c !! id) as [s0|] eqn:Hs0; [|done]. injection He as <-.
        specialize (Hs _ _ Hs0). rewrite Z.eqb_refl in Hs. cbn. fold (granted id ds) in Hs. lia.
      * rewrite lookup_alter_ne in He by done. specialize (Hs _ _ He). apply Z.eqb_neq in Hx. by rewrite Hx in Hs.
Qed.

End Dues.
