(* ===== verification/H2Flow.v ===== *)
(** A body over any number of windows. Its sender stops where a window is
    shut, reads what its peer owes it until one is open, and goes on; its
    reader gives each piece back as it takes it. *)

From S2P Require Import Prelude Errors Wire HpackTable Hpack H2Frame H2Settings H2Stream H2Connection H2Receive H2Send H2Invariant H2Safety H2Transfer H2Dues.

Module Flow.
Import Conn Receive Invariant Transfer Dues.

(** A window as it opens, and the frame size of either side's settings. *)
Definition WINDOW : Z := Settings.DEFAULT_WINDOW.
Definition FRAME : nat := Z.to_nat DEFAULT_MAX_FRAME_SIZE.

Lemma FRAME_fits : 0 < Z.of_nat FRAME <= 16384.
Proof. unfold FRAME, DEFAULT_MAX_FRAME_SIZE. rewrite Z2Nat.id by lia. lia. Qed.

Lemma FRAME_is : Z.of_nat FRAME = DEFAULT_MAX_FRAME_SIZE.
Proof. unfold FRAME, DEFAULT_MAX_FRAME_SIZE. by rewrite Z2Nat.id by lia. Qed.

(** ** How a body is cut *)

(** A window at a time, and each to the frame size. *)
Definition cut (b : bytes) : list bytes := concat (map (chunks FRAME) (chunks (Z.to_nat WINDOW) b)).

Definition now (b : bytes) : bytes := ztake WINDOW b.
Definition later (b : bytes) : bytes := zdrop WINDOW b.

(** A body as it is sent. What its sender reads where the window first shuts
    may be its peer's greeting; it is thanked there and then. *)
Definition thanks (greeted : bool) : list due := if greeted then [] else [Ack].
Definition told (id : Z) (e greeted : bool) (b : bytes) : bytes :=
  if bool_decide (later b = []) then wire_of (data_frames id e (cut b))
  else wire_of (data_frames id false (chunks FRAME (now b))) ++ due_wire (thanks greeted)
       ++ wire_of (data_frames id e (cut (later b))).

Lemma WINDOW_is : Z.of_nat (Z.to_nat WINDOW) = 65535.
Proof. unfold WINDOW, Settings.DEFAULT_WINDOW. lia. Qed.

Lemma now_later b : now b ++ later b = b.
Proof. apply take_drop. Qed.

Lemma now_len b : len (now b) = Z.min (len b) WINDOW.
Proof. unfold now, ztake, len. rewrite length_take. pose proof WINDOW_is. unfold WINDOW, Settings.DEFAULT_WINDOW in *. lia. Qed.

Lemma later_len b : len (later b) = Z.max 0 (len b - WINDOW).
Proof. unfold later, zdrop, len. rewrite length_drop. pose proof WINDOW_is. unfold WINDOW, Settings.DEFAULT_WINDOW in *. lia. Qed.

Lemma len_none (b : bytes) : len b <= 0 -> b = [].
Proof. destruct b as [|x b]; [done|]. rewrite len_cons. pose proof (len_nonneg b). lia. Qed.

Lemma len_pos (b : bytes) : b <> [] -> 0 < len b.
Proof. destruct b as [|x b]; [done|]. rewrite len_cons. pose proof (len_nonneg b). lia. Qed.

Lemma later_none b : later b = [] <-> len b <= WINDOW.
Proof.
  pose proof (later_len b) as H. split; intros Hb.
  - rewrite Hb, len_nil in H. lia.
  - apply len_none. lia.
Qed.

Lemma now_some b : b <> [] -> now b <> [].
Proof. intros Hb Hn. pose proof (now_len b) as H. rewrite Hn, len_nil in H. apply len_pos in Hb. unfold WINDOW, Settings.DEFAULT_WINDOW in H. lia. Qed.

Lemma now_full b : later b <> [] -> len (now b) = WINDOW.
Proof. intros Hl. rewrite now_len. apply len_pos in Hl. rewrite later_len in Hl. lia. Qed.

Lemma cut_next b : b <> [] -> cut b = chunks FRAME (now b) ++ cut (later b).
Proof.
  intros Hb. pose proof WINDOW_is. unfold cut. rewrite (chunks_cons (Z.to_nat WINDOW) b ltac:(lia) Hb). reflexivity.
Qed.

Lemma cut_short b : len b <= WINDOW -> cut b = chunks FRAME b.
Proof.
  intros Hb. destruct b as [|x b]; [done|]. apply later_none in Hb as Hl. rewrite cut_next, Hl by done.
  change (cut []) with (@nil bytes). rewrite app_nil_r. f_equal. rewrite <- (now_later (x :: b)) at 2. by rewrite Hl, app_nil_r.
Qed.

Lemma chunks_some (b : bytes) : b <> [] -> chunks FRAME b <> [].
Proof. intros Hb. pose proof FRAME_fits. by rewrite chunks_cons by (done || lia). Qed.

Lemma cut_some b : b <> [] -> cut b <> [].
Proof. intros Hb. rewrite cut_next by done. intros [Hn _]%app_eq_nil. by apply (chunks_some (now b)) in Hn; [|apply now_some]. Qed.

Lemma chunks_fit (l : bytes) : Forall (fun p => len p <= 16384) (chunks FRAME l) /\ concat (chunks FRAME l) = l.
Proof.
  pose proof FRAME_fits. destruct (chunks_concat FRAME l) as [Hc Hf]; [lia|]. split; [|done].
  eapply Forall_impl; [exact Hf|]. cbn. unfold len. intros; lia.
Qed.

Lemma cut_fit (b : bytes) : Forall (fun p => len p <= 16384) (cut b) /\ concat (cut b) = b.
Proof.
  remember (length b) as n eqn:Hn. revert b Hn. induction n as [n IH] using lt_wf_ind. intros b ->.
  destruct (decide (b = [])) as [->|Hb]; [by split|].
  rewrite cut_next by done. destruct (chunks_fit (now b)) as [F1 F2]. apply len_pos in Hb as Hp.
  destruct (IH (length (later b))) with (b := later b) as [G1 G2]; [|done|].
  { pose proof (later_len b) as H. unfold len, WINDOW, Settings.DEFAULT_WINDOW in *. lia. }
  split; [by apply Forall_app_2|]. by rewrite concat_app, F2, G2, now_later.
Qed.

(** What a reader gives back of pieces that end nothing. *)
Definition repaid (id : Z) (pieces : list bytes) : list due := concat (map (credit_dues id false) pieces).

Lemma credits_repaid id e ps qs : qs <> [] ->
  credits_dues id e (ps ++ qs) = repaid id ps ++ credits_dues id e qs.
Proof.
  intros Hq. induction ps as [|p ps IH]; [done|]. cbn [repaid map concat app]. fold (repaid id ps). rewrite <- (assoc_L (++)), <- IH.
  by destruct ps, qs.
Qed.

Lemma data_frames_app id e ps qs : ps <> [] -> qs <> [] ->
  data_frames id e (ps ++ qs) = data_frames id false ps ++ data_frames id e qs.
Proof.
  intros Hp Hq. induction ps as [|p ps IH]; [done|]. destruct ps as [|p2 ps].
  - cbn [app]. by rewrite data_frames_cons.
  - change ((p :: p2 :: ps) ++ qs) with (p :: (p2 :: ps) ++ qs). by rewrite !data_frames_cons, IH by done.
Qed.

Lemma wire_of_cons f fs : wire_of (f :: fs) = H2.encode f ++ wire_of fs.
Proof. done. Qed.

Lemma due_wire_app a b : due_wire (a ++ b) = due_wire a ++ due_wire b.
Proof. unfold due_wire. by rewrite map_app, wire_of_app. Qed.

(** Nothing to thank for: one body, frame after frame. *)
Lemma told_plain id e b : b <> [] -> told id e true b = wire_of (data_frames id e (cut b)).
Proof.
  intros Hb. unfold told. case_bool_decide as Hl; [done|]. cbn [thanks]. rewrite (cut_next b) by done.
  change (due_wire []) with (@nil Z). rewrite app_nil_l, data_frames_app, wire_of_app; [done | by apply chunks_some, now_some | by apply cut_some].
Qed.

(** ** How it is read *)

(** The peer's thanks, where it is read. *)
Lemma thanks_reads g id : body_reads id false (due_wire (thanks g)) [] [].
Proof.
  intros s c k Hroom Hc. pose proof (rf_writable _ _ _ _ Hroom) as Hw. pose proof (rf_stream _ _ _ _ Hroom) as Hst. destruct g.
  { exists 0%nat, c, s. rewrite app_nil_r, insert_id by done. split_and!; try done; [apply Hroom | by apply heard_nothing|]. intros i Hi. lia. }
  destruct (rf_ready _ _ _ _ Hroom) as [Hl Hse].
  destruct (dues_read [Ack] c k) as (c' & Hp & Hk & [U1 U2 U3 U4] & _); try done; [apply Hroom|].
  change (settle_all [Ack] c) with c in U2. change (due_wire (replies [Ack])) with (@nil Z) in U1.
  assert (forall A (get : t -> A), (forall c, get (core c) = get c) -> get c' = get c) as Hs.
  { intros A get Hg. by rewrite <- (Hg c'), U2, Hg. }
  exists 1%nat, c', s. rewrite app_nil_r, insert_id by done. split_and!; try done; [by apply Hs | apply Hroom | by apply Hs | |].
  - split; try done. rewrite U2, (Hs _ streams), (Hs _ decoder) by done. by destruct c.
  - apply before_one. split; [exact (room_unfinished _ _ _ _ Hroom) | done..].
Qed.

Lemma credits_app id e ps qs : qs <> [] -> credits id e (ps ++ qs) = credits id false ps ++ credits id e qs.
Proof.
  intros Hq. induction ps as [|p ps IH]; [done|]. destruct ps as [|p2 ps].
  - destruct qs; [done|]. done.
  - cbn [app]. change (credits id e (p :: (p2 :: ps) ++ qs) = (credit id false p ++ credits id false (p2 :: ps)) ++ credits id e qs).
    rewrite <- (assoc_L (++)), <- IH. done.
Qed.

(** What reading a body gives back, as what it owes. *)
Lemma credits_wire id e b :
  (if bool_decide (b = []) then [] else wire_of (credits id e (cut b))) = due_wire (credits_dues id e (cut b)).
Proof. unfold due_wire. rewrite credits_are_due. case_bool_decide as Hb; [by rewrite Hb | done]. Qed.

(** A body told is read whole. *)
Lemma told_reads id e g b : b <> [] ->
  body_reads id e (told id e g b) (wire_of (credits id e (cut b))) b.
Proof.
  intros Hb. unfold told. case_bool_decide as Hl.
  { destruct (cut_fit b) as [F1 F2]. rewrite <- F2 at 3. apply read_pieces; [by apply cut_some | done]. }
  destruct (chunks_fit (now b)) as [F1 F2], (cut_fit (later b)) as [G1 G2].
  pose proof (read_pieces id false _ (chunks_some _ (now_some _ Hb)) F1) as R1. rewrite F2 in R1.
  pose proof (read_pieces id e _ (cut_some _ Hl) G1) as R2. rewrite G2 in R2.
  rewrite (cut_next b), credits_app, wire_of_app by (done || by apply cut_some).
  rewrite <- (now_later b) at 5. apply body_reads_app; [exact R1|].
  exact (body_reads_app id e _ [] [] _ _ _ (thanks_reads g id) R2).
Qed.

End Flow.
