(* ===== verification/H2Stalls.v ===== *)
(** The sender of a body over any number of windows: what it writes, and
    what it reads of its peer's dues where its windows are shut. *)

From S2P Require Import Prelude Errors Wire HpackTable Hpack H2Frame H2Settings H2Stream H2Connection H2Receive H2Send H2Invariant H2Safety H2Transfer H2Dues H2Flow.

Module Stalls.
Import Conn Receive Invariant Transfer Dues Flow.

(** ** Changes that a due does not mind *)

Definition commutes (F : t -> t) : Prop := forall d c, F (settled d c) = settled d (F c).

Lemma commutes_all F ds : commutes F -> forall c, F (settle_all ds c) = settle_all ds (F c).
Proof. intros HF. induction ds as [|d ds IH]; intros c; [done|]. cbn [settle_all fold_left]. fold (settle_all ds). by rewrite IH, HF. Qed.

Lemma commutes_compose F G : commutes F -> commutes G -> commutes (fun c => F (G c)).
Proof. intros HF HG d c. by rewrite HG, HF. Qed.

Lemma commutes_encoder e : commutes (set_encoder e).
Proof. intros [| |id n] c; [done..|]. cbn [settled]. by destruct (id =? 0). Qed.

(** Changes to one stream that keep each other's part. *)
Lemma alter_swap {A} (f g : A -> A) (i j : Z) (m : gmap Z A) :
  (forall x, f (g x) = g (f x)) -> alter f i (alter g j m) = alter g j (alter f i m).
Proof.
  intros Hfg. destruct (decide (i = j)) as [->|Hne]; [|apply map_eq; intros k; rewrite !lookup_alter; repeat case_decide; by simplify_eq].
  rewrite !alter_alter_eq. apply alter_ext. intros x _. apply Hfg.
Qed.

Lemma commutes_ended id : commutes (ended id).
Proof.
  intros [| |i n] c; [done..|]. cbn [settled]. destruct (i =? 0); [done|]. unfold ended. cbn [streams set_streams].
  by rewrite (alter_swap _ _ id i).
Qed.

Lemma more_less a b w : more b (less a w) = less a (more b w).
Proof. unfold more, less. cbn. f_equal. lia. Qed.

Lemma commutes_spent id k : commutes (spent id k).
Proof.
  intros [| |i n] c; [done..|]. cbn [settled]. destruct (i =? 0).
  - unfold spent. cbn [streams set_streams send set_send]. by rewrite more_less.
  - unfold spent. cbn [streams set_streams send set_send]. rewrite (alter_swap _ _ id i); [done|]. intros s. cbn. by rewrite more_less.
Qed.

Lemma settle_same {A} (get : t -> A) ds : (forall d c, get (settled d c) = get c) -> forall c, get (settle_all ds c) = get c.
Proof. intros Hg. induction ds as [|d ds IH]; intros c; [done|]. cbn [settle_all fold_left]. fold (settle_all ds). by rewrite IH. Qed.

Lemma settled_core d c : core (settled d c) = settled d (core c).
Proof. apply (proj2 (proj2 (inner_settled d c))). Qed.

Lemma settle_core ds c : core (settle_all ds c) = settle_all ds (core c).
Proof. apply (proj2 (proj2 (inner_settle_all ds c))). Qed.

(** ** Written, with what was read meanwhile *)

(** [c'] is [c] after writing [bs] and reading [ds]. *)
Record went (bs : bytes) (ds : list due) (c c' : t) : Prop := {
  wn_sent : sent c' = sent c ++ bs;
  wn_core : core c' = core (settle_all ds c);
  wn_writable : writable c';
  wn_held : is_Some (held c) <-> is_Some (held c');
}.

Lemma wrote_went bs c c' : wrote bs c c' -> went bs [] c c'.
Proof. intros []. by split. Qed.

Lemma caught_up_went ds c c' : caught_up ds c c' -> went (due_wire (replies ds)) ds c c'.
Proof. intros []. by split. Qed.

Lemma went_inner F bs ds c c' : inner F -> commutes F -> went bs ds c c' -> went bs ds (F c) (F c').
Proof.
  intros HF HC [H1 H2 H3 H4]. destruct (HF c) as (I1 & I2 & I3). destruct (HF c') as (J1 & J2 & J3).
  split; unfold sent, writable in *; rewrite ?I1, ?I2, ?J1, ?J2; try done.
  rewrite <- commutes_all, J3, H2 by done. symmetry. apply (proj2 (proj2 (HF _))).
Qed.

Lemma went_trans a b d1 d2 c1 c2 c3 : went a d1 c1 c2 -> went b d2 c2 c3 -> went (a ++ b) (d1 ++ d2) c1 c3.
Proof.
  intros [H1 H2 H3 H4] [G1 G2 G3 G4]. split; [|..|by rewrite H4]; try done.
  - by rewrite G1, H1, (assoc_L (++)).
  - by rewrite G2, settle_app, settle_core, H2, <- settle_core.
Qed.

Lemma went_under F a b d1 d2 c1 c2 c3 :
  inner F -> commutes F -> went a d1 c1 c2 -> went b d2 (F c2) c3 -> went (a ++ b) (d1 ++ d2) (F c1) c3.
Proof. intros HF HC H1 H2. exact (went_trans _ _ _ _ _ _ _ (went_inner F _ _ _ _ HF HC H1) H2). Qed.

Lemma went_get {A} (get : t -> A) bs ds c c' :
  (forall c, get (core c) = get c) -> (forall d c, get (settled d c) = get c) -> went bs ds c c' -> get c' = get c.
Proof. intros Hg Hs [_ H _ _]. by rewrite <- (Hg c'), H, Hg, settle_same. Qed.

(** ** A sender *)

(** One whose windows, its own and its stream's, each have [w] left. *)
Record lent (w id : Z) (c : t) : Prop := {
  ln_writable : writable c;
  ln_local : local c = Settings.ours;
  ln_block : continuing c = None;
  ln_known : 0 < id <= highest c /\ highest c <= MAX_STREAM_ID;
  ln_frame : Settings.max_frame_size (remote c) = DEFAULT_MAX_FRAME_SIZE;
  ln_window : Window.left (send c) = w;
  ln_stream : exists s, streams c !! id = Some s /\ Stream.reset s = None
    /\ State.sending (Stream.state s) = true /\ Window.left (Stream.send s) = w;
}.

Lemma lent_core w id c c' : core c' = core c -> writable c' -> lent w id c -> lent w id c'.
Proof.
  intros Hc Hw [H1 H2 H3 H4 H5 H6 H7].
  assert (forall A (get : t -> A), (forall c, get (core c) = get c) -> get c' = get c) as Hs.
  { intros A get Hg. by rewrite <- (Hg c'), Hc, Hg. }
  split; [done | by rewrite (Hs _ local) | by rewrite (Hs _ continuing) | by rewrite (Hs _ highest)
    | by rewrite (Hs _ remote) | by rewrite (Hs _ send) | by rewrite (Hs _ streams)].
Qed.

Lemma lent_spent w n id c : lent w id c -> lent (w - n) id (spent id n c).
Proof.
  intros [H1 H2 H3 H4 H5 H6 (s & S1 & S2 & S3 & S4)]. split; try done; [cbn; lia|].
  exists (Stream.set_send (less n (Stream.send s)) s). cbn. rewrite lookup_alter_eq, S1. split_and!; try done. cbn. lia.
Qed.

Lemma lent_wrote w n id bs c c' : lent w id c -> wrote bs (spent id n c) c' -> lent (w - n) id c'.
Proof. intros Hl Hw. eapply lent_core; [apply Hw | apply Hw | by apply lent_spent]. Qed.

Definition owed_back (id n : Z) : list due := [Credit 0 n; Credit id n].

Lemma lent_repaid w n id c : lent w id c -> lent (w + n) id (settle_all (owed_back id n) c).
Proof.
  intros [H1 H2 H3 H4 H5 H6 (s & S1 & S2 & S3 & S4)]. unfold owed_back, settle_all. cbn [fold_left settled Z.eqb].
  destruct (Z.eqb_spec id 0); [lia|]. split; try done; [cbn; lia|].
  exists (Stream.set_send (more n (Stream.send s)) s). cbn. rewrite lookup_alter_eq, S1. split_and!; try done. cbn. lia.
Qed.

Lemma lent_open w id c : 0 <= w -> lent w id c -> open_window c id = Ok w.
Proof.
  intros Hw [_ _ _ _ _ H6 (s & S1 & S2 & S3 & S4)]. unfold open_window. rewrite S1. cbn [ok_or res_bind].
  rewrite S2, S3. cbn [negb]. unfold Window.available. rewrite H6, S4. f_equal. lia.
Qed.

Lemma lent_may_send w id c : w <= MAX_STREAM_ID -> lent w id c -> may_send w id c.
Proof. intros Hw [H1 _ _ _ _ H6 (s & S1 & S2 & S3 & S4)]. split; try done; [lia|]. exists s. split_and!; try done. lia. Qed.

(** ** A stall *)

Lemma release_wrote c : writable c ->
  exists c', release c = (Ok tt, c') /\ wrote [] c c' /\ held c' = (fun _ => []) <$> held c.
Proof.
  intros Hw. unfold release. destruct (held c) as [[|b h]|] eqn:Hh; [exists c; split; [done | by split; [apply wrote_nothing|]]| |exists c; split; [done | by split; [apply wrote_nothing|]]].
  unfold writable in Hw. unfold on_io, mthen, mmap_err. cbn [write_all io set_held]. unfold flush, asked. rewrite Hw. cbn [map_err incoming outgoing refusals].
  eexists. split; [done|]. split; [|done]. split; cbn; try done.
  unfold sent. cbn. rewrite Hh. cbn. by rewrite !app_nil_r.
Qed.

(** What is made while writes are held is written as one, or in part where a
    window was shut. *)
Lemma together_went {A} (build : M t NetError A) F a bs ds c c1 :
  inner F -> commutes F -> held c = None -> build (set_held (Some []) c) = (Ok a, c1) ->
  went bs ds (F (set_held (Some []) c)) c1 ->
  exists c', together build c = (Ok a, c') /\ went bs ds (F c) c' /\ incoming (io c') = incoming (io c1) /\ held c' = None.
Proof.
  intros HF HC Hh Hb [H1 H2 H3 H4]. unfold together. rewrite Hb.
  destruct (HF (set_held (Some []) c)) as (I1 & I2 & I3). destruct (HF c) as (J1 & J2 & J3).
  rewrite I2 in H4. destruct H4 as [H4 _]. destruct (H4 ltac:(eauto)) as [h Hc1].
  destruct (release_wrote c1 H3) as (c2 & -> & [W1 W2 W3 W4 _] & Hh2). rewrite Hc1 in Hh2. cbn in Hh2.
  exists (set_held None c2). split; [done|]. split; [split|split; [exact W4 | done]]; cbn.
  - revert W1 H1. unfold sent. rewrite Hh2, Hc1, J1, I1, J2, I2, Hh. cbn. rewrite !app_nil_r. congruence.
  - change (core c2 = core (settle_all ds (F c))). rewrite W2, H2, !settle_core. f_equal. rewrite I3, J3. by destruct c.
  - exact W3.
  - by rewrite J2, Hh.
Qed.

Lemma stall_reads rest d c k :
  due_ok d c -> local c = Settings.ours -> continuing c = None -> writable c ->
  carrying (io c) (due_wire [d] ++ k) ->
  exists c', Send.stall rest c = (Ok (inl rest), c') /\ went (due_wire (replies [d])) [d] c c' /\ carrying (io c') k.
Proof.
  intros Hd Hl Hk Hw Hc. destruct (release_wrote (set_stalls (stalls c + 1) c) Hw) as (c1 & Hr & Hwr & _).
  destruct (dues_read [d] c1 k) as (c2 & Hp & Hk2 & Hcu & _).
  - exact (dues_ok_same [d] c c1 (wrote_core _ _ _ Hwr) (conj Hd I)).
  - by rewrite (wrote_same local _ _ _ ltac:(done) Hwr).
  - by rewrite (wrote_same continuing _ _ _ ltac:(done) Hwr).
  - apply Hwr.
  - unfold carrying. by rewrite (wrote_incoming _ _ _ Hwr).
  - change (length [d]) with 1%nat in Hp. rewrite pumps_one in Hp. exists c2. split; [|split; [|done]].
    + unfold Send.stall, mthen, mset. by rewrite Hr, Hp.
    + change (replies [d]) with ([] ++ replies [d]). change (due_wire ([] ++ replies [d])) with ([] ++ due_wire (replies [d])).
      apply (went_trans _ _ [] [d] _ c1); [|by apply caught_up_went]. destruct Hwr. by split.
Qed.

(** Shut before each of [ds] is read. *)
Fixpoint shut_while (id : Z) (ds : list due) (c : t) : Prop :=
  match ds with
  | [] => True
  | d :: ds => open_window c id = Ok 0 /\ shut_while id ds (settled d c)
  end.

Lemma open_window_core c c' id : core c' = core c -> open_window c' id = open_window c id.
Proof. intros H. change (open_window (core c') id = open_window (core c) id). by rewrite H. Qed.

Lemma shut_while_core id ds : forall c c', core c' = core c -> shut_while id ds c -> shut_while id ds c'.
Proof.
  induction ds as [|d ds IH]; intros c c' Hc; [done|]. intros [H1 H2]. split; [by rewrite (open_window_core c)|].
  apply (IH (settled d c)); [|done]. by rewrite !settled_core, Hc.
Qed.

(** What reads a frame of its peer's at any time. *)
Record hears (c : t) : Prop := {
  hr_local : local c = Settings.ours;
  hr_block : continuing c = None;
  hr_writable : writable c;
}.

Lemma went_hears bs ds c c' : went bs ds c c' -> hears c -> hears c'.
Proof.
  intros Hw [H1 H2 _]. assert (forall A (get : t -> A), (forall c, get (core c) = get c) -> (forall d c, get (settled d c) = get c) -> get c' = get c) as Hs.
  { intros A get Hg Hd. by apply (went_get get bs ds). }
  split; [rewrite (Hs _ local) | rewrite (Hs _ continuing) | apply Hw]; try done;
    intros [| |i n] c0; try done; cbn [settled]; by destruct (i =? 0).
Qed.

Lemma lent_hears w id c : lent w id c -> hears c.
Proof. intros []. by split. Qed.

Section sending.
Context (side : bool) (id : Z) (e : bool).

Definition run : bytes -> M t NetError unit := loop (Send.send_turn id e) Send.send_left Send.shut.

Lemma run_turn rest c : ok side c ->
  run rest c = match Send.send_turn id e rest c with
               | (Ok (inl rest'), c') => run rest' c'
               | (Ok (inr a), c') => (Ok a, c')
               | (Err e, c') => (Err e, c')
               end.
Proof. intros Hc. apply (loop_turn _ _ _ (ok side)); [apply Safety.send_goes_down | exact Hc]. Qed.

(** The dues read while the windows are shut. *)
Lemma stalls_read rest ds : rest <> [] -> forall c k,
  ok side c -> hears c -> dues_ok ds c -> shut_while id ds c ->
  carrying (io c) (due_wire ds ++ k) ->
  exists c', run rest c = run rest c' /\ went (due_wire (replies ds)) ds c c' /\ carrying (io c') k /\ ok side c'.
Proof.
  intros Hrest. induction ds as [|d ds IH]; intros c k Hok [Hl Hk Hw] Hds Hsh Hc.
  { exists c. split; [done|]. split; [|done]. split; try done. by rewrite app_nil_r. }
  destruct Hds as [Hd Hds], Hsh as [Ho Hsh]. change (d :: ds) with ([d] ++ ds) in Hc. rewrite due_wire_app, <- (assoc_L (++)) in Hc.
  destruct (stall_reads rest d c _ Hd Hl Hk Hw Hc) as (c1 & Hs & Hwent & Hc1).
  assert (Send.send_turn id e rest c = (Ok (inl rest), c1)) as Ht.
  { unfold Send.send_turn, mthen, mget, mlift. rewrite Ho.
    destruct (ok_remote _ _ Hok) as (_ & _ & [Hm _] & _). unfold DEFAULT_MAX_FRAME_SIZE in Hm.
    rewrite Z.min_r by lia. rewrite bool_decide_eq_false_2 by done. exact Hs. }
  pose proof (keeps_run _ _ _ _ _ (Safety.keeps_send_turn side id e rest) Hok Ht) as Hok1.
  assert (core c1 = core (settled d c)) as Hcore by apply Hwent.
  destruct (IH c1 k Hok1) as (c2 & R1 & R2 & R3 & R4).
  - by apply (went_hears _ _ _ _ Hwent).
  - by apply (dues_ok_same ds (settled d c)).
  - by apply (shut_while_core id ds (settled d c)).
  - exact Hc1.
  - exists c2. rewrite (run_turn rest c Hok), Ht. split; [done|]. split; [|done].
    change (d :: ds) with ([d] ++ ds). unfold replies. rewrite omap_app, due_wire_app. by apply (went_trans _ _ _ _ _ c1).
Qed.

(** A turn with the windows open: of [b], with [rest] to come, a piece. *)
Lemma piece_sent w b rest c :
  ok side c -> 0 < w <= MAX_STREAM_ID -> lent w id c -> b <> [] ->
  Z.min (len b + len rest) (Z.min DEFAULT_MAX_FRAME_SIZE w) = Z.min (len b) DEFAULT_MAX_FRAME_SIZE ->
  let piece := take FRAME b in
  let after := drop FRAME b ++ rest in
  exists c', run (b ++ rest) c = (if bool_decide (after = []) then (Ok tt, c') else run after c')
    /\ wrote (H2.encode (mkFrame Data (if bool_decide (after = []) && e then END_STREAM else 0) id piece)) (spent id (len piece) c) c'
    /\ lent (w - len piece) id c' /\ ok side c'.
Proof.
  intros Hok Hw Hl Hb Hmin piece after.
  assert (Send.send_turn id e (b ++ rest) c = Send.send_piece id e (Z.min DEFAULT_MAX_FRAME_SIZE w) (b ++ rest) c) as Ht.
  { unfold Send.send_turn, mthen, mget, mlift. rewrite (lent_open w id) by (done || lia). rewrite (ln_frame _ _ _ Hl).
    destruct (Z.eqb_spec (Z.min DEFAULT_MAX_FRAME_SIZE w) 0); [unfold DEFAULT_MAX_FRAME_SIZE in *; lia | done]. }
  assert (len (b ++ rest) = len b + len rest) as Hlen by apply len_app.
  assert (Z.min (len (b ++ rest)) (Z.min DEFAULT_MAX_FRAME_SIZE w) = Z.min (len b) (Z.of_nat FRAME)) as Hn by (by rewrite Hlen, FRAME_is).
  assert (may_send (Z.min (len (b ++ rest)) (Z.min DEFAULT_MAX_FRAME_SIZE w)) id c) as Hms.
  { apply (may_send_less w); [lia|]. apply lent_may_send; [lia | done]. }
  destruct (send_piece_spends id e (Z.min DEFAULT_MAX_FRAME_SIZE w) (b ++ rest) c) as (c' & Hp & Hwr); [unfold DEFAULT_MAX_FRAME_SIZE in *; lia | done|].
  rewrite Hn in Hp, Hwr.
  assert (ztake (Z.min (len b) (Z.of_nat FRAME)) (b ++ rest) = piece /\ zdrop (Z.min (len b) (Z.of_nat FRAME)) (b ++ rest) = after) as [E1 E2].
  { unfold piece, after, ztake, zdrop, len. destruct (Z.min_spec (Z.of_nat (length b)) (Z.of_nat FRAME)) as [[? ->]|[? ->]]; rewrite Nat2Z.id.
    - rewrite take_app_length, drop_app_length, take_ge, drop_ge by lia. done.
    - rewrite take_app_le, drop_app_le by lia. done. }
  rewrite E2 in Hp. rewrite E1, E2 in Hwr. exists c'. rewrite (run_turn _ _ Hok), Ht, Hp. split; [by case_bool_decide|]. split; [done|].
  split; [exact (lent_wrote _ _ _ _ _ _ Hl Hwr)|].
  rewrite <- Ht in Hp. exact (keeps_run _ _ _ _ _ (Safety.keeps_send_turn side id e (b ++ rest)) Hok Hp).
Qed.

(** ** A window, and the next *)

#[local] Opaque FRAME.

Lemma frame_take (b : bytes) : len (take FRAME b) = Z.min (len b) DEFAULT_MAX_FRAME_SIZE.
Proof. unfold len. rewrite length_take. pose proof FRAME_is. lia. Qed.

Lemma frame_drop (b : bytes) : len (drop FRAME b) = Z.max 0 (len b - DEFAULT_MAX_FRAME_SIZE).
Proof. unfold len. rewrite length_drop. pose proof FRAME_is. lia. Qed.

Lemma frame_last (b : bytes) : b <> [] -> drop FRAME b = [] -> take FRAME b = b /\ chunks FRAME b = [b].
Proof.
  intros Hb Hd. pose proof FRAME_fits. assert (take FRAME b = b) as Ht by (rewrite <- (take_drop FRAME b) at 2; by rewrite Hd, app_nil_r).
  split; [done|]. rewrite chunks_cons by (done || lia). by rewrite Ht, Hd.
Qed.

(** The end of the stream is on the last piece of the last window. *)
Definition ends (rest : bytes) : bool := bool_decide (rest = []) && e.

Definition done_or_on (rest : bytes) (c : t) : result NetError unit * t :=
  if bool_decide (rest = []) then (Ok tt, c) else run rest c.

(** A window's octets of a body, the window open to them. *)
Lemma window_sent rest n : forall b c w,
  (length b <= n)%nat -> ok side c -> lent w id c -> b <> [] -> len b <= w <= MAX_STREAM_ID -> (rest <> [] -> len b = w) ->
  exists c', run (b ++ rest) c = done_or_on rest c'
    /\ wrote (wire_of (data_frames id (ends rest) (chunks FRAME b))) (spent id (len b) c) c'
    /\ lent (w - len b) id c' /\ ok side c'.
Proof.
  induction n as [|n IH]; intros b c w Hn Hok Hl Hb Hw Hrest; [destruct b; [done | cbn in Hn; lia]|].
  apply len_pos in Hb as Hp. pose proof (frame_take b) as Ft. pose proof (frame_drop b) as Fd. unfold DEFAULT_MAX_FRAME_SIZE in Ft, Fd.
  destruct (piece_sent w b rest c Hok ltac:(lia) Hl Hb) as (c1 & R1 & W1 & L1 & O1).
  { unfold DEFAULT_MAX_FRAME_SIZE. destruct (decide (rest = [])) as [->|Hne]; [rewrite len_nil; lia|].
    specialize (Hrest Hne). pose proof (len_nonneg rest). lia. }
  pose proof FRAME_fits. destruct (decide (drop FRAME b = [])) as [Hd|Hd].
  - destruct (frame_last b Hb Hd) as [Ht Hc]. rewrite Ht, Hd, app_nil_l in *. exists c1. split; [done|]. rewrite Hc.
    split; [|done]. unfold wire_of. cbn [data_frames map concat]. by rewrite app_nil_r.
  - rewrite (bool_decide_eq_false_2 (drop FRAME b ++ rest = [])) in R1, W1 by (by intros [? _]%app_eq_nil). cbn [andb] in W1.
    destruct (IH (drop FRAME b) c1 _ ltac:(unfold len in *; lia) O1 L1 Hd) as (c2 & R2 & W2 & L2 & O2); [lia | intros Hne; specialize (Hrest Hne); lia|].
    exists c2. rewrite R1. split; [done|]. rewrite (chunks_cons FRAME b), data_frames_cons by (done || lia || by apply chunks_some).
    assert (len b = len (take FRAME b) + len (drop FRAME b)) as Hlen by (by rewrite <- len_app, take_drop).
    split; [|by replace (w - len b) with (w - len (take FRAME b) - len (drop FRAME b)) by lia].
    rewrite Hlen, <- spent_spent, wire_of_cons. exact (wrote_under _ _ _ _ _ _ (inner_spent id _) W1 W2).
Qed.

(** The windows opened again, by what was taken of them. *)
Lemma reopened n rest c k :
  rest <> [] -> 0 < n <= MAX_STREAM_ID -> ok side c -> lent 0 id c -> settings_seen c = true ->
  carrying (io c) (due_wire (owed_back id n) ++ k) ->
  exists c', run rest c = run rest c' /\ went [] (owed_back id n) c c' /\ carrying (io c') k
    /\ ok side c' /\ lent n id c' /\ settings_seen c' = true.
Proof.
  intros Hrest Hn Hok Hl Hse Hc. pose proof Hl as [_ _ _ [Hid Hhi] _ Hw (s & S1 & S2 & S3 & S4)].
  destruct (stalls_read rest (owed_back id n) Hrest c k Hok (lent_hears _ _ _ Hl)) as (c1 & R1 & R2 & R3 & R4); try done.
  - split; [cbn; split_and!; done || lia|]. split; [|done]. cbn [due_ok settled Z.eqb].
    split; [done|]. split; [lia|]. destruct (Z.eqb_spec id 0); [lia|]. cbn. rewrite S1. split_and!; try lia. intros s0 [= <-]. lia.
  - split; [by apply (lent_open 0)|]. split; [|done]. unfold open_window. cbn [settled Z.eqb streams set_send send]. rewrite S1.
    cbn [ok_or res_bind]. rewrite S2, S3. cbn [negb]. unfold Window.available. cbn. rewrite S4. f_equal. lia.
  - exists c1. split; [done|]. split; [done|]. split; [done|]. split; [done|]. split.
    + apply (lent_core n id (settle_all (owed_back id n) c)); [apply R2 | apply R2 |]. by apply (lent_repaid 0).
    + change (settings_seen (core c1) = true). rewrite (wn_core _ _ _ _ R2). unfold owed_back, settle_all. cbn [fold_left settled Z.eqb].
      by destruct (id =? 0).
Qed.

Lemma repaid_cons p ps : p <> [] -> repaid id (p :: ps) = owed_back id (len p) ++ repaid id ps.
Proof.
  intros Hp. apply len_pos in Hp. unfold repaid. cbn [map concat]. unfold credit_dues.
  by destruct (Z.ltb_spec 0 (len p)); [|lia].
Qed.

(** A window's octets of a body, the windows shut, and what was taken of them
    on its way back: piece by piece, as much is sent as is given back. *)
Lemma window_resent rest n : forall b l c k,
  (length b <= n)%nat -> ok side c -> lent 0 id c -> settings_seen c = true ->
  b <> [] -> len b <= len l -> (rest <> [] -> len b = len l) ->
  carrying (io c) (due_wire (repaid id (chunks FRAME l)) ++ k) ->
  exists c' p1 p2, chunks FRAME l = p1 ++ p2 /\ (rest <> [] -> p2 = [])
    /\ run (b ++ rest) c = done_or_on rest c'
    /\ went (wire_of (data_frames id (ends rest) (chunks FRAME b))) (repaid id p1) (spent id (len b) c) c'
    /\ carrying (io c') (due_wire (repaid id p2) ++ k)
    /\ (rest <> [] -> lent 0 id c') /\ ok side c' /\ settings_seen c' = true.
Proof.
  induction n as [|n IH]; intros b l c k Hn Hok Hl Hse Hb Hbl Hrest Hc; [destruct b; [done | cbn in Hn; lia]|].
  apply len_pos in Hb as Hp. pose proof (frame_take b) as Ft. pose proof (frame_drop b) as Fd.
  pose proof (frame_take l) as Gt. pose proof (frame_drop l) as Gd. unfold DEFAULT_MAX_FRAME_SIZE in Ft, Fd, Gt, Gd.
  pose proof FRAME_fits. assert (l <> []) as Hlne by (intros ->; rewrite len_nil in Hbl; lia).
  assert (take FRAME l <> []) as Htl by (intros Hx; rewrite Hx, len_nil in Gt; lia).
  rewrite (chunks_cons FRAME l), repaid_cons, due_wire_app, <- (assoc_L (++)) in Hc by (done || lia).
  set (m := len (take FRAME l)) in *.
  destruct (reopened m (b ++ rest) c _ ltac:(by intros [? _]%app_eq_nil) ltac:(unfold MAX_STREAM_ID; lia) Hok Hl Hse Hc)
    as (c1 & R1 & W1 & K1 & O1 & L1 & S1).
  destruct (piece_sent m b rest c1 O1 ltac:(unfold MAX_STREAM_ID; lia) L1 Hb) as (c2 & R2 & W2 & L2 & O2).
  { unfold DEFAULT_MAX_FRAME_SIZE. destruct (decide (rest = [])) as [->|Hne]; [rewrite len_nil; lia|].
    specialize (Hrest Hne). pose proof (len_nonneg rest). lia. }
  assert (carrying (io c2) (due_wire (repaid id (chunks FRAME (drop FRAME l))) ++ k)) as K2.
  { unfold carrying. by rewrite (wrote_incoming _ _ _ W2). }
  assert (settings_seen c2 = true) as S2 by (by rewrite (wrote_same settings_seen _ _ _ ltac:(done) W2)).
  pose proof (went_trans _ _ _ _ _ _ _ (went_inner _ _ _ _ _ (inner_spent id (len (take FRAME b))) (commutes_spent id _) W1) (wrote_went _ _ _ W2)) as W12.
  rewrite app_nil_l, app_nil_r in W12.
  rewrite R1, (chunks_cons FRAME l) by (done || lia).
  destruct (decide (drop FRAME b = [])) as [Hd|Hd].
  - destruct (frame_last b Hb Hd) as [Ht Hch]. rewrite Ht, Hd, app_nil_l in *. rewrite Hch.
    exists c2, [take FRAME l], (chunks FRAME (drop FRAME l)). split; [done|]. split; [|split; [|split; [|split; [done|split; [|done]]]]].
    + intros Hne. specialize (Hrest Hne). assert (drop FRAME l = []) as -> by (apply len_none; lia). done.
    + exact R2.
    + unfold wire_of. cbn [data_frames map concat]. rewrite app_nil_r, repaid_cons, app_nil_r by done. exact W12.
    + intros Hne. specialize (Hrest Hne). by replace 0 with (m - len b) by lia.
  - assert (len (drop FRAME b) <> 0) as Hd0 by (intros Hx; apply Hd, len_none; lia).
    rewrite (bool_decide_eq_false_2 (drop FRAME b ++ rest = [])) in R2, W12 by (by intros [? _]%app_eq_nil). cbn [andb] in W12.
    replace (m - len (take FRAME b)) with 0 in L2 by lia.
    destruct (IH (drop FRAME b) (drop FRAME l) c2 k ltac:(unfold len in *; lia) O2 L2 S2 Hd) as (c3 & p1 & p2 & P1 & P2 & R3 & W3 & K3 & L3 & O3 & S3);
      [lia | intros Hne; specialize (Hrest Hne); lia | done|].
    exists c3, (take FRAME l :: p1), p2. rewrite R2, R3, P1. split; [done|]. split; [done|]. split; [done|]. split; [|done].
    rewrite (chunks_cons FRAME b), data_frames_cons, repaid_cons by (done || lia || by apply chunks_some).
    assert (len b = len (take FRAME b) + len (drop FRAME b)) as Hlen by (by rewrite <- len_app, take_drop).
    rewrite Hlen, <- spent_spent, wire_of_cons. exact (went_under _ _ _ _ _ _ _ _ (inner_spent id _) (commutes_spent id _) W12 W3).
Qed.

(** The rest of a body, the windows shut and the last of them on its way
    back. *)
Lemma windows_resent n : forall b l c k,
  (length b <= n)%nat -> ok side c -> lent 0 id c -> settings_seen c = true -> b <> [] -> len l = WINDOW ->
  carrying (io c) (due_wire (repaid id (chunks FRAME l) ++ credits_dues id e (cut b)) ++ k) ->
  exists c' p1 p2, chunks FRAME l ++ cut b = p1 ++ p2 /\ p2 <> [] /\ run b c = (Ok tt, c')
    /\ went (wire_of (data_frames id e (cut b))) (repaid id p1) (spent id (len b) c) c'
    /\ carrying (io c') (due_wire (credits_dues id e p2) ++ k) /\ ok side c'.
Proof.
  induction n as [|n IH]; intros b l c k Hn Hok Hl Hse Hb Hll Hc; [destruct b; [done | cbn in Hn; lia]|].
  rewrite due_wire_app, <- (assoc_L (++)) in Hc.
  destruct (window_resent (later b) _ (now b) l c _ (le_n _) Hok Hl Hse (now_some _ Hb) ltac:(rewrite now_len; lia)
    ltac:(intros Hx; rewrite now_full; done) Hc) as (c1 & p1 & p2 & P1 & P2 & R1 & W1 & K1 & L1 & O1 & S1).
  rewrite now_later in R1. unfold done_or_on, ends in *. pose proof (cut_next b Hb) as Hcut. case_bool_decide as Hlast; cbn [andb] in *.
  - rewrite Hlast in Hcut. change (cut []) with (@nil bytes) in Hcut. rewrite app_nil_r in Hcut.
    pose proof (now_later b) as Hnow. rewrite Hlast, app_nil_r in Hnow. rewrite Hnow in *.
    exists c1, p1, (p2 ++ chunks FRAME b). rewrite Hcut. split; [by rewrite P1, (assoc_L (++))|].
    split; [by intros [_ Hx]%app_eq_nil; apply (chunks_some b)|]. split; [done|]. split; [done|]. split; [|done].
    rewrite credits_repaid by (by apply chunks_some). rewrite due_wire_app, <- (assoc_L (++)). by rewrite <- Hcut.
  - rewrite P2 in * by done. rewrite app_nil_r in P1. subst p1. change (due_wire (repaid id [])) with (@nil Z) in K1. rewrite app_nil_l in K1.
    assert (settings_seen c1 = true /\ (length (later b) <= n)%nat) as [_ Hlt].
    { split; [done|]. pose proof (later_len b) as Hx. apply len_pos in Hb. unfold len, WINDOW, Settings.DEFAULT_WINDOW in *. lia. }
    rewrite Hcut, credits_repaid in K1 by (by apply cut_some).
    destruct (IH (later b) (now b) c1 k Hlt O1 (L1 Hlast) S1 Hlast (now_full _ Hlast) K1) as (c2 & q1 & q2 & Q1 & Q2 & R2 & W2 & K2 & O2).
    exists c2, (chunks FRAME l ++ q1), q2. split; [by rewrite Hcut, Q1, (assoc_L (++))|]. split; [done|].
    split; [by rewrite R1|]. split; [|done].
    rewrite Hcut, data_frames_app, wire_of_app by first [by apply chunks_some, now_some | by apply cut_some].
    assert (len b = len (now b) + len (later b)) as Hlen by (by rewrite <- len_app, now_later).
    unfold repaid. rewrite map_app, concat_app, Hlen, <- spent_spent.
    exact (went_under _ _ _ _ _ _ _ _ (inner_spent id _) (commutes_spent id _) W1 W2).
Qed.

(** ** A greeting, where it is read late *)

Definition polite (d : due) : Prop := match d with Credit _ _ => False | _ => True end.

Lemma polite_lent w ds : Forall polite ds -> forall c, lent w id c -> lent w id (settle_all ds c).
Proof.
  induction 1 as [|d ds Hd Hds IH]; intros c Hl; [done|]. cbn [settle_all fold_left]. apply IH. destruct d; [|done..].
  destruct Hl as [H1 H2 H3 H4 H5 H6 H7]. by split.
Qed.

Lemma polite_shut ds : Forall polite ds -> forall c, lent 0 id c -> shut_while id ds c.
Proof.
  induction 1 as [|d ds Hd Hds IH]; intros c Hl; [done|]. split; [by apply (lent_open 0)|].
  apply IH. apply (polite_lent 0 [d]); [by constructor | done].
Qed.

Lemma polite_spent n ds : 0 <= n -> Forall polite ds -> forall c, dues_ok ds c -> dues_ok ds (spent id n c).
Proof.
  intros Hn. induction 1 as [|d ds Hd Hds IH]; intros c; [done|]. intros [H1 H2]. split.
  - destruct d; [|done..]. destruct H1 as (H1 & H3 & H4). split; [done|]. split; [done|]. intros i s. cbn. rewrite lookup_alter.
    case_decide as Hi; [|apply H4]. intros (s0 & Hs & ->)%fmap_Some. apply H4 in Hs. cbn. lia.
  - rewrite <- commutes_spent. by apply IH.
Qed.

(** A body sent, however many windows it takes: what is on its way from its
    reader is read where the windows are shut, and the rest is left. *)
Lemma body_sent g pre b c k :
  ok side c -> lent WINDOW id c -> b <> [] ->
  Forall polite pre -> dues_ok pre c -> settings_seen (settle_all pre c) = true -> replies pre = thanks g ->
  carrying (io c) (due_wire (pre ++ credits_dues id e (cut b)) ++ k) ->
  exists c' ds1 ds2, pre ++ credits_dues id e (cut b) = ds1 ++ ds2 /\ run b c = (Ok tt, c')
    /\ went (told id e g b) ds1 (spent id (len b) c) c'
    /\ carrying (io c') (due_wire ds2 ++ k) /\ ok side c'
    /\ (if bool_decide (later b = []) then ds1 = []
        else exists p1 p2, cut b = p1 ++ p2 /\ p2 <> [] /\ ds1 = pre ++ repaid id p1 /\ ds2 = credits_dues id e p2).
Proof.
  intros Hok Hl Hb Hpre Hds Hse Hre Hc. pose proof (now_len b) as Hnl.
  destruct (window_sent (later b) _ (now b) c WINDOW (le_n _) Hok Hl (now_some _ Hb)) as (c1 & R1 & W1 & L1 & O1);
    [unfold WINDOW, Settings.DEFAULT_WINDOW, MAX_STREAM_ID in *; lia | by intros Hx; apply now_full |].
  assert (carrying (io c1) (due_wire (pre ++ credits_dues id e (cut b)) ++ k)) as K1 by (unfold carrying; by rewrite (wrote_incoming _ _ _ W1)).
  rewrite now_later in R1. unfold done_or_on, ends, told in *. case_bool_decide as Hlast; cbn [andb] in *.
  - pose proof (now_later b) as Hnow. rewrite Hlast, app_nil_r in Hnow. rewrite Hnow in *.
    exists c1, [], (pre ++ credits_dues id e (cut b)). split; [done|]. split; [done|]. split; [|done].
    rewrite cut_short by (by apply later_none). by apply wrote_went.
  - rewrite now_full, Z.sub_diag in L1 by done. rewrite due_wire_app, <- (assoc_L (++)) in K1.
    assert (core c1 = core (spent id (len (now b)) c)) as C1 by apply W1.
    assert (dues_ok pre c1) as Hds1.
    { apply (dues_ok_same pre _ _ C1). apply polite_spent; [apply len_nonneg | done | done]. }
    destruct (stalls_read (later b) pre Hlast c1 _ O1 (lent_hears _ _ _ L1) Hds1 (polite_shut _ Hpre _ L1) K1) as (c2 & R2 & W2 & K2 & O2).
    rewrite Hre in W2.
    assert (lent 0 id c2) as L2 by (apply (lent_core 0 id (settle_all pre c1)); [apply W2 | apply W2 | by apply polite_lent]).
    assert (settings_seen c2 = true) as S2.
    { change (settings_seen (core c2) = true). rewrite (wn_core _ _ _ _ W2), settle_core, C1, <- settle_core, <- commutes_all by apply commutes_spent. exact Hse. }
    rewrite (cut_next b), credits_repaid in K2 by (done || by apply cut_some).
    destruct (windows_resent _ (later b) (now b) c2 k (le_n _) O2 L2 S2 Hlast (now_full _ Hlast) K2) as (c3 & p1 & p2 & P1 & P2 & R3 & W3 & K3 & O3).
    assert (cut b = p1 ++ p2) as Hcut by (by rewrite (cut_next b)).
    exists c3, (pre ++ repaid id p1), (credits_dues id e p2). rewrite Hcut, credits_repaid, <- (assoc_L (++)) by done.
    split; [done|]. split; [by rewrite R1, R2|]. split; [|split; [done|split; [done|by exists p1, p2]]].
    assert (len b = len (now b) + len (later b)) as Hlen by (by rewrite <- len_app, now_later).
    rewrite Hlen, <- spent_spent.
    apply (went_under (spent id (len (later b))) _ _ [] _ _ c1 _ (inner_spent id _) (commutes_spent id _)); [by apply wrote_went|].
    exact (went_under (spent id (len (later b))) _ _ _ _ _ _ _ (inner_spent id _) (commutes_spent id _) W2 W3).
Qed.

End sending.

End Stalls.
