(* ===== verification/H2Call.v ===== *)
(** One call over a kept connection: what each end does of it, from rest to
    rest. The client opens a stream, writes its request, and reads what the
    server owes it and then the answer; the server reads what the client owes
    it and then the request, and writes the answer. *)

From Stdlib Require Import String.
From S2P Require Import Prelude Errors Wire HpackInteger HpackTable Hpack H2Frame H2Settings H2Stream Http H2Message H2Connection H2Receive H2Send H2Invariant H2Safety H2Transfer H2Server H2Client H2Exchange H2Serving H2Answer H2Dues H2Flow H2Stalls.

Module Call.
Import Conn Receive Invariant Transfer Dues Flow Stalls.

(** ** A connection at rest *)

(** One end with no stream open, whose next is [id]; [greeted] says whether
    it has read its peer's [SETTINGS]. *)
Record at_rest (side greeted : bool) (id : Z) (c : t) : Prop := {
  ar_ok : ok side c;
  ar_block : continuing c = None;
  ar_writable : writable c;
  ar_held : held c = None;
  ar_streams : streams c = ∅;
  ar_goaway : goaway c = None;
  ar_staying : going_away c = false;
  ar_seen : settings_seen c = greeted;
  ar_remote : remote c = if greeted then Settings.ours else Settings.default;
  ar_table : Table.max_size (Encoder.table (encoder c)) = 4096;
  ar_receive : 16384 <= Window.left (receive c);
  ar_highest : highest c < id;
  ar_last : last_peer c = if side then 0 else Z.max 0 (id - 2);
}.

(** [c] after a call: what of it may have changed. *)
Definition moved_on (h l : Z) (ws : Window.t) (e : Encoder.t) (d : Decoder.t) (c : t) : t :=
  set_settings_seen true (set_remote Settings.ours
    (set_streams ∅ (set_send ws (set_encoder e (set_decoder d (set_highest h (set_last_peer l c))))))).

Lemma core_get {A} (get : t -> A) c c' : (forall c, get (core c) = get c) -> core c' = core c -> get c' = get c.
Proof. intros Hg H. by rewrite <- (Hg c'), H. Qed.

Lemma rest_again side g id id' h l ws e d c c' :
  at_rest side g id c -> ok side c' -> writable c' -> held c' = None ->
  core c' = core (moved_on h l ws e d c) ->
  Table.max_size (Encoder.table e) = 4096 -> h < id' -> l = (if side then 0 else Z.max 0 (id' - 2)) ->
  at_rest side true id' c' /\ Window.left (send c') = Window.left ws /\ encoder c' = e /\ decoder c' = d.
Proof.
  intros [] Hok Hw Hh Hc He Hlt Hl.
  pose proof (fun A (get : t -> A) Hg => core_get get _ _ Hg Hc) as Hs.
  split; [split|]; try done.
  - by rewrite (Hs _ continuing).
  - by rewrite (Hs _ streams).
  - by rewrite (Hs _ goaway).
  - by rewrite (Hs _ going_away).
  - by rewrite (Hs _ settings_seen).
  - by rewrite (Hs _ remote).
  - by rewrite (Hs _ encoder).
  - by rewrite (Hs _ receive).
  - by rewrite (Hs _ highest).
  - by rewrite (Hs _ last_peer).
  - by rewrite (Hs _ send), (Hs _ encoder), (Hs _ decoder).
Qed.

(** ** What a call leaves alone *)

(** Compressing does not change a table's size. *)
Lemma encode_max e fields : Table.wf (Encoder.table e) ->
  Table.wf (Encoder.table (Encoder.encode e fields).2)
  /\ Table.max_size (Encoder.table (Encoder.encode e fields).2) = Table.max_size (Encoder.table e).
Proof.
  assert (forall e, Table.wf (Encoder.table e) -> Table.wf (Encoder.table (Encoder.encode_fields e fields).2)
    /\ Table.max_size (Encoder.table (Encoder.encode_fields e fields).2) = Table.max_size (Encoder.table e)) as Hf.
  { induction fields as [|[name value] fields IH]; intros e0 H0; [done|]. cbn [Encoder.encode_fields].
    assert (Table.wf (Encoder.table (Encoder.encode_field e0 (name, value)).2)
      /\ Table.max_size (Encoder.table (Encoder.encode_field e0 (name, value)).2) = Table.max_size (Encoder.table e0)) as [H1 H2].
    { unfold Encoder.encode_field. destruct (Table.insert_newest_core _ name value H0) as (_ & Hw & Hm & _).
      by destruct (Table.find _ name value) as [[i|i]|]. }
    destruct (Encoder.encode_field e0 (name, value)) as [out e1]. cbn [snd] in *. destruct (IH e1 H1) as [H3 H4].
    destruct (Encoder.encode_fields e1 fields). cbn [snd] in *. by rewrite H4. }
  intros He. unfold Encoder.encode. specialize (Hf (Encoder.mkEncoder (Encoder.table e) (Encoder.huffman e) None) He).
  by destruct (Encoder.encode_fields _ fields).
Qed.

Lemma answer_encoder_max e r : Table.wf (Encoder.table e) ->
  Table.max_size (Encoder.table (Answer.answer_encoder e r)) = Table.max_size (Encoder.table e).
Proof.
  intros He. unfold Answer.answer_encoder. destruct (encode_max e (Message.response_fields r) He) as [H1 H2].
  destruct (Encoder.encode e (Message.response_fields r)) as [b e1]. cbn [snd] in *. destruct (Answer.trailing r); [done|].
  by rewrite (proj2 (encode_max e1 _ H1)).
Qed.

Section keeping.
Context `{Percent}.

Lemma keeps_send_request id scheme r : keeps (ok true) (Client.send_request id scheme r).
Proof.
  unfold Client.send_request. keep; [apply (keeps_send_headers _ _ _ (ok_stable true)) | apply Safety.keeps_send_data].
Qed.

Lemma keeps_remove_stream id : keeps (ok true) (Client.remove_stream id).
Proof. apply keeps_set. intros c Hc. by apply Safety.ok_removed. Qed.

Lemma keeps_read_answer id : keeps (ok true) (Client.read_answer id).
Proof.
  unfold Client.read_answer. keep.
  - apply keeps_loop. intros u. unfold Client.answer_turn. keep; [apply Safety.keeps_pump | apply keeps_remove_stream].
  - apply keeps_remove_stream.
Qed.

Lemma keeps_send_answer id r : keeps (ok false) (Server.send_answer id r).
Proof.
  unfold Server.send_answer. keep; try apply (keeps_send_headers _ _ _ (ok_stable false)). apply Safety.keeps_send_data.
Qed.

End keeping.

(** ** The client's end *)

(** What a side that has not been greeted owes. *)
Definition greeting (greeted : bool) : list due := if greeted then [] else [Hello].

(** What the server owes while a request is read of it. *)
Definition down_dues (id : Z) (greeted : bool) (body : bytes) : list due :=
  greeting greeted ++ thanks greeted ++ credits_dues id true (cut body).

(** The thanks a client has not given on its way through [body]: where a
    window shuts, it reads the greeting there. *)
Definition thanks_left (greeted : bool) (body : bytes) : list due :=
  if bool_decide (later body = []) then thanks greeted else [].

(** What the client owes once an answer is read. *)
Definition up_dues (id : Z) (greeted : bool) (body : bytes) (r : Response) : list due :=
  thanks_left greeted body ++ credits_dues id (Answer.trailing r) (cut (r_body r)).

(** Greeted and thanked. *)
Definition met (c : t) : t := set_settings_seen true (set_remote Settings.ours c).

Lemma greeting_settled g c :
  settings_seen c = g -> remote c = (if g then Settings.ours else Settings.default) ->
  settle_all (greeting g ++ thanks g) c = met c.
Proof. intros Hs Hr. destruct g; [|done]. destruct c. cbn in *. by subst. Qed.

Lemma greeting_ok g c :
  settings_seen c = g -> remote c = (if g then Settings.ours else Settings.default) ->
  Table.max_size (Encoder.table (encoder c)) = 4096 ->
  (forall id s, streams c !! id = Some s -> Window.left (Stream.send s) <= MAX_STREAM_ID) ->
  dues_ok (greeting g ++ thanks g) c.
Proof. intros Hs Hr Ht Hw. by destruct g. Qed.

(** The client's stream, its request sent. *)
Definition asked_stream (n : Z) : Stream.t :=
  Stream.mkStream HalfClosedLocal (less n (Window.new WINDOW)) (Window.new WINDOW) None [] [] None.

(** The client, its request sent. *)
Definition asked (id n : Z) (e : Encoder.t) (c : t) : t :=
  set_send (less n (send c)) (set_streams {[id := asked_stream n]} (set_highest id (set_encoder e c))).

Lemma open_at_rest g id c :
  at_rest true g id c -> open id c = set_streams {[id := Stream.new WINDOW WINDOW]} (set_highest id c).
Proof.
  intros [[] ? ? ? Hs ? ? ? Hr ? ? Hh ?]. unfold open. cbn [streams set_highest remote local].
  rewrite Hs, lookup_empty, Hr, ok_local0, Z.max_r by lia. by destruct g.
Qed.

Lemma asked_at_rest g id n e c :
  at_rest true g id c -> ended id (spent id n (set_encoder e (open id c))) = asked id n e c.
Proof.
  intros Hc. rewrite (open_at_rest g) by done. unfold ended, spent, asked. cbn. f_equal.
  rewrite <- !insert_empty, !alter_insert_eq. done.
Qed.

Lemma credit_no_reply top ds : Forall (credit_ok top) ds -> replies ds = [].
Proof. induction 1 as [|d ds Hd Hds IH]; [done|]. by destruct d. Qed.

Lemma replies_app a b : replies (a ++ b) = replies a ++ replies b.
Proof. apply omap_app. Qed.

Lemma cut_no_reply id e b : 0 < id -> replies (credits_dues id e (cut b)) = [].
Proof. intros Hid. eapply credit_no_reply, (credits_dues_fit id e id); [apply cut_fit | lia]. Qed.

Section client.
Context `{Percent}.

(** A request as it is written. *)
Definition request_said (id : Z) (enc : Encoder.t) (greeted : bool) (scheme : bytes) (r : Request) : bytes :=
  Exchange.request_with id FRAME enc scheme r (told id true greeted (body r)).

(** An answer as it is written; the thanks are the client's to give. *)
Definition answer_said (id : Z) (enc : Encoder.t) (r : Response) : bytes :=
  Answer.answer_with id FRAME enc r (told id (Answer.trailing r) true (r_body r)).

Lemma polite_greeting g : Forall polite (greeting g ++ thanks g).
Proof. destruct g; repeat constructor. Qed.

(** It is written, the greeting and its thanks on their way. *)
Lemma request_goes id scheme r g c k :
  ok true c -> lent WINDOW id c ->
  settings_seen c = g -> remote c = (if g then Settings.ours else Settings.default) ->
  Table.max_size (Encoder.table (encoder c)) = 4096 ->
  (forall i s, streams c !! i = Some s -> Window.left (Stream.send s) <= MAX_STREAM_ID) ->
  carrying (io c) (due_wire (down_dues id g (body r)) ++ k) ->
  let e := (Encoder.encode (encoder c) (Message.request_fields scheme r)).2 in
  exists c' ds1 ds2, down_dues id g (body r) = ds1 ++ ds2 /\ Client.send_request id scheme r c = (Ok tt, c')
    /\ went (request_said id (encoder c) g scheme r) ds1 (ended id (spent id (len (body r)) (set_encoder e c))) c'
    /\ carrying (io c') (due_wire ds2 ++ k) /\ replies ds2 = thanks_left g (body r).
Proof.
  intros Hok Hl Hse Hrm Htb Hst Hc e. unfold e, request_said, Exchange.request_with, Client.send_request. set (fields := Message.request_fields scheme r).
  pose proof (ln_known _ _ _ Hl) as [Hid _].
  pose proof (headers_wrote c id fields (bool_decide (body r = [])) (ln_writable _ _ _ Hl)) as Hh. rewrite (ln_frame _ _ _ Hl) in Hh.
  pose proof (proj2 (encode_max _ fields (proj1 (ok_encoder _ _ Hok)))) as Hmax. rewrite Htb in Hmax.
  fold FRAME in Hh. destruct (Encoder.encode (encoder c) fields) as [blk en]. cbn [fst snd]. destruct Hh as (c1 & H1 & W1).
  unfold mthen. rewrite H1. assert (replies (greeting g ++ thanks g) = thanks g) as Hre by (by destruct g).
  assert (carrying (io c1) (due_wire (down_dues id g (body r)) ++ k)) as Hc1 by (unfold carrying; rewrite (wrote_incoming _ _ _ W1); by case_bool_decide).
  case_bool_decide as Hb; cbn [negb].
  - exists c1, [], (down_dues id g (body r)). split; [done|]. split; [done|]. rewrite Hb, len_nil, spent_nothing, app_nil_r.
    split; [by apply wrote_went|]. split; [by rewrite <- Hb|].
    unfold down_dues, thanks_left. rewrite (assoc_L (++)), replies_app, Hre, cut_no_reply, app_nil_r by lia. done.
  - assert (ok true c1) as Hok1 by exact (keeps_run _ _ _ _ _ (keeps_send_headers _ _ _ (ok_stable true) id fields false) Hok H1).
    assert (lent WINDOW id c1) as L1 by (eapply (lent_core _ _ (set_encoder en c)); [apply W1 | apply W1 | by destruct Hl; split]).
    destruct (body_sent true id true g (greeting g ++ thanks g) (body r) c1 k Hok1 L1 Hb (polite_greeting g)) as (c2 & ds1 & ds2 & P & R2 & W2 & K2 & _ & Q).
    { apply (dues_ok_same _ (set_encoder en c)); [apply W1|]. by apply greeting_ok. }
    { rewrite greeting_settled; [done | by rewrite (wrote_same settings_seen _ _ _ ltac:(done) W1) | by rewrite (wrote_same remote _ _ _ ltac:(done) W1)]. }
    { exact Hre. }
    { rewrite <- (assoc_L (++)). exact Hc1. }
    unfold Send.send_data, mthen. fold (run id true). rewrite R2, ended_there. exists (ended id c2), ds1, ds2.
    unfold down_dues. rewrite (assoc_L (++)). split; [done|]. split; [done|].
    split; [|split; [done|]].
    + apply (went_inner (ended id)); [apply inner_ended | apply commutes_ended|].
      apply (went_under (spent id (len (body r))) _ _ [] ds1 _ c1); [apply inner_spent | apply commutes_spent | by apply wrote_went | done].
    + unfold thanks_left. case_bool_decide as Hlast.
      * subst ds1. rewrite app_nil_l in P. by rewrite <- P, replies_app, Hre, cut_no_reply, app_nil_r by lia.
      * destruct Q as (p1 & p2 & Hcut & Hp2 & _ & ->). eapply credit_no_reply, (credits_dues_fit id true id); [|lia].
        destruct (cut_fit (body r)) as [F _]. rewrite Hcut in F. by apply Forall_app in F as [_ F].
Qed.

(** From rest. *)
Lemma asks scheme r g id c k :
  at_rest true g id c -> 0 < id <= MAX_STREAM_ID -> Window.left (send c) = WINDOW ->
  carrying (io c) (due_wire (down_dues id g (body r)) ++ k) ->
  exists c' ds1 ds2, down_dues id g (body r) = ds1 ++ ds2
    /\ together (Client.send_request id scheme r) (open id c) = (Ok tt, c')
    /\ went (request_said id (encoder c) g scheme r) ds1
         (asked id (len (body r)) (Encoder.encode (encoder c) (Message.request_fields scheme r)).2 c) c'
    /\ carrying (io c') (due_wire ds2 ++ k) /\ replies ds2 = thanks_left g (body r) /\ held c' = None.
Proof.
  intros Hc Hid Hw Hcar. pose proof (open_at_rest _ _ _ Hc) as Ho. pose proof (ar_ok _ _ _ _ Hc) as Hok.
  set (co := set_held (Some []) (open id c)).
  assert (encoder co = encoder c) as He by (unfold co; by rewrite Ho).
  assert (remote co = if g then Settings.ours else Settings.default) as Hr by (unfold co; rewrite Ho; apply Hc).
  assert (lent WINDOW id co) as Hl.
  { unfold co. rewrite Ho. split; cbn; try apply Hc; [lia | rewrite (ar_remote _ _ _ _ Hc); by destruct g | done |].
    eexists. rewrite lookup_singleton_eq. by split_and!. }
  assert (settings_seen co = g) as Hs by (unfold co; rewrite Ho; apply Hc).
  destruct (request_goes id scheme r g co k) as (c1 & ds1 & ds2 & P & R & W & K & Q).
  - apply (st_held _ _ _ (ok_stable true)), Safety.ok_open; [apply Hc | done].
  - exact Hl.
  - exact Hs.
  - exact Hr.
  - rewrite He. apply Hc.
  - unfold co. rewrite Ho. cbn. intros i s Hi.
    apply lookup_singleton_Some in Hi as [_ <-]. cbn. unfold WINDOW, Settings.DEFAULT_WINDOW, MAX_STREAM_ID. lia.
  - unfold co. by rewrite Ho.
  - rewrite He in W.
    destruct (together_went (Client.send_request id scheme r)
      (fun c0 => ended id (spent id (len (body r)) (set_encoder (Encoder.encode (encoder c) (Message.request_fields scheme r)).2 c0)))
      tt (request_said id (encoder c) g scheme r) ds1 (open id c) c1) as (c' & H3 & H4 & H5 & H6); [| |rewrite Ho; by apply (ar_held _ _ _ _ Hc) | done | done |].
    + apply (inner_compose (ended id)); [apply inner_ended|]. apply (inner_compose (spent id _)); [apply inner_spent | apply inner_encoder].
    + apply (commutes_compose (ended id)); [apply commutes_ended|]. apply (commutes_compose (spent id _)); [apply commutes_spent | apply commutes_encoder].
    + exists c', ds1, ds2. split; [done|]. split; [done|]. split; [by rewrite <- (asked_at_rest g)|].
      split; [|done]. unfold carrying. by rewrite H5.
Qed.

(** The client, the server's dues read. *)
Definition awaiting_stream (sw : Window.t) : Stream.t :=
  Stream.mkStream HalfClosedLocal sw (Window.new WINDOW) None [] [] None.
Definition caught (id : Z) (ws sw : Window.t) (e : Encoder.t) (c : t) : t :=
  met (set_send ws (set_streams {[id := awaiting_stream sw]} (set_highest id (set_encoder e c)))).

Lemma caught_moved id ws sw e d c :
  set_streams ∅ (set_decoder d (core (caught id ws sw e c))) = core (moved_on id (last_peer c) ws e d c).
Proof. by destruct c. Qed.

(** What the server owes settles the client's window: its body's octets are
    given back. *)
Lemma down_dues_settle g id b e c :
  at_rest true g id c -> 0 < id <= MAX_STREAM_ID -> Window.left (send c) = WINDOW ->
  Table.max_size (Encoder.table e) = 4096 ->
  let X := asked id (len b) e c in
  dues_ok (down_dues id g b) X /\ replies (down_dues id g b) = thanks g
  /\ exists ws sw, Window.left ws = WINDOW /\ settle_all (down_dues id g b) X = caught id ws sw e c.
Proof.
  intros Hc Hid Hw He X. destruct (cut_fit b) as [Hfit Hcat].
  destruct (credits_dues_fit id true id _ Hfit ltac:(lia)) as (F1 & F2 & F3). rewrite Hcat in F2, F3.
  set (cs := credits_dues id true (cut b)) in *. pose proof (len_nonneg b) as Hn.
  unfold WINDOW, Settings.DEFAULT_WINDOW in Hw.
  assert (settle_all (greeting g ++ thanks g) X = met X) as Hmet by (apply greeting_settled; apply Hc).
  assert (forall i s, streams X !! i = Some s -> i = id /\ s = asked_stream (len b)) as Hst.
  { intros i s Hs. unfold X, asked in Hs. cbn [streams set_streams set_send] in Hs.
    by apply lookup_singleton_Some in Hs as [-> <-]. }
  unfold down_dues. rewrite !(assoc_L (++)). fold cs. split; [|split].
  - apply dues_ok_app. split.
    + apply greeting_ok; try apply Hc; [done|]. intros i s Hs. apply Hst in Hs as [_ ->].
      cbn. unfold WINDOW, Settings.DEFAULT_WINDOW, MAX_STREAM_ID. lia.
    + rewrite Hmet. apply credits_ok; try done; [cbn; lia | cbn; unfold MAX_STREAM_ID; lia|].
      intros i s Hs. apply Hst in Hs as [-> ->]. cbn. unfold WINDOW, Settings.DEFAULT_WINDOW, MAX_STREAM_ID. lia.
  - unfold replies. rewrite omap_app. change (omap _ cs) with (replies cs). rewrite (credit_no_reply _ _ F1). by destruct g.
  - rewrite settle_app, Hmet. destruct (settle_credits id cs (met X) F1) as (m & -> & Hm). rewrite F2.
    exists (more (len b) (less (len b) (send c))).
    exists (more (granted id cs) (less (len b) (Window.new WINDOW))). split; [cbn; unfold WINDOW, Settings.DEFAULT_WINDOW; lia|].
    assert (m = {[id := awaiting_stream (more (granted id cs) (less (len b) (Window.new WINDOW)))]}) as ->; [|done].
    apply map_eq. intros i. rewrite Hm. cbn. destruct (decide (i = id)) as [->|Hne].
    + rewrite !lookup_singleton_eq. cbn. destruct (Z.eqb_spec id 0); [lia|]. done.
    + by rewrite !lookup_singleton_ne.
Qed.

(** What the server still owes is read before its answer, the client still
    waiting. *)
Lemma client_waits g id b na e bs ds1 ds2 c c2 k :
  at_rest true g id c -> 0 < id <= MAX_STREAM_ID -> Window.left (send c) = WINDOW -> na <= MAX_BODY ->
  Table.max_size (Encoder.table e) = 4096 -> down_dues id g b = ds1 ++ ds2 ->
  went bs ds1 (asked id (len b) e c) c2 -> carrying (io c2) (due_wire ds2 ++ k) ->
  exists m c3 ws sw, pumps m c2 = (Ok true, c3) /\ carrying (io c3) k
    /\ Answer.awaiting id na (awaiting_stream sw) c3 /\ before (unfinished id) m c2
    /\ caught_up ds2 c2 c3
    /\ core c3 = core (caught id ws sw e c) /\ Window.left ws = WINDOW.
Proof.
  intros Hc Hid Hw Hna He Hds Hwr Hcar. set (X := asked id (len b) e c) in *.
  destruct (down_dues_settle g id b e c Hc Hid Hw He) as (D1 & D2 & ws & sw & Hws & D3). fold X in D1, D3.
  rewrite Hds in D1, D3. rewrite settle_app in D3. apply dues_ok_app in D1 as [_ D1].
  pose proof (wn_core _ _ _ _ Hwr) as Hcore.
  assert (forall A (get : t -> A), (forall c, get (core c) = get c) -> get c2 = get (settle_all ds1 X)) as Hs2.
  { intros A get Hg. by apply (core_get get _ _ Hg). }
  assert (hears X) as HX by (split; [apply (ok_local _ _ (ar_ok _ _ _ _ Hc)) | apply Hc | apply Hc]).
  destruct (went_hears _ _ _ _ Hwr HX) as [Hl2 Hk2 Hw2].
  destruct (dues_read ds2 c2 k) as (c3 & Hp & Hk & Hcu & Hbef); try done.
  - by apply (dues_ok_same _ (settle_all ds1 X)).
  - assert (core c3 = core (caught id ws sw e c)) as Hcore3 by (by rewrite (cu_core _ _ _ Hcu), <- D3, !(settle_core ds2), Hcore).
    pose proof (fun A (get : t -> A) Hg => core_get get _ _ Hg Hcore3) as Hs3.
    exists (length ds2), c3, ws, sw. split; [done|]. split; [done|].
    pose proof (ar_ok _ _ _ _ Hc) as Hok. pose proof (ar_receive _ _ _ _ Hc). destruct (ok_receive _ _ Hok).
    split; [|split; [|split; [done | by split]]].
    + split; try done.
      * split; [rewrite (Hs3 _ local) by done; apply (ok_local _ _ Hok) | by rewrite (Hs3 _ settings_seen)].
      * rewrite (Hs3 _ continuing) by done. apply Hc.
      * apply Hcu.
      * rewrite (Hs3 _ highest) by done. cbn. lia.
      * rewrite (Hs3 _ streams) by done. apply lookup_singleton_eq.
      * rewrite (Hs3 _ receive) by done. cbn. lia.
    + eapply before_impl; [exact Hbef|]. intros ci [_ Hfin]. specialize (Hfin id).
      rewrite (Hs2 _ streams), (proj2 (settle_alike ds1 X)) in Hfin by done. unfold X, asked in Hfin. cbn [streams set_streams set_send] in Hfin.
      rewrite lookup_singleton_eq in Hfin. cbn in Hfin. destruct (streams ci !! id) as [si|] eqn:Hsi; [|done].
      injection Hfin as Hfin. exists si. by split.
Qed.

(** A call, from the client's end: what [send] writes, what it reads, and
    what it returns. *)
Lemma client_calls scheme r a g id c enc k :
  at_rest true g id c -> 0 < id <= MAX_STREAM_ID -> Window.left (send c) = WINDOW ->
  Answer.answerable a -> len (r_body a) <= MAX_BODY -> Sync.in_step enc (decoder c) ->
  carrying (io c) (due_wire (down_dues id g (body r)) ++ answer_said id enc a ++ k) ->
  let e := (Encoder.encode (encoder c) (Message.request_fields scheme r)).2 in
  exists c', Client.send r (Client.mkClient c scheme id) = (Ok (Message.as_answered a), Client.mkClient c' scheme (id + 2))
    /\ at_rest true true (id + 2) c' /\ Window.left (send c') = WINDOW
    /\ encoder c' = e /\ Sync.in_step (Answer.answer_encoder enc a) (decoder c')
    /\ carrying (io c') k
    /\ sent c' = sent c ++ request_said id (encoder c) g scheme r ++ due_wire (up_dues id g (body r) a).
Proof.
  intros Hc Hid Hw Han Hna Hin Hcar e.
  destruct (asks scheme r g id c _ Hc Hid Hw Hcar) as (c2 & ds1 & ds2 & Hds & H2 & Hwr & Hcar2 & Hre2 & Hh2). fold e in Hwr.
  assert (Table.max_size (Encoder.table e) = 4096) as He.
  { unfold e. rewrite (proj2 (encode_max _ _ (proj1 (ok_encoder _ _ (ar_ok _ _ _ _ Hc))))). apply Hc. }
  destruct (client_waits g id (body r) (len (r_body a)) e _ ds1 ds2 c c2 _ Hc Hid Hw Hna He Hds Hwr Hcar2)
    as (m & c3 & ws & sw & Hp & Hk & Haw & Hbef & Hcu & Hcore3 & Hws).
  assert (decoder c3 = decoder c) as Hdec by (by rewrite (core_get decoder _ _ ltac:(done) Hcore3)).
  rewrite <- Hdec in Hin.
  destruct (Answer.answer_read id FRAME a enc _ _ (awaiting_stream sw) c3 k FRAME_fits Hid Haw Hin Han
    (told_reads id (Answer.trailing a) true (r_body a)) Hk) as
    (c4 & s4 & (n & Hp4 & Ho4 & Hheard & Hbef4) & Hs4 & Hh4 & Hk4 & Hin4).
  set (c5 := set_streams (delete id (streams c4)) c4).
  assert (Client.read_answer id c2 = (Ok (Message.as_answered a), c5)) as Hread.
  { apply (Answer.answer_taken id (m + n) c2 c4 s4); try done; [| |apply Han | destruct Han; lia].
    - eapply before_app; [exact Hbef | exact Hp|]. eapply before_impl; [exact Hbef4|]. intros ci. apply uw_unfinished.
    - by rewrite (pumps_app _ _ _ _ Hp). }
  assert ((mset (open id) ;;; together (Client.send_request id scheme r) ;;; Client.read_answer id) c
    = (Ok (Message.as_answered a), c5)) as Hrun by (unfold mthen, mset; by rewrite H2, Hread).
  assert (ok true c5) as Hok5.
  { assert (keeps (ok true) (mset (E := NetError) (open id) ;;; together (Client.send_request id scheme r) ;;; Client.read_answer id)) as Hkeep.
    { keep; [|apply (keeps_together _ _ _ (ok_stable true)), keeps_send_request | apply keeps_read_answer].
      apply keeps_set. intros c0 Hc0. by apply Safety.ok_open. }
    exact (keeps_run _ _ _ _ _ Hkeep (ar_ok _ _ _ _ Hc) Hrun). }
  assert (delete id (streams c4) = ∅) as Hempty.
  { apply map_eq. intros i. rewrite lookup_empty. destruct (decide (i = id)) as [->|Hne]; [apply lookup_delete_eq|].
    rewrite lookup_delete_ne by done. rewrite Ho4 by done. rewrite (core_get streams _ _ ltac:(done) Hcore3). by apply lookup_singleton_ne. }
  assert (held c5 = None) as Hheld.
  { apply (unheld _ _ (heard_held _ _ _ Hheard)), (unheld _ _ (cu_held _ _ _ Hcu)), Hh2. }
  exists c5.
  destruct (rest_again true g id (id + 2) id (last_peer c) ws e (decoder c4) c c5) as (R1 & R2 & R3 & R4); try done; [apply Hheard | | lia | exact (ar_last _ _ _ _ Hc)|].
  { unfold c5. rewrite Hempty. change (set_streams ∅ (core c4) = core (moved_on id (last_peer c) ws e (decoder c4) c)).
    rewrite (heard_core _ _ _ Hheard).
    change (set_streams ∅ (set_decoder (decoder c4) (core c3)) = core (moved_on id (last_peer c) ws e (decoder c4) c)).
    rewrite Hcore3. apply caught_moved. }
  split; [|split; [done|split; [by rewrite R2|split; [done|split; [by rewrite R4|split; [done|]]]]]].
  - unfold Client.send. cbn [Client.connection Client.next Client.scheme]. rewrite (ar_goaway _ _ _ _ Hc).
    destruct (Z.ltb_spec MAX_STREAM_ID id); [lia|]. unfold Client.on_connection. cbn [Client.connection Client.next Client.scheme].
    by rewrite Hrun.
  - change (sent c5) with (sent c4). rewrite (heard_sent _ _ _ Hheard), (cu_sent _ _ _ Hcu), (wn_sent _ _ _ _ Hwr).
    change (sent (asked id (len (body r)) e c)) with (sent c). rewrite <- !(assoc_L (++)). do 2 f_equal.
    rewrite Hre2. unfold up_dues. by rewrite due_wire_app, <- credits_wire.
Qed.

End client.

End Call.
