(* ===== verification/H2Replying.v ===== *)
(** One call over a kept connection, from the server's end: what its client
    owes is read, the request is taken, and its answer written. *)

From Stdlib Require Import String.
From S2P Require Import Prelude Errors Wire HpackInteger HpackTable Hpack H2Frame H2Settings H2Stream Http H2Message H2Connection H2Receive H2Send H2Invariant H2Safety H2Transfer H2Server H2Client H2Exchange H2Serving H2Answer H2Dues H2Flow H2Stalls H2Call.

Module Replying.
Import Conn Receive Invariant Transfer Dues Flow Stalls Call.

(** ** Waiting for a request *)

Section waiting.
Context `{Percent}.

(** Nothing [c] holds is ready to take. *)
Definition nothing_yet (ans : gset Z) (c : t) : Prop :=
  goaway c = None /\ Server.ready (Server.mkServer c ans) = None.

Lemma finished_none s : Server.ready s = None -> Server.finished s = (Ok None, s).
Proof.
  intros Hr. unfold Server.finished. rewrite (loop_turn _ _ _ (fun _ => True)) by (apply Serving.finished_goes_down || done).
  unfold Server.finished_turn at 1, mthen, mget. by rewrite Hr.
Qed.

Lemma next_request_turn s :
  Server.next_request s = match Server.next_turn tt s with
                          | (Ok (inl _), s') => Server.next_request s'
                          | (Ok (inr a), s') => (Ok a, s')
                          | (Err e, s') => (Err e, s')
                          end.
Proof.
  unfold Server.next_request at 1. rewrite (loop_turn _ _ _ (fun _ => True)) by (apply Serving.next_goes_down || done).
  by destruct (Server.next_turn tt s) as [[[[]|a]|e] s'].
Qed.

(** The wait reads on while there is nothing to take. *)
Lemma next_request_waits ans n c' : forall c,
  before (nothing_yet ans) n c -> pumps n c = (Ok true, c') ->
  Server.next_request (Server.mkServer c ans) = Server.next_request (Server.mkServer c' ans).
Proof.
  induction n as [|n IH]; intros c Hb Hp; [by injection Hp as <-|].
  destruct (Hb 0%nat) as (c0 & H0 & Hg & Hr); [lia|]. injection H0 as <-.
  cbn [pumps] in Hp. unfold mthen in Hp. destruct (pump c) as [[[|]|e] c1] eqn:Hpump; try discriminate.
  rewrite next_request_turn. unfold Server.next_turn, mthen. rewrite (finished_none _ Hr).
  unfold Server.read_frame, mthen, mget. cbn [Server.connection]. rewrite Hg. unfold Server.on_connection. cbn [Server.connection Server.answering].
  rewrite Hpump. apply IH; [|done]. intros i Hi. destruct (Hb (S i)) as (ci & Hci & Hn); [lia|].
  exists ci. split; [|done]. by rewrite (pumps_next _ _ _ Hpump) in Hci.
Qed.

(** With a request whole, it is the one taken. *)
Lemma next_request_takes s x s' : Server.finished s = (Ok (Some x), s') -> Server.next_request s = (Ok (Some x), s').
Proof. intros Hf. rewrite next_request_turn. unfold Server.next_turn, mthen. by rewrite Hf. Qed.

Lemma ready_none s : (forall id, Server.is_ready s id = false) -> Server.ready s = None.
Proof.
  intros Hr. unfold Server.ready. destruct (List.find _ _) as [i|] eqn:Hf; [|done].
  apply List.find_some in Hf as [_ Hf]. by rewrite Hr in Hf.
Qed.

(** Neither what is owed nor a request under way is a request to take. *)
Lemma alike_nothing c ci : goaway c = None -> streams c = ∅ -> alike c ci -> nothing_yet ∅ ci.
Proof.
  intros Hc He [Hg Hfin]. split; [by rewrite Hg|]. apply ready_none. intros i. unfold Server.is_ready. cbn [Server.connection].
  specialize (Hfin i). rewrite He in Hfin. by destruct (streams ci !! i).
Qed.

Lemma waiting_nothing id c ci : goaway c = None -> streams c = ∅ -> Exchange.waiting id c ci -> nothing_yet ∅ ci.
Proof.
  intros Hc He [Hg Hoth Hfin]. split; [by rewrite Hg|]. apply ready_none. intros i. unfold Server.is_ready. cbn [Server.connection].
  destruct (decide (i = id)) as [->|Hne]; [|by rewrite Hoth, He].
  destruct (streams ci !! id); [by rewrite Hfin | done].
Qed.

(** A request's stream once it is taken. *)
Definition taken (st : Stream.t) : Stream.t := Stream.set_head None (Stream.set_body [] st).

(** The only stream's request, whole, is the one taken. *)
Lemma finished_alone id scheme r st c :
  streams c = {[id := st]} -> Stream.reset st = None -> Stream.state st = HalfClosedRemote ->
  Stream.head st = Some (Message.request_fields scheme r) -> Stream.body st = body r -> Exchange.carriable scheme r ->
  Server.finished (Server.mkServer c ∅)
    = (Ok (Some (id, Message.as_read r)), Server.mkServer (set_streams {[id := taken st]} c) ({[id]} ∪ ∅)).
Proof.
  intros Hst Hre Hstate Hh Hb [C1 C2 C3 C4 C5 C6 C7]. rewrite (Exchange.finished_takes _ id st (Message.request_fields scheme r) (Message.as_read r)).
  - cbn [Server.connection Server.answering]. by rewrite Hst, insert_singleton_eq.
  - apply Exchange.ready_only.
    + unfold Server.is_ready. cbn [Server.connection Server.answering]. rewrite Hst, lookup_singleton_eq.
      unfold Stream.finished. by rewrite Hre, Hstate.
    + intros id' Hne. unfold Server.is_ready. cbn [Server.connection]. by rewrite Hst, lookup_singleton_ne.
  - cbn [Server.connection]. by rewrite Hst, lookup_singleton_eq.
  - done.
  - done.
  - rewrite Hb. by apply Message.request_fields_read.
Qed.

End waiting.

(** ** What its client owes *)

(** [w] of its window left, and [ds] on the way to it. *)
Definition owes (greeted : bool) (top w : Z) (ds : list due) : Prop :=
  exists acks cs, ds = (if greeted then acks else [Hello]) ++ cs /\ Forall (eq Ack) acks
    /\ Forall (credit_ok top) cs /\ w + granted 0 cs = WINDOW.

Lemma acks_read acks c : Forall (eq Ack) acks -> settings_seen c = true ->
  dues_ok acks c /\ settle_all acks c = c /\ replies acks = [].
Proof. intros Ha Hs. induction Ha as [|d acks <- Ha IH]; [done|]. destruct IH as (? & ? & ?). by split_and!. Qed.

Lemma granted_nonneg top id ds : Forall (credit_ok top) ds -> 0 <= granted id ds.
Proof.
  induction 1 as [|d ds Hd Hds IH]; [done|]. cbn [granted foldr]. fold (granted id ds).
  destruct d as [| |i n]; [done..|]. destruct Hd. destruct (i =? id); lia.
Qed.

(** The server, its client's dues read. *)
Lemma owes_settle g id s ds :
  at_rest false g id s -> owes g (highest s) (Window.left (send s)) ds ->
  dues_ok ds s /\ replies ds = thanks g
  /\ settle_all ds s = met (set_send (Window.mkWindow WINDOW) s).
Proof.
  intros Hs (acks & cs & -> & Ha & Hcs & Hw).
  assert (dues_ok (if g then acks else [Hello]) s /\ settle_all (if g then acks else [Hello]) s = met s
    /\ replies (if g then acks else [Hello]) = thanks g) as (P1 & P2 & P3).
  { destruct g.
    - destruct (acks_read acks s Ha) as (A1 & A2 & A3); [apply Hs|]. rewrite A2, A3. split; [done|]. split; [|done].
      exact (greeting_settled true s (ar_seen _ _ _ _ Hs) (ar_remote _ _ _ _ Hs)).
    - split; [|done]. split; [|done]. split; [apply (ar_remote _ _ _ _ Hs)|]. split; [apply Hs|].
      intros i st Hst. by rewrite (ar_streams _ _ _ _ Hs) in Hst. }
  destruct (settle_credits (highest s) cs (met s) Hcs) as (m & Hm & Hl).
  assert (m = ∅) as ->.
  { apply map_eq. intros i. rewrite Hl. change (streams (met s)) with (streams s). by rewrite (ar_streams _ _ _ _ Hs). }
  split; [|split].
  - apply dues_ok_app. split; [done|]. rewrite P2. destruct (ok_highest _ _ (ar_ok _ _ _ _ Hs)) as [_ Hh].
    apply credits_ok; try done.
    + change (Window.left (send s) + granted 0 cs <= MAX_STREAM_ID). rewrite Hw. by unfold WINDOW, Settings.DEFAULT_WINDOW, MAX_STREAM_ID.
    + intros i st Hst. change (streams s !! i = Some st) in Hst. rewrite (ar_streams _ _ _ _ Hs) in Hst. done.
  - unfold replies. rewrite omap_app. change (omap _ cs) with (replies cs). rewrite (credit_no_reply _ _ Hcs), app_nil_r. exact P3.
  - rewrite settle_app, P2, Hm. unfold more. change (send (met s)) with (send s). rewrite Hw.
    rewrite <- (ar_streams _ _ _ _ Hs). by destruct s.
Qed.

(** ** The request *)

(** The server with [st] to answer on [id]. *)
Definition answering (id : Z) (st : Stream.t) (d : Decoder.t) (c : t) : t :=
  met (set_send (Window.mkWindow WINDOW)
    (set_streams {[id := st]} (set_decoder d (set_highest id (set_last_peer id c))))).

Lemma answering_core id h st m d s1 s :
  core s1 = core (met (set_send (Window.mkWindow WINDOW) s)) -> h = id -> m = {[id := st]} ->
  set_streams m (core (set_streams m (set_decoder d (set_highest h (set_last_peer id s1))))) = core (answering id st d s).
Proof.
  intros Hc -> ->.
  change (set_streams {[id := st]} (set_decoder d (set_highest id (set_last_peer id (core s1)))) = core (answering id st d s)).
  rewrite Hc. by destruct s.
Qed.

Lemma answered_moved id n e st d s :
  delete id (streams (ended id (spent id n (set_encoder e (answering id st d s))))) = ∅
  /\ core (set_streams ∅ (ended id (spent id n (set_encoder e (answering id st d s)))))
     = core (moved_on id id (less n (Window.mkWindow WINDOW)) e d s).
Proof.
  split; [|by destruct s]. apply map_eq. intros i. rewrite lookup_empty.
  destruct (decide (i = id)) as [->|Hne]; [apply lookup_delete_eq|]. rewrite lookup_delete_ne by done.
  cbn. rewrite !lookup_alter_ne by done. by apply lookup_singleton_ne.
Qed.

Lemma sole_answering (id : Z) : id ∈ ({[id]} ∪ ∅ : gset Z) /\ ({[id]} ∪ ∅ : gset Z) ∖ {[id]} = ∅.
Proof. split; [by apply elem_of_union_l, elem_of_singleton | by rewrite (right_id_L ∅ (∪)), difference_diag_L]. Qed.

Section server.
Context `{Percent}.

(** What its client owes read, from rest: there is nothing to take yet. *)
Record listening (g : bool) (s s1 : t) : Prop := {
  li_core : core s1 = core (met (set_send (Window.mkWindow WINDOW) s));
  li_streams : streams s1 = ∅;
  li_goaway : goaway s1 = None;
  li_writable : writable s1;
  li_held : held s1 = None;
  li_sent : sent s1 = sent s ++ due_wire (thanks g);
}.

Lemma listens g id s ds k :
  at_rest false g id s -> owes g (highest s) (Window.left (send s)) ds -> carrying (io s) (due_wire ds ++ k) ->
  exists s1, pumps (length ds) s = (Ok true, s1) /\ carrying (io s1) k /\ listening g s s1
    /\ before (nothing_yet ∅) (length ds) s.
Proof.
  intros Hs Hds Hcar. destruct (owes_settle g id s ds Hs Hds) as (D1 & D2 & D3).
  destruct (dues_read ds s _ D1 (ok_local _ _ (ar_ok _ _ _ _ Hs)) (ar_block _ _ _ _ Hs) (ar_writable _ _ _ _ Hs) Hcar)
    as (s1 & Hp1 & Hk1 & Hcu & Hb1).
  pose proof (cu_core _ _ _ Hcu) as Hc1. rewrite D3 in Hc1. pose proof (fun A (get : t -> A) Hg => core_get get _ _ Hg Hc1) as Hs1.
  exists s1. split; [done|]. split; [done|]. split.
  - split; [done | rewrite (Hs1 _ streams) by done; apply Hs | rewrite (Hs1 _ goaway) by done; apply Hs | apply Hcu
      | apply (unheld _ _ (cu_held _ _ _ Hcu)), Hs | by rewrite (cu_sent _ _ _ Hcu), D2].
  - eapply before_impl; [exact Hb1|]. intros ci. apply alike_nothing; apply Hs.
Qed.

Lemma listening_serves g id s s1 n :
  at_rest false g id s -> listening g s s1 -> 0 < id -> id mod 2 = 1 -> n <= MAX_BODY -> Exchange.serving id n s1.
Proof.
  intros Hs L Hid Hodd Hn. pose proof (fun A (get : t -> A) Hg => core_get get _ _ Hg (li_core _ _ _ L)) as Hs1.
  pose proof (ar_ok _ _ _ _ Hs) as Hok. split.
  - split; [rewrite (Hs1 _ local) by done; apply (ok_local _ _ Hok) | by rewrite (Hs1 _ settings_seen)].
  - rewrite (Hs1 _ continuing) by done. apply Hs.
  - split; [rewrite (Hs1 _ client) by done; apply (ok_side _ _ Hok) | done | | rewrite (Hs1 _ going_away) by done; apply Hs
      | by rewrite (li_streams _ _ _ L) | by rewrite (li_streams _ _ _ L)].
    rewrite (Hs1 _ last_peer) by done. change (last_peer s < id). rewrite (ar_last _ _ _ _ Hs). lia.
  - apply L.
  - rewrite (Hs1 _ receive) by done. change (16384 <= Window.left (receive s) <= MAX_STREAM_ID).
    destruct (ok_receive _ _ Hok). pose proof (ar_receive _ _ _ _ Hs). lia.
  - rewrite (Hs1 _ highest) by done. apply (ok_highest _ _ Hok).
  - exact Hn.
Qed.

(** A stream taken is one that may be. *)
Lemma ok_taken id st c : ok false c -> streams c = {[id := st]} -> ok false (set_streams {[id := taken st]} c).
Proof.
  intros Hok Hst. pose proof (st_stream _ _ _ (ok_stable false) c id st (taken st) Hok) as Hq.
  rewrite Hst, insert_singleton_eq in Hq. apply Hq; [apply lookup_singleton_eq|].
  apply evolves_head, evolves_body; [done|]. rewrite len_nil. by unfold MAX_BODY.
Qed.

(** The request taken, from rest. *)
Lemma takes scheme r g id ds s enc k :
  at_rest false g id s -> 0 < id <= MAX_STREAM_ID -> id mod 2 = 1 ->
  owes g (highest s) (Window.left (send s)) ds ->
  Exchange.carriable scheme r -> len (body r) <= MAX_BODY -> Sync.in_step enc (decoder s) ->
  carrying (io s) (due_wire ds ++ request_said id enc g scheme r ++ k) ->
  exists s' st d,
    Server.next_request (Server.mkServer s ∅) = (Ok (Some (id, Message.as_read r)), Server.mkServer s' ({[id]} ∪ ∅))
    /\ core s' = core (answering id st d s)
    /\ Stream.reset st = None /\ Stream.state st = HalfClosedRemote /\ Stream.send st = Window.new WINDOW
    /\ Sync.in_step (Encoder.encode enc (Message.request_fields scheme r)).2 d
    /\ ok false s' /\ writable s' /\ held s' = None /\ carrying (io s') k
    /\ sent s' = sent s ++ due_wire (thanks g ++ credits_dues id true (cut (body r))).
Proof.
  intros Hs Hid Hodd Hds Hr Hb Hin Hcar. pose proof (ar_highest _ _ _ _ Hs) as Hhi.
  destruct (listens g id s ds _ Hs Hds Hcar) as (s1 & Hp1 & Hk1 & L & Hb1).
  pose proof (fun A (get : t -> A) Hg => core_get get _ _ Hg (li_core _ _ _ L)) as Hs1.
  pose proof (li_streams _ _ _ L) as He1. pose proof Hr as [C1 C2 C3 C4 C5 C6 C7].
  destruct (Exchange.request_read id (Message.request_fields scheme r) _ k enc FRAME (body r) _ _ s1 FRAME_fits
    (listening_serves g id s s1 _ Hs L (proj1 Hid) Hodd Hb) Hid
    ltac:(by rewrite (Hs1 _ decoder)) C7 (Exchange.request_not_informational scheme r C1) (Message.request_fields_checked scheme r 65536 C1 C6) eq_refl
    (told_reads id true g (body r)) Hk1)
    as (n2 & s2 & st & Hp2 & Hst & Hh & Hbd & Hre & Hstate & Hsend & Hk2 & Hin2 & Hheard & Hb2).
  rewrite He1, insert_empty in Hst.
  assert (pumps (length ds + n2) s = (Ok true, s2)) as Hp by (by rewrite (pumps_app _ _ _ _ Hp1)).
  assert (ok false s2) as Hok2 by exact (keeps_run _ _ _ _ _ (Answer.keeps_pumps false _) (ar_ok _ _ _ _ Hs) Hp).
  exists (set_streams {[id := taken st]} s2), (taken st), (decoder s2).
  split; [|split; [|split; [done|split; [done|split; [|split; [done|split; [by apply ok_taken|split; [apply Hheard|split; [|split; [done|]]]]]]]]]].
  - rewrite (next_request_waits ∅ (length ds + n2) s2 s); [by apply next_request_takes, (finished_alone id scheme) | | done].
    eapply before_app; [exact Hb1 | exact Hp1|]. eapply before_impl; [exact Hb2|]. intros ci. apply waiting_nothing; apply L.
  - change (core (set_streams {[id := taken st]} s2)) with (set_streams {[id := taken st]} (core s2)).
    rewrite (heard_core _ _ _ Hheard), Hst.
    change (set_streams {[id := taken st]} (core (set_streams {[id := taken st]} (set_decoder (decoder s2)
      (set_highest (Z.max (highest s1) id) (set_last_peer id s1))))) = core (answering id (taken st) (decoder s2) s)).
    apply answering_core; [apply L | | done]. rewrite (Hs1 _ highest) by done. cbn. lia.
  - cbn. rewrite Hsend. by rewrite (Hs1 _ remote).
  - exact (unheld _ _ (heard_held _ _ _ Hheard) (li_held _ _ _ L)).
  - change (sent (set_streams _ s2)) with (sent s2). rewrite (heard_sent _ _ _ Hheard).
    change (sent (set_highest _ (set_last_peer id s1))) with (sent s1). by rewrite (li_sent _ _ _ L), <- (assoc_L (++)), credits_wire, due_wire_app.
Qed.

(** [ds] part of what [all] owes: acknowledgements, and credit. *)
Definition owing (top : Z) (ds : list due) (cs : list due) : Prop :=
  exists acks, ds = acks ++ cs /\ Forall (eq Ack) acks /\ Forall (credit_ok top) cs.

Lemma acks_settle acks c : Forall (eq Ack) acks -> settle_all acks c = c.
Proof. induction 1 as [|d acks <- Ha IH]; [done | exact IH]. Qed.

Lemma thanks_left_acks g b : Forall (eq Ack) (thanks_left g b) /\ Forall polite (thanks_left g b) /\ replies (thanks_left g b) = [].
Proof. unfold thanks_left, thanks. case_bool_decide; destruct g; split_and!; by repeat constructor. Qed.

(** What its client owes on a stream while an answer of [n] octets is written:
    [ds1] read by then, the rest on its way before [k], and all the answer's
    octets given back by one or the other. *)
Definition partly_read (id n : Z) (ds1 : list due) (k : bytes) (c : t) : Prop :=
  exists ds2 cs1 cs2, carrying (io c) (due_wire ds2 ++ k)
    /\ owing id ds1 cs1 /\ owing id ds2 cs2 /\ granted 0 cs1 + granted 0 cs2 = n.

Lemma partly_read_io id n ds k c c' : incoming (io c') = incoming (io c) -> partly_read id n ds k c -> partly_read id n ds k c'.
Proof. intros Hi (ds2 & cs1 & cs2 & Hc & Hrest). exists ds2, cs1, cs2. unfold carrying. by rewrite Hi. Qed.

(** Nothing of it read. *)
Lemma none_read id a g b k c : 0 < id -> carrying (io c) (due_wire (up_dues id g b a) ++ k) -> partly_read id (len (r_body a)) [] k c.
Proof.
  intros Hid Hc. destruct (cut_fit (r_body a)) as [Hfit Hcat]. destruct (thanks_left_acks g b) as [T1 _].
  destruct (credits_dues_fit id (Answer.trailing a) id _ Hfit ltac:(lia)) as (F1 & F2 & _). rewrite Hcat in F2.
  exists (up_dues id g b a), [], (credits_dues id (Answer.trailing a) (cut (r_body a))).
  split; [done|]. split; [by exists []|]. split; [by exists (thanks_left g b) | exact F2].
Qed.

(** Some pieces' credit read, the other pieces' to come. *)
Lemma some_read id a g b k c p1 p2 :
  0 < id -> cut (r_body a) = p1 ++ p2 -> p2 <> [] ->
  carrying (io c) (due_wire (credits_dues id (Answer.trailing a) p2) ++ k) ->
  partly_read id (len (r_body a)) (thanks_left g b ++ repaid id p1) k c.
Proof.
  intros Hid Hcut Hp2 Hc. destruct (cut_fit (r_body a)) as [Hfit Hcat]. destruct (thanks_left_acks g b) as [T1 _].
  destruct (credits_dues_fit id (Answer.trailing a) id _ Hfit ltac:(lia)) as (F1 & F2 & _). rewrite Hcat in F2.
  rewrite Hcut, credits_repaid in F1, F2 by done. apply Forall_app in F1 as [G1 G2]. rewrite granted_app in F2.
  exists (credits_dues id (Answer.trailing a) p2), (repaid id p1), (credits_dues id (Answer.trailing a) p2).
  split; [done|]. split; [by exists (thanks_left g b)|]. split; [by exists [] | exact F2].
Qed.

(** An end of a stream closed, or not. *)
Definition closed (last : bool) (id : Z) (c : t) : t := if last then ended id c else c.

Lemma inner_closed last id : inner (closed last id).
Proof. destruct last; [apply inner_ended | by intros c]. Qed.
Lemma commutes_closed last id : commutes (closed last id).
Proof. destruct last; [apply commutes_ended | by intros d c]. Qed.

(** The answer's body written. *)
Lemma data_goes id a g b c k :
  ok false c -> lent WINDOW id c -> settings_seen c = true -> r_body a <> [] ->
  carrying (io c) (due_wire (up_dues id g b a) ++ k) ->
  exists c' ds, Send.send_data id (r_body a) (Answer.trailing a) c = (Ok tt, c')
    /\ went (told id (Answer.trailing a) true (r_body a)) ds (closed (Answer.trailing a) id (spent id (len (r_body a)) c)) c'
    /\ partly_read id (len (r_body a)) ds k c'.
Proof.
  intros Hok Hl Hse Hb Hc. destruct (thanks_left_acks g b) as (T1 & T2 & T3). destruct (acks_read _ c T1 Hse) as (A1 & A2 & _).
  pose proof (ln_known _ _ _ Hl) as [Hid _].
  destruct (body_sent false id (Answer.trailing a) true (thanks_left g b) (r_body a) c k Hok Hl Hb T2 A1)
    as (c2 & ds1 & ds2 & P & R2 & W2 & K2 & _ & Q); [by rewrite A2 | exact T3 | exact Hc |].
  assert (partly_read id (len (r_body a)) ds1 k c2) as Hpart.
  { case_bool_decide as Hlast.
    - subst ds1. rewrite app_nil_l in P. subst ds2. eapply none_read; [lia | exact K2].
    - destruct Q as (p1 & p2 & Hcut & Hp2 & -> & ->). eapply some_read; [lia | done..]. }
  unfold Send.send_data, mthen. fold (run id (Answer.trailing a)). rewrite R2. unfold closed. destruct (Answer.trailing a).
  - rewrite ended_there. exists (ended id c2), ds1. split; [done|]. split; [|by apply (partly_read_io _ _ _ _ c2)].
    apply (went_inner (ended id)); [apply inner_ended | apply commutes_ended | done].
  - by exists c2, ds1.
Qed.

(** The answer's head and body written. *)
Lemma answer_body_goes id a g b e bs c c1 k :
  ok false c1 -> lent WINDOW id c -> settings_seen c = true ->
  wrote bs (closed (Answer.bodiless a && Answer.trailing a) id (set_encoder e c)) c1 ->
  carrying (io c1) (due_wire (up_dues id g b a) ++ k) ->
  exists c2 ds, (if negb (Answer.bodiless a) then Send.send_data id (r_body a) (Answer.trailing a) else mret tt) c1 = (Ok tt, c2)
    /\ went (bs ++ (if Answer.bodiless a then [] else told id (Answer.trailing a) true (r_body a))) ds
         (closed (Answer.trailing a) id (spent id (len (r_body a)) (set_encoder e c))) c2
    /\ partly_read id (len (r_body a)) ds k c2.
Proof.
  intros Hok Hl Hse Hw Hc. pose proof (ln_known _ _ _ Hl) as [Hid _].
  destruct (Answer.bodiless a) eqn:Hb; cbn [negb andb] in *.
  - exists c1, []. split; [done|]. rewrite app_nil_r. split; [|eapply none_read; [lia | exact Hc]].
    apply bool_decide_eq_true in Hb. rewrite Hb, len_nil, spent_nothing. by apply wrote_went.
  - apply bool_decide_eq_false in Hb.
    assert (lent WINDOW id c1) as L1 by (eapply (lent_core _ _ (set_encoder e c)); [apply Hw | apply Hw | by destruct Hl; split]).
    destruct (data_goes id a g b c1 k Hok L1) as (c2 & ds & R & W & P); [by rewrite (wrote_same settings_seen _ _ _ ltac:(done) Hw) | done..|].
    exists c2, ds. split; [done|]. split; [|done]. rewrite <- (app_nil_l ds).
    exact (went_under _ _ _ [] ds _ c1 _ (inner_compose _ _ (inner_closed _ id) (inner_spent id _))
      (commutes_compose _ _ (commutes_closed _ id) (commutes_spent id _)) (wrote_went _ _ _ Hw) W).
Qed.

(** The encoder, and the frames' size, after what was written and read. *)
Lemma went_encoder id n e bs ds cs c c2 :
  owing id ds cs -> went bs ds (spent id n (set_encoder e c)) c2 -> encoder c2 = e /\ remote c2 = remote c.
Proof.
  intros (acks & -> & Ha & Hcs) W. destruct (settle_credits id cs (spent id n (set_encoder e c)) Hcs) as (m & Hm & _).
  pose proof (wn_core _ _ _ _ W) as Hc2. rewrite settle_app, (acks_settle acks), Hm in Hc2 by done.
  by rewrite (core_get encoder _ _ ltac:(done) Hc2), (core_get remote _ _ ltac:(done) Hc2).
Qed.

(** An answer written, what its client owes on its way. *)
Lemma answer_goes id a g b c k :
  ok false c -> lent WINDOW id c -> settings_seen c = true ->
  carrying (io c) (due_wire (up_dues id g b a) ++ k) ->
  exists c' ds, Server.send_answer id a c = (Ok tt, c')
    /\ went (answer_said id (encoder c) a) ds
         (ended id (spent id (len (r_body a)) (set_encoder (Answer.answer_encoder (encoder c) a) c))) c'
    /\ partly_read id (len (r_body a)) ds k c'.
Proof.
  intros Hok Hl Hse Hc. unfold Server.send_answer. fold (Answer.bodiless a) (Answer.trailing a).
  unfold answer_said, Answer.answer_with, Answer.answer_encoder.
  pose proof (headers_wrote c id (Message.response_fields a) (Answer.bodiless a && Answer.trailing a) (ln_writable _ _ _ Hl)) as Hh.
  rewrite (ln_frame _ _ _ Hl) in Hh. fold FRAME in Hh.
  destruct (Encoder.encode (encoder c) (Message.response_fields a)) as [blk e1].
  destruct Hh as (c1 & H1 & W1). fold (closed (Answer.bodiless a && Answer.trailing a) id (set_encoder e1 c)) in W1.
  unfold mthen at 1. rewrite H1.
  assert (ok false c1) as Hok1 by exact (keeps_run _ _ _ _ _ (keeps_send_headers _ _ _ (ok_stable false) id _ _) Hok H1).
  destruct (answer_body_goes id a g b e1 _ c c1 k Hok1 Hl Hse W1) as (c2 & ds & R2 & W2 & P2).
  { unfold carrying. rewrite (wrote_incoming _ _ _ W1). by destruct (Answer.bodiless a && Answer.trailing a). }
  unfold mthen. rewrite R2, (assoc_L (++)). destruct (Answer.trailing a) eqn:Ht; cbn [negb closed] in *.
  - exists c2, ds. by rewrite app_nil_r.
  - pose proof (headers_wrote c2 id (Message.carried (trailers a)) true (wn_writable _ _ _ _ W2)) as Hh.
    destruct P2 as (ds2 & cs1 & cs2 & K2 & O1 & O2 & Hg). destruct (went_encoder id _ e1 _ ds cs1 c c2 O1 W2) as [He Hrem].
    rewrite He, Hrem, (ln_frame _ _ _ Hl) in Hh. fold FRAME in Hh.
    destruct (Encoder.encode e1 (Message.carried (trailers a))) as [b2 e2].
    destruct Hh as (c3 & H3 & W3). exists c3, ds. rewrite H3. split; [done|]. split; [|apply (partly_read_io _ _ _ _ c2); [apply W3 | by exists ds2, cs1, cs2]].
    rewrite <- (app_nil_r ds).
    exact (went_under _ _ _ _ [] _ c2 _ (inner_compose _ _ (inner_ended id) (inner_encoder e2))
      (commutes_compose _ _ (commutes_ended id) (commutes_encoder e2)) W2 (wrote_went _ _ _ W3)).
Qed.

Lemma resent_core m w c : set_streams ∅ (core (set_streams m (set_send w c))) = set_send w (core (set_streams ∅ c)).
Proof. by destruct c. Qed.

Lemma resent_moved h l w ws e d c : set_send w (core (moved_on h l ws e d c)) = core (moved_on h l w e d c).
Proof. by destruct c. Qed.

(** A stream given up, its answer written: the connection is at rest. *)
Lemma answered_rests id n e st d s cs c2 :
  Forall (credit_ok id) cs ->
  core c2 = core (settle_all cs (ended id (spent id n (set_encoder e (answering id st d s))))) ->
  delete id (streams c2) = ∅
  /\ core (set_streams ∅ c2) = core (moved_on id id (more (granted 0 cs) (less n (Window.mkWindow WINDOW))) e d s).
Proof.
  intros Hcs Hc. destruct (answered_moved id n e st d s) as [Hempty Hmoved].
  set (Y := ended id (spent id n (set_encoder e (answering id st d s)))) in *.
  assert (send Y = less n (Window.mkWindow WINDOW)) as Hsend by reflexivity. clearbody Y.
  destruct (settle_credits id cs Y Hcs) as (m & Hm & Hl). rewrite Hm, Hsend in Hc.
  generalize dependent (less n (Window.mkWindow WINDOW)). intros ws Hc Hmoved Hsend. split.
  - rewrite (core_get streams _ _ ltac:(done) Hc). apply map_eq. intros i. rewrite lookup_empty.
    destruct (decide (i = id)) as [->|Hne]; [apply lookup_delete_eq|]. rewrite lookup_delete_ne by done.
    cbn [streams set_streams]. rewrite Hl. assert (streams Y !! i = None) as ->; [|done].
    apply (f_equal (lookup i)) in Hempty. by rewrite lookup_delete_ne in Hempty.
  - change (set_streams ∅ (core c2) = core (moved_on id id (more (granted 0 cs) ws) e d s)). rewrite Hc, resent_core, Hmoved.
    apply resent_moved.
Qed.

(** The answer written, and the stream given up. *)
Lemma responds a g b id st d s s' k :
  at_rest false g id s -> 0 < id <= MAX_STREAM_ID -> core s' = core (answering id st d s) ->
  Stream.reset st = None -> Stream.state st = HalfClosedRemote -> Stream.send st = Window.new WINDOW ->
  ok false s' -> writable s' -> held s' = None ->
  carrying (io s') (due_wire (up_dues id g b a) ++ k) ->
  exists s2 ds2, Server.respond id a (Server.mkServer s' ({[id]} ∪ ∅)) = (Ok tt, Server.mkServer s2 ∅)
    /\ at_rest false true (id + 2) s2 /\ owes true (highest s2) (Window.left (send s2)) ds2
    /\ encoder s2 = Answer.answer_encoder (encoder s) a /\ decoder s2 = d
    /\ carrying (io s2) (due_wire ds2 ++ k)
    /\ sent s2 = sent s' ++ answer_said id (encoder s) a.
Proof.
  intros Hs Hid Hc Hre Hst Hsn Hok Hw Hh Hcar.
  pose proof (fun A (get : t -> A) Hg => core_get get _ _ Hg Hc) as Hs'.
  set (sh := set_held (Some []) s'). assert (encoder sh = encoder s) as He by (exact (Hs' _ encoder ltac:(done))).
  assert (lent WINDOW id sh) as Hl.
  { apply (lent_core _ _ (answering id st d s)); [exact Hc | exact Hw |].
    split; cbn; [apply Hs | apply (ok_local _ _ (ar_ok _ _ _ _ Hs)) | apply Hs | lia | done | done |].
    exists st. rewrite lookup_singleton_eq, Hst, Hsn. by split_and!. }
  destruct (answer_goes id a g b sh k) as (c1 & ds1 & R1 & W1 & ds2 & cs1 & cs2 & K1 & (acks1 & -> & A1 & G1) & (acks2 & -> & A2 & G2) & Hg);
    [by apply (st_held _ _ _ (ok_stable false)) | exact Hl | exact (Hs' _ settings_seen ltac:(done)) | exact Hcar |].
  rewrite He in W1.
  assert (Table.max_size (Encoder.table (Answer.answer_encoder (encoder s) a)) = 4096) as Hmax.
  { rewrite answer_encoder_max; [apply Hs|]. apply (ok_encoder _ _ (ar_ok _ _ _ _ Hs)). }
  set (out := answer_said id (encoder s) a) in *.
  set (e := Answer.answer_encoder (encoder s) a) in *. set (n := len (r_body a)) in *. clearbody e out.
  set (F := fun c0 => ended id (spent id n (set_encoder e c0))).
  assert (inner F) as HF.
  { apply (inner_compose (ended id)); [apply inner_ended|]. apply (inner_compose (spent id n)); [apply inner_spent | apply inner_encoder]. }
  assert (commutes F) as HC.
  { apply (commutes_compose (ended id)); [apply commutes_ended|]. apply (commutes_compose (spent id n)); [apply commutes_spent | apply commutes_encoder]. }
  destruct (together_went (Server.send_answer id a) F tt out _ s' c1 HF HC Hh R1 W1) as (c2 & R2 & W2 & K2 & Hh2).
  assert (core c2 = core (settle_all cs1 (F (answering id st d s)))) as Hcore.
  { rewrite (wn_core _ _ _ _ W2), settle_app, (acks_settle acks1), !settle_core by done. f_equal.
    etransitivity; [apply (proj2 (proj2 (HF s')))|]. rewrite Hc. symmetry. apply (proj2 (proj2 (HF (answering id st d s)))). }
  destruct (answered_rests id n e st d s cs1 c2 G1 Hcore) as [Hdel Hrest].
  set (s2 := set_streams (delete id (streams c2)) c2).
  assert (core s2 = core (moved_on id id (more (granted 0 cs1) (less n (Window.mkWindow WINDOW))) e d s)) as Hcs2 by (unfold s2; by rewrite Hdel).
  destruct (rest_again false g id (id + 2) id id (more (granted 0 cs1) (less n (Window.mkWindow WINDOW))) e d s s2) as (T1 & T2 & T3 & T4); try done.
  - apply Safety.ok_removed.
    exact (keeps_run _ _ _ _ _ (keeps_together _ _ _ (ok_stable false) _ (keeps_send_answer id a)) Hok R2).
  - apply W2.
  - lia.
  - lia.
  - assert (highest s2 = id) as Hhi by (by rewrite (core_get highest _ _ ltac:(done) Hcs2)).
    exists s2, (acks2 ++ cs2). split; [|split; [done|split; [|split; [done|split; [done|split]]]]].
    + unfold Server.respond. cbn [Server.answering]. destruct (sole_answering id) as [Hin Hout]. rewrite bool_decide_eq_true_2 by done. cbn [negb].
      unfold Server.on_connection. cbn [Server.connection Server.answering]. rewrite R2. cbn [Server.connection Server.answering].
      by rewrite Hout.
    + exists acks2, cs2. rewrite Hhi, T2. split; [done|]. split; [done|]. split; [done|]. cbn. unfold n in Hg. lia.
    + unfold carrying. change (incoming (io s2)) with (incoming (io c2)). by rewrite K2.
    + change (sent s2) with (sent c2). rewrite (wn_sent _ _ _ _ W2). destruct (HF s') as (HF1 & HF2 & _). unfold sent. by rewrite HF1, HF2.
Qed.

End server.

End Replying.
