(* ===== verification/H2Session.v ===== *)
(** A whole connection, both ends: the calls a client makes on it, one after
    another, and the server that answers them, from the handshake to the
    leave each takes. *)

From Stdlib Require Import String.
From S2P Require Import Prelude Errors Wire HpackInteger HpackTable Hpack H2Frame H2Settings H2Stream Http H2Message H2Preface H2Connection H2Receive H2Send H2Invariant H2Safety H2Transfer H2Server H2Client H2Exchange H2Serving H2Answer H2Rules H2Dues H2Flow H2Stalls H2Call H2Replying.

Module Session.
Import Conn Receive Invariant Transfer Dues Flow Stalls Call Replying.

(** ** The specification *)

Section session.
Context `{Percent} {X : Type} (answer : X -> Request -> Response * X) (scheme : bytes).

(** What the calls are, were there no connection: the server's function,
    applied to each request in turn, what it keeps handed on. *)
Fixpoint calls (x : X) (rs : list Request) : list Response * X :=
  match rs with
  | [] => ([], x)
  | r :: rs =>
      let '(a, x) := answer x (Message.as_read r) in
      let '(answers, x) := calls x rs in
      (Message.as_answered a :: answers, x)
  end.

(** Requests and answers HTTP/2 can carry, their bodies no more than either
    end reads. *)
Fixpoint callable (x : X) (rs : list Request) : Prop :=
  match rs with
  | [] => True
  | r :: rs =>
      let '(a, x) := answer x (Message.as_read r) in
      Exchange.carriable scheme r /\ len (body r) <= MAX_BODY
      /\ Answer.answerable a /\ len (r_body a) <= MAX_BODY /\ callable x rs
  end.

(** ** The client's program *)

(** Request after request on one connection. *)
Fixpoint ask_all (rs : list Request) : M Client.t NetError (list Response) :=
  match rs with
  | [] => mret []
  | r :: rs => a <~ Client.send r ;; answers <~ ask_all rs ;; mret (a :: answers)
  end.

(** As [Client::exchange] does for one. *)
Definition ask (io : Wire) (rs : list Request) : result NetError (list Response * Conn.t) :=
  let? client := Client.handshake io scheme in
  let '(answers, client) := ask_all rs client in
  let? answers := answers in Ok (answers, Client.close client).

(** ** What crosses *)

Definition farewell (last : Z) : bytes := H2.encode (H2.goaway last NoError []).

(** What the client and the server write, from the call on [id] to the end. *)
Fixpoint said (id : Z) (greeted : bool) (ec es : Encoder.t) (x : X) (rs : list Request) : bytes * bytes :=
  match rs with
  | [] => (farewell 0, due_wire (thanks greeted) ++ farewell (Z.max 0 (id - 2)))
  | r :: rs =>
      let '(a, x) := answer x (Message.as_read r) in
      let '(up, down) := said (id + 2) true (Encoder.encode ec (Message.request_fields scheme r)).2
                           (Answer.answer_encoder es a) x rs in
      (request_said id ec greeted scheme r ++ due_wire (up_dues id greeted (body r) a) ++ up,
       due_wire (thanks greeted ++ credits_dues id true (cut (body r)))
       ++ answer_said id es a ++ down)
  end.

(** ** A connection kept *)

(** Both ends at rest before the call on [id], [ds] on its way to the
    server. *)
Record kept (id : Z) (greeted : bool) (ds : list due) (c s : Conn.t) : Prop := {
  kp_client : at_rest true greeted id c;
  kp_server : at_rest false greeted id s;
  kp_window : Window.left (send c) = WINDOW;
  kp_owes : owes greeted (highest s) (Window.left (send s)) ds;
  kp_asks : Sync.in_step (encoder c) (decoder s);
  kp_answers : Sync.in_step (encoder s) (decoder c);
  kp_odd : id mod 2 = 1;
  kp_pos : 0 < id;
}.

(** One call: the client's answer is the server's, and both are at rest for
    the next. *)
Lemma call_kept id g ds c s r n x kc ks :
  let '(a, x1) := answer x (Message.as_read r) in
  let up := request_said id (encoder c) g scheme r ++ due_wire (up_dues id g (body r) a) in
  let down := due_wire (thanks g ++ credits_dues id true (cut (body r))) ++ answer_said id (encoder s) a in
  kept id g ds c s -> id <= MAX_STREAM_ID ->
  Exchange.carriable scheme r -> len (body r) <= MAX_BODY -> Answer.answerable a -> len (r_body a) <= MAX_BODY ->
  carrying (io c) (due_wire (greeting g) ++ down ++ kc) -> carrying (io s) (due_wire ds ++ up ++ ks) ->
  exists c' s' ds',
    Client.send r (Client.mkClient c scheme id) = (Ok (Message.as_answered a), Client.mkClient c' scheme (id + 2))
    /\ Server.serve_turn answer (n, x) (Server.mkServer s ∅) = (Ok (inl (n + 1, x1)), Server.mkServer s' ∅)
    /\ kept (id + 2) true ds' c' s'
    /\ carrying (io c') kc /\ carrying (io s') (due_wire ds' ++ ks)
    /\ sent c' = sent c ++ up /\ sent s' = sent s ++ down
    /\ encoder c' = (Encoder.encode (encoder c) (Message.request_fields scheme r)).2
    /\ encoder s' = Answer.answer_encoder (encoder s) a.
Proof.
  destruct (answer x (Message.as_read r)) as [a x1] eqn:Hans. intros up down [K1 K2 K3 K4 K5 K6 K7 K8] Hid Hcar Hb Han Hna Hc Hs.
  assert (0 < id <= MAX_STREAM_ID) as Hids by lia. unfold up, down in *. rewrite <- !(assoc_L (++)) in *.
  destruct (client_calls scheme r a g id c (encoder s) kc K1 Hids K3 Han Hna K6) as (c' & A1 & A2 & A3 & A4 & A5 & A6 & A7).
  { unfold down_dues. rewrite due_wire_app, <- (assoc_L (++)). exact Hc. }
  destruct (takes scheme r g id ds s (encoder c) _ K2 Hids K7 K4 Hcar Hb K5 Hs)
    as (s1 & st & d & B1 & B2 & B3 & B4 & B5 & B6 & B7 & B8 & B9 & B10 & B11).
  destruct (responds a g (body r) id st d s s1 ks K2 Hids B2 B3 B4 B5 B7 B8 B9 B10) as (s' & ds' & D1 & D2 & D3 & D4 & D5 & D6 & D7).
  exists c', s', ds'. split; [exact A1|]. split.
  { unfold Server.serve_turn, mthen. rewrite B1, Hans, D1. done. }
  split.
  { split; try done; [by rewrite A4, D5 | by rewrite D4 | rewrite Z.add_mod, K7 by lia; done | lia]. }
  split; [done|]. split; [done|]. split; [done|]. split; [|done].
  by rewrite D7, B11, <- (assoc_L (++)).
Qed.

(** ** Opening *)

Lemma start_at_rest io side :
  wire_octets io -> refusals io = [] ->
  exists c, start io side = Ok c /\ at_rest side false 1 c /\ Window.left (send c) = WINDOW /\ highest c = 0
    /\ encoder c = Encoder.new ENCODER_TABLE true /\ decoder c = Decoder.new ENCODER_TABLE
    /\ incoming (Conn.io c) = incoming io
    /\ outgoing (Conn.io c) = outgoing io ++ (if side then Preface.PREFACE else []) ++ due_wire [Hello].
Proof.
  intros Ho Hr. set (c0 := initial io side).
  set (c1 := set_io (mkWire (incoming io) (outgoing io ++ if side then Preface.PREFACE else []) []) c0).
  destruct (emit_wrote (frame_of Hello) c1 ltac:(done)) as (c & He & Hw).
  assert (start io side = Ok c) as Hs.
  { unfold start. change (mkFrame Settings 0 0 (Settings.encode Settings.ours)) with (frame_of Hello).
    unfold mthen at 1. fold c0. destruct side.
    - unfold on_io at 1, mmap_err at 1. change (write_all Preface.PREFACE) with (Wire.asked Preface.PREFACE).
      unfold Wire.asked at 1. change (refusals (Conn.io c0)) with (refusals io). rewrite Hr. cbn [map_err].
      change (set_io _ c0) with c1. by rewrite He.
    - unfold mret at 1. assert (c0 = c1) as Hc; [|by rewrite Hc, He].
      unfold c1, c0. rewrite app_nil_r, <- Hr. by destruct io. }
  pose proof (fun A (get : Conn.t -> A) Hg => wrote_same get _ _ _ Hg Hw) as Hsame.
  assert (held c = None) as Hh by by apply (unheld _ _ (wrote_held _ _ _ Hw)).
  exists c. split; [exact Hs|]. apply Safety.start_ok in Hs; [|done].
  split; [split; try done|split_and!].
  - by rewrite (Hsame _ continuing).
  - apply Hw.
  - by rewrite (Hsame _ streams).
  - by rewrite (Hsame _ goaway).
  - by rewrite (Hsame _ going_away).
  - by rewrite (Hsame _ settings_seen).
  - by rewrite (Hsame _ remote).
  - by rewrite (Hsame _ encoder).
  - by rewrite (Hsame _ receive).
  - by rewrite (Hsame _ highest).
  - rewrite (Hsame _ last_peer) by done. by destruct side.
  - by rewrite (Hsame _ send).
  - by rewrite (Hsame _ highest).
  - by rewrite (Hsame _ encoder).
  - by rewrite (Hsame _ decoder).
  - by rewrite (wrote_incoming _ _ _ Hw).
  - pose proof (wrote_sent _ _ _ Hw) as Hsent. unfold sent at 1 in Hsent. rewrite Hh in Hsent. cbn [default] in Hsent.
    rewrite app_nil_r in Hsent. rewrite Hsent. unfold due_wire, wire_of. cbn [map concat].
    rewrite app_nil_r, (assoc_L (++)). unfold sent. change (held c1) with (@None bytes). cbn [default]. by rewrite app_nil_r.
Qed.

(** ** Leaving *)

(** What a side writes as it leaves. *)
Lemma leaves c : writable c ->
  exists c', Conn.go_away NoError [] c = (Ok tt, c') /\ wrote (farewell (last_peer c)) (set_going_away true c) c'.
Proof.
  intros Hw. unfold Conn.go_away, mthen, mset, mget. cbn [last_peer set_going_away].
  by apply (emit_wrote (H2.goaway (last_peer c) NoError []) (set_going_away true c)).
Qed.

(** A connection with nothing more to come. *)
Lemma pump_ended c : local c = Settings.ours -> carrying (io c) [] ->
  exists w, pump c = (Ok false, set_io w c) /\ outgoing w = outgoing (io c).
Proof.
  intros Hl Hc. exists (mkWire [] (outgoing (io c)) (refusals (io c))). split; [|done].
  unfold pump, read_frame, on_io, H2.read. rewrite (fill_ended _ _ _ Hc) by (vm_compute; lia). done.
Qed.

Lemma drained c : local c = Settings.ours -> carrying (io c) [] -> forall n, outgoing (io (Server.drain n c)) = outgoing (io c).
Proof.
  intros Hl Hc [|n]; [done|]. cbn [Server.drain]. destruct (pump_ended c Hl Hc) as (w & -> & Hw). exact Hw.
Qed.

(** The client's leave read: the wait for a request ends. *)
Lemma next_request_left g id s ds :
  at_rest false g id s -> owes g (highest s) (Window.left (send s)) ds ->
  carrying (io s) (due_wire ds ++ farewell 0) ->
  exists s', Server.next_request (Server.mkServer s ∅) = (Ok None, Server.mkServer s' ∅)
    /\ sent s' = sent s ++ due_wire (thanks g) /\ carrying (io s') [] /\ writable s' /\ held s' = None
    /\ going_away s' = false /\ last_peer s' = last_peer s /\ local s' = Settings.ours.
Proof.
  intros Hs Hds Hcar. destruct (listens g id s ds (farewell 0) Hs Hds Hcar) as (s1 & Hp1 & Hk1 & L & Hb1).
  pose proof (fun A (get : Conn.t -> A) Hg => core_get get _ _ Hg (li_core _ _ _ L)) as Hs1. pose proof (li_streams _ _ _ L) as He1.
  assert (local s1 = Settings.ours) as Hl1 by (rewrite (Hs1 _ local) by done; apply (ok_local _ _ (ar_ok _ _ _ _ Hs))).
  rewrite <- (app_nil_r (farewell 0)) in Hk1.
  destruct (pump_any (H2.goaway 0 NoError []) [] s1 Hl1) as (w & Hpump & Hw & Ho & Hrf); [by vm_compute | exact Hk1|].
  destruct (Rules.goaway_words 0 NoError []) as [W0 W4]; [by vm_compute..|].
  set (s2 := set_streams ∅ (set_goaway (Some (0, NoError)) (set_io w s1))).
  assert (pump s1 = (Ok true, s2)) as Hp2.
  { rewrite Hpump. unfold Receive.answer, handle, mthen, mget, interrupts. cbn [settings_seen continuing set_io].
    rewrite (Hs1 _ settings_seen), (Hs1 _ continuing) by done. change (settings_seen (met _)) with true.
    change (continuing (met _)) with (continuing s). rewrite (ar_block _ _ _ _ Hs). cbn [negb andb].
    change (wrong_stream (H2.goaway 0 NoError [])) with false. cbn iota. unfold handle_kind. cbn [kind H2.goaway].
    unfold goaway_frame. rewrite W0, W4. unfold mthen, mset, mget. cbn [streams set_goaway set_io]. rewrite He1.
    rewrite map_imap_empty. done. }
  assert (pumps (length ds + 1) s = (Ok true, s2)) as Hp by (by rewrite (pumps_app _ _ _ _ Hp1), pumps_one).
  assert (Server.ready (Server.mkServer s2 ∅) = None) as Hr2.
  { apply ready_none. intros i. unfold Server.is_ready. cbn [Server.connection streams s2 set_streams]. by rewrite lookup_empty. }
  exists s2. split; [|split; [|split; [done|split; [|split; [|split; [|split; [|done]]]]]]].
  - rewrite (next_request_waits ∅ (length ds + 1) s2 s); [| |done].
    + rewrite next_request_turn. unfold Server.next_turn, mthen. by rewrite (finished_none _ Hr2).
    + eapply before_app; [exact Hb1 | exact Hp1|]. apply before_one, (alike_nothing s1); [apply L..|by split].
  - unfold sent. cbn. rewrite Ho. apply L.
  - unfold writable. cbn. rewrite Hrf. apply L.
  - apply L.
  - change (going_away s1 = false). rewrite (Hs1 _ going_away) by done. apply Hs.
  - change (last_peer s1 = last_peer s). by rewrite (Hs1 _ last_peer).
Qed.

Definition measure : Z * X -> Server.t -> nat :=
  fun _ s => (pending (Conn.io (Server.connection s)) + size (streams (Server.connection s)))%nat.

Lemma serve_turns nx s :
  loop (Server.serve_turn answer) measure Server.unending nx s =
    match Server.serve_turn answer nx s with
    | (Ok (inl nx'), s') => loop (Server.serve_turn answer) measure Server.unending nx' s'
    | (Ok (inr a), s') => (Ok a, s')
    | (Err e, s') => (Err e, s')
    end.
Proof. apply (loop_turn _ _ _ (fun _ => True)); [apply Serving.serve_goes_down | done]. Qed.

(** From a connection kept to its end. *)
Lemma session_runs rs : forall id g ds c s n x kc,
  let '(up, down) := said id g (encoder c) (encoder s) x rs in
  kept id g ds c s -> callable x rs -> id + 2 * len rs <= MAX_STREAM_ID ->
  carrying (io c) (due_wire (greeting g) ++ down ++ kc) -> carrying (io s) (due_wire ds ++ up) ->
  exists c' id' s',
    ask_all rs (Client.mkClient c scheme id) = (Ok (calls x rs).1, Client.mkClient c' scheme id')
    /\ outgoing (io (Client.close (Client.mkClient c' scheme id'))) = sent c ++ up
    /\ loop (Server.serve_turn answer) measure Server.unending (n, x) (Server.mkServer s ∅)
       = (Ok (n + len rs), Server.mkServer s' ∅)
    /\ outgoing (io (Server.close (Server.mkServer s' ∅))) = sent s ++ down.
Proof.
  induction rs as [|r rs IH]; intros id g ds c s n x kc; cbn [said].
  - intros K _ _ Hc Hs. destruct (next_request_left g id s ds (kp_server _ _ _ _ _ K) (kp_owes _ _ _ _ _ K) Hs)
      as (s' & E1 & E2 & E3 & E4 & E5 & E6 & E7 & E8).
    exists c, id, s'. split; [done|].
    pose proof (kp_client _ _ _ _ _ K) as Kc. destruct (leaves c (ar_writable _ _ _ _ Kc)) as (c' & L1 & L2).
    split; [|split].
    + unfold Client.close. cbn [Client.connection]. rewrite L1. cbn [snd].
      assert (held c' = None) as Hh by apply (unheld _ _ (wrote_held _ _ _ L2)), Kc.
      pose proof (wrote_sent _ _ _ L2) as Hsent. rewrite (ar_last _ _ _ _ Kc) in Hsent.
      unfold sent at 1 in Hsent. rewrite Hh in Hsent. cbn [default] in Hsent. rewrite app_nil_r in Hsent. exact Hsent.
    + rewrite serve_turns. unfold Server.serve_turn, mthen. rewrite E1. unfold mret. rewrite Z.add_0_r. done.
    + destruct (leaves s' E4) as (s2 & M1 & M2). unfold Server.close. cbn [Server.connection]. rewrite E6. cbn [negb].
      unfold Server.go_away, Server.on_connection. cbn [Server.connection Server.answering]. rewrite M1. cbn [snd Server.connection].
      rewrite drained.
      * assert (held s2 = None) as Hh by by apply (unheld _ _ (wrote_held _ _ _ M2)).
        pose proof (wrote_sent _ _ _ M2) as Hsent. unfold sent at 1 in Hsent. rewrite Hh in Hsent. cbn [default] in Hsent.
        rewrite app_nil_r in Hsent. rewrite Hsent. change (sent (set_going_away true s')) with (sent s').
        rewrite E2, E7, (ar_last _ _ _ _ (kp_server _ _ _ _ _ K)), <- (assoc_L (++)). done.
      * by rewrite (wrote_same local _ _ _ ltac:(done) M2).
      * unfold carrying. rewrite (wrote_incoming _ _ _ M2). exact E3.
  - destruct (answer x (Message.as_read r)) as [a x1] eqn:Hans.
    destruct (said (id + 2) true _ _ x1 rs) as [up down] eqn:Hsaid.
    intros K Hcall Hid Hc Hs. cbn [callable] in Hcall. rewrite Hans in Hcall. destruct Hcall as (C1 & C2 & C3 & C4 & C5).
    rewrite len_cons in Hid. pose proof (len_nonneg rs). rewrite <- !(assoc_L (++)) in Hc.
    pose proof (call_kept id g ds c s r n x (down ++ kc) up) as Hone. rewrite Hans in Hone.
    destruct Hone as (c1 & s1 & ds1 & A1 & A2 & A3 & A4 & A5 & A6 & A7 & A8 & A9); try done; [lia | by rewrite <- (assoc_L (++)) | by rewrite <- (assoc_L (++)) |].
    specialize (IH (id + 2) true ds1 c1 s1 (n + 1) x1 kc). rewrite A8, A9, Hsaid in IH.
    destruct IH as (c' & id' & s' & B1 & B2 & B3 & B4); try done; [lia|].
    exists c', id', s'. split; [|split; [|split]].
    + cbn [ask_all calls]. unfold mthen, mret. rewrite A1, B1, Hans. by destruct (calls x1 rs).
    + rewrite B2, A6, <- !(assoc_L (++)). done.
    + rewrite serve_turns, A2, B3, len_cons. by rewrite Z.add_assoc.
    + rewrite B4, A7, <- !(assoc_L (++)). done.
Qed.

(** C1. A connection refines the calls made on it. Let a client make any
    calls on one connection, one after another, of a server that answers
    each by a function of its request and of what it kept of the calls
    before; let every octet either end writes reach the other, in whatever
    pieces. Then the client's calls return exactly what the function does,
    applied to the requests as they are read, in their order; the server
    has answered as many, and both leave. A body may take any number of
    windows: its sender then stops where they shut, and goes on with each
    credit it reads. What crosses is said in full, so each end's writes are
    the other's reads: the preface, the settings and their acknowledgement,
    the compressed heads, the bodies, the credit of the windows, and the two
    farewells. *)
Theorem serving_refines_calls rs x wc ws :
  let crossed := said 1 false (Encoder.new ENCODER_TABLE true) (Encoder.new ENCODER_TABLE true) x rs in
  let client_says := Preface.PREFACE ++ due_wire [Hello] ++ crossed.1 in
  let server_says := due_wire [Hello] ++ crossed.2 in
  callable x rs -> 1 + 2 * len rs <= MAX_STREAM_ID ->
  wire_octets wc -> refusals wc = [] -> wire_octets ws -> refusals ws = [] ->
  carrying wc server_says -> carrying ws client_says ->
  exists c s, ask wc rs = Ok ((calls x rs).1, c) /\ outgoing (io c) = outgoing wc ++ client_says
    /\ Server.serve answer ws x = Ok (len rs, s) /\ outgoing (io s) = outgoing ws ++ server_says.
Proof.
  destruct (said 1 false _ _ x rs) as [up down] eqn:Hsaid. intros crossed client_says server_says Hcall Hid Hoc Hrc Hos Hrs Hwc Hws.
  destruct (start_at_rest wc true Hoc Hrc) as (c & S1 & S2 & S3 & _ & S4 & S5 & S6 & S7).
  unfold client_says in Hws.
  destruct (read_exact_whole ws Preface.PREFACE (due_wire [Hello] ++ up) _ Hws eq_refl) as (ws1 & R1 & R2 & R3 & R4).
  assert (wire_octets ws1) as Hos1 by exact (proj1 (Safety.read_exact_octets _ _ _ _ Hos R1)).
  destruct (start_at_rest ws1 false Hos1 ltac:(congruence)) as (s & T1 & T2 & T3 & T3h & T4 & T5 & T6 & T7).
  assert (kept 1 false [Hello] c s) as Hk.
  { assert (Sync.in_step (Encoder.new ENCODER_TABLE true) (Decoder.new ENCODER_TABLE)) as Hin.
    { apply Sync.in_step_new; unfold U32_MAX, ENCODER_TABLE; lia. }
    split; try done; [|by rewrite S4, T5 | by rewrite T4, S5].
    exists [], []. split; [done|]. split; [done|]. split; [done|]. rewrite T3. done. }
  pose proof (session_runs rs 1 false [Hello] c s 0 x []) as Hrun. rewrite S4, T4, Hsaid in Hrun.
  destruct Hrun as (c' & id' & s' & B1 & B2 & B3 & B4); try done.
  { rewrite app_nil_r. unfold carrying. rewrite S6. exact Hwc. }
  { unfold carrying. rewrite T6. exact R2. }
  assert (forall c0, at_rest true false 1 c0 \/ at_rest false false 1 c0 -> sent c0 = outgoing (io c0)) as Hsent.
  { intros c0 Hc0. assert (held c0 = None) as Hh by (destruct Hc0 as [Hc0|Hc0]; apply Hc0). unfold sent. rewrite Hh. apply app_nil_r. }
  exists (Client.close (Client.mkClient c' scheme id')), (Server.close (Server.mkServer s' ∅)).
  split; [|split; [|split]].
  - unfold ask, Client.handshake. rewrite S1. cbn [res_bind]. by rewrite B1.
  - rewrite B2, Hsent, S7 by (by left). unfold client_says. by rewrite <- !(assoc_L (++)).
  - unfold Server.serve, Server.handshake, mmap_err. rewrite R1. cbn [map_err res_bind].
    rewrite bool_decide_eq_true_2 by done. cbn [negb]. rewrite T1. cbn [res_bind].
    change (fun _ s0 => _) with measure. by rewrite B3.
  - rewrite B4, Hsent, T7, R3 by (by right). unfold server_says. by rewrite app_nil_l, <- !(assoc_L (++)).
Qed.

End session.

(** Two calls: one with a body, answered with trailers; then one without. *)
Definition example_service (n : Z) (r : Request) : Response * Z :=
  (mkResponse (200 + n) (lit "OK") [(lit "X-Path", path r)] (body r ++ lit "!")
     (if n =? 0 then [(lit "Grpc-Status", lit "0")] else []), n + 1).
Definition example_requests : list Request :=
  [mkRequest (lit "PUT") (lit "/a") [(lit "k", lit "v")] [(lit "Host", lit "h"); (lit "X-A", lit "1")] (lit "body");
   mkRequest (lit "GET") (lit "/b") [] [(lit "Host", lit "h"); (lit "X-A", lit "1")] []].
Definition example_crossed : bytes * bytes :=
  said (H := Message.plain) example_service (lit "http") 1 false
    (Encoder.new ENCODER_TABLE true) (Encoder.new ENCODER_TABLE true) 0 example_requests.
Definition example_client_says : bytes := Preface.PREFACE ++ due_wire [Hello] ++ example_crossed.1.
Definition example_server_says : bytes := due_wire [Hello] ++ example_crossed.2.
Definition example_wire (bs : bytes) : Wire := mkWire [Got bs] [] [].

Lemma example_carries bs : bs <> [] -> carrying (example_wire bs) bs.
Proof.
  intros Hb. destruct bs as [|b bs]; [done|]. unfold carrying, example_wire. cbn [incoming].
  rewrite <- (app_nil_r (b :: bs)) at 2. apply delivers_got. constructor.
Qed.

(** One call's conditions, checked by running. *)
Ltac check_call :=
  split_and!; try done;
  try (split; [repeat constructor; done | apply (bool_decide_unpack _); vm_compute; done | reflexivity | reflexivity
              | by left | apply Z.leb_le; reflexivity | by apply Sync.fields_check]);
  try (split; [repeat constructor; done | repeat constructor; done | cbn; lia | vm_compute; congruence
              | vm_compute; congruence | by apply Sync.fields_check | by apply Sync.fields_check]).

Lemma example_callable : callable (H := Message.plain) example_service (lit "http") 0 example_requests.
Proof. check_call. check_call. Qed.

Lemma serving_refines_calls_witness :
  exists c s,
    ask (H := Message.plain) (lit "http") (example_wire example_server_says) example_requests
      = Ok ((calls example_service 0 example_requests).1, c)
    /\ outgoing (Conn.io c) = example_client_says
    /\ Server.serve (H := Message.plain) example_service (example_wire example_client_says) 0 = Ok (2, s)
    /\ outgoing (Conn.io s) = example_server_says.
Proof.
  apply (serving_refines_calls example_service (lit "http") example_requests 0
    (example_wire example_server_says) (example_wire example_client_says)).
  - apply example_callable.
  - vm_compute. congruence.
  - apply wire_octets_check. vm_compute. reflexivity.
  - reflexivity.
  - apply wire_octets_check. vm_compute. reflexivity.
  - reflexivity.
  - apply example_carries. vm_compute. discriminate.
  - apply example_carries. vm_compute. discriminate.
Defined.

Example calls_by_running :
  let '(answers, n) := calls example_service 0 example_requests in
  map (fun a => (status a, r_body a, trailers a)) answers
    = [(200, lit "body!", [(lit "grpc-status", lit "0")]); (201, lit "!", [])] /\ n = 2.
Proof. vm_compute. done. Qed.

End Session.
