(* ===== verification/H2Boxed.v ===== *)
(** A client and a server over a connection of any kind
    ([src/http2/boxed.rs]): the same ones, their code compiled once. What a
    connection is of, a [Wire] does not say, so a box of one is the
    connection. *)

From stdpp Require Import gmap.
From S2P Require Import Prelude Text Errors Wire Http H2Connection H2Server H2Client H2Session.

Module Boxed.

(** [Boxed]: any of a connection's two directions. *)
Definition Boxed : Type := Wire.

Record BoxedClient : Type := mkBoxedClient { client : Client.t }.
Record BoxedServer : Type := mkBoxedServer { server : Server.t }.

(** What a method of the one inside comes to, and the box after it. *)
Definition inside {St Box E A} (open : Box -> St) (box : St -> Box) (m : M St E A) : M Box E A := fun b =>
  let '(r, s) := m (open b) in (r, box s).

Section boxed.
Context `{Percent}.

Definition client_handshake (io : Boxed) (scheme : bytes) : result NetError BoxedClient :=
  let? c := Client.handshake io scheme in Ok (mkBoxedClient c).
Definition send (request : Request) : M BoxedClient NetError Response := inside client mkBoxedClient (Client.send request).
Definition client_close (self : BoxedClient) : Conn.t := Client.close (client self).

Definition server_handshake (io : Boxed) : result NetError BoxedServer :=
  let? s := Server.handshake io in Ok (mkBoxedServer s).
Definition next_request : M BoxedServer NetError (option (Z * Request)) := inside server mkBoxedServer Server.next_request.
Definition respond (stream : Z) (response : Response) : M BoxedServer NetError unit :=
  inside server mkBoxedServer (Server.respond stream response).
Definition server_close (self : BoxedServer) : Conn.t := Server.close (server self).

(** A session of calls over a box, as [Session.ask] makes them. *)
Fixpoint ask_all (requests : list Request) : M BoxedClient NetError (list Response) :=
  match requests with
  | [] => mret []
  | request :: requests => answer <~ send request ;; answers <~ ask_all requests ;; mret (answer :: answers)
  end.

Definition ask (io : Boxed) (scheme : bytes) (requests : list Request) : result NetError (list Response * Conn.t) :=
  let? c := client_handshake io scheme in
  let '(answers, c) := ask_all requests c in
  let? answers := answers in Ok (answers, client_close c).

Lemma ask_all_inside requests : forall c,
  ask_all requests (mkBoxedClient c) = inside client mkBoxedClient (Session.ask_all requests) (mkBoxedClient c).
Proof.
  induction requests as [|request requests IH]; intros c; [done|]. cbn [ask_all Session.ask_all]. unfold mthen, send, inside in *.
  cbn [client]. destruct (Client.send request c) as [[answer|e] c1]; [|done]. rewrite IH. cbn [client].
  by destruct (Session.ask_all requests c1) as [[answers|e] c2].
Qed.

(** So what [Session] shows of a session of calls holds of it boxed. *)
Lemma boxed_session_is_the_sessions io scheme requests : ask io scheme requests = Session.ask scheme io requests.
Proof.
  unfold ask, Session.ask, client_handshake. destruct (Client.handshake io scheme) as [c|e]; [|done]. cbn [res_bind].
  rewrite ask_all_inside. unfold inside. cbn [client]. by destruct (Session.ask_all requests c) as [[answers|e] c1].
Qed.
End boxed.
End Boxed.
