(* ===== verification/Ip.v ===== *)
(** Internet addresses as the standard library reads and writes them
    ([std::net]): what [str::parse] takes for an [IpAddr] or a [SocketAddr],
    and what [Display] writes of an address. *)

From Stdlib Require Import String.
From S2P Require Import Prelude Text.

(** An [Ipv4Addr] is its four octets, an [Ipv6Addr] its eight segments. *)
Inductive IpAddr : Type :=
| V4 (octets : list Z)
| V6 (segments : list Z).

#[global] Instance IpAddr_eq_dec : EqDecision IpAddr.
Proof. solve_decision. Defined.

Record SocketAddr : Type := mkSocketAddr { ip : IpAddr; port : Z }.
#[global] Instance SocketAddr_eq_dec : EqDecision SocketAddr.
Proof. solve_decision. Defined.

Module Ip.

Definition u8s (l : list Z) : Prop := length l = 4%nat /\ Forall (fun b => 0 <= b < 256) l.
Definition u16s (l : list Z) : Prop := length l = 8%nat /\ Forall (fun s => 0 <= s < 65536) l.
Definition valid (a : IpAddr) : Prop := match a with V4 octets => u8s octets | V6 segments => u16s segments end.

#[global] Instance valid_dec a : Decision (valid a).
Proof. destruct a; unfold valid, u8s, u16s; apply _. Defined.

(** ** Reading

    The parser's state is what is left to read; what fails takes nothing. *)

Definition to_digit (radix b : Z) : option Z :=
  d ← (if is_ascii_digit b then Some (b - 48)
       else if between 97 b 122 then Some (b - 87)
       else if between 65 b 90 then Some (b - 55)
       else None);
  if d <? radix then Some d else None.

(** The digits the text opens with. *)
Fixpoint read_digits (radix : Z) (s : bytes) : list Z * bytes :=
  match s with
  | [] => ([], [])
  | b :: rest =>
      match to_digit radix b with
      | Some d => let '(ds, rest) := read_digits radix rest in (d :: ds, rest)
      | None => ([], s)
      end
  end.

Definition number (radix : Z) (ds : list Z) : Z := fold_left (fun n d => n * radix + d) ds 0.

Definition read_number (radix : Z) (max_digits : option nat) (allow_zero_prefix : bool) (most : Z) (s : bytes) :
    option (Z * bytes) :=
  let '(ds, rest) := read_digits radix s in
  if bool_decide (ds = []) then None
  else if match max_digits with Some most => (most <? length ds)%nat | None => false end then None
  else if negb allow_zero_prefix && bool_decide (head ds = Some 0) && (1 <? length ds)%nat then None
  else if number radix ds <=? most then Some (number radix ds, rest) else None.

Definition read_separator {A} (sep : Z) (index : nat) (inner : bytes -> option A) (s : bytes) : option A :=
  match index with
  | O => inner s
  | S _ => after ← strip_prefix [sep] s; inner after
  end.

Definition read_octet (index : nat) : bytes -> option (Z * bytes) :=
  read_separator 46 index (read_number 10 (Some 3%nat) false U8_MAX).

Definition read_ipv4 (s : bytes) : option (list Z * bytes) :=
  '(a, s) ← read_octet 0 s;
  '(b, s) ← read_octet 1 s;
  '(c, s) ← read_octet 2 s;
  '(d, s) ← read_octet 3 s;
  Some ([a; b; c; d], s).

Definition read_segment (index : nat) : bytes -> option (Z * bytes) :=
  read_separator 58 index (read_number 16 (Some 4%nat) true U16_MAX).

(** [read_groups] of the [room] groups from the one at [index]: what was read,
    and whether it ended with an IPv4 address. *)
Fixpoint read_groups (room index : nat) (s : bytes) : list Z * bool * bytes :=
  match room with
  | O => ([], false, s)
  | S room =>
      match (if (room =? 0)%nat then None else read_separator 58 index read_ipv4 s) with
      | Some (octets, s) =>
          match octets with
          | [one; two; three; four] => ([one * 256 + two; three * 256 + four], true, s)
          | _ => ([], true, s)
          end
      | None =>
          match read_segment index s with
          | Some (g, s) => let '(gs, ipv4, s) := read_groups room (S index) s in (g :: gs, ipv4, s)
          | None => ([], false, s)
          end
      end
  end.

Definition read_ipv6 (s : bytes) : option (list Z * bytes) :=
  let '(head, head_ipv4, s) := read_groups 8 0 s in
  if (length head =? 8)%nat then Some (head, s)
  else if head_ipv4 : bool then None
  else
    s ← strip_prefix [58; 58] s;
    let '(tail, _, s) := read_groups (8 - (length head + 1)) 0 s in
    Some (head ++ replicate (8 - length head - length tail) 0 ++ tail, s).

Definition read_ip (s : bytes) : option (IpAddr * bytes) :=
  match read_ipv4 s with
  | Some (octets, s) => Some (V4 octets, s)
  | None => '(segments, s) ← read_ipv6 s; Some (V6 segments, s)
  end.

Definition read_port (s : bytes) : option (Z * bytes) :=
  s ← strip_prefix [58] s; read_number 10 None true U16_MAX s.

(** [%] and a number, where a scope is written. *)
Definition read_scope (s : bytes) : bytes :=
  match (s ← strip_prefix [37] s; read_number 10 None true U32_MAX s) with
  | Some (_, s) => s
  | None => s
  end.

Definition read_socket_v4 (s : bytes) : option (SocketAddr * bytes) :=
  '(octets, s) ← read_ipv4 s; '(port, s) ← read_port s; Some (mkSocketAddr (V4 octets) port, s).

Definition read_socket_v6 (s : bytes) : option (SocketAddr * bytes) :=
  s ← strip_prefix [91] s; '(segments, s) ← read_ipv6 s;
  s ← strip_prefix [93] (read_scope s); '(port, s) ← read_port s;
  Some (mkSocketAddr (V6 segments) port, s).

(** [parse_with]: the whole of the text, or nothing. *)
Definition whole {A} (read : option (A * bytes)) : option A :=
  match read with Some (a, []) => Some a | _ => None end.

Definition parse (s : bytes) : option IpAddr := whole (read_ip s).
Definition parse_socket (s : bytes) : option SocketAddr :=
  whole match read_socket_v4 s with Some r => Some r | None => read_socket_v6 s end.

(** ** Writing *)

Definition write_v4 (octets : list Z) : bytes := join [46] (map dec octets).

(** The longest run of zero segments, the first of them: where it starts and
    how long it is. *)
Fixpoint zeroes (i : nat) (current longest : nat * nat) (segments : list Z) : nat * nat :=
  match segments with
  | [] => longest
  | segment :: segments =>
      if segment =? 0 then
        let current := if (current.2 =? 0)%nat then (i, 1%nat) else (current.1, S current.2) in
        zeroes (S i) current (if (longest.2 <? current.2)%nat then current else longest) segments
      else zeroes (S i) (0%nat, 0%nat) longest segments
  end.

Definition fmt_subslice (chunk : list Z) : bytes := join [58] (map hex chunk).

Definition write_segments (segments : list Z) : bytes :=
  let '(start, run) := zeroes 0 (0, 0)%nat (0, 0)%nat segments in
  if (1 <? run)%nat then
    fmt_subslice (take start segments) ++ lit "::" ++ fmt_subslice (drop (start + run) segments)
  else fmt_subslice segments.

Definition write_v6 (segments : list Z) : bytes :=
  match segments with
  | [0; 0; 0; 0; 0; 0xffff; ab; cd] =>
      lit "::ffff:" ++ write_v4 [ab / 256; ab mod 256; cd / 256; cd mod 256]
  | _ => write_segments segments
  end.

Definition display (a : IpAddr) : bytes :=
  match a with V4 octets => write_v4 octets | V6 segments => write_v6 segments end.

(** ** What an address is *)

Definition is_unspecified (a : IpAddr) : bool :=
  match a with
  | V4 octets => bool_decide (octets = replicate 4 0)
  | V6 segments => bool_decide (segments = replicate 8 0)
  end.
Definition is_loopback (a : IpAddr) : bool :=
  match a with
  | V4 octets => bool_decide (head octets = Some 127)
  | V6 segments => bool_decide (segments = replicate 7 0 ++ [1])
  end.
Definition V4_LOCALHOST : IpAddr := V4 [127; 0; 0; 1].
Definition V6_LOCALHOST : IpAddr := V6 (replicate 7 0 ++ [1]).

Example reads_as_std :
  map parse [lit "127.0.0.1"; lit "::1"; lit "2001:DB8::"; lit "::ffff:1.2.3.4"; lit "1:2:3:4:5:6:7:8";
             lit "1:2:3:4:5:6:1.2.3.4"; lit "01.2.3.4"; lit "1:2:3:4:5:6:7::"; lit "1::2::3"; lit "1.2.3.4::";
             lit "::1:2:3:4:5:6:7:8"; lit "1.2.3.256"; lit "::10000"]
  = [Some (V4 [127; 0; 0; 1]); Some (V6 [0; 0; 0; 0; 0; 0; 0; 1]); Some (V6 [0x2001; 0xdb8; 0; 0; 0; 0; 0; 0]);
     Some (V6 [0; 0; 0; 0; 0; 0xffff; 0x102; 0x304]); Some (V6 [1; 2; 3; 4; 5; 6; 7; 8]);
     Some (V6 [1; 2; 3; 4; 5; 6; 0x102; 0x304]); None; Some (V6 [1; 2; 3; 4; 5; 6; 7; 0]); None; None;
     None; None; None].
Proof. vm_compute. reflexivity. Qed.

Example writes_as_std :
  map display [V6 [1; 0; 0; 2; 0; 0; 0; 3]; V6 [0; 1; 0; 2; 3; 4; 5; 6]; V6 (replicate 8 0);
               V6 [0; 0; 0; 0; 0; 0xffff; 0x7f00; 1]]
  = [lit "1:0:0:2::3"; lit "0:1:0:2:3:4:5:6"; lit "::"; lit "::ffff:127.0.0.1"].
Proof. vm_compute. reflexivity. Qed.

(** ** What is written is read *)

(** What follows a number in [radix]. *)
Definition stops (radix : Z) (k : bytes) : Prop :=
  match k with b :: _ => to_digit radix b = None | [] => True end.

Lemma to_digit_digit radix d : radix <= 16 -> 0 <= d < radix -> to_digit radix (digit d) = Some d.
Proof.
  intros Hr Hd. assert (0 <= d < 16) as Hd' by lia. unfold to_digit.
  replace (if is_ascii_digit (digit d) then _ else _) with (Some d).
  - cbn [mbind option_bind]. by destruct (Z.ltb_spec d radix); [|lia].
  - symmetry. apply (bool_decide_unpack _), Is_true_eq_left.
    clear Hr Hd radix. check_range 16%nat d.
Qed.

Lemma read_digits_written radix ds k : radix <= 16 -> Forall (fun d => 0 <= d < radix) ds -> stops radix k ->
  read_digits radix (map digit ds ++ k) = (ds, k).
Proof.
  intros Hr H Hk. induction H as [|d ds Hd H IH]; cbn [map app].
  - destruct k as [|b k]; [done|]. cbn in Hk |- *. by rewrite Hk.
  - cbn [read_digits]. by rewrite to_digit_digit, IH.
Qed.

Lemma number_snoc radix ds d : number radix (ds ++ [d]) = number radix ds * radix + d.
Proof. unfold number. by rewrite fold_left_app. Qed.

(** The digits written of a number: no zero before them, and no more of them
    than the number is long. *)
Lemma digits_written base fuel : 1 < base <= 16 -> forall n acc, 0 <= n -> n < 2 ^ Z.of_nat fuel -> (0 < fuel)%nat ->
  exists ds, digits_of fuel base n acc = map digit ds ++ acc /\ Forall (fun d => 0 <= d < base) ds
    /\ number base ds = n /\ ds <> [] /\ (head ds = Some 0 -> length ds = 1%nat)
    /\ (forall k, (0 < k)%nat -> n < base ^ Z.of_nat k -> (length ds <= k)%nat).
Proof.
  intros Hb. induction fuel as [|fuel IH]; intros n acc Hn Hf Hpos; [lia|]. cbn [digits_of].
  pose proof (Z.div_mod n base ltac:(lia)) as Hdm. pose proof (Z.mod_pos_bound n base ltac:(lia)) as Hm.
  assert (0 <= n / base) as Hd by (apply Z.div_pos; lia).
  destruct (Z.eqb_spec (n / base) 0) as [Hz|Hz].
  - exists [n mod base]. split_and!; [done | by apply Forall_singleton | cbn; lia | done | done | cbn; lia].
  - assert (n / base < 2 ^ Z.of_nat fuel) as Hlt.
    { rewrite Nat2Z.inj_succ, Z.pow_succ_r in Hf by lia. apply Z.div_lt_upper_bound; nia. }
    assert (0 < fuel)%nat as Hpos' by (destruct fuel; [cbn in Hlt; lia | lia]).
    destruct (IH (n / base) (digit (n mod base) :: acc) Hd Hlt Hpos') as (ds & Hds & Hall & Hnum & Hne & Hhead & Hlen).
    exists (ds ++ [n mod base]). split_and!.
    + rewrite Hds, map_app, <- app_assoc. done.
    + apply Forall_app. split; [done|]. by apply Forall_singleton.
    + rewrite number_snoc, Hnum. lia.
    + by destruct ds.
    + destruct ds as [|d ds]; [done|]. cbn. intros [= ->]. specialize (Hhead eq_refl).
      destruct ds; [|discriminate]. cbn in Hnum. lia.
    + intros k Hk Hnk. destruct k as [|k]; [lia|]. rewrite length_app. cbn [length].
      rewrite Nat2Z.inj_succ, Z.pow_succ_r in Hnk by lia.
      assert (n / base < base ^ Z.of_nat k) as Hk' by (apply Z.div_lt_upper_bound; lia).
      destruct k; [cbn in Hk'; lia|]. specialize (Hlen (S k) ltac:(lia) Hk'). lia.
Qed.

Lemma read_number_digits radix most_digits zeros most ds n k : radix <= 16 ->
  Forall (fun d => 0 <= d < radix) ds -> number radix ds = n -> ds <> [] -> (head ds = Some 0 -> length ds = 1%nat) ->
  from_option (fun m => length ds <= m)%nat True most_digits -> n <= most -> stops radix k ->
  read_number radix most_digits zeros most (map digit ds ++ k) = Some (n, k).
Proof.
  intros Hr Hall Hnum Hne Hhead Hlen Hn Hk. unfold read_number. rewrite read_digits_written by done.
  rewrite bool_decide_eq_false_2 by done.
  assert (match most_digits with Some m => (m <? length ds)%nat | None => false end = false) as ->.
  { destruct most_digits; [|done]. cbn in Hlen. by apply Nat.ltb_ge. }
  assert (negb zeros && bool_decide (head ds = Some 0) && (1 <? length ds)%nat = false) as ->.
  { destruct (bool_decide_reflect (head ds = Some 0)) as [Hz|]; [|by rewrite andb_false_r].
    rewrite (Hhead Hz). apply andb_false_r. }
  rewrite Hnum. by destruct (Z.leb_spec n most); [|lia].
Qed.

Lemma read_dec most_digits zeros most n k : 0 <= n <= most ->
  from_option (fun m => (0 < m)%nat /\ n < 10 ^ Z.of_nat m) True most_digits -> stops 10 k ->
  read_number 10 most_digits zeros most (dec n ++ k) = Some (n, k).
Proof.
  intros Hn Hm Hk. unfold dec. destruct (Z.ltb_spec n 0); [lia|].
  destruct (digits_written 10 _ ltac:(lia) n [] ltac:(lia) (log2_fuel n ltac:(lia)) ltac:(lia))
    as (ds & -> & Hall & Hnum & Hne & Hhead & Hlen). rewrite app_nil_r.
  apply read_number_digits; try done; [|lia]. destruct most_digits as [m|]; [|done]. cbn in Hm |- *. destruct Hm. by apply Hlen.
Qed.

Lemma read_hex most_digits zeros most n k : 0 <= n <= most ->
  from_option (fun m => (0 < m)%nat /\ n < 16 ^ Z.of_nat m) True most_digits -> stops 16 k ->
  read_number 16 most_digits zeros most (hex n ++ k) = Some (n, k).
Proof.
  intros Hn Hm Hk. unfold hex.
  destruct (digits_written 16 _ ltac:(lia) n [] ltac:(lia) (log2_fuel n ltac:(lia)) ltac:(lia))
    as (ds & -> & Hall & Hnum & Hne & Hhead & Hlen). rewrite app_nil_r.
  apply read_number_digits; try done; [|lia]. destruct most_digits as [m|]; [|done]. cbn in Hm |- *. destruct Hm. by apply Hlen.
Qed.

(** Four octets are read back. *)
Lemma read_v4_written octets k : u8s octets -> stops 10 k -> read_ipv4 (write_v4 octets ++ k) = Some (octets, k).
Proof.
  intros [Hlen H] Hk. destruct octets as [|a [|b [|c [|d [|? ?]]]]]; try discriminate.
  rewrite !Forall_cons in H. destruct H as (Ha & Hb & Hc & Hd & _).
  assert (forall n k, 0 <= n < 256 -> stops 10 k -> read_number 10 (Some 3%nat) false U8_MAX (dec n ++ k) = Some (n, k)) as Hread.
  { intros n k' Hn Hs. apply read_dec; [unfold U8_MAX; lia | cbn; lia | done]. }
  unfold write_v4, read_ipv4, read_octet. cbn [map join read_separator]. rewrite <- !app_assoc. cbn [app].
  do 3 (rewrite Hread by done; cbn [mbind option_bind strip_prefix]; rewrite Z.eqb_refl; cbn [mbind option_bind]).
  rewrite Hread by done. done.
Qed.

(** What has no dot in it holds no IPv4 address. *)
Lemma read_digits_suffix radix s : exists p, s = p ++ (read_digits radix s).2.
Proof.
  induction s as [|b s [p IH]]; [by exists []|]. cbn [read_digits]. destruct (to_digit radix b); [|by exists []].
  destruct (read_digits radix s) as [ds rest]. exists (b :: p). cbn in *. by f_equal.
Qed.

Lemma read_number_suffix radix m z most s n k : read_number radix m z most s = Some (n, k) -> exists p, s = p ++ k.
Proof.
  unfold read_number. destruct (read_digits_suffix radix s) as [p Hp]. destruct (read_digits radix s) as [ds rest].
  intros H. exists p. repeat case_match; by simplify_eq.
Qed.

Lemma read_ipv4_dotless s : (46 ∉ s) -> read_ipv4 s = None.
Proof.
  intros H. unfold read_ipv4. destruct (read_octet 0 s) as [[a s']|] eqn:Ha; [|done]. cbn [mbind option_bind].
  apply read_number_suffix in Ha as [p ->]. apply not_elem_of_app in H as [_ H].
  destruct s' as [|b s']; [done|]. apply not_elem_of_cons in H as [H _].
  unfold read_octet. cbn [read_separator strip_prefix]. by destruct (Z.eqb_spec b 46).
Qed.

Lemma read_separator_dotless index s : (46 ∉ s) -> read_separator 58 index read_ipv4 s = None.
Proof.
  intros H. destruct index; cbn [read_separator]; [by apply read_ipv4_dotless|].
  destruct (strip_prefix [58] s) as [t|] eqn:Hs; [|done]. apply strip_prefix_spec in Hs as ->.
  apply not_elem_of_app in H as [_ H]. by apply read_ipv4_dotless.
Qed.

(** Groups as they are written from the one at [index]. *)
Fixpoint colons (index : nat) (gs : list Z) : bytes :=
  match gs with
  | [] => []
  | g :: gs => (match index with O => [] | S _ => [58] end) ++ hex g ++ colons (S index) gs
  end.

Lemma fmt_colons gs : fmt_subslice gs = colons 0 gs.
Proof.
  assert (forall gs index, gs <> [] -> colons (S index) gs = 58 :: join [58] (map hex gs)) as H.
  { clear gs. induction gs as [|g gs IH]; intros index Hne; [done|]. cbn [colons map]. destruct gs as [|g' gs].
    - cbn. by rewrite app_nil_r.
    - rewrite IH by done. done. }
  unfold fmt_subslice. destruct gs as [|g gs]; [done|]. cbn [colons map app]. destruct gs as [|g' gs]; [cbn; by rewrite app_nil_r|].
  by rewrite H.
Qed.

Lemma hex_no c n : ~ is_hex c -> c ∉ hex n.
Proof. intros Hc Hin. pose proof (hex_digits n) as H. rewrite Forall_forall in H. by apply Hc, H. Qed.

Lemma colons_dotless gs index : 46 ∉ colons index gs.
Proof.
  revert index. induction gs as [|g gs IH]; intros index; cbn [colons]; [apply not_elem_of_nil|].
  rewrite !not_elem_of_app. split_and!; [destruct index; [apply not_elem_of_nil | by rewrite list_elem_of_singleton] | apply hex_no; unfold is_hex; lia | apply IH].
Qed.

(** What comes after an address: nothing, or the bracket that closes it. *)
Definition closes (k : bytes) : Prop := k = [] \/ exists k', k = 93 :: k' /\ (46 ∉ k').
(** What comes after groups: that, or the [::] of the run left out. *)
Definition ends (k : bytes) : Prop := closes k \/ exists k', k = 58 :: 58 :: k'.

Lemma closes_dotless k : closes k -> 46 ∉ k.
Proof. intros [->|(k' & -> & H)]; [apply not_elem_of_nil | by apply not_elem_of_cons]. Qed.

Lemma ends_segment index k : ends k -> read_segment index k = None.
Proof. intros [[->|(k' & -> & _)]|[k' ->]]; by destruct index. Qed.

Lemma read_groups_written gs : forall room index k,
  Forall (fun g => 0 <= g < 65536) gs -> (length gs <= room)%nat -> (46 ∉ k) -> ends k ->
  read_groups room index (colons index gs ++ k) = (gs, false, k).
Proof.
  induction gs as [|g gs IH]; intros room index k Hgs Hlen Hdot Hk; destruct room as [|room]; try done; cbn in Hlen; try lia.
  - cbn [colons app read_groups].
    assert ((if (room =? 0)%nat then None else read_separator 58 index read_ipv4 k) = None) as ->.
    { case_match; [done|]. by apply read_separator_dotless. }
    by rewrite ends_segment.
  - apply Forall_cons in Hgs as [Hg Hgs]. cbn [read_groups].
    assert ((if (room =? 0)%nat then None else read_separator 58 index read_ipv4 (colons index (g :: gs) ++ k)) = None) as ->.
    { case_match; [done|]. apply read_separator_dotless. apply not_elem_of_app. split; [apply colons_dotless | done]. }
    assert (read_segment index (colons index (g :: gs) ++ k) = Some (g, colons (S index) gs ++ k)) as ->.
    { assert (read_number 16 (Some 4%nat) true U16_MAX (hex g ++ colons (S index) gs ++ k) = Some (g, colons (S index) gs ++ k)) as Hr.
      { apply read_hex; [unfold U16_MAX; lia | cbn; lia |]. destruct gs; [|done]. by destruct Hk as [[->|(? & -> & _)]|[? ->]]. }
      unfold read_segment. destruct index; cbn [colons app read_separator]; rewrite <- app_assoc; [done|].
      cbn [strip_prefix]. rewrite Z.eqb_refl. done. }
    by rewrite (IH room (S index) k Hgs ltac:(lia) Hdot Hk).
Qed.

(** The longest run of zeroes is one. *)
Lemma zeroes_run segs : forall done_ current longest,
  let run (p : nat * nat) := (p.1 + p.2 <= length done_)%nat /\ take p.2 (drop p.1 done_) = replicate p.2 0 in
  run longest -> run current -> (current.2 = 0 \/ current.1 + current.2 = length done_)%nat ->
  let '(start, n) := zeroes (length done_) current longest segs in
  (start + n <= length (done_ ++ segs))%nat /\ take n (drop start (done_ ++ segs)) = replicate n 0.
Proof.
  induction segs as [|x segs IH]; intros done_ [cs cn] [ls ln]; cbn [fst snd].
  - intros Hl _ _. rewrite app_nil_r. exact Hl.
  - intros [Hll Hlz] [Hcl Hcz] Hend.
    assert (forall s n, (s + n <= length done_)%nat -> take n (drop s (done_ ++ [x])) = take n (drop s done_)) as Hold.
    { intros s n Hsn. rewrite drop_app_le by lia. by rewrite take_app_le by (rewrite length_drop; lia). }
    replace (done_ ++ x :: segs) with ((done_ ++ [x]) ++ segs) by by rewrite <- app_assoc.
    cbn [zeroes]. replace (S (length done_)) with (length (done_ ++ [x])) by (rewrite length_app; cbn; lia).
    destruct (Z.eqb_spec x 0) as [->|Hx].
    + assert (forall s n, (s + n = length done_)%nat -> take n (drop s done_) = replicate n 0 ->
        take (S n) (drop s (done_ ++ [0])) = replicate (S n) 0) as Hone.
      { intros s n Hsn Hz. rewrite drop_app_le by lia. rewrite take_ge by (rewrite length_app, length_drop; cbn; lia).
        rewrite take_ge in Hz by (rewrite length_drop; lia). rewrite Hz. symmetry. apply replicate_S_end. }
      cbn [fst snd]. destruct (Nat.eqb_spec cn 0) as [->|Hcn]; cbn [fst snd].
      * specialize (Hone (length done_) 0%nat ltac:(lia) eq_refl).
        destruct (ln <? 1)%nat; apply IH; cbn [fst snd]; rewrite ?length_app; cbn [length]; rewrite ?Hold by lia; repeat split; try done; lia.
      * destruct Hend as [|Hend]; [done|]. specialize (Hone cs cn Hend Hcz).
        destruct (ln <? S cn)%nat; apply IH; cbn [fst snd]; rewrite ?length_app; cbn [length]; rewrite ?Hold by lia; repeat split; try done; lia.
    + apply IH; cbn [fst snd]; rewrite ?length_app; cbn [length]; rewrite ?Hold by lia; repeat split; try done; lia.
Qed.

Lemma zeroes_split segs start n : zeroes 0 (0, 0)%nat (0, 0)%nat segs = (start, n) ->
  (start + n <= length segs)%nat /\ segs = take start segs ++ replicate n 0 ++ drop (start + n) segs.
Proof.
  intros H. pose proof (zeroes_run segs [] (0, 0)%nat (0, 0)%nat) as Hz. cbn in Hz. rewrite H in Hz.
  destruct Hz as [Hl Hz]; [by split..|by left|]. split; [done|]. rewrite <- Hz.
  rewrite <- drop_drop, take_drop. by rewrite take_drop.
Qed.

Lemma read_v6_groups segments k : u16s segments -> closes k ->
  read_ipv6 (fmt_subslice segments ++ k) = Some (segments, k).
Proof.
  intros [Hlen H] Hk. pose proof (closes_dotless k Hk). unfold read_ipv6.
  rewrite fmt_colons, (read_groups_written segments 8 0 k); [|done|lia|done|by left].
  by rewrite Hlen.
Qed.

Lemma read_v6_compressed start n segments k : u16s segments -> closes k ->
  (1 < n)%nat -> (start + n <= length segments)%nat ->
  segments = take start segments ++ replicate n 0 ++ drop (start + n) segments ->
  read_ipv6 (fmt_subslice (take start segments) ++ lit "::" ++ fmt_subslice (drop (start + n) segments) ++ k) = Some (segments, k).
Proof.
  intros [Hlen H] Hk Hn Hsn Hsplit. pose proof (Forall_take _ start _ H) as Hh. pose proof (Forall_drop _ (start + n) _ H) as Ht.
  assert (length (take start segments) = start) as Hhl by (rewrite length_take; lia).
  assert (length (drop (start + n) segments) = (8 - (start + n))%nat) as Htl by (rewrite length_drop; lia).
  revert Hsplit Hh Ht Hhl Htl. generalize (take start segments) (drop (start + n) segments). intros hd tl Hsplit Hh Ht Hhl Htl.
  unfold read_ipv6. rewrite !fmt_colons. change (lit "::" ++ colons 0 tl ++ k) with (58 :: 58 :: colons 0 tl ++ k).
  pose proof (closes_dotless k Hk).
  rewrite (read_groups_written hd 8 0); [|done|lia| |right; by eexists].
  2:{ rewrite !not_elem_of_cons. split_and!; [done..|]. apply not_elem_of_app. split; [apply colons_dotless | done]. }
  destruct (Nat.eqb_spec (length hd) 8); [lia|]. cbn [strip_prefix Z.eqb Pos.eqb mbind option_bind].
  rewrite (read_groups_written tl _ 0); [|done|lia|done|by left].
  replace (8 - length hd - length tl)%nat with n by lia. by rewrite <- Hsplit.
Qed.

Lemma read_v6_mapped ab cd k : stops 10 k -> 0 <= ab < 65536 -> 0 <= cd < 65536 ->
  read_ipv6 ((lit "::ffff:" ++ write_v4 [ab / 256; ab mod 256; cd / 256; cd mod 256]) ++ k)
  = Some ([0; 0; 0; 0; 0; 0xffff; ab; cd], k).
Proof.
  intros Hk Hab Hcd. set (octets := [ab / 256; ab mod 256; cd / 256; cd mod 256]).
  assert (u8s octets) as Ho.
  { split; [done|]. assert (forall x, 0 <= x < 65536 -> 0 <= x / 256 < 256 /\ 0 <= x mod 256 < 256) as Hx.
    { intros x Hx. split; [|apply Z.mod_pos_bound; lia]. split; [apply Z.div_pos; lia | apply Z.div_lt_upper_bound; lia]. }
    subst octets. destruct (Hx ab Hab), (Hx cd Hcd). by repeat apply Forall_cons_2. }
  pose proof (read_v4_written octets k Ho Hk) as Hr.
  assert (read_groups 7 0 (hex 0xffff ++ 58 :: write_v4 octets ++ k) = ([0xffff; ab; cd], true, k)) as Hg.
  { change 7%nat with (S 6). cbn [read_groups Nat.eqb].
    assert (read_separator 58 0 read_ipv4 (hex 0xffff ++ 58 :: write_v4 octets ++ k) = None) as -> by reflexivity.
    assert (read_segment 0 (hex 0xffff ++ 58 :: write_v4 octets ++ k) = Some (0xffff, 58 :: write_v4 octets ++ k)) as ->.
    { unfold read_segment. cbn [read_separator]. apply read_hex; [unfold U16_MAX; lia | cbn; lia | done]. }
    cbn [read_separator strip_prefix]. rewrite Z.eqb_refl. cbn [mbind option_bind]. rewrite Hr. subst octets. cbn beta iota.
    by rewrite !(Z.mul_comm _ 256), <- !Z.div_mod by lia. }
  unfold read_ipv6. change ((lit "::ffff:" ++ write_v4 octets) ++ k) with (58 :: 58 :: hex 0xffff ++ 58 :: write_v4 octets ++ k).
  assert (forall s, read_groups 8 0 (58 :: s) = ([], false, 58 :: s)) as -> by reflexivity.
  cbn [length Nat.eqb strip_prefix Z.eqb Pos.eqb mbind option_bind Nat.sub Nat.add]. rewrite Hg. done.
Qed.

Lemma read_v6_segments segments k : u16s segments -> closes k -> read_ipv6 (write_segments segments ++ k) = Some (segments, k).
Proof.
  intros Hs Hk. unfold write_segments. destruct (zeroes 0 (0, 0)%nat (0, 0)%nat segments) as [start n] eqn:Hz.
  apply zeroes_split in Hz as [Hl Hsplit]. destruct (Nat.ltb_spec 1 n) as [Hn|Hn].
  - rewrite <- !app_assoc. by apply read_v6_compressed.
  - by apply read_v6_groups.
Qed.

Lemma read_v6_written segments k : u16s segments -> closes k -> read_ipv6 (write_v6 segments ++ k) = Some (segments, k).
Proof.
  intros Hs Hk. pose proof (read_v6_segments segments k Hs Hk) as Hg. unfold write_v6. repeat (case_match; try exact Hg).
  destruct Hs as [_ Hs]. rewrite !Forall_cons in Hs. destruct Hs as (_ & _ & _ & _ & _ & _ & Hab & Hcd & _).
  apply read_v6_mapped; [by destruct Hk as [->|(? & -> & _)] | done | done].
Qed.

(** What is not an IPv4 address: what opens with no digit, and what no dot
    follows the first digits of. *)
Lemma v6_not_v4 segments : u16s segments -> read_ipv4 (write_v6 segments) = None.
Proof.
  intros Hs. assert (46 ∉ write_segments segments) as Hdot.
  { assert (forall gs, 46 ∉ fmt_subslice gs) as Hf by (intros gs; rewrite fmt_colons; apply colons_dotless).
    unfold write_segments. repeat case_match; [|apply Hf]. rewrite !not_elem_of_app. split_and!; [apply Hf| |apply Hf].
    apply (bool_decide_unpack _). by vm_compute. }
  apply read_ipv4_dotless in Hdot. unfold write_v6. repeat (case_match; try exact Hdot). done.
Qed.

Lemma parse_display a : valid a -> parse (display a) = Some a.
Proof.
  destruct a as [octets|segments]; intros Ha; unfold parse, read_ip, display.
  - rewrite <- (app_nil_r (write_v4 octets)), read_v4_written by done. done.
  - rewrite v6_not_v4 by done. rewrite <- (app_nil_r (write_v6 segments)), read_v6_written by (done || by left). done.
Qed.

(** ** What is read is an address *)

Lemma to_digit_range radix b d : to_digit radix b = Some d -> 0 <= d < radix.
Proof.
  unfold to_digit. intros H.
  assert (forall x, (if x <? radix then Some x else None) = Some d -> 0 <= x -> 0 <= d < radix) as Hx.
  { intros x. destruct (Z.ltb_spec x radix); [|discriminate]. intros [= ->]. lia. }
  destruct (is_ascii_digit b) eqn:H1; [|destruct (between 97 b 122) eqn:H2; [|destruct (between 65 b 90) eqn:H3; [|discriminate]]];
    cbn [mbind option_bind] in H; apply Hx in H; try done;
    unfold is_ascii_digit, between in *; rewrite andb_true_iff in *; lia.
Qed.

Lemma read_digits_range radix s : Forall (fun d => 0 <= d < radix) (read_digits radix s).1.
Proof.
  induction s as [|b s IH]; [constructor|]. cbn [read_digits]. destruct (to_digit radix b) as [d|] eqn:Hd; [|constructor].
  destruct (read_digits radix s). constructor; [by eapply to_digit_range | done].
Qed.

Lemma number_nonneg radix ds : 0 <= radix -> Forall (fun d => 0 <= d < radix) ds -> 0 <= number radix ds.
Proof.
  intros Hr. induction ds as [|d ds IH] using rev_ind; intros H; [done|]. rewrite number_snoc.
  apply Forall_app in H as [H1 [H2 _]%Forall_cons]. specialize (IH H1). nia.
Qed.

Lemma read_number_range radix m z most s n k : 0 <= radix -> read_number radix m z most s = Some (n, k) -> 0 <= n <= most.
Proof.
  intros Hr. unfold read_number. pose proof (read_digits_range radix s) as Hd.
  destruct (read_digits radix s) as [ds rest]. intros H. repeat case_match; simplify_eq.
  all: split; [by apply number_nonneg | lia].
Qed.

Lemma read_octet_range index s b k : read_octet index s = Some (b, k) -> 0 <= b < 256.
Proof.
  unfold read_octet, U8_MAX. intros H. assert (0 <= b <= 255); [|lia].
  destruct index; cbn [read_separator] in H; [eapply read_number_range; [|exact H]; lia|].
  destruct (strip_prefix [46] s); [|discriminate]. eapply read_number_range; [|exact H]; lia.
Qed.

Lemma read_segment_range index s g k : read_segment index s = Some (g, k) -> 0 <= g < 65536.
Proof.
  unfold read_segment, U16_MAX. intros H. assert (0 <= g <= 65535); [|lia].
  destruct index; cbn [read_separator] in H; [eapply read_number_range; [|exact H]; lia|].
  destruct (strip_prefix [58] s); [|discriminate]. eapply read_number_range; [|exact H]; lia.
Qed.

Lemma read_ipv4_valid s octets k : read_ipv4 s = Some (octets, k) -> u8s octets.
Proof.
  unfold read_ipv4. intros H.
  repeat match goal with
  | H : (read_octet ?i ?s ≫= _) = Some _ |- _ =>
      let E := fresh "E" in
      destruct (read_octet i s) as [[? ?]|] eqn:E; [apply read_octet_range in E; cbn [mbind option_bind] in H | discriminate]
  end.
  injection H as <- <-. split; [done|]. by repeat apply Forall_cons_2.
Qed.

Lemma read_groups_valid room : forall index s,
  let '(gs, _, _) := read_groups room index s in (length gs <= room)%nat /\ Forall (fun g => 0 <= g < 65536) gs.
Proof.
  induction room as [|room IH]; intros index s; cbn [read_groups]; [by split|].
  destruct (if (room =? 0)%nat then None else read_separator 58 index read_ipv4 s) as [[octets k]|] eqn:Hv.
  - assert (u8s octets /\ (0 < room)%nat) as [[Hlen Ho] Hroom].
    { destruct (Nat.eqb_spec room 0); [discriminate|]. split; [|lia].
      destruct index; cbn [read_separator] in Hv; [by eapply read_ipv4_valid|].
      destruct (strip_prefix [58] s); [|discriminate]. by eapply read_ipv4_valid. }
    destruct octets as [|a [|b [|c [|d [|? ?]]]]]; try discriminate. rewrite !Forall_cons in Ho. split; [cbn; lia|].
    repeat apply Forall_cons_2; [lia..|constructor].
  - destruct (read_segment index s) as [[g k]|] eqn:Hg; [|split; [cbn; lia|constructor]].
    apply read_segment_range in Hg. specialize (IH (S index) k). destruct (read_groups room (S index) k) as [[gs v4] k'].
    destruct IH as [Hl Hgs]. split; [cbn; lia | by constructor].
Qed.

Lemma read_ipv6_valid s segments k : read_ipv6 s = Some (segments, k) -> u16s segments.
Proof.
  unfold read_ipv6. pose proof (read_groups_valid 8 0 s) as Hh. destruct (read_groups 8 0 s) as [[hd v4] k1].
  destruct Hh as [Hhl Hh]. destruct (Nat.eqb_spec (length hd) 8) as [H8|H8]; [by intros [= <- <-]|].
  destruct v4; [discriminate|]. destruct (strip_prefix [58; 58] k1) as [k2|]; [|discriminate]. cbn [mbind option_bind].
  pose proof (read_groups_valid (8 - (length hd + 1)) 0 k2) as Ht.
  destruct (read_groups (8 - (length hd + 1)) 0 k2) as [[tl v6] k3]. destruct Ht as [Htl Ht]. intros [= <- <-].
  split; [rewrite !length_app, length_replicate; lia|]. rewrite !Forall_app. split_and!; [done| |done]. by apply Forall_replicate.
Qed.

(** Whatever text is read, the address read of it is one: four octets, or
    eight segments of sixteen bits; and every address is written so that it
    is read back, an IPv6 address with its longest run of zeroes left out or
    with the IPv4 address it maps. *)
Lemma addresses_are_read :
  (forall text a, parse text = Some a -> valid a) /\ (forall a, valid a -> parse (display a) = Some a).
Proof.
  split; [|apply parse_display]. intros text a. unfold parse, read_ip.
  destruct (read_ipv4 text) as [[octets k]|] eqn:H4; cbn [whole].
  - destruct k; [|discriminate]. intros [= <-]. by eapply read_ipv4_valid.
  - destruct (read_ipv6 text) as [[segments k]|] eqn:H6; [|discriminate]. cbn. destruct k; [|discriminate].
    intros [= <-]. by eapply read_ipv6_valid.
Qed.

(** What an address is written of. *)
Definition address_char (c : Z) : Prop := is_hex c \/ c = 46 \/ c = 58.

#[global] Instance address_char_dec c : Decision (address_char c).
Proof. unfold address_char, is_hex. apply _. Defined.

Lemma join_chars (P : Z -> Prop) sep pieces : Forall P sep -> Forall (Forall P) pieces -> Forall P (join sep pieces).
Proof.
  intros Hs. induction 1 as [|p pieces Hp Hps IH]; [constructor|]. cbn [join]. destruct pieces; [done|].
  by repeat (apply Forall_app; split).
Qed.

Lemma write_v4_chars octets : Forall (fun b => 0 <= b < 256) octets -> Forall address_char (write_v4 octets).
Proof.
  intros H. apply join_chars; [rewrite Forall_singleton; right; by left|]. rewrite Forall_map.
  eapply Forall_impl; [exact H|]. cbn. intros b Hb. eapply Forall_impl; [apply dec_hex; lia|]. by left.
Qed.

Lemma fmt_chars gs : Forall address_char (fmt_subslice gs).
Proof.
  apply join_chars; [rewrite Forall_singleton; right; by right|]. rewrite Forall_map, Forall_forall. intros g _. cbn.
  eapply Forall_impl; [apply hex_digits|]. by left.
Qed.

Lemma display_chars a : valid a -> Forall address_char (display a).
Proof.
  destruct a as [octets|segments]; [intros [_ H]; by apply write_v4_chars|]. intros [_ H]. cbn [display].
  assert (Forall address_char (write_segments segments)) as Hw.
  { unfold write_segments. repeat case_match; [|apply fmt_chars].
    repeat (apply Forall_app; split); try apply fmt_chars. apply (bool_decide_unpack _). by vm_compute. }
  unfold write_v6. repeat (case_match; try exact Hw). subst. rewrite !Forall_cons in H.
  destruct H as (_ & _ & _ & _ & _ & _ & Hab & Hcd & _). apply Forall_app. split.
  - apply (bool_decide_unpack _). by vm_compute.
  - apply write_v4_chars. assert (forall x, 0 <= x < 65536 -> 0 <= x / 256 < 256 /\ 0 <= x mod 256 < 256) as Hx.
    { intros x Hx. split; [|apply Z.mod_pos_bound; lia]. split; [apply Z.div_pos; lia | apply Z.div_lt_upper_bound; lia]. }
    destruct (Hx _ Hab), (Hx _ Hcd). by repeat apply Forall_cons_2.
Qed.

(** Addresses with a port, and in brackets. *)
Lemma read_port_written p : 0 <= p <= U16_MAX -> read_port (58 :: dec p) = Some (p, []).
Proof.
  intros Hp. unfold read_port. cbn [strip_prefix Z.eqb Pos.eqb mbind option_bind]. rewrite <- (app_nil_r (dec p)).
  by apply read_dec.
Qed.

Lemma bracket_no_ip s : parse (91 :: s) = None /\ read_socket_v4 (91 :: s) = None.
Proof. done. Qed.

Lemma socket_v4_written octets p : u8s octets -> 0 <= p <= U16_MAX ->
  parse (write_v4 octets ++ 58 :: dec p) = None
  /\ parse_socket (write_v4 octets ++ 58 :: dec p) = Some (mkSocketAddr (V4 octets) p).
Proof.
  intros Ho Hp. unfold parse, read_ip, parse_socket, read_socket_v4. rewrite !read_v4_written by done.
  cbn [mbind option_bind]. by rewrite read_port_written.
Qed.

Lemma socket_v6_bracketed segments s : u16s segments -> (46 ∉ s) ->
  read_socket_v6 (91 :: write_v6 segments ++ 93 :: s) = '(port, s) ← read_port s; Some (mkSocketAddr (V6 segments) port, s).
Proof.
  intros Hs Hd. unfold read_socket_v6. cbn [strip_prefix Z.eqb Pos.eqb mbind option_bind].
  rewrite read_v6_written; [|done|right; by eexists]. done.
Qed.

Lemma socket_v6_written segments p : u16s segments -> 0 <= p <= U16_MAX ->
  parse_socket (91 :: write_v6 segments ++ 93 :: 58 :: dec p) = Some (mkSocketAddr (V6 segments) p)
  /\ parse_socket (91 :: write_v6 segments ++ [93]) = None.
Proof.
  intros Hs Hp. unfold parse_socket. rewrite !(proj2 (bracket_no_ip _)). rewrite !socket_v6_bracketed; [|done|apply not_elem_of_nil|done|].
  - by rewrite read_port_written.
  - apply not_elem_of_cons. split; [done|]. intros Hin. pose proof (dec_digits p ltac:(lia)) as H. rewrite Forall_forall in H. by specialize (H _ Hin).
Qed.
End Ip.
