(* ===== verification/Authority.v ===== *)
(** An authority as a URI writes it ([src/authority.rs]): a host, in brackets
    where it is an IPv6 literal, and a port where one is given. *)

From Stdlib Require Import String.
From S2P Require Import Prelude Text Errors.

Module Authority.

(** The host and the port text, brackets taken off an IPv6 literal. *)
Definition parts (authority : bytes) : bytes * option bytes :=
  match bracketed ← strip_prefix [91] authority; split_once 93 bracketed with
  | Some (host, after) => (host, strip_prefix [58] after)
  | None =>
      match rsplit_once 58 authority with
      | Some (host, port) => (host, Some port)
      | None => (authority, None)
      end
  end.

Definition host_of (authority : bytes) : bytes := (parts authority).1.

Definition with_default_port (authority : bytes) (default : Z) : bytes :=
  match (parts authority).2 with
  | Some _ => authority
  | None => authority ++ lit ":" ++ dec default
  end.

Definition refused (authority why : bytes) : NetError :=
  NetErr.new (lit "the authority '" ++ authority ++ lit "' " ++ why).

Definition parse (authority : bytes) : result NetError (bytes * option Z) :=
  if starts_with [91] authority && negb (contains 93 authority) then
    Err (refused authority (lit "opens a bracket it does not close"))
  else
    let '(host, port) := parts authority in
    match host with
    | [] => Err (refused authority (lit "names no host"))
    | _ =>
        match port with
        | None => Ok (host, None)
        | Some port =>
            let? port := ok_or (parse_uint U16_MAX port)
                           (refused authority (lit "names a port that is not one")) in
            Ok (host, Some port)
        end
    end.

Definition bracketed (host : bytes) : bytes :=
  if contains 58 host then lit "[" ++ host ++ lit "]" else host.

(** ** What is written is read

    A host an authority can be written of: not empty, and not taken for less
    than it is by a bracket of its own, one that closes those put round it or
    one it opens with. *)
Definition writable (host : bytes) : Prop :=
  host <> [] /\ if contains 58 host then 93 ∉ host else head host <> Some 91.

#[global] Instance writable_dec host : Decision (writable host).
Proof. unfold writable. destruct (contains 58 host); apply _. Defined.

Lemma starts_false c b s : b <> c -> starts_with [c] (b :: s) = false.
Proof. intros H. unfold starts_with. cbn. destruct (Z.eqb_spec b c); [done|]. apply bool_decide_eq_false. by intros [? ?]. Qed.

Lemma dec_no_colon n : 0 <= n -> 58 ∉ dec n.
Proof.
  intros Hn Hin. pose proof (dec_digits n Hn) as H. rewrite Forall_forall in H. specialize (H _ Hin). done.
Qed.

(** The parts of a host written, with what may follow it. *)
Lemma parts_bracketed host after : writable host -> (58 ∉ after) ->
  parts (bracketed host ++ 58 :: after) = (host, Some after) /\ parts (bracketed host) = (host, None).
Proof.
  intros (Hne & Hc) Ha. unfold bracketed, parts. destruct (contains 58 host) eqn:Hh.
  - change (lit "[") with [91]. change (lit "]") with [93]. cbn [app strip_prefix Z.eqb Pos.eqb mbind option_bind].
    rewrite <- app_assoc. cbn [app]. rewrite !split_once_first by done. done.
  - apply contains_false in Hh. rewrite (rsplit_once_last 58 host after Ha).
    rewrite (proj2 (rsplit_once_missing 58 host) Hh).
    destruct host as [|b host]; [done|]. cbn [app strip_prefix]. cbn in Hc.
    destruct (Z.eqb_spec b 91); [congruence|]. done.
Qed.

Lemma bracketed_closes host after : writable host ->
  starts_with [91] (bracketed host ++ after) && negb (contains 93 (bracketed host ++ after)) = false.
Proof.
  intros (Hne & Hc). unfold bracketed. destruct (contains 58 host) eqn:Hh.
  - apply andb_false_intro2. rewrite (proj2 (contains_spec 93 _)); [done|]. rewrite !elem_of_app. left. right. right. by apply list_elem_of_singleton.
  - destruct host as [|b host]; [done|]. cbn [app]. rewrite starts_false; [done|]. cbn in Hc. congruence.
Qed.

(** What is read of an authority that opens a bracket is what it closes. *)
Lemma parse_opened rest h p : parse (91 :: rest) = Ok (h, p) -> exists after, rest = h ++ 93 :: after /\ (93 ∉ h).
Proof.
  unfold parse, parts. cbn [strip_prefix Z.eqb Pos.eqb mbind option_bind].
  replace (starts_with [91] (91 :: rest)) with true by (symmetry; apply bool_decide_eq_true; by exists rest).
  destruct (contains 93 (91 :: rest)) eqn:Hc; [|done]. cbn [andb negb]. apply contains_spec, elem_of_cons in Hc as [?|Hc]; [done|].
  destruct (split_once 93 rest) as [[host after]|] eqn:Hs; [|by apply split_once_missing in Hs].
  apply split_once_spec in Hs as [-> Hh]. intros Hp. exists after. assert (h = host) as ->; [|done].
  destruct host as [|c host]; [done|]. destruct (match after with [] => _ | _ => _ end) as [port|]; [|congruence].
  destruct (ok_or _ _); cbn in Hp; congruence.
Qed.

(** A host that is not writable is not read back. *)
Lemma parse_unwritable host after port : host <> [] -> ~ writable host -> (93 ∉ after) ->
  parse (bracketed host ++ after) <> Ok (host, port).
Proof.
  intros Hne Hw Ha Hp. apply Hw. split; [done|]. unfold bracketed in Hp. destruct (contains 58 host).
  - change ((lit "[" ++ host ++ lit "]") ++ after) with (91 :: (host ++ [93]) ++ after) in Hp. by apply parse_opened in Hp as (? & _ & ?).
  - intros Hh. destruct host as [|b host]; [done|]. injection Hh as ->.
    change ((91 :: host) ++ after) with (91 :: (host ++ after)) in Hp.
    apply parse_opened in Hp as (more & Heq & Hin). assert (93 ∈ host ++ after) as [Hbad|?]%elem_of_app; [|by apply Hin; right|done].
    rewrite Heq. apply elem_of_app. right. by left.
Qed.

Lemma parse_host host : writable host -> parse (bracketed host) = Ok (host, None).
Proof.
  intros Hw. destruct (parts_bracketed host [] Hw (not_elem_of_nil _)) as [_ Hp].
  pose proof (bracketed_closes host [] Hw) as Hb. rewrite app_nil_r in Hb. unfold parse. rewrite Hb, Hp.
  destruct Hw as (Hne & _). by destruct host.
Qed.

Lemma parse_host_port host port : writable host -> 0 <= port <= U16_MAX ->
  parse (bracketed host ++ lit ":" ++ dec port) = Ok (host, Some port).
Proof.
  intros Hw Hport. destruct (parts_bracketed host (dec port) Hw (dec_no_colon port ltac:(lia))) as [Hp _].
  unfold parse. change (lit ":" ++ dec port) with (58 :: dec port). rewrite (bracketed_closes _ _ Hw), Hp, parse_dec by done.
  destruct Hw as (Hne & _). by destruct host.
Qed.

(** A host an authority can be written of is read back from it, an IPv6
    literal out of its brackets, with the port where one is written; and the
    default port is added to exactly the authority that carries none. *)
Theorem authority_crosses host port default :
  writable host -> 0 <= port <= U16_MAX ->
  let named := bracketed host ++ lit ":" ++ dec port in
  parse (bracketed host) = Ok (host, None) /\ parse named = Ok (host, Some port)
  /\ host_of (bracketed host) = host /\ host_of named = host
  /\ with_default_port (bracketed host) port = named /\ with_default_port named default = named.
Proof.
  intros Hw Hport named. subst named. split_and!; [by apply parse_host | by apply parse_host_port|..];
    destruct (parts_bracketed host (dec port) Hw (dec_no_colon port ltac:(lia))) as [Hp Hn];
    unfold host_of, with_default_port; change (lit ":" ++ dec port) with (58 :: dec port); by rewrite ?Hp, ?Hn.
Qed.

Lemma authority_crosses_witness :
  parse (lit "[::1]") = Ok (lit "::1", None) /\ parse (lit "[::1]:8080") = Ok (lit "::1", Some 8080)
  /\ host_of (lit "[::1]") = lit "::1" /\ host_of (lit "[::1]:8080") = lit "::1"
  /\ with_default_port (lit "[::1]") 8080 = lit "[::1]:8080"
  /\ with_default_port (lit "[::1]:8080") 80 = lit "[::1]:8080".
Proof.
  apply (authority_crosses (lit "::1") 8080 80); [|unfold U16_MAX; lia].
  apply (bool_decide_unpack _). vm_compute. exact I.
Defined.

(** What is read of an authority is of its characters, and its port a port. *)
Lemma parts_forall (P : Z -> Prop) authority : Forall P authority -> Forall P (parts authority).1.
Proof.
  intros H. unfold parts.
  destruct (bracketed ← strip_prefix [91] authority; split_once 93 bracketed) as [[host after]|] eqn:Hb.
  - destruct (strip_prefix [91] authority) as [b|] eqn:Hs; [|discriminate]. cbn in Hb.
    apply strip_prefix_spec in Hs as ->. apply split_once_spec in Hb as [-> _]. rewrite !Forall_app in H. by destruct H as [_ [? _]].
  - destruct (rsplit_once 58 authority) as [[host port]|] eqn:Hr; [|done].
    apply rsplit_once_spec in Hr as [-> _]. by apply Forall_app in H as [? _].
Qed.

Lemma parse_ok authority host port : parse authority = Ok (host, port) ->
  host <> [] /\ host = host_of authority /\ match port with Some port => 0 <= port <= U16_MAX | None => True end.
Proof.
  unfold parse, host_of. case_match; [discriminate|]. destruct (parts authority) as [h p]. destruct h as [|c h]; [discriminate|].
  destruct p as [p|]; intros Hp; inv_ok; simplify_eq; [|done].
  apply parse_uint_range in Ha; done.
Qed.

(** What follows the bracket and does not open with a colon is passed over:
    the port left out of its colon is not refused, and the default is added
    after it. *)
Example stray_text_passed_over :
  parse (lit "[::1]8080") = Ok (lit "::1", None)
  /\ with_default_port (lit "[::1]8080") 80 = lit "[::1]8080:80"
  /\ parse (lit "[::1]8080:80") = Ok (lit "::1", None).
Proof. repeat split. Qed.

(** [str::parse] reads a sign before a port. *)
Example signed_port_read : parse (lit "opa.example:+80") = Ok (lit "opa.example", Some 80).
Proof. reflexivity. Qed.

Example refused_saying_why :
  parse (lit ":8181") = Err (refused (lit ":8181") (lit "names no host"))
  /\ parse (lit "opa.example:agent") = Err (refused (lit "opa.example:agent") (lit "names a port that is not one"))
  /\ parse (lit "opa.example:70000") = Err (refused (lit "opa.example:70000") (lit "names a port that is not one"))
  /\ parse (lit "[::1:8181") = Err (refused (lit "[::1:8181") (lit "opens a bracket it does not close")).
Proof. repeat split. Qed.
End Authority.
