(* ===== verification/Target.v ===== *)
(** A target as a URI writes it ([src/target.rs]): a scheme, an authority
    with its user information, a path, a query and a fragment, each a slice
    of the text it was read from. *)

From Stdlib Require Import String.
From S2P Require Import Prelude Text Errors Http Authority.

(** [codec::percent::decode], of another package: a text with its percent
    escapes put back. *)
Class PercentDecode := decode : bytes -> bytes.

Module Target.

(** The fields are private to the code; what it gives of them are the
    functions below, of the names callers know. *)
Record t : Type := mk {
  text : bytes;
  its_scheme : bytes;
  its_rest : bytes;
  its_root : bytes;
  user_information : option bytes;
  its_authority : bytes;
  its_path : bytes;
  query_text : bytes;
  its_fragment : option bytes;
}.
#[global] Instance t_eq_dec : EqDecision t.
Proof. solve_decision. Defined.

Definition scheme (self : t) : bytes := its_scheme self.
Definition authority (self : t) : bytes := its_authority self.
Definition path (self : t) : bytes := its_path self.
Definition fragment (self : t) : option bytes := its_fragment self.
Definition root (self : t) : bytes := its_root self.
Definition after_scheme (self : t) : bytes := its_rest self.

Definition PATH_SCHEME : bytes := lit "file".

Definition is_scheme (text : bytes) : bool :=
  match text with
  | [] => false
  | first :: bytes =>
      is_ascii_alphabetic first
      && forallb (fun byte => is_ascii_alphanumeric byte || (byte =? 43) || (byte =? 45) || (byte =? 46)) bytes
  end.

Definition split (text scheme rest : bytes) : t :=
  let '(hier, fragment) :=
    match split_once 35 rest with Some (hier, fragment) => (hier, Some fragment) | None => (rest, None) end in
  let '(hier, query) := default (hier, []) (split_once 63 hier) in
  let '(written, path) := default (hier, []) (split_once 47 hier) in
  let '(user, authority) :=
    match rsplit_once 64 written with Some (user, authority) => (Some user, authority) | None => (None, written) end in
  let root := ztake (len text - len rest + len written) text in
  mk text scheme rest root user authority path query fragment.

Definition not_one (text : bytes) : NetError := NetErr.new (lit "'" ++ text ++ lit "' is not scheme://…").

Definition parse (text : bytes) : result NetError t :=
  let? (scheme, rest) :=
    ok_or ('(scheme, rest) ← split_at_text (lit "://") text;
           if is_scheme scheme then Some (scheme, rest) else None) (not_one text) in
  Ok (split text scheme rest).

Definition is_under (self : t) (schemes : list bytes) : bool :=
  existsb (fun s => eq_ignore_ascii_case s (its_scheme self)) schemes.

Definition under (schemes : list bytes) (text : bytes) : option t :=
  match parse text with
  | Ok target => if is_under target schemes then Some target else None
  | Err _ => None
  end.

Definition scheme_of (text : bytes) : bytes :=
  match parse text with Ok named => lowercase (scheme named) | Err _ => PATH_SCHEME end.

Definition bare (text : bytes) : t := split text [] text.

Definition naming_server (schemes : list bytes) (text : bytes) : option t :=
  match split_at_text (lit "://") text with
  | Some _ => under schemes text
  | None =>
      let bare := bare text in
      if contains 58 (authority bare) && starts_with [47] (zdrop (len (root bare)) text)
      then Some bare else None
  end.

Definition relative (reference : bytes) : t :=
  let path := default [] (head (split_by (fun c => (c =? 63) || (c =? 35)) reference)) in
  let after := zdrop (len path) reference in
  let read := split reference [] after in
  mk (text read) (its_scheme read) reference [] (user_information read) (its_authority read) path
    (query_text read) (its_fragment read).

Definition host_and_port (self : t) : result NetError (bytes * option Z) :=
  map_err (fun refused => NetErr.new (lit "'" ++ text self ++ lit "': " ++ message refused))
    (Authority.parse (its_authority self)).

Definition user `{PercentDecode} (self : t) : option bytes :=
  (fun user => decode match split_once 58 user with None => user | Some (name, _) => name end)
    <$> user_information self.

Definition password `{PercentDecode} (self : t) : option bytes :=
  user ← user_information self; '(_, password) ← split_once 58 user; Some (decode password).

Definition empty_segment (self : t) : NetError :=
  NetErr.new (lit "'" ++ text self ++ lit "' has an empty path segment").

Definition segments (self : t) : result NetError (list bytes) :=
  match its_path self with
  | [] => Ok []
  | _ =>
      let segments := split_by (Z.eqb 47) (its_path self) in
      if bool_decide ([] ∈ segments) then Err (empty_segment self) else Ok segments
  end.

Definition query `{Percent} (self : t) : list field := decode_pairs (query_text self).

Definition query_value `{Percent} (self : t) (name : bytes) : option bytes :=
  snd <$> List.find (fun pair => bool_decide (pair.1 = name)) (query self).

Definition absolute (self : t) : bytes :=
  match its_fragment self with
  | Some fragment => ztake (len (text self) - len fragment - 1) (text self)
  | None => text self
  end.

(** ** RFC 3986, section 3

    A target put together from its parts; a part that may be missing is an
    option, so that an empty one is told from none. *)
Record Written : Type := mkWritten {
  w_user : option bytes;
  w_authority : bytes;
  w_path : option bytes;
  w_query : option bytes;
  w_fragment : option bytes;
}.

(** A part and the character that opens it. *)
Definition opened (c : Z) (part : option bytes) : bytes :=
  match part with Some part => c :: part | None => [] end.
Definition written (w : Written) : bytes :=
  match w_user w with Some user => user ++ [64] | None => [] end ++ w_authority w.
Definition hier (w : Written) : bytes := written w ++ opened 47 (w_path w) ++ opened 63 (w_query w).
Definition write (w : Written) : bytes := hier w ++ opened 35 (w_fragment w).

Definition without (cs s : bytes) : Prop := Forall (fun b => b ∉ cs) s.
Definition from_option_prop (P : bytes -> Prop) (part : option bytes) : Prop :=
  match part with Some part => P part | None => True end.

(** Each part holds none of the characters that would end it. *)
Record fits (w : Written) : Prop := {
  user_fits : from_option_prop (without [47; 63; 35]) (w_user w);
  authority_fits : without [47; 63; 35; 64] (w_authority w);
  path_fits : from_option_prop (without [63; 35]) (w_path w);
  query_fits : from_option_prop (without [35]) (w_query w);
}.

(** The target read of the parts [w], after [front]. *)
Definition target_of (front scheme : bytes) (w : Written) : t :=
  mk (front ++ write w) scheme (write w) (front ++ written w) (w_user w) (w_authority w)
    (default [] (w_path w)) (default [] (w_query w)) (w_fragment w).

Lemma without_app cs s s' : without cs (s ++ s') <-> without cs s /\ without cs s'.
Proof. apply Forall_app. Qed.
Lemma without_not c cs s : without cs s -> c ∈ cs -> c ∉ s.
Proof. intros H Hc Hs. unfold without in H. rewrite Forall_forall in H. by apply (H c Hs). Qed.
Lemma without_all cs s : Forall (fun c => c ∉ s) cs -> without cs s.
Proof. intros H. apply Forall_forall. intros b Hb Hc. rewrite Forall_forall in H. by apply (H b Hc). Qed.
Lemma without_sub cs cs' s : without cs s -> (forall c, c ∈ cs' -> c ∈ cs) -> without cs' s.
Proof. intros H Hs. eapply Forall_impl; [exact H|]. cbn. intros b Hb Hb'. by apply Hb, Hs. Qed.

(** [c] is one of the characters written out. *)
Ltac listed := apply (bool_decide_unpack _); vm_compute; exact I.

Ltac each := repeat apply Forall_cons_2; tauto || apply Forall_nil_2.

(** A text split at a character that opens a part, and that split undone. *)
Lemma split_opened c s part : (c ∉ s) ->
  split_once c (s ++ opened c part) = (fun part => (s, part)) <$> part.
Proof.
  intros H. destruct part as [part|]; cbn; [by apply split_once_first|]. rewrite app_nil_r. by apply split_once_none.
Qed.
Lemma open_split c s : exists front part, s = front ++ opened c part /\ (c ∉ front)
  /\ split_once c s = (fun part => (front, part)) <$> part.
Proof.
  destruct (split_once c s) as [[front part]|] eqn:H.
  - apply split_once_spec in H as [-> Hn]. by exists front, (Some part).
  - apply split_once_missing in H. exists s, None. cbn. by rewrite app_nil_r.
Qed.

Lemma written_fits w : fits w -> without [47; 63; 35] (written w).
Proof.
  intros [Hu Ha Hp Hq]. unfold written. apply without_app. split.
  - destruct (w_user w); [|constructor]. apply without_app. split; [done|]. apply Forall_singleton. listed.
  - eapply without_sub; [exact Ha|]. intros c. rewrite !elem_of_cons. tauto.
Qed.

Lemma hier_fits w : fits w -> 35 ∉ hier w.
Proof.
  intros Hf. pose proof (written_fits w Hf) as Hw. destruct Hf as [_ _ Hp Hq]. unfold hier.
  rewrite !not_elem_of_app. split_and!; [eapply without_not; [exact Hw|listed]|..].
  - destruct (w_path w) as [path|]; [|apply not_elem_of_nil]. cbn in Hp |- *. apply not_elem_of_cons. split; [done|].
    eapply without_not; [exact Hp|listed].
  - destruct (w_query w) as [query|]; [|apply not_elem_of_nil]. cbn in Hq |- *. apply not_elem_of_cons. split; [done|].
    eapply without_not; [exact Hq|listed].
Qed.

(** What is put together of parts that fit is split into them. *)
Lemma split_write front scheme w : fits w -> split (front ++ write w) scheme (write w) = target_of front scheme w.
Proof.
  intros Hf. pose proof (hier_fits w Hf) as Hh. pose proof (written_fits w Hf) as Hw. destruct Hf as [Hu Ha Hp Hq].
  assert (63 ∉ written w ++ opened 47 (w_path w)) as Hwp.
  { rewrite not_elem_of_app. split; [eapply without_not; [exact Hw|listed]|].
    destruct (w_path w) as [path|]; [|apply not_elem_of_nil]. cbn in Hp |- *. apply not_elem_of_cons. split; [done|].
    eapply without_not; [exact Hp|listed]. }
  assert (47 ∉ written w) as Hs by (eapply without_not; [exact Hw|listed]).
  assert (rsplit_once 64 (written w) = (fun user => (user, w_authority w)) <$> w_user w) as Hat.
  { assert (64 ∉ w_authority w) as Hn by (eapply without_not; [exact Ha|listed]). unfold written.
    destruct (w_user w) as [u|]; cbn; [|by apply rsplit_once_missing]. rewrite <- app_assoc. by apply rsplit_once_last. }
  assert (ztake (len (front ++ write w) - len (write w) + len (written w)) (front ++ write w) = front ++ written w) as Hroot.
  { unfold write, hier. rewrite !app_assoc, <- !(app_assoc (front ++ written w)). apply ztake_app. zlen. }
  unfold split.
  replace (match split_once 35 (write w) with Some (hier, fragment) => (hier, Some fragment) | None => (write w, None) end)
    with (hier w, w_fragment w).
  2:{ unfold write. rewrite split_opened by done. destruct (w_fragment w); cbn; [done|]. by rewrite app_nil_r. }
  replace (default (hier w, []) (split_once 63 (hier w)))
    with (written w ++ opened 47 (w_path w), default [] (w_query w)).
  2:{ unfold hier. rewrite app_assoc, split_opened by done. destruct (w_query w); cbn; [done|]. by rewrite app_nil_r. }
  replace (default (written w ++ opened 47 (w_path w), []) (split_once 47 (written w ++ opened 47 (w_path w))))
    with (written w, default [] (w_path w)).
  2:{ rewrite split_opened by done. destruct (w_path w); cbn; [done|]. by rewrite app_nil_r. }
  rewrite Hat. unfold target_of. rewrite <- Hroot. destruct (w_user w) eqn:Hnone; [done|]. cbn [fmap option_fmap option_map].
  assert (written w = w_authority w) as -> by (unfold written; by rewrite Hnone). done.
Qed.

(** Every text is put together of parts that fit. *)
Lemma write_of rest : exists w, fits w /\ write w = rest.
Proof.
  destruct (open_split 35 rest) as (h & fragment & -> & Hh & _).
  destruct (open_split 63 h) as (wp & query & -> & Hwp & _).
  destruct (open_split 47 wp) as (wr & path & -> & Hwr & _).
  rewrite !not_elem_of_app in Hh. destruct Hh as [[Hh Hp'] Hq]. apply not_elem_of_app in Hwp as [Hwp Hp].
  assert (from_option_prop (without [63; 35]) path) as Hpf.
  { destruct path as [path|]; [|done]. cbn in *. rewrite not_elem_of_cons in *. apply without_all. each. }
  assert (from_option_prop (without [35]) query) as Hqf.
  { destruct query as [query|]; [|done]. cbn in *. rewrite not_elem_of_cons in *. apply without_all. each. }
  destruct (rsplit_once 64 wr) as [[user auth]|] eqn:Hat.
  - apply rsplit_once_spec in Hat as [-> Hn]. rewrite not_elem_of_app, not_elem_of_cons in Hh, Hwp, Hwr.
    exists (mkWritten (Some user) auth path query fragment). split.
    + constructor; cbn; [apply without_all; each | apply without_all; each |done|done].
    + unfold write, hier, written; cbn [w_user w_authority w_path w_query w_fragment]. by rewrite <- !app_assoc.
  - apply rsplit_once_missing in Hat. exists (mkWritten None wr path query fragment). split.
    + constructor; cbn; [done|apply without_all; each|done|done].
    + unfold write, hier, written; cbn [w_user w_authority w_path w_query w_fragment app]. by rewrite <- !app_assoc.
Qed.

Lemma scheme_no_colon scheme : is_scheme scheme = true -> Forall (fun b => forall c, head (lit "://") = Some c -> b <> c) scheme.
Proof.
  assert (forall b, (is_ascii_alphanumeric b || (b =? 43) || (b =? 45) || (b =? 46)) = true -> b <> 58) as Hb.
  { intros b H ->. discriminate. }
  destruct scheme as [|first s]; [done|]. cbn [is_scheme]. rewrite andb_true_iff. intros [Hf H].
  constructor; [|apply Forall_forall]; cbn; intros; simplify_eq.
  - apply Hb. unfold is_ascii_alphanumeric. by rewrite Hf.
  - rewrite forallb_forall in H. apply Hb, H. by apply list_elem_of_In.
Qed.

Lemma parse_written scheme rest : is_scheme scheme = true ->
  parse (scheme ++ lit "://" ++ rest) = Ok (split (scheme ++ lit "://" ++ rest) scheme rest).
Proof.
  intros Hs. unfold parse. rewrite split_at_text_first; [|done|by apply scheme_no_colon]. cbn [mbind option_bind ok_or].
  by rewrite Hs.
Qed.

Lemma parse_split text target : parse text = Ok target ->
  exists scheme rest, is_scheme scheme = true /\ text = scheme ++ lit "://" ++ rest /\ target = split text scheme rest.
Proof.
  unfold parse. destruct (split_at_text (lit "://") text) as [[scheme rest]|] eqn:H; [|discriminate].
  cbn [mbind option_bind]. destruct (is_scheme scheme) eqn:Hs; [|discriminate]. cbn. intros [= <-].
  apply split_at_text_spec in H. by exists scheme, rest.
Qed.

Lemma parse_parts text target : parse text = Ok target ->
  exists scheme w, is_scheme scheme = true /\ fits w
    /\ text = (scheme ++ lit "://") ++ write w /\ target = target_of (scheme ++ lit "://") scheme w.
Proof.
  intros H. apply parse_split in H as (scheme & rest & Hs & -> & ->).
  destruct (write_of rest) as (w & Hf & <-). exists scheme, w. split_and!; [done..|by rewrite app_assoc|].
  rewrite app_assoc. by apply split_write.
Qed.

Lemma parts_parse scheme w : is_scheme scheme = true -> fits w ->
  parse ((scheme ++ lit "://") ++ write w) = Ok (target_of (scheme ++ lit "://") scheme w).
Proof. intros Hs Hf. rewrite <- app_assoc, parse_written by done. rewrite app_assoc. by rewrite split_write. Qed.

(** C25. A text is a target exactly where RFC 3986 writes it of a scheme and of
    parts that fit, and the target read is those parts: the scheme, the user
    information and the authority, the path, the query and the fragment, each
    empty where its opening character is not there, and the root and the rest
    as the text holds them. *)
Theorem target_is_its_parts text target :
  parse text = Ok target <->
  exists scheme w, is_scheme scheme = true /\ fits w
    /\ text = (scheme ++ lit "://") ++ write w /\ target = target_of (scheme ++ lit "://") scheme w.
Proof.
  split; [apply parse_parts|]. intros (scheme & w & Hs & Hf & -> & ->). by apply parts_parse.
Qed.

(** A bare target is parts alone, and a relative one a path, a query and a
    fragment. *)
Lemma bare_of w : fits w -> bare (write w) = target_of [] [] w.
Proof. intros Hf. unfold bare. by apply (split_write [] []). Qed.

(** What the path hangs under, and what the target is without its fragment. *)
Lemma target_of_root front scheme w : root (target_of front scheme w) = front ++ written w.
Proof. done. Qed.
Lemma target_of_absolute front scheme w : absolute (target_of front scheme w) = front ++ hier w.
Proof.
  unfold absolute, target_of, write. cbn [its_fragment text]. destruct (w_fragment w) as [f|]; cbn [opened].
  - rewrite app_assoc. apply ztake_app. rewrite !len_app, len_cons. lia.
  - by rewrite app_nil_r.
Qed.

(** Segments joined by slashes are read back one by one; an empty one is
    refused. *)
Lemma segments_joined self segs : Forall (fun s => 47 ∉ s) segs -> segs <> [] -> path self = join [47] segs ->
  segments self = if bool_decide ([] ∈ segs) then (if bool_decide (segs = [[]]) then Ok [] else Err (empty_segment self)) else Ok segs.
Proof.
  intros Hs Hne Hp. unfold segments. unfold path in Hp. rewrite Hp, split_join by done.
  destruct (join [47] segs) as [|b j] eqn:Hj.
  - destruct segs as [|s [|s' segs]]; [done| |destruct s; discriminate]. cbn in Hj. subst s. by vm_compute.
  - destruct (bool_decide_reflect (segs = [[]])) as [->|]; [discriminate|done].
Qed.

(** A relative reference is a path, a query and a fragment. *)
Lemma relative_of p query fragment :
  without [63; 35] p -> from_option_prop (without [35]) query ->
  let reference := p ++ opened 63 query ++ opened 35 fragment in
  relative reference = mk reference [] reference [] None [] p (default [] query) fragment.
Proof.
  intros Hp Hq. cbn zeta. set (after := opened 63 query ++ opened 35 fragment).
  assert (head (split_by (fun c => (c =? 63) || (c =? 35)) (p ++ after)) = Some p) as Hhead.
  { clear Hq. induction Hp as [|b p Hb Hp IH]; cbn [app split_by].
    - subst after. by destruct query, fragment.
    - rewrite !not_elem_of_cons in Hb. destruct (Z.eqb_spec b 63), (Z.eqb_spec b 35); try tauto. cbn [orb].
      destruct (split_by _ (p ++ after)); [discriminate|]. cbn in IH. by injection IH as ->. }
  assert (after = write (mkWritten None [] None query fragment)) as Haf by done.
  unfold relative. rewrite Hhead. cbn [default from_option]. rewrite zdrop_app, Haf, split_write by (constructor; done || constructor).
  unfold target_of. by cbn.
Qed.

(** Without a scheme, what names its own server is an authority with a port
    and a slash after it. *)
Lemma naming_server_bare schemes w : fits w -> split_at_text (lit "://") (write w) = None ->
  naming_server schemes (write w) =
    if contains 58 (w_authority w) && bool_decide (is_Some (w_path w)) then Some (target_of [] [] w) else None.
Proof.
  intros Hf Hn. unfold naming_server. rewrite Hn, bare_of by done. unfold authority, root. cbn [its_authority its_root target_of app].
  replace (starts_with [47] (zdrop (len (written w)) (write w))) with (bool_decide (is_Some (w_path w))); [done|].
  unfold write, hier. rewrite <- !app_assoc, zdrop_app by done.
  destruct (w_path w) as [path|]; [done|]. destruct (w_query w), (w_fragment w); done.
Qed.

(** ** Targets read *)

Example opc_target :
  (fun read => (scheme read, authority read, path read, query_text read, fragment read, absolute read, root read))
    <$> under [lit "opc.tcp"] (lit "opc.tcp://plant:4840/line/a?x=1#ns=2;s=Orders")
  = Some (lit "opc.tcp", lit "plant:4840", lit "line/a", lit "x=1", Some (lit "ns=2;s=Orders"),
          lit "opc.tcp://plant:4840/line/a?x=1", lit "opc.tcp://plant:4840").
Proof. vm_compute. reflexivity. Qed.

Example schemes_of_addresses :
  map scheme_of [lit "SFTP://party-x@host:22/in"; lit "file:///var/xmip/in"; lit "/var/xmip/in"; lit "C:/xmip/in"]
  = [lit "sftp"; lit "file"; lit "file"; lit "file"].
Proof. vm_compute. reflexivity. Qed.

(** A URL in the query hides the server a bare target names. *)
Example url_in_the_query_hides_the_server :
  is_Some (naming_server [lit "mq"] (lit "h:1414/QM1/Q?reply=x"))
  /\ naming_server [lit "mq"] (lit "h:1414/QM1/Q?reply=mq://g/R") = None.
Proof. split; [by eexists; vm_compute | by vm_compute]. Qed.
End Target.
