(* ===== verification/Endpoint.v ===== *)
(** Where an HTTP server is ([src/endpoint.rs]): a URL read once, as a host, a
    port and a path, under the schemes a technology declares. *)

From Stdlib Require Import String.
From S2P Require Import Prelude Text Errors Ip Authority Target.

(** The schemes an endpoint is written in. *)
Record Schemes : Type := mkSchemes { plain_schemes : list bytes; secure_schemes : list bytes }.

Module Schemes.
Definition HTTP : Schemes := mkSchemes [lit "http"] [lit "https"].

Definition named (self : Schemes) : bytes :=
  lit "an " ++ join (lit " or ") (map (fun scheme => scheme ++ lit "://") (plain_schemes self ++ secure_schemes self)) ++ lit " URL".
End Schemes.

(** [to_socket_addrs] of a host and a port: the system resolves it. *)
Class Resolver := to_socket_addrs : bytes -> Z -> result IoError (list SocketAddr).

Module Endpoint.

Record t : Type := mk { its_secure : bool; its_host : bytes; port_given : option Z; its_path : bytes }.
#[global] Instance t_eq_dec : EqDecision t.
Proof. solve_decision. Defined.

Definition secure (self : t) : bool := its_secure self.
Definition host (self : t) : bytes := its_host self.
Definition path (self : t) : bytes := its_path self.

Definition not_under (url : bytes) (schemes : Schemes) : NetError :=
  NetErr.new (lit "'" ++ url ++ lit "' is not " ++ Schemes.named schemes).

Definition parse_under (url : bytes) (schemes : Schemes) : result NetError t :=
  let? target :=
    match Target.parse url with
    | Ok target =>
        if Target.is_under target (plain_schemes schemes) || Target.is_under target (secure_schemes schemes)
        then Ok target else Err (not_under url schemes)
    | Err _ => Err (not_under url schemes)
    end in
  let? (host, port) := Target.host_and_port target in
  let path := zdrop (len (Target.root target)) (Target.absolute target) in
  Ok (mk (Target.is_under target (secure_schemes schemes)) host port
        (if starts_with [47] path then path else lit "/" ++ path)).

Definition parse (url : bytes) : result NetError t := parse_under url Schemes.HTTP.

Definition or_port (self : t) (port : Z) : t :=
  mk (its_secure self) (its_host self)
    match port_given self with Some given => Some given | None => Some port end (its_path self).

Definition scheme_port (self : t) : Z := if its_secure self then 443 else 80.

Definition port (self : t) : Z := default (scheme_port self) (port_given self).

Definition address (self : t) : bytes := Authority.bracketed (its_host self) ++ lit ":" ++ dec (port self).

Definition authority (self : t) : bytes :=
  if port self =? scheme_port self then Authority.bracketed (its_host self) else address self.

Definition asks_for_tls (self : t) : NetError :=
  NetErr.new (lit "'https://" ++ address self ++ lit "' asks for TLS, and this client speaks plain HTTP/1.1 only").

Definition plain (self : t) : result NetError t :=
  if its_secure self then Err (asks_for_tls self) else Ok self.

Definition names_loopback (self : t) : bool :=
  eq_ignore_ascii_case (its_host self) (lit "localhost")
  || match Ip.parse (its_host self) with Some address => Ip.is_loopback address | None => false end.

Definition resolve `{Resolver} (self : t) : result NetError (list SocketAddr) :=
  map_err (NetErr.from_io (lit "'" ++ its_host self ++ lit "' does not resolve"))
    (to_socket_addrs (its_host self) (port self)).

(** ** What an endpoint read is *)

(** A host, a port where one is given, and a path from its slash, none with a
    character that would end it. *)
Record well_formed (e : t) : Prop := {
  host_named : host e <> [];
  host_chars : Target.without [47; 63; 35; 64] (host e);
  port_range : match port_given e with Some port => 0 <= port <= U16_MAX | None => True end;
  path_opens : exists p, path e = 47 :: p /\ (35 ∉ p);
}.

(** The URL of an endpoint: its authority as a connection is given it, or as
    a [Host] header writes it. *)
Definition url (secure : bool) (authority path : bytes) : bytes :=
  (if secure then lit "https" else lit "http") ++ lit "://" ++ authority ++ path.

(** Two endpoints that are the same place. *)
Definition same_place (e e' : t) : Prop :=
  secure e = secure e' /\ host e = host e' /\ port e = port e' /\ path e = path e'.

Lemma root_gone front scheme w :
  zdrop (len (Target.root (Target.target_of front scheme w))) (Target.absolute (Target.target_of front scheme w))
  = Target.opened 47 (Target.w_path w) ++ Target.opened 63 (Target.w_query w).
Proof.
  rewrite Target.target_of_root, Target.target_of_absolute. unfold Target.hier. rewrite app_assoc. by apply zdrop_app.
Qed.

Lemma parse_well_formed text schemes e : parse_under text schemes = Ok e -> well_formed e.
Proof.
  unfold parse_under. destruct (Target.parse text) as [target|] eqn:Ht; [|discriminate].
  case_match; [|discriminate]. cbn [res_bind]. apply Target.parse_parts in Ht as (scheme & w & _ & Hf & _ & ->).
  rewrite root_gone. unfold Target.host_and_port. cbn [Target.its_authority Target.target_of].
  destruct (Authority.parse (Target.w_authority w)) as [[h p]|] eqn:Hp; [|discriminate]. cbn [map_err res_bind].
  intros [= <-]. apply Authority.parse_ok in Hp as (Hne & -> & Hp).
  pose proof (Target.hier_fits w Hf) as Hh. unfold Target.hier in Hh. rewrite not_elem_of_app in Hh.
  destruct Hf as [_ Ha _ _]. constructor; cbn [its_host port_given its_path]; [done | by apply Authority.parts_forall | done|].
  destruct (starts_with [47] _) eqn:Hs.
  - apply bool_decide_eq_true in Hs as [p' Hs]. apply strip_prefix_spec in Hs. exists p'. split; [done|].
    rewrite Hs in Hh. cbn in Hh. rewrite not_elem_of_cons in Hh. tauto.
  - eexists. split; [done|]. tauto.
Qed.

(** A URL of parts that fit is read as them, where its authority is one. *)
Lemma read_url sec auth p e :
  Target.without [47; 63; 35; 64] auth -> (35 ∉ p) ->
  parse (url sec auth (47 :: p)) = Ok e <-> exists h given, Authority.parse auth = Ok (h, given) /\ e = mk sec h given (47 :: p).
Proof.
  intros Ha Hp. destruct (Target.open_split 63 p) as (p1 & query & -> & H1 & _).
  apply not_elem_of_app in Hp as [Hp1 Hq].
  set (w := Target.mkWritten None auth (Some p1) query None).
  assert (Target.fits w) as Hf.
  { constructor; cbn; [done | done | apply Target.without_all; Target.each |].
    destruct query as [query|]; [|done]. cbn in Hq |- *. rewrite not_elem_of_cons in Hq. apply Target.without_all; Target.each. }
  set (scheme := if sec then lit "https" else lit "http").
  assert (url sec auth (47 :: p1 ++ Target.opened 63 query) = (scheme ++ lit "://") ++ Target.write w) as Hu.
  { unfold url, Target.write, Target.hier, Target.written. subst w. cbn. rewrite app_nil_r, <- !app_assoc. done. }
  unfold parse, parse_under. rewrite Hu, Target.parts_parse by (done || by subst scheme; destruct sec).
  assert (forall front, (Target.is_under (Target.target_of front scheme w) (plain_schemes Schemes.HTTP)
    || Target.is_under (Target.target_of front scheme w) (secure_schemes Schemes.HTTP) = true)
    /\ Target.is_under (Target.target_of front scheme w) (secure_schemes Schemes.HTTP) = sec) as Hunder by (subst scheme; by destruct sec).
  destruct (Hunder (scheme ++ lit "://")) as [-> Hsec]. cbn [res_bind]. rewrite Hsec, root_gone.
  unfold Target.host_and_port. cbn [Target.its_authority Target.target_of w Target.w_authority Target.w_path Target.w_query].
  destruct (Authority.parse auth) as [[h given]|why]; cbn [map_err res_bind]; (split; [|intros (? & ? & [=] & ->); by simplify_eq]).
  - intros [= <-]. by exists h, given.
  - discriminate.
Qed.

Lemma without_dec n : 0 <= n -> Target.without [47; 63; 35; 64] (dec n).
Proof.
  intros Hn. eapply Forall_impl; [by apply dec_digits|]. cbn. intros b Hb Hin. unfold is_ascii_digit in Hb.
  rewrite andb_true_iff in Hb. rewrite !elem_of_cons in Hin. destruct Hin as [|[|[|[|H]]]]; try lia. by apply not_elem_of_nil in H.
Qed.

Lemma without_bracketed h : Target.without [47; 63; 35; 64] h -> Target.without [47; 63; 35; 64] (Authority.bracketed h).
Proof.
  intros H. unfold Authority.bracketed. destruct (contains 58 h); [|done].
  rewrite !Target.without_app. split_and!; [Target.listed | done | Target.listed].
Qed.

(** C26. An endpoint read of a URL is written back, by its address or by the
    authority a [Host] header carries, as a URL that is read as the same
    place, the same security, host, port and path: exactly where its host
    holds no bracket that is taken for one of those put round a host. *)
Theorem endpoint_crosses text schemes e :
  parse_under text schemes = Ok e ->
  (parse (url (secure e) (address e) (path e)) = Ok (or_port e (scheme_port e)) <-> Authority.writable (host e))
  /\ ((exists e', parse (url (secure e) (authority e) (path e)) = Ok e' /\ same_place e e') <-> Authority.writable (host e)).
Proof.
  intros He. apply parse_well_formed in He as [Hne Hc Hp (p & Hpath & Hf)].
  assert (0 <= port e <= U16_MAX) as Hport.
  { unfold port, scheme_port, U16_MAX in *. destruct (port_given e); cbn; [done|]. destruct (its_secure e); lia. }
  assert (Target.without [47; 63; 35; 64] (address e)) as Ha.
  { unfold address. rewrite !Target.without_app. split_and!; [by apply without_bracketed | Target.listed | apply without_dec; lia]. }
  assert (forall auth e', Target.without [47; 63; 35; 64] auth -> parse (url (secure e) auth (path e)) = Ok e' <->
    exists h given, Authority.parse auth = Ok (h, given) /\ e' = mk (secure e) h given (path e)) as Hread.
  { intros auth e' Hauth. rewrite Hpath. by apply read_url. }
  assert (93 ∉ lit ":" ++ dec (port e)) as Hcolon.
  { intros [Hin|Hin]%elem_of_cons; [done|]. pose proof (dec_digits (port e) ltac:(lia)) as Hd. rewrite Forall_forall in Hd. by apply Hd in Hin. }
  assert (forall given, Authority.parse (address e) = Ok (host e, given) <-> Authority.writable (host e) /\ given = Some (port e)) as Haddr.
  { intros given. split.
    - intros Hg. destruct (decide (Authority.writable (host e))) as [Hw|Hw]; [|by apply Authority.parse_unwritable in Hg].
      unfold address in Hg. rewrite Authority.parse_host_port in Hg by done. by injection Hg.
    - intros [Hw ->]. by apply Authority.parse_host_port. }
  split.
  - rewrite Hread by done. split.
    + intros (h & given & Hg & Heq). assert (h = host e) as -> by (unfold or_port in Heq; by destruct (port_given e); injection Heq). by apply Haddr in Hg as [? _].
    + intros Hw. exists (host e), (Some (port e)). split; [by apply Haddr|]. unfold or_port, port. by destruct (port_given e).
  - unfold authority. destruct (Z.eqb_spec (port e) (scheme_port e)) as [Hs|Hs].
    + setoid_rewrite Hread; [|by apply without_bracketed]. split.
      * intros (e' & (h & given & Hg & ->) & _ & Hh & _). cbn in Hh. subst h.
        destruct (decide (Authority.writable (host e))) as [Hw|Hw]; [done|]. rewrite <- (app_nil_r (Authority.bracketed _)) in Hg.
        apply Authority.parse_unwritable in Hg; [done|done|done|apply not_elem_of_nil].
      * intros Hw. eexists. split; [exists (host e), None; split; [by apply Authority.parse_host|done]|]. by split_and!; [done|done|exact Hs|done].
    + setoid_rewrite Hread; [|done]. split.
      * intros (e' & (h & given & Hg & ->) & _ & Hh & _). cbn in Hh. subst h. by apply Haddr in Hg as [? _].
      * intros Hw. eexists. split; [exists (host e), (Some (port e)); split; [by apply Haddr|done]|]. done.
Qed.

Definition AS2 : Schemes := mkSchemes [lit "http"; lit "as2"] [lit "https"; lit "as2s"].

Lemma endpoint_crosses_witness :
  let e := mk true (lit "::1") None (lit "/as2?x=1") in
  parse_under (lit "as2s://[::1]/as2?x=1#f") AS2 = Ok e
  /\ (parse (lit "https://[::1]:443/as2?x=1") = Ok (or_port e 443) <-> Authority.writable (lit "::1"))
  /\ ((exists e', parse (lit "https://[::1]/as2?x=1") = Ok e' /\ same_place e e') <-> Authority.writable (lit "::1")).
Proof.
  intros e. split; [by vm_compute|]. apply (endpoint_crosses (lit "as2s://[::1]/as2?x=1#f") AS2 e). by vm_compute.
Defined.

(** The hosts that are not: with a colon and a bracket that closes, or opened
    by a bracket of their own. *)
Example bracket_in_a_host :
  parse (lit "http://a]:b:80/") = Ok (mk false (lit "a]:b") (Some 80) (lit "/"))
  /\ ~ is_ok (parse (lit "http://[a]:b]:80/"))
  /\ parse (lit "http://[[x]/") = Ok (mk false (lit "[x") None (lit "/")) /\ ~ is_ok (parse (lit "http://[x:80/")).
Proof. split_and!; vm_compute; first [reflexivity | intros []]. Qed.

Example loopback_endpoints :
  map (fun text => match parse text with Ok e => Some (names_loopback e) | Err _ => None end)
    [lit "http://127.0.0.1:8181"; lit "http://127.9.9.9"; lit "http://LOCALHOST:8181"; lit "http://[::1]:8181";
     lit "http://opa.example:8181"; lit "http://10.0.0.5:8181"; lit "http://[::ffff:127.0.0.1]"]
  = [Some true; Some true; Some true; Some true; Some false; Some false; Some false].
Proof. vm_compute. done. Qed.

(** Only an endpoint that asks for no TLS is handed to a client that has
    none. *)
Lemma plain_is_not_secure e e' : plain e = Ok e' -> e' = e /\ secure e' = false.
Proof. unfold plain, secure. destruct (its_secure e) eqn:H; [discriminate|]. by intros [= <-]. Qed.

Example refused_as_documented :
  parse (lit "ftp://opa.example") = Err (NetErr.new (lit "'ftp://opa.example' is not an http:// or https:// URL"))
  /\ parse (lit "http:///orders") = Err (NetErr.new (lit "'http:///orders': the authority '' names no host"))
  /\ parse_under (lit "as4://h/x") AS2
     = Err (NetErr.new (lit "'as4://h/x' is not an http:// or as2:// or https:// or as2s:// URL")).
Proof. vm_compute. done. Qed.
End Endpoint.
