(* ===== verification/Network.v ===== *)
(** A network in prefix notation and whether an address is in it
    ([src/network.rs]), an address as a transport writes it
    ([src/address.rs]), and where a listener is woken
    ([src/accepting.rs]). *)

From Stdlib Require Import String.
From S2P Require Import Prelude Text Errors Ip.

Record Network : Type := mkNetwork { address : IpAddr; prefix : Z }.
#[global] Instance Network_eq_dec : EqDecision Network.
Proof. solve_decision. Defined.

Module Network.

Definition widest (address : IpAddr) : Z := match address with V4 _ => 32 | V6 _ => 128 end.

Definition not_one (text : bytes) : NetError :=
  NetErr.new (lit "'" ++ text ++ lit "' is not a network as address/prefix").
Definition too_long (text : bytes) (widest : Z) : NetError :=
  NetErr.new (lit "'" ++ text ++ lit "' has a prefix longer than " ++ dec widest ++ lit " bits").

Definition parse (text : bytes) : result NetError Network :=
  let text := trim text in
  let '(address, prefix) :=
    match split_once 47 text with Some (address, prefix) => (address, Some prefix) | None => (text, None) end in
  let? address := ok_or (Ip.parse address) (not_one text) in
  let? prefix :=
    match prefix with
    | None => Ok (widest address)
    | Some prefix =>
        ok_or (p ← parse_uint U8_MAX prefix; if p <=? widest address then Some p else None)
          (too_long text (widest address))
    end in
  Ok (mkNetwork address prefix).

(** [uN::MAX << (N - prefix)], of [width] bits, where [prefix] is not 0. *)
Definition mask (width prefix : Z) : Z :=
  if prefix =? 0 then 0 else Z.shiftl (2 ^ width - 1) (width - prefix) mod 2 ^ width.

(** [u32::from] and [u128::from]. *)
Definition bits (address : IpAddr) : Z :=
  match address with V4 octets => Ip.number 256 octets | V6 segments => Ip.number 65536 segments end.

Definition contains (self : Network) (other : IpAddr) : bool :=
  match address self, other with
  | V4 _, V4 _ =>
      let mask := mask 32 (prefix self) in Z.land (bits (address self)) mask =? Z.land (bits other) mask
  | V6 _, V6 _ =>
      let mask := mask 128 (prefix self) in Z.land (bits (address self)) mask =? Z.land (bits other) mask
  | _, _ => false
  end.

Definition display (self : Network) : bytes := Ip.display (address self) ++ lit "/" ++ dec (prefix self).

(** ** A network is its leading bits *)

Definition well_formed (n : Network) : Prop := Ip.valid (address n) /\ 0 <= prefix n <= widest (address n).

#[global] Instance well_formed_dec n : Decision (well_formed n).
Proof. unfold well_formed. apply _. Defined.

(** The bits of an address, the first the highest. *)
Definition bit (a : IpAddr) (i : Z) : bool := Z.testbit (bits a) (widest a - 1 - i).

Lemma mask_bits width p i : 0 <= p <= width -> 0 <= i ->
  Z.testbit (mask width p) i = bool_decide (width - p <= i < width).
Proof.
  intros Hp Hi. unfold mask. destruct (Z.eqb_spec p 0) as [->|Hz].
  - rewrite Z.bits_0. symmetry. apply bool_decide_eq_false. lia.
  - 
    destruct (Z.ltb_spec i width) as [Hw|Hw].
    + rewrite Z.mod_pow2_bits_low by lia. rewrite Z.shiftl_spec by lia.
      destruct (Z.ltb_spec i (width - p)) as [Hl|Hl].
      * rewrite Z.testbit_neg_r by lia. symmetry. apply bool_decide_eq_false. lia.
      * rewrite Z.sub_1_r, <- Z.ones_equiv, Z.ones_spec_low by lia. symmetry. apply bool_decide_eq_true. lia.
    + rewrite Z.mod_pow2_bits_high by lia. symmetry. apply bool_decide_eq_false. lia.
Qed.

Lemma masked_alike width p x y : 0 <= p <= width ->
  Z.land x (mask width p) = Z.land y (mask width p)
  <-> forall i, 0 <= i < p -> Z.testbit x (width - 1 - i) = Z.testbit y (width - 1 - i).
Proof.
  intros Hp. split.
  - intros H i Hi. assert (Z.testbit (Z.land x (mask width p)) (width - 1 - i) = Z.testbit (Z.land y (mask width p)) (width - 1 - i)) as Hb by by rewrite H.
    rewrite !Z.land_spec, !mask_bits, bool_decide_eq_true_2, !andb_true_r in Hb by lia. done.
  - intros H. apply Z.bits_inj'. intros i Hi. rewrite !Z.land_spec, !mask_bits by lia.
    destruct (bool_decide_reflect (width - p <= i < width)) as [Hin|]; [|by rewrite !andb_false_r].
    rewrite !andb_true_r. specialize (H (width - 1 - i) ltac:(lia)). by replace (width - 1 - (width - 1 - i)) with i in H by lia.
Qed.

(** C27. An address is in a network exactly where it is of the network's
    family and its leading bits, as many as the prefix is long, are the
    network's: every address of the family for a prefix of 0, one alone for a
    prefix of the full width. *)
Theorem contains_leading_bits n a :
  well_formed n ->
  contains n a = true <->
  widest a = widest (address n) /\ forall i, 0 <= i < prefix n -> bit a i = bit (address n) i.
Proof.
  intros [_ Hp]. unfold contains, bit. destruct n as [[x|x] p], a as [y|y]; cbn [address prefix widest] in *;
    try (split; [discriminate | intros [? _]; discriminate]).
  all: rewrite Z.eqb_eq, masked_alike by done; split; [intros H; split; [done|]; intros; symmetry; by apply H | intros [_ H] i Hi; symmetry; by apply H].
Qed.

Lemma contains_leading_bits_witness :
  contains (mkNetwork (V4 [192; 168; 1; 0]) 24) (V4 [192; 168; 1; 77]) = true <->
  widest (V4 [192; 168; 1; 77]) = 32
  /\ forall i, 0 <= i < 24 -> bit (V4 [192; 168; 1; 77]) i = bit (V4 [192; 168; 1; 0]) i.
Proof. apply (contains_leading_bits (mkNetwork (V4 [192; 168; 1; 0]) 24)). apply (bool_decide_unpack _). vm_compute. exact I. Defined.

Example lan_holds_its_hosts :
  map (contains (mkNetwork (V4 [192; 168; 1; 0]) 24))
    [V4 [192; 168; 1; 77]; V4 [192; 168; 2; 1]; V6 [0; 0; 0; 0; 0; 0xffff; 0xc0a8; 0x14d]]
  = [true; false; false]
  /\ contains (mkNetwork (V6 (replicate 8 0)) 0) (V6 [0xfe80; 0; 0; 0; 0; 0; 0; 1]) = true.
Proof. vm_compute. done. Qed.

(** ** Networks written and read *)

Lemma display_printable a : Ip.valid a -> printable (Ip.display a) /\ (47 ∉ Ip.display a).
Proof.
  intros H. apply Ip.display_chars in H. split.
  - eapply Forall_impl; [exact H|]. unfold Ip.address_char, is_hex. cbn. intros; lia.
  - intros Hin. rewrite Forall_forall in H. specialize (H _ Hin). unfold Ip.address_char, is_hex in H. lia.
Qed.

Lemma dec_printable n : 0 <= n -> printable (dec n).
Proof. intros. by apply hex_printable, dec_hex. Qed.

(** C28. Whatever text is read as a network, the network is one of an address
    of its family and a prefix no wider than it; and a network written is the
    network read, as is the bare address of a network of one host. *)
Theorem networks_are_read :
  (forall text n, parse text = Ok n -> well_formed n)
  /\ (forall n, well_formed n -> parse (display n) = Ok n)
  /\ (forall a, Ip.valid a -> parse (Ip.display a) = Ok (mkNetwork a (widest a))).
Proof.
  split_and!.
  - intros text n. unfold parse.
    destruct (match split_once 47 (trim text) with Some (address, prefix) => (address, Some prefix) | None => (trim text, None) end) as [host p].
    intros H. inv_ok. subst. apply Ip.addresses_are_read in Ha. split; [done|]. cbn [address prefix].
    assert (0 <= widest a) as Hw by (destruct a; cbn; lia). destruct p as [p|]; inv_ok; [|simplify_eq; lia].
    destruct (parse_uint U8_MAX p) as [m|] eqn:Hm; [|discriminate]. apply parse_uint_range in Hm; [|done]. cbn in *.
    destruct (Z.leb_spec m (widest a)); simplify_eq; lia.
  - intros n [Hv Hp]. destruct (display_printable _ Hv) as [Hpr Hs]. unfold parse.
    assert (trim (display n) = display n) as ->.
    { apply printable_trim. unfold display. repeat (apply Forall_app; split); [done | | apply dec_printable; lia]. by apply Forall_cons_2. }
    unfold display. change (lit "/" ++ dec (prefix n)) with (47 :: dec (prefix n)). rewrite split_once_first by done.
    rewrite Ip.parse_display by done. cbn [ok_or res_bind].
    rewrite parse_dec by (unfold U8_MAX; destruct (address n); cbn in Hp; lia). cbn [mbind option_bind].
    destruct (Z.leb_spec (prefix n) (widest (address n))); [|lia]. by destruct n.
  - intros a Hv. destruct (display_printable _ Hv) as [Hpr Hs]. unfold parse. rewrite printable_trim by done.
    rewrite split_once_none, Ip.parse_display by done. done.
Qed.

Example networks_written_read :
  map parse [lit " 192.168.1.0/24 "; lit "2001:db8::/32"; lit "10.1.2.3"]
  = [Ok (mkNetwork (V4 [192; 168; 1; 0]) 24); Ok (mkNetwork (V6 [0x2001; 0xdb8; 0; 0; 0; 0; 0; 0]) 32);
     Ok (mkNetwork (V4 [10; 1; 2; 3]) 32)]
  /\ parse (lit "10.0.0.0/33") = Err (too_long (lit "10.0.0.0/33") 32)
  /\ parse (lit "party-x.example") = Err (not_one (lit "party-x.example")).
Proof. vm_compute. done. Qed.
End Network.

(** ** [src/address.rs] *)

Module Address.

(** [str::strip_circumfix]. *)
Definition strip_circumfix (before after : Z) (s : bytes) : option bytes :=
  inner ← strip_prefix [before] s;
  '(text, rest) ← rsplit_once after inner;
  match rest with [] => Some text | _ => None end.

Definition not_an_address `{DebugText} (text : bytes) : NetError :=
  NetErr.new (lit "the peer address " ++ debug_text text ++ lit " is not an IP address").

Definition parse `{DebugText} (text : bytes) : result NetError IpAddr :=
  let text := trim text in
  match Ip.parse text with
  | Some address => Ok address
  | None =>
      match Ip.parse_socket text with
      | Some socket => Ok (ip socket)
      | None =>
          match (inner ← strip_circumfix 91 93 text; Ip.parse inner) with
          | Some address => Ok address
          | None => Err (not_an_address text)
          end
      end
  end.

(** An address is read in every way a transport writes it: bare, with a
    port, and an IPv6 address in brackets with or without one. *)
Lemma every_spelling_is_read `{DebugText} a port :
  Ip.valid a -> 0 <= port <= U16_MAX ->
  parse (Ip.display a) = Ok a
  /\ match a with
     | V4 _ => parse (Ip.display a ++ lit ":" ++ dec port) = Ok a
     | V6 _ => parse (lit "[" ++ Ip.display a ++ lit "]") = Ok a
               /\ parse (lit "[" ++ Ip.display a ++ lit "]:" ++ dec port) = Ok a
     end.
Proof.
  intros Ha Hp. destruct (Network.display_printable a Ha) as [Hpr _].
  assert (forall before after, printable before -> printable after ->
    trim (before ++ Ip.display a ++ after) = before ++ Ip.display a ++ after) as Htrim.
  { intros. apply printable_trim. by repeat (apply Forall_app; split). }
  pose proof (Network.dec_printable port ltac:(lia)) as Hdp. split.
  - unfold parse. by rewrite printable_trim, Ip.parse_display.
  - destruct a as [octets|segments]; cbn [Ip.display] in *.
    + unfold parse. pose proof (Htrim [] (lit ":" ++ dec port)) as Ht. cbn [app] in Ht. rewrite Ht; [|constructor|by apply Forall_cons_2].
      destruct (Ip.socket_v4_written octets port Ha Hp) as [Hn Hs]. cbn [app]. change (lit ":" ++ dec port) with (58 :: dec port).
      by rewrite Hn, Hs.
    + destruct (Ip.socket_v6_written segments port Ha Hp) as [Hs Hn]. unfold parse. split.
      * rewrite Htrim by by apply Forall_cons_2. change (lit "[" ++ Ip.write_v6 segments ++ lit "]") with (91 :: Ip.write_v6 segments ++ [93]).
        rewrite (proj1 (Ip.bracket_no_ip _)), Hn. unfold strip_circumfix. cbn [strip_prefix Z.eqb Pos.eqb mbind option_bind].
        rewrite rsplit_once_last by apply not_elem_of_nil. cbn [mbind option_bind]. pose proof (Ip.parse_display (V6 segments) Ha) as Hd. cbn [Ip.display] in Hd. by rewrite Hd.
      * rewrite Htrim; [|by apply Forall_cons_2|by repeat apply Forall_cons_2].
        change (lit "[" ++ Ip.write_v6 segments ++ lit "]:" ++ dec port) with (91 :: Ip.write_v6 segments ++ 93 :: 58 :: dec port).
        by rewrite (proj1 (Ip.bracket_no_ip _)), Hs.
Qed.

Lemma every_spelling_is_read_witness :
  let debug : DebugText := fun text => text in
  parse (lit "2001:db8::1") = Ok (V6 [0x2001; 0xdb8; 0; 0; 0; 0; 0; 1])
  /\ parse (lit "[2001:db8::1]") = Ok (V6 [0x2001; 0xdb8; 0; 0; 0; 0; 0; 1])
  /\ parse (lit "[2001:db8::1]:443") = Ok (V6 [0x2001; 0xdb8; 0; 0; 0; 0; 0; 1]).
Proof.
  intros debug. apply (every_spelling_is_read (V6 [0x2001; 0xdb8; 0; 0; 0; 0; 0; 1]) 443); [|unfold U16_MAX; lia].
  apply (bool_decide_unpack _). vm_compute. exact I.
Defined.
End Address.

(** ** [wakeable] of [src/accepting.rs] *)

Definition wakeable (address : SocketAddr) : SocketAddr :=
  if Ip.is_unspecified (ip address) then
    mkSocketAddr match ip address with V4 _ => Ip.V4_LOCALHOST | V6 _ => Ip.V6_LOCALHOST end (port address)
  else address.
