(* ===== verification/Mac.v ===== *)
(** A hardware address in the notations the stacks use, read in four and
    written in one ([src/mac.rs]). *)

From Stdlib Require Import String.
From S2P Require Import Prelude Text Errors Ip.

(** Two hexadecimal digits, of either case, and the octet they write. *)
Definition spells (b : Z) (pair : bytes) : Prop :=
  exists h l, pair = [h; l] /\ is_octet b /\ Ip.to_digit 16 h = Some (b / 16) /\ Ip.to_digit 16 l = Some (b mod 16).

(** [codec::hex], of another package: octets written as lowercase pairs of
    digits, and pairs of digits of either case read as octets. *)
Class HexCode := {
  encode : bytes -> bytes;
  decode : bytes -> option bytes;
  encode_octet : forall b, is_octet b -> encode [b] = [digit (b / 16); digit (b mod 16)];
  decode_reads : forall bs pairs, Forall2 spells bs pairs -> decode (concat pairs) = Some bs;
  decode_only : forall s bs, decode s = Some bs -> exists pairs, s = concat pairs /\ Forall2 spells bs pairs;
}.

Module Mac.
Section mac.
Context `{!DebugText, !HexCode}.

Definition notation (bytes : bytes) : Prelude.bytes := join (lit ":") (map (fun byte => encode [byte]) bytes).

Definition refused (text : bytes) : NetError :=
  NetErr.new (debug_text text ++ lit " is not a hardware address").

(** The groups of digits, each to be [width] long. *)
Definition groups (text : bytes) : list bytes * Z :=
  if contains 46 text then (split_by (Z.eqb 46) text, 4)
  else if contains 58 text || contains 45 text then (split_by (fun c => (c =? 58) || (c =? 45)) text, 2)
  else ([text], len text).

Fixpoint read_groups (why : NetError) (width : Z) (groups : list bytes) (octets : bytes) : result NetError bytes :=
  match groups with
  | [] => Ok octets
  | group :: groups =>
      if negb (len group =? width) then Err why
      else let? more := ok_or (decode group) why in read_groups why width groups (octets ++ more)
  end.

Definition parse (text : bytes) : result NetError bytes :=
  let text := trim text in
  let '(groups, width) := groups text in
  match text with
  | [] => Err (refused text)
  | _ => read_groups (refused text) width groups []
  end.

(** ** The spellings *)

Lemma spells_digits b pair : spells b pair -> len pair = 2 /\ Forall (fun c => is_Some (Ip.to_digit 16 c)) pair.
Proof. intros (h & l & -> & _ & Hh & Hl). split; [done|]. repeat apply Forall_cons_2; eauto. Qed.

Lemma spelled_digits bs pairs : Forall2 spells bs pairs -> Forall (fun c => is_Some (Ip.to_digit 16 c)) (concat pairs).
Proof.
  induction 1 as [|b p bs pairs Hp _ IH]; [constructor|]. cbn [concat]. apply Forall_app. split; [by eapply spells_digits|done].
Qed.

(** What separates the groups. *)
Definition separator (c : Z) : bool := (c =? 46) || (c =? 58) || (c =? 45).

Lemma digit_char c : is_Some (Ip.to_digit 16 c) -> 33 <= c < 127 /\ separator c = false.
Proof.
  intros [d Hd]. unfold Ip.to_digit, is_ascii_digit, between in Hd. unfold separator.
  repeat (case_test; [rewrite andb_true_iff in *; split; [lia|]; destruct (Z.eqb_spec c 46), (Z.eqb_spec c 58), (Z.eqb_spec c 45); done || lia|]).
  discriminate.
Qed.

Lemma notation_spells octets : Forall is_octet octets ->
  exists pairs, Forall2 spells octets pairs /\ notation octets = join [58] pairs.
Proof.
  intros Ho. exists (map (fun b => encode [b]) octets). split; [|done].
  induction Ho as [|b octets Hb Ho IH]; [constructor|]. cbn [map]. constructor; [|done].
  rewrite encode_octet by done. unfold spells, is_octet in *. eexists _, _.
  assert (0 <= b / 16 < 16) as Hd by (split; [apply Z.div_pos; lia | apply Z.div_lt_upper_bound; lia]).
  assert (0 <= b mod 16 < 16) as Hm by (apply Z.mod_pos_bound; lia).
  split_and!; [done | lia | lia | by apply Ip.to_digit_digit | by apply Ip.to_digit_digit].
Qed.

(** Groups of as many octets each are read one after another. *)
Lemma spelled_len bs pairs : Forall2 spells bs pairs -> len (concat pairs) = 2 * len bs.
Proof.
  induction 1 as [|b p bs pairs Hp _ IH]; [done|]. cbn [concat]. rewrite len_app, len_cons, IH.
  apply spells_digits in Hp as [-> _]. lia.
Qed.

Lemma read_groups_spelled why n bss pairss octets : (0 < n)%nat ->
  Forall2 (fun bs pairs => Forall2 spells bs pairs /\ length bs = n) bss pairss ->
  read_groups why (2 * Z.of_nat n) (map (@concat Z) pairss) octets = Ok (octets ++ concat bss).
Proof.
  intros Hn HF. revert octets. induction HF as [|bs pairs bss pairss [Hp Hl] HF IH]; intros octets.
  - cbn. by rewrite app_nil_r.
  - cbn [map read_groups]. rewrite (decode_reads _ _ Hp).
    rewrite (spelled_len _ _ Hp). unfold len. rewrite Hl.
    rewrite Z.eqb_refl. cbn [negb ok_or res_bind concat]. by rewrite IH, <- app_assoc.
Qed.

Lemma text_of_digits c pieces : separator c = true -> Forall (Forall (fun c => is_Some (Ip.to_digit 16 c))) pieces ->
  trim (join [c] pieces) = join [c] pieces.
Proof.
  intros Hc Hp. apply printable_trim. apply Ip.join_chars.
  - rewrite Forall_singleton. unfold separator in Hc. lia.
  - eapply Forall_impl; [exact Hp|]. intros p H'. eapply Forall_impl; [exact H'|]. cbn. intros b Hb. by destruct (digit_char b Hb).
Qed.

Lemma contains_join c c' p q pieces : Forall (Forall (fun c => is_Some (Ip.to_digit 16 c))) (p :: q :: pieces) ->
  separator c' = true -> contains c' (join [c] (p :: q :: pieces)) = bool_decide (c = c').
Proof.
  intros Hp Hc. destruct (bool_decide_reflect (c = c')) as [<-|Hne].
  - apply contains_spec. cbn [join]. rewrite elem_of_app. right. by left.
  - apply contains_false. intros Hin.
    assert (Forall (fun b => b = c \/ separator b = false) (join [c] (p :: q :: pieces))) as Hall.
    { apply Ip.join_chars; [rewrite Forall_singleton; by left|]. eapply Forall_impl; [exact Hp|]. intros r Hr.
      eapply Forall_impl; [exact Hr|]. cbn. intros b Hb. right. by apply digit_char. }
    rewrite Forall_forall in Hall. destruct (Hall _ Hin) as [->|?]; congruence.
Qed.

(** A text of groups, separated or alone, is read. *)
Lemma parse_spelled c n bss pairss : (0 < n)%nat -> bss <> [] ->
  separator c = true -> ((1 < length bss)%nat -> c = 46 /\ n = 2%nat \/ (c = 58 \/ c = 45) /\ n = 1%nat) ->
  Forall2 (fun bs pairs => Forall2 spells bs pairs /\ length bs = n) bss pairss ->
  parse (join [c] (map (@concat Z) pairss)) = Ok (concat bss).
Proof.
  intros Hn Hne Hsep Hc HF.
  assert (Forall (Forall (fun c => is_Some (Ip.to_digit 16 c))) (map (@concat Z) pairss)) as Hd.
  { clear -HF. induction HF as [|bs pairs bss pairss [Hp _] _ IH]; [constructor|]. constructor; [by eapply spelled_digits | done]. }
  assert (map (@concat Z) pairss <> []) as Hne' by (inversion HF; subst; done).
  unfold parse. rewrite text_of_digits by done.
  assert (forall why, read_groups why (2 * Z.of_nat n) (map (@concat Z) pairss) [] = Ok (concat bss)) as Hread.
  { intros why. by rewrite (read_groups_spelled why n bss pairss []). }
  assert (join [c] (map (@concat Z) pairss) <> []) as Htext.
  { inversion HF as [|bs pairs bss' pairss' [Hp Hl] HF' E1 E2]; subst; [done|]. destruct bs as [|b bs]; [cbn in Hn; lia|].
    inversion Hp as [|? p ? ps [h [l [-> _]]] _]; subst. cbn. by destruct (map (@concat Z) pairss'). }
  assert (groups (join [c] (map (@concat Z) pairss)) = (map (@concat Z) pairss, 2 * Z.of_nat n)
    \/ exists p, map (@concat Z) pairss = [p]) as [Hg|[p Hp]].
  { pose proof (Forall2_length _ _ _ HF) as Hll. rewrite <- (length_map (@concat Z) pairss) in Hll.
    destruct (map (@concat Z) pairss) as [|p [|q pieces]] eqn:Hm; [done|right; by eexists|]. left.
    cbn [length] in Hll. specialize (Hc ltac:(lia)). unfold groups.
    rewrite !contains_join by done.
    assert (forall sep, sep c = true -> (forall b, sep b = true -> separator b = true) ->
      split_by sep (join [c] (p :: q :: pieces)) = p :: q :: pieces) as Hsplit.
    { intros sep H1 H2. apply split_join_by; [done| |done]. eapply Forall_impl; [exact Hd|]. intros r Hr.
      eapply Forall_impl; [exact Hr|]. cbn. intros b Hb. apply digit_char in Hb as [_ Hb]. destruct (sep b) eqn:E; [|done].
      apply H2 in E. congruence. }
    assert (forall b, ((b =? 58) || (b =? 45)) = true -> separator b = true) as Hs2.
    { intros b Hb. unfold separator. rewrite <- orb_assoc, Hb. apply orb_true_r. }
    destruct Hc as [[? ?]|[[?|?] ?]]; subst c n.
    - rewrite (Hsplit (Z.eqb 46)); [done|done|]. by intros b <-%Z.eqb_eq.
    - by rewrite (Hsplit (fun c => (c =? 58) || (c =? 45))).
    - by rewrite (Hsplit (fun c => (c =? 58) || (c =? 45))). }
  - rewrite Hg. destruct (join [c] (map (@concat Z) pairss)); [done|]. apply Hread.
  - assert (len p = 2 * Z.of_nat n) as Hlen.
    { inversion HF as [|bs pairs bss' pairss' [Hs Hl] _]; subst; [done|]. injection Hp as <- _.
      rewrite (spelled_len _ _ Hs). done. }
    rewrite Hp in *. cbn [join] in *. apply Forall_cons in Hd as [Hd _].
    assert (forall c, separator c = true -> contains c p = false) as Hno.
    { intros c' Hc'. apply contains_false. intros Hin. rewrite Forall_forall in Hd. apply Hd, digit_char in Hin as [_ ?]. congruence. }
    unfold groups. rewrite !Hno by done. cbn [orb]. rewrite Hlen. destruct p; [done|]. apply Hread.
Qed.

(** What is read is what its digits spell. *)
Lemma read_groups_only why width groups : forall octets all, read_groups why width groups octets = Ok all ->
  exists bs pairs, all = octets ++ bs /\ Forall2 spells bs pairs /\ concat groups = concat pairs
    /\ Forall (fun group => len group = width) groups.
Proof.
  induction groups as [|group groups IH]; intros octets all; cbn [read_groups].
  - intros [= <-]. exists [], []. by rewrite app_nil_r.
  - destruct (Z.eqb_spec (len group) width) as [Hw|]; [|discriminate]. cbn [negb]. intros Hr. inv_ok.
    apply decode_only in Ha as (ps & -> & Hps). apply IH in Hr as (bs & pairs & -> & Hp & Hg & Hall).
    exists (a ++ bs), (ps ++ pairs). split_and!; [by rewrite app_assoc | by apply Forall2_app | | by constructor].
    cbn [concat]. by rewrite concat_app, Hg.
Qed.

Lemma filter_digits (sep : Z -> bool) s : (forall b, sep b = true -> separator b = true) ->
  List.filter (fun c => negb (separator c)) (List.filter (fun c => negb (sep c)) s) = List.filter (fun c => negb (separator c)) s.
Proof.
  intros Hsep. induction s as [|b s IH]; [done|]. cbn [List.filter]. destruct (sep b) eqn:E; cbn [negb].
  - rewrite IH. by rewrite (Hsep b E).
  - cbn [List.filter]. by rewrite IH.
Qed.

Lemma digits_kept s : Forall (fun c => is_Some (Ip.to_digit 16 c)) s -> List.filter (fun c => negb (separator c)) s = s.
Proof.
  induction 1 as [|c s Hd _ IH]; [done|]. cbn [List.filter]. destruct (digit_char c Hd) as [_ ->]. cbn [negb]. by rewrite IH.
Qed.

Lemma parse_only text octets : parse text = Ok octets ->
  octets <> [] /\ exists pairs, Forall2 spells octets pairs
    /\ List.filter (fun c => negb (separator c)) (trim text) = concat pairs.
Proof.
  unfold parse. destruct (groups (trim text)) as [gs width] eqn:Hg. destruct (trim text) as [|b t] eqn:Ht; [discriminate|].
  intros Hr. apply read_groups_only in Hr as (bs & pairs & -> & Hp & Hc & Hw). cbn [app].
  assert (exists sep, (forall b, sep b = true -> separator b = true) /\ concat gs = List.filter (fun c => negb (sep c)) (b :: t)
    /\ gs <> [] /\ 0 < width) as (sep & Hsep & Hgs & Hne & Hpos).
  { assert (forall sep s, split_by sep s <> []) as Hs.
    { intros sep s. destruct s as [|c s]; cbn; [done|]. destruct (sep c); [done|]. by destruct (split_by sep s). }
    unfold groups in Hg. unfold separator.
    destruct (contains 46 (b :: t)); [|destruct (contains 58 (b :: t) || contains 45 (b :: t))]; apply pair_equal_spec in Hg as [<- <-].
    - exists (Z.eqb 46). split_and!; [|apply concat_split_by|apply Hs|lia]. intros c Hc46. apply Z.eqb_eq in Hc46 as <-. done.
    - exists (fun c => (c =? 58) || (c =? 45)). split_and!; [|apply concat_split_by|apply Hs|lia].
      intros c Hcc. destruct (c =? 46); [done|exact Hcc].
    - exists (fun _ => false). split_and!; [done| |done|rewrite len_cons; pose proof (len_nonneg t); lia].
      cbn [concat]. rewrite app_nil_r. clear. induction (b :: t) as [|c s IH]; [done|]. cbn [List.filter]. f_equal. exact IH. }
  split.
  - intros ->. inversion Hp; subst. destruct gs as [|g gs]; [done|]. apply Forall_cons in Hw as [Hw _].
    destruct g; [rewrite len_nil in Hw; lia | discriminate].
  - exists pairs. split; [done|]. rewrite <- (filter_digits sep) by done. rewrite <- Hgs, Hc.
    by apply digits_kept, (spelled_digits bs).
Qed.

(** Octets apart, as each is a group of its own. *)
Lemma each_alone bs pairs : Forall2 spells bs pairs ->
  Forall2 (fun bs pairs => Forall2 spells bs pairs /\ length bs = 1%nat) (map (fun b => [b]) bs) (map (fun p => [p]) pairs)
  /\ concat (map (fun b => [b]) bs) = bs /\ map (@concat Z) (map (fun p => [p]) pairs) = pairs.
Proof.
  induction 1 as [|b p bs pairs Hp _ (IH1 & IH2 & IH3)]; [by repeat constructor|]. cbn. split_and!.
  - constructor; [|done]. split; [by constructor|done].
  - by f_equal.
  - by rewrite app_nil_r, IH3.
Qed.

(** C29. A hardware address written is the address read; it is read of pairs of
    digits in either case joined by colons, joined by hyphens or standing
    alone, and of groups of two pairs joined by dots; and whatever text is
    read as one, its digits, separators apart, spell the octets read, one at
    least. *)
Theorem hardware_addresses_are_read :
  (forall octets, octets <> [] -> Forall is_octet octets -> parse (notation octets) = Ok octets)
  /\ (forall octets pairs, octets <> [] -> Forall2 spells octets pairs ->
        parse (join (lit ":") pairs) = Ok octets /\ parse (join (lit "-") pairs) = Ok octets
        /\ parse (concat pairs) = Ok octets)
  /\ (forall groups pairs, groups <> [] ->
        Forall2 (fun group pairs => Forall2 spells group pairs /\ length group = 2%nat) groups pairs ->
        parse (join (lit ".") (map (@concat Z) pairs)) = Ok (concat groups))
  /\ (forall text octets, parse text = Ok octets -> octets <> [] /\ exists pairs, Forall2 spells octets pairs
        /\ List.filter (fun c => negb (separator c)) (trim text) = concat pairs).
Proof.
  assert (forall octets pairs c, octets <> [] -> Forall2 spells octets pairs -> c = 58 \/ c = 45 ->
    parse (join [c] pairs) = Ok octets) as Hjoin.
  { intros octets pairs c Hne Hp Hc. destruct (each_alone _ _ Hp) as (H1 & H2 & H3).
    rewrite <- H3, <- H2 at 1. apply (parse_spelled c 1); [lia|by destruct octets|by destruct Hc as [->| ->]|by right|done]. }
  split_and!.
  - intros octets Hne Ho. destruct (notation_spells octets Ho) as (pairs & Hp & ->). apply Hjoin; [done|done|by left].
  - intros octets pairs Hne Hp. split_and!; [apply Hjoin; [done|done|by left] | apply Hjoin; [done|done|by right] |].
    rewrite <- (app_nil_r (concat pairs)). change (concat pairs ++ []) with (concat [concat pairs]).
    pose proof (parse_spelled 58 (length octets) [octets] [pairs]) as H1. cbn [map join concat] in H1 |- *.
    rewrite app_nil_r in H1 |- *. apply H1; [destruct octets; [done | cbn; lia] | done | done | cbn; lia |].
    by constructor.
  - intros groups pairs Hne HF. apply (parse_spelled 46 2); [lia|done|done|by left|done].
  - apply parse_only.
Qed.
End mac.

(** Hexadecimal as the other package documents it. *)
Definition encode_pairs (s : bytes) : bytes := concat (map (fun b => [digit (b / 16); digit (b mod 16)]) s).
Fixpoint decode_pairs (s : bytes) : option bytes :=
  match s with
  | [] => Some []
  | h :: l :: s => h ← Ip.to_digit 16 h; l ← Ip.to_digit 16 l; bs ← decode_pairs s; Some (h * 16 + l :: bs)
  | _ => None
  end.

Lemma decode_pairs_reads bs pairs : Forall2 spells bs pairs -> decode_pairs (concat pairs) = Some bs.
Proof.
  induction 1 as [|b p bs pairs (h & l & -> & _ & Hh & Hl) _ IH]; [done|]. cbn. rewrite Hh, Hl. cbn. rewrite IH. cbn.
  by rewrite Z.mul_comm, <- Z.div_mod by lia.
Qed.

Lemma decode_pairs_only n : forall s bs, (length s <= n)%nat -> decode_pairs s = Some bs ->
  exists pairs, s = concat pairs /\ Forall2 spells bs pairs.
Proof.
  induction n as [|n IH]; intros [|h [|l s]] bs Hn; cbn [decode_pairs];
    try (intros [= <-]; by exists []); try discriminate; try (cbn in Hn; lia).
  destruct (Ip.to_digit 16 h) as [x|] eqn:Hh; [|discriminate]. destruct (Ip.to_digit 16 l) as [y|] eqn:Hl; [|discriminate].
  cbn [mbind option_bind]. destruct (decode_pairs s) as [more|] eqn:Hs; [|discriminate]. intros [= <-].
  destruct (IH s more ltac:(cbn in Hn; lia) Hs) as (pairs & -> & Hp). exists ([h; l] :: pairs). split; [done|].
  pose proof (Ip.to_digit_range _ _ _ Hh). pose proof (Ip.to_digit_range _ _ _ Hl).
  constructor; [|done]. exists h, l. split_and!; [done|unfold is_octet; lia|..].
  - rewrite Hh. f_equal. rewrite Z.div_add_l by lia. rewrite Z.div_small; lia.
  - rewrite Hl. f_equal. rewrite Z.add_comm, Z.mod_add by lia. by rewrite Z.mod_small.
Qed.

Definition plain_hex : HexCode := {|
  encode := encode_pairs;
  decode := decode_pairs;
  encode_octet b _ := eq_refl;
  decode_reads := decode_pairs_reads;
  decode_only s bs := decode_pairs_only (length s) s bs (le_n _);
|}.

Lemma hardware_addresses_are_read_witness :
  let debug : DebugText := fun text => text in let hex := plain_hex in
  parse (notation [0x00; 0x1b; 0xb7]) = Ok [0x00; 0x1b; 0xb7]
  /\ parse (lit "00-1B-b7") = Ok [0x00; 0x1b; 0xb7] /\ parse (lit "001b.44b7") = Ok [0x00; 0x1b; 0x44; 0xb7].
Proof.
  intros debug hex. destruct hardware_addresses_are_read as (H1 & H2 & H3 & _). split_and!.
  - apply H1; [done|]. apply (octets_check [0x00; 0x1b; 0xb7]). done.
  - apply (H2 [0x00; 0x1b; 0xb7] [lit "00"; lit "1B"; lit "b7"]); [done|].
    repeat constructor; eexists _, _; (split; [reflexivity|]); vm_compute; done.
  - apply (H3 [[0x00; 0x1b]; [0x44; 0xb7]] [[lit "00"; lit "1b"]; [lit "44"; lit "b7"]]); [done|].
    repeat constructor; eexists _, _; (split; [reflexivity|]); vm_compute; done.
Defined.

Example mac_spellings :
  let debug : DebugText := fun text => text in let hex := plain_hex in
  map parse [lit " 00:1B:44:11:3a:b7 "; lit "001B44113AB7"; lit "001b44113ab"; lit "00:1b::11"; lit "00:1b:44:11:3a:+b"]
  = [Ok [0x00; 0x1b; 0x44; 0x11; 0x3a; 0xb7]; Ok [0x00; 0x1b; 0x44; 0x11; 0x3a; 0xb7];
     Err (refused (lit "001b44113ab")); Err (refused (lit "00:1b::11")); Err (refused (lit "00:1b:44:11:3a:+b"))].
Proof. vm_compute. done. Qed.
End Mac.
