(* ===== verification/Login.v ===== *)
(** A login a server is offered and the check that admits it or not
    ([src/login.rs]). *)

From Stdlib Require Import String.
From S2P Require Import Prelude Text.

(** [codec::constant_time], of another package: whether two octet strings are
    equal, in a time that does not say where they differ. *)
Class ConstantTime := {
  equal : bytes -> bytes -> bool;
  equal_spec : forall a b, equal a b = bool_decide (a = b);
}.

Record Offered : Type := mkOffered { o_user : bytes; secret : bytes }.
Record OfferedKey : Type := mkOfferedKey { k_user : bytes; key : bytes }.

Inductive Offer : Type :=
| Password (offered : Offered)
| Key (offered : OfferedKey).

Module Login.

(** [{:?}] of an [Offered]. *)
Definition debug_offered `{DebugText} (self : Offered) : bytes :=
  lit "Offered { user: " ++ debug_text (o_user self) ++ lit " }".

(** A check answers after the comparisons it makes, which its time tells. *)
Definition Check : Type := Offer -> list (bytes * bytes) * bool.

Definition compare `{ConstantTime} (a b : bytes) : list (bytes * bytes) * bool := ([(a, b)], equal a b).

Section checks.
Context `{ConstantTime}.

Definition only (user secret_ : bytes) : Check := fun offer =>
  match offer with
  | Password offered =>
      let '(first, named) := compare (o_user offered) user in
      let '(second, proven) := compare (secret offered) secret_ in
      (first ++ second, named && proven)
  | Key _ => ([], false)
  end.

Definition only_key (user key_ : bytes) : Check := fun offer =>
  match offer with
  | Key offered =>
      let '(first, named) := compare (k_user offered) user in
      let '(second, held) := compare (key offered) key_ in
      (first ++ second, named && held)
  | Password _ => ([], false)
  end.

Definition nobody : Check := fun _ => ([], false).

Definition admits (check : Check) (offer : Offer) : bool := (check offer).2.

(** Which comparisons a check makes says what was offered, and nothing of
    which of them failed. *)
Definition shape (check : Check) (offer : Offer) : list (nat * nat) :=
  map (fun c => (length c.1, length c.2)) (check offer).1.

End checks.

#[local] Instance plain_compare : ConstantTime := {|
  equal a b := bool_decide (a = b);
  equal_spec a b := eq_refl;
|}.

Example only_admits_its_one :
  map (admits (only (lit "party") (lit "pencil")))
    [Password (mkOffered (lit "party") (lit "pencil")); Password (mkOffered (lit "party") (lit "pen"));
     Password (mkOffered (lit "parts") (lit "pencil")); Key (mkOfferedKey (lit "party") (lit "pencil"))]
  = [true; false; false; false].
Proof. vm_compute. done. Qed.
End Login.
