(* ===== verification/Uri.v ===== *)
(** A filesystem path as the path of a URI, and back ([src/uri.rs]), where a
    named local endpoint is ([path_of] of [src/pipe.rs]), the version of HTTP
    a connection speaks ([src/http/version.rs]) and the moment a header
    carries ([src/http/date.rs]). *)

From Stdlib Require Import String.
From S2P Require Import Prelude Text Ip.

(** ** Paths *)

Module Uri.

Definition BACKSLASH : Z := 92.

(** [path.display().to_string().replace(BACKSLASH, "/")]: the path is the
    text it displays as. *)
Definition slashes (path : bytes) : bytes := map (fun c => if c =? BACKSLASH then 47 else c) path.

Definition path_of (path : bytes) : bytes :=
  let text := slashes path in if starts_with [47] text then text else lit "/" ++ text.

Definition file_text_of (uri_path : bytes) : bytes :=
  match uri_path with
  | slash :: letter :: colon :: _ =>
      if (slash =? 47) && is_ascii_alphabetic letter && (colon =? 58) then tail uri_path else uri_path
  | _ => uri_path
  end.

(** [PathBuf::from], which keeps its text. *)
Definition file_of (uri_path : bytes) : bytes := file_text_of uri_path.

(** A path that says where it starts: at the root, or at a drive. *)
Definition drive (path : bytes) : Prop :=
  exists letter rest, path = letter :: 58 :: rest /\ is_ascii_alphabetic letter = true.
Definition rooted (path : bytes) : Prop := exists rest, slashes path = 47 :: rest /\ ~ drive rest.

Lemma file_text_of_rooted rest : ~ drive rest -> file_text_of (47 :: rest) = 47 :: rest.
Proof.
  intros H. destruct rest as [|letter [|colon rest]]; [done..|]. cbn [file_text_of].
  destruct (is_ascii_alphabetic letter) eqn:Hl, (Z.eqb_spec colon 58) as [->|]; try done. destruct H. by exists letter, rest.
Qed.

(** A path written as a URI's opens with a slash and holds no backslash;
    and a path from the root or from a drive is the path that comes back, its
    separators slashes. *)
Lemma paths_come_back path :
  (exists rest, path_of path = 47 :: rest) /\ (92 ∉ path_of path)
  /\ (rooted path \/ drive path -> file_of (path_of path) = slashes path).
Proof.
  assert (92 ∉ slashes path) as Hb.
  { induction path as [|c path IH]; [apply not_elem_of_nil|]. cbn [slashes map]. apply not_elem_of_cons. split; [|done].
    unfold BACKSLASH. by destruct (Z.eqb_spec c 92). }
  unfold path_of. destruct (starts_with [47] (slashes path)) eqn:Hs.
  - apply bool_decide_eq_true in Hs as [rest Hr]. apply strip_prefix_spec in Hr. cbn [app] in Hr. split_and!; [by exists rest|done|].
    intros [(rest' & Hr' & Hd)|(l & rest' & -> & Hl)].
    + rewrite Hr'. by apply file_text_of_rooted.
    + exfalso. unfold slashes in Hr. cbn [map] in Hr. injection Hr as Hl' _. unfold BACKSLASH in Hl'.
      destruct (Z.eqb_spec l 92) as [->|]; subst; done.
  - split_and!; [by eexists|by apply not_elem_of_cons|]. intros [(rest' & Hr' & Hd)|(l & rest' & -> & Hl)].
    + rewrite Hr' in Hs. done.
    + unfold slashes. cbn [map app]. unfold file_of, file_text_of. change (lit "/" ++ ?x) with (47 :: x). unfold BACKSLASH.
      destruct (Z.eqb_spec l 92) as [->|]; [done|]. cbn. by rewrite Hl.
Qed.

Lemma paths_come_back_witness :
  (exists rest, path_of (lit "C:\in\a.edi") = 47 :: rest) /\ (92 ∉ path_of (lit "C:\in\a.edi"))
  /\ (rooted (lit "C:\in\a.edi") \/ drive (lit "C:\in\a.edi") -> file_of (path_of (lit "C:\in\a.edi")) = lit "C:/in/a.edi").
Proof. apply (paths_come_back (lit "C:\in\a.edi")). Defined.

(** A file whose first directory is named as a drive does not come back. *)
Example unix_path_taken_for_a_drive : file_of (path_of (lit "/c:/in")) = lit "c:/in".
Proof. done. Qed.
End Uri.

Module PipePath.
(** [cfg!(windows)] and [temp_dir] are the platform's; [join] of a name with
    no separator in it. *)
Definition path_of (windows : bool) (temp_dir name : bytes) : bytes :=
  if contains 47 name || contains 92 name then name
  else if windows then lit "\\.\pipe\" ++ name
  else if bool_decide (last temp_dir = Some 47) then temp_dir ++ name else temp_dir ++ lit "/" ++ name.

(** A path is taken as one. *)
Lemma path_of_path windows temp_dir name :
  contains 47 name = true -> path_of windows temp_dir name = name.
Proof. intros H. unfold path_of. by rewrite H. Qed.
End PipePath.

(** ** The version of HTTP *)

Inductive Version : Type := Http11 | Http2.

Module Version.
Definition alpn (self : Version) : bytes := match self with Http11 => lit "http/1.1" | Http2 => lit "h2" end.
Definition agreed (protocol : option bytes) : Version :=
  if bool_decide (protocol = Some (alpn Http2)) then Http2 else Http11.

Lemma agreed_alpn v : agreed (Some (alpn v)) = v.
Proof. by destruct v. Qed.
End Version.

(** ** Dates

    A moment of [codec::civil], of another package: its fields and the weekday
    it tells. *)
Record CivilTime : Type := mkCivilTime {
  year : Z; month : Z; day : Z; hour : Z; minute : Z; second : Z; weekday : Z
}.

Module Date.
Definition DAYS : list bytes := map lit ["Mon"; "Tue"; "Wed"; "Thu"; "Fri"; "Sat"; "Sun"]%string.
Definition MONTHS : list bytes :=
  map lit ["Jan"; "Feb"; "Mar"; "Apr"; "May"; "Jun"; "Jul"; "Aug"; "Sep"; "Oct"; "Nov"; "Dec"]%string.

(** [{n:0width$}] of a number that is not negative. *)
Definition padded (width : nat) (n : Z) : bytes := replicate (width - length (dec n)) 48 ++ dec n.

Definition rfc1123 (moment : CivilTime) : bytes :=
  let weekday := DAYS !!! Z.to_nat (weekday moment mod 7) in
  let month := MONTHS !!! Z.to_nat ((month moment + 11) mod 12) in
  weekday ++ lit ", " ++ padded 2 (day moment) ++ lit " " ++ month ++ lit " " ++ padded 4 (year moment)
  ++ lit " " ++ padded 2 (hour moment) ++ lit ":" ++ padded 2 (minute moment) ++ lit ":" ++ padded 2 (second moment)
  ++ lit " GMT".

(** A moment of the calendar, of a year of four digits. *)
Definition civil (m : CivilTime) : Prop :=
  0 <= year m < 10000 /\ 1 <= month m <= 12 /\ 1 <= day m <= 31 /\ 0 <= hour m < 24 /\ 0 <= minute m < 60
  /\ 0 <= second m <= 60 /\ 0 <= weekday m < 7.

#[global] Instance civil_dec m : Decision (civil m).
Proof. unfold civil. apply _. Defined.

Example epoch : rfc1123 (mkCivilTime 1970 1 1 0 0 0 3) = lit "Thu, 01 Jan 1970 00:00:00 GMT".
Proof. done. Qed.
Example ietf : rfc1123 (mkCivilTime 1994 11 6 8 49 37 6) = lit "Sun, 06 Nov 1994 08:49:37 GMT".
Proof. done. Qed.

Lemma dec_length n k : 0 <= n < 10 ^ Z.of_nat k -> (0 < k)%nat -> (length (dec n) <= k)%nat.
Proof.
  intros Hn Hk. unfold dec. destruct (Z.ltb_spec n 0); [lia|].
  destruct (Ip.digits_written 10 _ ltac:(lia) n [] ltac:(lia) (log2_fuel n ltac:(lia)) ltac:(lia))
    as (ds & -> & _ & _ & _ & _ & Hlen). rewrite app_nil_r, length_map. apply Hlen; [done|lia].
Qed.

Lemma padded_reads width n : (width = 2%nat /\ 0 <= n < 100) \/ (width = 4%nat /\ 0 <= n < 10000) ->
  length (padded width n) = width /\ parse_digits U16_MAX 0 (padded width n) = Some n.
Proof.
  intros Hn. assert (length (dec n) <= width)%nat as Hl by (apply dec_length; [destruct Hn as [[-> Hn]|[-> Hn]]; cbn; lia | lia]).
  unfold padded. split; [rewrite length_app, length_replicate; lia|].
  assert (0 <= n <= U16_MAX) as Hm by (unfold U16_MAX; lia).
  assert (forall k, parse_digits U16_MAX 0 (replicate k 48 ++ dec n) = parse_digits U16_MAX 0 (dec n)) as ->.
  { intros k. induction k as [|k IH]; [done|]. cbn [replicate app]. etrans; [apply (parse_digits_step _ 0 0); unfold U16_MAX; lia|]. exact IH. }
  by apply parse_digits_dec.
Qed.

Lemma padded_inj width n m k k' :
  (width = 2%nat /\ 0 <= n < 100 /\ 0 <= m < 100) \/ (width = 4%nat /\ 0 <= n < 10000 /\ 0 <= m < 10000) ->
  padded width n ++ k = padded width m ++ k' -> n = m /\ k = k'.
Proof.
  intros Hw H. destruct (padded_reads width n ltac:(lia)) as [Hn Hpn], (padded_reads width m ltac:(lia)) as [Hm Hpm].
  apply app_inj_1 in H as [He Hk]; [|congruence]. rewrite He in Hpn. split; [congruence | done].
Qed.

(** A name of three letters out of a list of different ones. *)
Lemma name_inj (names : list bytes) i j k k' : Forall (fun name => length name = 3%nat) names -> NoDup names ->
  0 <= i < len names -> 0 <= j < len names ->
  names !!! Z.to_nat i ++ k = names !!! Z.to_nat j ++ k' -> i = j /\ k = k'.
Proof.
  intros Hl Hnd Hi Hj H. unfold len in *.
  destruct (lookup_lt_is_Some_2 names (Z.to_nat i) ltac:(lia)) as [x Hx].
  destruct (lookup_lt_is_Some_2 names (Z.to_nat j) ltac:(lia)) as [y Hy].
  rewrite (list_lookup_total_correct _ _ _ Hx), (list_lookup_total_correct _ _ _ Hy) in H.
  rewrite Forall_forall in Hl. apply app_inj_1 in H as [-> Hk].
  - split; [|done]. assert (Z.to_nat i = Z.to_nat j) as Heq by (by apply (NoDup_lookup names _ _ y)). lia.
  - rewrite !Hl; [done | by apply list_elem_of_lookup_2 in Hy | by apply list_elem_of_lookup_2 in Hx].
Qed.

Lemma month_index m : 1 <= m <= 12 -> (m + 11) mod 12 = m - 1.
Proof. intros H. rewrite <- (Z.mod_small (m - 1) 12) by lia. replace (m + 11) with (m - 1 + 1 * 12) by lia. by rewrite Z.mod_add. Qed.

(** The date of a moment takes 29 octets, as RFC 9110 fixes it, and tells
    the moment: two moments with one date are the same. *)
Lemma dates_tell_moments m m' :
  civil m -> civil m' -> length (rfc1123 m) = 29%nat /\ (rfc1123 m = rfc1123 m' -> m = m').
Proof.
  intros Hm Hm'. destruct m as [y mo d h mi s w], m' as [y' mo' d' h' mi' s' w']. unfold civil, rfc1123 in *.
  cbn [year month day hour minute second weekday] in *. rewrite !month_index, !(Z.mod_small _ 7) by lia. split.
  - rewrite !length_app.
    assert (forall n, 0 <= n < 100 -> length (padded 2 n) = 2%nat) as H2 by (intros n Hn; apply padded_reads; lia).
    rewrite !H2, (proj1 (padded_reads 4 y ltac:(lia))) by lia.
    assert (forall (names : list bytes) i, Forall (fun name => length name = 3%nat) names -> (i < length names)%nat -> length (names !!! i) = 3%nat) as Hn.
    { intros names i Hf Hi. rewrite Forall_forall in Hf. apply Hf. destruct (lookup_lt_is_Some_2 names i Hi) as [x Hx].
      rewrite (list_lookup_total_correct _ _ _ Hx). by apply list_elem_of_lookup_2 in Hx. }
    rewrite !Hn; [done | by repeat constructor | cbn; lia | by repeat constructor | cbn; lia].
  - intros H. apply (name_inj DAYS) in H as [-> H]; [|by repeat constructor|by apply (bool_decide_unpack _)|unfold len; cbn; lia..].
    apply app_inv_head in H. apply padded_inj in H as [-> H]; [|lia]. apply app_inv_head in H.
    apply (name_inj MONTHS) in H as [Hmo H]; [|by repeat constructor|by apply (bool_decide_unpack _)|unfold len; cbn; lia..].
    apply app_inv_head in H. apply padded_inj in H as [-> H]; [|lia]. apply app_inv_head in H.
    apply padded_inj in H as [-> H]; [|lia]. apply app_inv_head in H. apply padded_inj in H as [-> H]; [|lia].
    apply app_inv_head in H. apply padded_inj in H as [-> H]; [|lia]. f_equal. lia.
Qed.

Lemma dates_tell_moments_witness :
  length (rfc1123 (mkCivilTime 1994 11 6 8 49 37 6)) = 29%nat
  /\ (rfc1123 (mkCivilTime 1994 11 6 8 49 37 6) = rfc1123 (mkCivilTime 1970 1 1 0 0 0 3) ->
      mkCivilTime 1994 11 6 8 49 37 6 = mkCivilTime 1970 1 1 0 0 0 3).
Proof. apply dates_tell_moments; apply (bool_decide_unpack _); vm_compute; exact I. Defined.
End Date.
