(* ===== verification/Links.v ===== *)
(** Links to peers: a connection read until its side ends or its peer falls
    silent ([src/watched.rs]), a connection opened to the first address that
    accepts one ([src/connect.rs]), and an accept stopped by a connection of
    its own ([src/accepting.rs]).

    The clock, the sockets and what a side says of its end are the answers
    their calls will get, in the order they are asked; a thread that accepts
    and who stops it take turns, in any order. *)

From Stdlib Require Import String.
From S2P Require Import Prelude Text Errors Wire Ip Network.

(** ** [Watched] *)

Record Watched : Type := mkWatched {
  reading : Wire;
  (** What each call of [ending] says, and how many were made. *)
  ending : nat -> bool;
  asked_ending : nat;
  (** How long the peer may say nothing, and when it last said something. *)
  silence : option Z;
  heard : Z;
  (** The clock: what each look at it says, and how many were taken. *)
  clock : nat -> Z;
  looks : nat;
}.

Module Watched.

Definition with_reading (w : Wire) (self : Watched) : Watched :=
  mkWatched w (ending self) (asked_ending self) (silence self) (heard self) (clock self) (looks self).

(** [Watched::new]: the peer never taken for silent. *)
Definition new (reading : Wire) (ending : nat -> bool) (clock : nat -> Z) : Watched :=
  mkWatched reading ending 0 None (clock 0%nat) clock 1.

(** [(self.ending)()]. *)
Definition ask_ending : M Watched IoError bool := fun s =>
  (Ok (ending s (asked_ending s)),
   mkWatched (reading s) (ending s) (S (asked_ending s)) (silence s) (heard s) (clock s) (looks s)).

(** [Instant::now()]. *)
Definition now : M Watched IoError Z := fun s =>
  (Ok (clock s (looks s)),
   mkWatched (reading s) (ending s) (asked_ending s) (silence s) (heard s) (clock s) (S (looks s))).

Definition set_heard (at_ : Z) (s : Watched) : Watched :=
  mkWatched (reading s) (ending s) (asked_ending s) (silence s) at_ (clock s) (looks s).

(** [self.silence.is_some_and(|silence| self.heard.elapsed() > silence)]; an
    elapsed time is never under zero. *)
Definition fell_silent : M Watched IoError bool :=
  self <~ mget ;;
  match silence self with
  | None => mret false
  | Some silence => at_ <~ now ;; mret (silence <? Z.max 0 (at_ - heard self))
  end.

Definition waited (e : IoError) : bool := bool_decide (io_kind e = WouldBlock \/ io_kind e = TimedOut).

Definition aborted : IoError := mkIoError ConnectionAborted (lit "connection aborted").
Definition peer_silent : IoError := mkIoError TimedOut (lit "the peer fell silent").

(** One turn of the loop: a read that waited is tried again. *)
Definition read_turn (n : nat) (_ : unit) : M Watched IoError (unit + bytes) :=
  self <~ mget ;;
  let '(read, w) := read1 n (reading self) in
  mset (with_reading w) ;;;
  match read with
  | Err error =>
      if waited error then
        stop <~ ask_ending ;;
        if stop : bool then mfail aborted
        else
          silent <~ fell_silent ;;
          if silent : bool then mfail peer_silent else mret (inl tt)
      else at_ <~ now ;; mset (set_heard at_) ;;; mfail error
  | Ok bs => at_ <~ now ;; mset (set_heard at_) ;;; mret (inr bs)
  end.

Definition measure (_ : unit) (self : Watched) : nat := length (incoming (reading self)).

Definition read (n : nat) : M Watched IoError bytes := loop (read_turn n) measure aborted tt.

(** Writes pass straight through. *)
Definition on_reading {A} (m : M Wire IoError A) : M Watched IoError A := fun s =>
  let '(r, w) := m (reading s) in (r, with_reading w s).
Definition write_all (bs : bytes) : M Watched IoError unit := on_reading (Wire.write_all bs).
Definition flush : M Watched IoError unit := on_reading Wire.flush.

(** ** A stop is heard, and nothing read is lost *)

Lemma read1_failed n w e rest : incoming w = Failed e :: rest -> read1 n w = (Err e, mkWire rest (outgoing w) (refusals w)).
Proof. intros H. unfold read1. by rewrite H. Qed.

Lemma goes_round n : goes_down (read_turn n) measure (fun _ => True).
Proof.
  intros [] s [] s' _ Ht. split; [|done]. unfold read_turn, mthen, mget, mset, measure in *.
  destruct (reading s) as [[|[bs|e] rest] out ref] eqn:Hr; cbn [read1 incoming outgoing refusals] in Ht; try discriminate.
  destruct (waited e); [|discriminate]. unfold ask_ending in Ht. cbn in Ht.
  destruct (ending s (asked_ending s)); [discriminate|]. unfold fell_silent, mthen, mget in Ht. cbn in Ht.
  destruct (silence s); unfold now, mthen, mret in Ht; cbn in Ht; [destruct (_ <? _) in Ht|]; try discriminate;
    injection Ht as <-; cbn; lia.
Qed.

Lemma read_unfold n s :
  read n s = match read_turn n tt s with
             | (Ok (inl x), s') => read n s'
             | (Ok (inr a), s') => (Ok a, s')
             | (Err e, s') => (Err e, s')
             end.
Proof.
  unfold read. rewrite (loop_turn (read_turn n) measure aborted (fun _ => True)) by (done || apply goes_round).
  by destruct (read_turn n tt s) as [[[[]|]|] s'].
Qed.

(** The state after [k] reads that only waited. *)
Definition after_waits (k : nat) (w : Wire) (s : Watched) : Watched :=
  mkWatched w (ending s) (asked_ending s + k) (silence s) (heard s) (clock s)
    (looks s + match silence s with Some _ => k | None => 0 end).

(** Neither stopped nor taken for silent by the [i]th of the waits to come. *)
Definition goes_on (s : Watched) (i : nat) : Prop :=
  ending s (asked_ending s + i) = false
  /\ match silence s with Some most => clock s (looks s + i) - heard s <= most /\ 0 <= most | None => True end.

Lemma turn_waits n e rest s : incoming (reading s) = Failed e :: rest -> waited e = true -> goes_on s 0 ->
  read_turn n tt s = (Ok (inl tt), after_waits 1 (mkWire rest (outgoing (reading s)) (refusals (reading s))) s).
Proof.
  destruct s as [[i o r] en a sil h c l]. intros Hin He [Hend Hsil]. cbn in Hin, Hend, Hsil.
  subst i. rewrite Nat.add_0_r in Hend, Hsil.
  unfold read_turn, fell_silent, ask_ending, now, mthen, mget, mset, mret, after_waits.
  cbn [read1 incoming outgoing refusals reading]. rewrite He. cbn. rewrite Hend, Nat.add_1_r.
  destruct sil as [most|]; cbn; [|by rewrite Nat.add_0_r].
  destruct (Z.ltb_spec most (Z.max 0 (c l - h))); [lia|]. by rewrite Nat.add_1_r.
Qed.

Lemma after_waits_more k w w' s : after_waits k w' (after_waits 1 w s) = after_waits (S k) w' s.
Proof. unfold after_waits. cbn. f_equal; destruct (silence s); lia. Qed.

Lemma read_waits n waits : forall rest s,
  incoming (reading s) = map Failed waits ++ rest ->
  Forall (fun e => waited e = true) waits -> (forall i, (i < length waits)%nat -> goes_on s i) ->
  read n s = read n (after_waits (length waits) (mkWire rest (outgoing (reading s)) (refusals (reading s))) s).
Proof.
  induction waits as [|e waits IH]; intros rest s Hin Hw Hgo.
  - unfold after_waits. cbn in Hin. subst rest. destruct s as [[i o r] ? ? [] ? ? ?]; cbn -[read]; by rewrite !Nat.add_0_r.
  - apply Forall_cons in Hw as [He Hw]. rewrite read_unfold.
    rewrite (turn_waits n e (map Failed waits ++ rest)) by (done || apply Hgo; cbn; lia).
    rewrite (IH rest); [by rewrite after_waits_more|done|done|].
    intros i Hi. destruct (Hgo (S i) ltac:(cbn; lia)) as [H1 H2]. split; cbn.
    + by replace (asked_ending s + 1 + i)%nat with (asked_ending s + S i)%nat by lia.
    + destruct (silence s); [|done]. by replace (looks s + 1 + i)%nat with (looks s + S i)%nat by lia.
Qed.

(** However long a read has waited, nothing come is lost by it: what comes
    after the waits is read as the connection alone would read it. *)
Lemma read_after_waits n waits rest s :
  incoming (reading s) = map Failed waits ++ rest ->
  Forall (fun e => waited e = true) waits -> (forall i, (i < length waits)%nat -> goes_on s i) ->
  let w := mkWire rest (outgoing (reading s)) (refusals (reading s)) in
  (forall e, (read1 n w).1 = Err e -> waited e = false) ->
  (read n s).1 = (read1 n w).1 /\ reading (read n s).2 = (read1 n w).2.
Proof.
  intros Hin Hw Hgo w Hrest. rewrite (read_waits n waits rest s Hin Hw Hgo), read_unfold. fold w.
  unfold read_turn, now, mthen, mget, mset, mret, mfail. cbn [reading after_waits].
  destruct (read1 n w) as [[bs|e] w']; [done|]. by rewrite (Hrest e eq_refl).
Qed.

(** The turn a stop, or a silence, ends the read on. *)
Lemma turn_ends n e rest s : incoming (reading s) = Failed e :: rest -> waited e = true ->
  (ending s (asked_ending s) = true -> (read_turn n tt s).1 = Err aborted)
  /\ (forall most, ending s (asked_ending s) = false -> silence s = Some most -> 0 <= most < clock s (looks s) - heard s ->
        (read_turn n tt s).1 = Err peer_silent)
  /\ incoming (reading (read_turn n tt s).2) = rest.
Proof.
  destruct s as [[i o r] en a sil h c l]. intros Hin He. cbn in Hin. subst i.
  unfold read_turn, fell_silent, ask_ending, now, mthen, mget, mset, mret, mfail.
  cbn [read1 incoming outgoing refusals reading]. rewrite He. cbn. split_and!.
  - by intros ->.
  - intros most -> -> Hs. cbn. by destruct (Z.ltb_spec most (Z.max 0 (c l - h))); [|lia].
  - destruct (en a); [done|]. destruct sil; cbn; [by destruct (_ <? _)|done].
Qed.

(** C31. A stop reaches a read blocked on its peer at the next of its waits,
    however many it would still have waited; so does a peer's silence; and a
    read neither stopped nor met with silence loses nothing to its waits: it
    reads what the connection alone would have read. *)
Theorem stop_reaches_a_blocked_read n waits rest s i :
  incoming (reading s) = map Failed waits ++ rest -> Forall (fun e => waited e = true) waits ->
  (i <= length waits)%nat -> (forall j, (j < i)%nat -> goes_on s j) ->
  let left := map Failed (drop (S i) waits) ++ rest in
  ((i < length waits)%nat -> ending s (asked_ending s + i) = true ->
     (read n s).1 = Err aborted /\ incoming (reading (read n s).2) = left)
  /\ (forall most, (i < length waits)%nat -> ending s (asked_ending s + i) = false -> silence s = Some most ->
        0 <= most < clock s (looks s + i) - heard s ->
        (read n s).1 = Err peer_silent /\ incoming (reading (read n s).2) = left)
  /\ (i = length waits -> let w := mkWire rest (outgoing (reading s)) (refusals (reading s)) in
        (forall e, (read1 n w).1 = Err e -> waited e = false) ->
        (read n s).1 = (read1 n w).1 /\ reading (read n s).2 = (read1 n w).2).
Proof.
  intros Hin Hw Hi Hgo left.
  assert ((i < length waits)%nat -> exists e s', waited e = true /\ incoming (reading s') = Failed e :: left /\ read n s = read n s'
    /\ s' = after_waits i (reading s') s) as Hblocked.
  { intros Hlt. destruct (lookup_lt_is_Some_2 waits i Hlt) as [e He]. exists e.
    rewrite <- (take_drop_middle waits i e He), map_app, <- app_assoc in Hin. cbn [map] in Hin.
    pose proof (read_waits n (take i waits) _ s Hin) as Hr. rewrite length_take, Nat.min_l in Hr by lia.
    eexists. split_and!; [| |apply Hr; [by apply Forall_take | exact Hgo]|by unfold after_waits].
    - rewrite Forall_forall in Hw. apply Hw. by apply list_elem_of_lookup_2 in He.
    - done. }
  assert (forall e s' err, incoming (reading s') = Failed e :: left -> (read_turn n tt s').1 = Err err ->
    incoming (reading (read_turn n tt s').2) = left -> (read n s').1 = Err err /\ incoming (reading (read n s').2) = left) as Hend.
  { intros e s' err _ Herr Hleft. rewrite read_unfold. destruct (read_turn n tt s') as [[[?|?]|?] s'']; cbn in *; by simplify_eq. }
  split_and!.
  - intros Hlt Hstop. destruct (Hblocked Hlt) as (e & s' & He & Hs' & -> & Heq). destruct (turn_ends n e left s' Hs' He) as (H1 & _ & H3).
    eapply Hend; [exact Hs'|apply H1|exact H3]. rewrite Heq. exact Hstop.
  - intros most Hlt Hno Hsil Hover. destruct (Hblocked Hlt) as (e & s' & He & Hs' & -> & Heq).
    destruct (turn_ends n e left s' Hs' He) as (_ & H2 & H3). eapply Hend; [exact Hs'|apply (H2 most)|exact H3];
      rewrite Heq; [exact Hno|exact Hsil|]. cbn. by rewrite Hsil.
  - intros -> w Hrest. by apply (read_after_waits n waits).
Qed.

Definition would_block : IoError := mkIoError WouldBlock (lit "would block").

Lemma stop_reaches_a_blocked_read_witness :
  let s := new (mkWire (map Failed (replicate 9 would_block) ++ [Got (lit "abc")]) [] []) (fun i => (2 <=? i)%nat) (fun _ => 0) in
  (read 8 s).1 = Err aborted /\ incoming (reading (read 8 s).2) = map Failed (replicate 6 would_block) ++ [Got (lit "abc")].
Proof.
  intros s. apply (stop_reaches_a_blocked_read 8 (replicate 9 would_block) [Got (lit "abc")] s 2); [done| |cbn; lia| |cbn; lia|done].
  - apply Forall_replicate. done.
  - intros [|[|j]] Hj; [by split..|lia].
Defined.

Example waited_and_read :
  (read 8 (new (mkWire (map Failed (replicate 3 would_block) ++ [Got (lit "abc")]) [] []) (fun _ => false) (fun _ => 0))).1
  = Ok (lit "abc").
Proof. vm_compute. done. Qed.
End Watched.

(** ** [connect] *)

(** A connection opened, and the options set on it. *)
Record TcpStream : Type := mkTcpStream {
  peer : SocketAddr;
  read_timeout : option Z;
  write_timeout : option Z;
  nodelay : bool;
}.

(** An attempt at an address: when it was made, and how long it was given. *)
Record Attempt : Type := mkAttempt { to : SocketAddr; made_at : Z; bound : option Z }.

(** The system connects, sets options and tells the time: what each attempt,
    each option set and each look at the clock is answered, and what was
    attempted. *)
Record Sockets : Type := mkSockets {
  refuses : nat -> option IoError;
  attempts : list Attempt;
  unset : nat -> option IoError;
  options : nat;
  ticks : nat -> Z;
  looked : nat;
}.

Module Connect.

Definition now : M Sockets NetError Z := fun s =>
  (Ok (ticks s (looked s)), mkSockets (refuses s) (attempts s) (unset s) (options s) (ticks s) (S (looked s))).

(** The last time the clock told. *)
Definition lately (s : Sockets) : Z := ticks s (pred (looked s)).

(** [TcpStream::connect], and [connect_timeout] where a bound is given. *)
Definition attempt (address : SocketAddr) (bound : option Z) : M Sockets NetError (option IoError) := fun s =>
  (Ok (refuses s (length (attempts s))),
   mkSockets (refuses s) (attempts s ++ [mkAttempt address (lately s) bound]) (unset s) (options s) (ticks s) (looked s)).

(** One of [set_read_timeout], [set_write_timeout] and [set_nodelay]. *)
Definition set_option : M Sockets IoError unit := fun s =>
  (match unset s (options s) with None => Ok tt | Some failed => Err failed end,
   mkSockets (refuses s) (attempts s) (unset s) (S (options s)) (ticks s) (looked s)).

(** How long the next attempt has: [None] where there is no time left for it. *)
Definition time_left (deadline : option Z) : M Sockets NetError (option (option Z)) :=
  match deadline with
  | None => mret (Some None)
  | Some deadline => at_ <~ now ;; mret (if at_ <? deadline then Some (Some (deadline - at_)) else None)
  end.

(** The loop over the addresses: the one that accepted, or the last failure. *)
Fixpoint try_each (addresses : list SocketAddr) (deadline : option Z) (last : option IoError) :
    M Sockets NetError (SocketAddr + option IoError) :=
  match addresses with
  | [] => mret (inr last)
  | address :: addresses =>
      room <~ time_left deadline ;;
      match room with
      | None => mret (inr last)
      | Some room =>
          answer <~ attempt address room ;;
          match answer with
          | None => mret (inl address)
          | Some failed => try_each addresses deadline (Some failed)
          end
      end
  end.

Definition timed_out : IoError := mkIoError TimedOut (lit "timed out").

Definition not_connected (addresses : list SocketAddr) (last : option IoError) : NetError :=
  match last, addresses with
  | _, [] => NetErr.new (lit "the peer's name resolves to no address")
  | Some failed, _ => NetErr.from_io (lit "connecting to the peer") failed
  | None, _ => NetErr.from_io (lit "connecting to the peer") timed_out
  end.

(** [resolved] is what [to_socket_addrs] of the target answers. *)
Definition connect (resolved : result IoError (list SocketAddr)) (timeout : option Z) : M Sockets NetError TcpStream :=
  addresses <~ mlift (map_err (NetErr.from_io (lit "resolving the peer")) resolved) ;;
  deadline <~ match timeout with None => mret None | Some within => at_ <~ now ;; mret (Some (at_ + within)) end ;;
  answer <~ try_each addresses deadline None ;;
  match answer with
  | inl peer =>
      mmap_err (NetErr.from_io (lit "setting the timeouts")) (set_option ;;; set_option ;;; set_option) ;;;
      mret (mkTcpStream peer timeout timeout true)
  | inr last => mfail (not_connected addresses last)
  end.

(** ** One deadline for all of the addresses *)

(** An attempt is made before the deadline and given what is left to it. *)
Definition timely (deadline : option Z) (t : Attempt) : Prop :=
  match deadline with
  | None => bound t = None
  | Some deadline => made_at t < deadline /\ bound t = Some (deadline - made_at t)
  end.

(** The first [k] attempts of those made from [s] on were refused. *)
Definition refused (s : Sockets) (k : nat) : Prop :=
  forall j, (j < k)%nat -> refuses s (length (attempts s) + j) <> None.

(** The clock has told a time past the deadline. *)
Definition too_late (deadline : option Z) (s : Sockets) : Prop :=
  match deadline with Some deadline => deadline <= lately s | None => False end.

Definition same_system (s s' : Sockets) : Prop :=
  refuses s' = refuses s /\ ticks s' = ticks s /\ unset s' = unset s /\ options s' = options s.

Lemma time_left_spec deadline s room s' : time_left deadline s = (room, s') ->
  attempts s' = attempts s /\ same_system s s'
  /\ match room with
     | Ok (Some room) => forall a, timely deadline (mkAttempt a (lately s') room)
     | Ok None => too_late deadline s'
     | Err _ => False
     end.
Proof.
  unfold time_left, same_system, lately. destruct deadline as [d|]; unfold now, mthen, mret; intros [= <- <-]; cbn; [|done].
  destruct (Z.ltb_spec (ticks s (looked s)) d); cbn; done.
Qed.

Lemma try_each_spec addresses deadline : forall last s r s',
  try_each addresses deadline last s = (r, s') ->
  exists tried, attempts s' = attempts s ++ tried /\ same_system s s' /\ map to tried `prefix_of` addresses
    /\ Forall (timely deadline) tried
    /\ match r with
       | Ok (inl a) => exists k, length tried = S k /\ refused s k /\ refuses s (length (attempts s) + k) = None
                       /\ addresses !! k = Some a
       | Ok (inr failed) => refused s (length tried)
                       /\ failed = match tried with [] => last | _ => refuses s (length (attempts s) + pred (length tried)) end
                       /\ (length tried = length addresses \/ too_late deadline s')
       | Err _ => False
       end.
Proof.
  induction addresses as [|address addresses IH]; intros last s r s'; cbn [try_each].
  - unfold mret. intros [= <- <-]. exists []. rewrite app_nil_r. unfold refused. split_and!; try done; [cbn; intros; lia|by left].
  - unfold mthen at 1. destruct (time_left deadline s) as [room s1] eqn:Hl. apply time_left_spec in Hl as (Ha1 & Hsys1 & Hl).
    destruct room as [[room|]|]; [| |done].
    2:{ unfold mret. intros [= <- <-]. exists []. rewrite app_nil_r. unfold refused.
        split_and!; try done; [apply prefix_nil | intros; cbn in *; lia | by right]. }
    unfold mthen, attempt. set (s2 := mkSockets (refuses s1) (attempts s1 ++ [mkAttempt address (lately s1) room])
      (unset s1) (options s1) (ticks s1) (looked s1)).
    destruct Hsys1 as (Hr1 & Hc1 & Hu1 & Ho1). rewrite Ha1, Hr1.
    destruct (refuses s (length (attempts s))) as [failed|] eqn:Hrefuse; cbn beta iota.
    + intros H. apply IH in H as (tried & Ha & Hsys & Hpre & Htime & Hres).
      exists (mkAttempt address (lately s1) room :: tried).
      assert (attempts s2 = attempts s ++ [mkAttempt address (lately s1) room]) as Ha2 by (subst s2; cbn; by rewrite Ha1).
      assert (forall j, refuses s2 (length (attempts s2) + j) = refuses s (length (attempts s) + S j)) as Hshift.
      { intros j. rewrite Ha2, length_app. subst s2. cbn [refuses length]. rewrite Hr1. f_equal. lia. }
      assert (forall k, refused s2 k -> refused s (S k)) as Hrefs.
      { intros k Hk [|j] Hj; [rewrite Nat.add_0_r, Hrefuse; done|]. rewrite <- Hshift. apply Hk. lia. }
      split_and!.
      * rewrite Ha, Ha2, <- app_assoc. done.
      * destruct Hsys as (?&?&?&?). subst s2. cbn in *. unfold same_system. split_and!; congruence.
      * cbn. by apply prefix_cons.
      * constructor; [apply Hl|done].
      * destruct r as [[a|failed']|]; [| |done].
        -- destruct Hres as (k & Hk & Href & Hacc & Hat). exists (S k). rewrite Hshift in Hacc. cbn. split_and!; [by rewrite Hk|by apply Hrefs|done|done].
        -- destruct Hres as (Href & -> & Hend). cbn [length]. split_and!; [by apply Hrefs| |by destruct Hend as [->|]; [left|right]].
           destruct tried; cbn [length pred]; [by rewrite Nat.add_0_r, Hrefuse|]. by rewrite Hshift.
    + unfold mret. intros [= <- <-]. exists [mkAttempt address (lately s1) room]. subst s2. cbn.
      split_and!; try done; [by rewrite Ha1| |by apply Forall_cons_2|].
      * apply prefix_cons, prefix_nil.
      * exists 0%nat. rewrite Nat.add_0_r. unfold refused. split_and!; try done. intros; lia.
Qed.

Definition deadline_of (timeout : option Z) (s : Sockets) : option Z :=
  (fun within => ticks s (looked s) + within) <$> timeout.

(** An option of the stream was not set. *)
Definition not_set (s : Sockets) (e : NetError) : Prop :=
  exists k failed, unset s k = Some failed /\ e = NetErr.from_io (lit "setting the timeouts") failed.

Lemma set_options_spec s r s' : (set_option ;;; set_option ;;; set_option) s = (r, s') ->
  attempts s' = attempts s /\ match r with Ok _ => True | Err e => exists k, unset s k = Some e end.
Proof.
  unfold mthen, set_option. cbn.
  destruct (unset s (options s)) as [e|] eqn:H1; [intros [= <- <-]; split; [done|by eexists]|].
  cbn. destruct (unset s (S (options s))) as [e|] eqn:H2; [intros [= <- <-]; split; [done|by eexists]|].
  cbn. destruct (unset s (S (S (options s)))) as [e|] eqn:H3; intros [= <- <-]; split; try done. by eexists.
Qed.


Definition here : SocketAddr := mkSocketAddr Ip.V6_LOCALHOST 7.
Definition there : SocketAddr := mkSocketAddr Ip.V4_LOCALHOST 7.
Definition connection_refused : IoError := mkIoError (OtherKind 111) (lit "connection refused").

Example every_address_is_tried :
  let s := mkSockets (fun k => if (k =? 0)%nat then Some connection_refused else None) [] (fun _ => None) 0 (fun k => 3 * Z.of_nat k) 0 in
  (connect (Ok [here; there]) (Some 10) s).1 = Ok (mkTcpStream there (Some 10) (Some 10) true)
  /\ attempts (connect (Ok [here; there]) (Some 10) s).2 = [mkAttempt here 3 (Some 7); mkAttempt there 6 (Some 4)]
  /\ (connect (Ok [here; there]) (Some 2) s).1 = Err (NetErr.from_io (lit "connecting to the peer") timed_out)
  /\ (connect (Ok []) None s).1 = Err (NetErr.new (lit "the peer's name resolves to no address")).
Proof. vm_compute. done. Qed.
End Connect.

(** ** [woken] *)

(** A connection that waits for the listener's accept: one of the stop's own
    knocks, or anyone's. *)
Inductive Connection : Type := Knock | Stranger.

(** What a knock comes to: a connection that waits for the accept, one given
    up before it was accepted, or none. *)
Inductive Knocked : Type := Landed | Lost | Refused.

(** Where the caller of [woken] is: at the test of its outer loop, knocking,
    setting how long the knock is given, asleep, at the two tests of its inner
    loop, joining, and back with what [join] returned. *)
Inductive Caller (T : Type) : Type :=
| Looking
| Knocking
| Timing (heard : bool)
| Sleeping (until : Z)
| Awake (until : Z)
| Watching (until : Z)
| Joining
| Returned (joined : result bytes T).

(** Where the thread that accepts is: busy for some turns yet, in its accept,
    which waits for a connection, or ended with what it returned, a panic an
    error. The stop was set before [woken] was called, so a thread whose accept
    comes back ends. *)
Inductive Thread (T : Type) : Type :=
| Busy (turns : nat)
| Accepting
| Ended (returned : result bytes T).

(** The caller, the thread, the connections that wait, how many knocks came
    to nothing, the knocks made, the newest first, with when each was made and
    whether it connected, and the clock. *)
Record Stop (T : Type) : Type := mkStop {
  caller : Caller T;
  thread : Thread T;
  backlog : list Connection;
  lost : nat;
  knocks : list (Z * bool);
  clock_now : Z;
}.
Arguments Looking {T}. Arguments Knocking {T}. Arguments Timing {T}. Arguments Sleeping {T}.
Arguments Awake {T}. Arguments Watching {T}. Arguments Joining {T}. Arguments Returned {T}.
Arguments Busy {T}. Arguments Accepting {T}. Arguments Ended {T}.
Arguments mkStop {T}. Arguments caller {T}. Arguments thread {T}. Arguments backlog {T}.
Arguments lost {T}. Arguments knocks {T}. Arguments clock_now {T}.

Module Woken.

(** [knock]: whether a connection was made in time. *)
Definition knock (address : SocketAddr) (patience : Z) : M Sockets bytes bool := fun s =>
  let '(r, s) := Connect.connect (Ok [wakeable address]) (Some patience) s in
  (Ok match r with Ok _ => true | Err _ => false end, s).

Section woken.
Context {T : Type} (patience : Z).

Definition with_caller (c : Caller T) (w : Stop T) : Stop T :=
  mkStop c (thread w) (backlog w) (lost w) (knocks w) (clock_now w).
Definition with_thread (t : Thread T) (w : Stop T) : Stop T :=
  mkStop (caller w) t (backlog w) (lost w) (knocks w) (clock_now w).
Definition with_backlog (b : list Connection) (lost : nat) (w : Stop T) : Stop T :=
  mkStop (caller w) (thread w) b lost (knocks w) (clock_now w).

(** [JoinHandle::is_finished]. *)
Definition is_finished (w : Stop T) : bool := match thread w with Ended _ => true | _ => false end.

(** What the [knock] handed to [woken] does, coming to [k]; whether it
    connected. *)
Definition knocked (k : Knocked) (w : Stop T) : bool * Stop T :=
  let heard := match k with Refused => false | _ => true end in
  let w := match k with
           | Landed => with_backlog (backlog w ++ [Knock]) (lost w) w
           | _ => with_backlog (backlog w) (S (lost w)) w
           end in
  (heard, mkStop (caller w) (thread w) (backlog w) (lost w) ((clock_now w, heard) :: knocks w) (clock_now w)).

(** The next thing the caller does. A [join] of a thread that runs waits. *)
Definition woken_turn (k : Knocked) (w : Stop T) : Stop T :=
  match caller w with
  | Looking => with_caller (if is_finished w then Joining else Knocking) w
  | Knocking => let '(heard, w) := knocked k w in with_caller (Timing heard) w
  | Timing heard => with_caller (Sleeping (clock_now w + if heard then patience else 0)) w
  | Sleeping until => with_caller (Awake until) w
  | Awake until => with_caller (if is_finished w then Looking else Watching until) w
  | Watching until => with_caller (if until <=? clock_now w then Looking else Sleeping until) w
  | Joining => match thread w with Ended r => with_caller (Returned r) w | _ => w end
  | Returned _ => w
  end.

(** What the thread does next, that will return [r]: its accept takes the
    connection that came first, and waits where none did. *)
Definition thread_turn (r : result bytes T) (w : Stop T) : Stop T :=
  match thread w with
  | Busy (S turns) => with_thread (Busy turns) w
  | Busy O => with_thread Accepting w
  | Accepting => match backlog w with [] => w | _ :: rest => with_thread (Ended r) (with_backlog rest (lost w) w) end
  | Ended _ => w
  end.

(** Who does something next: the caller, whose knock comes to [k] where it
    knocks; the thread; its accept, which fails; someone else, who connects;
    the [i]th that waits, which is given up; and the clock. *)
Inductive Actor : Type :=
| Calls (k : Knocked)
| Accepts (r : result bytes T)
| Fails (r : result bytes T)
| Comes
| GivesUp (i : nat)
| Ticks (by_ : nat).

Definition turn (a : Actor) (w : Stop T) : Stop T :=
  match a with
  | Calls k => woken_turn k w
  | Accepts r => thread_turn r w
  | Fails r => match thread w with Accepting => with_thread (Ended r) w | _ => w end
  | Comes => with_backlog (backlog w ++ [Stranger]) (lost w) w
  | GivesUp i =>
      match backlog w !! i with
      | Some Knock => with_backlog (delete i (backlog w)) (S (lost w)) w
      | Some Stranger => with_backlog (delete i (backlog w)) (lost w) w
      | None => w
      end
  | Ticks by_ => mkStop (caller w) (thread w) (backlog w) (lost w) (knocks w) (clock_now w + Z.of_nat by_)
  end.

(** [woken] called on a thread, as its listener is then. *)
Definition woken (accepting : Thread T) (waiting : nat) (clock : Z) : Stop T :=
  mkStop Looking accepting (replicate waiting Stranger) 0 [] clock.

(** The first [n] turns of a schedule. *)
Fixpoint after (schedule : nat -> Actor) (w : Stop T) (n : nat) : Stop T :=
  match n with
  | O => w
  | S n => turn (schedule n) (after schedule w n)
  end.

Record fair (schedule : nat -> Actor) (w : Stop T) : Prop := {
  calls_on : forall n, exists m k, (n <= m)%nat /\ schedule m = Calls k;
  accepts_on : forall n, exists m r, (n <= m)%nat /\ schedule m = Accepts r;
  time_passes : forall t, exists n, t <= clock_now (after schedule w n);
}.

(** ** Every stop is heard *)

(** A knock that connected is given [patience] before the next. *)
Fixpoint spaced (ks : list (Z * bool)) : Prop :=
  match ks with
  | (later, _) :: (((at_, heard) :: _) as ks) => at_ + (if heard then patience else 0) <= later /\ spaced ks
  | _ => True
  end.

Definition given (w : Stop T) (until : Z) : Prop :=
  match knocks w with (at_, heard) :: _ => at_ + (if heard then patience else 0) <= until | [] => True end.

(** What holds of the caller where it is. *)
Definition placed (w : Stop T) : Prop :=
  match caller w with
  | Looking => is_finished w = true \/ given w (clock_now w)
  | Knocking => given w (clock_now w)
  | Timing heard => exists at_ ks, knocks w = (at_, heard) :: ks /\ at_ <= clock_now w
  | Sleeping until | Awake until | Watching until => given w until
  | Joining => is_finished w = true
  | Returned r => thread w = Ended r
  end.

Definition sound (w : Stop T) : Prop := placed w /\ spaced (knocks w).

Lemma sound_woken accepting waiting clock : sound (woken accepting waiting clock).
Proof. split; [by right|done]. Qed.

Lemma sound_caller k w : sound w -> sound (woken_turn k w).
Proof.
  intros [Hp Hs]. unfold sound, placed in *. unfold woken_turn. destruct (caller w) as [| |heard|until|until|until| |r] eqn:Hc; cbn.
  - destruct (is_finished w) eqn:Hf; cbn; [done|]. by destruct Hp.
  - unfold knocked, given in *. destruct k; cbn; (split; [by eexists _, _|]); by destruct (knocks w) as [|[] ?].
  - destruct Hp as (at_ & ks & Hk & Hle). unfold given. cbn. rewrite Hk in *. split; [destruct heard; lia|done].
  - done.
  - destruct (is_finished w) eqn:Hf; cbn; (split; [|done]); [by left|done].
  - destruct (Z.leb_spec until (clock_now w)) as [Hle|Hlt]; cbn; (split; [|done]); [|done].
    right. unfold given in *. cbn. destruct (knocks w) as [|[] ?]; [done|lia].
  - unfold is_finished in Hp. destruct (thread w) eqn:Ht; cbn; rewrite ?Hc; cbn; rewrite ?Ht; try done.
  - by rewrite Hc.
Qed.

(** What the others do of it: they leave the caller where it is and its knocks
    as they were, the clock no earlier and an ended thread ended. *)
Lemma others_leave a w : (forall k, a <> Calls k) ->
  caller (turn a w) = caller w /\ knocks (turn a w) = knocks w /\ clock_now w <= clock_now (turn a w)
  /\ (forall r, thread w = Ended r -> thread (turn a w) = Ended r).
Proof.
  intros Ha. destruct a as [k|r|r| |i|by_]; [by destruct (Ha k)|..]; cbn; unfold thread_turn; repeat case_match; cbn;
    (split_and!; [done|done|lia|congruence]).
Qed.

Lemma sound_left w w' : sound w -> caller w' = caller w -> knocks w' = knocks w -> clock_now w <= clock_now w' ->
  (forall r, thread w = Ended r -> thread w' = Ended r) -> sound w'.
Proof.
  intros [Hp Hs] Hc Hk Ht He. split; [|by rewrite Hk].
  assert (is_finished w = true -> is_finished w' = true) as Hf.
  { unfold is_finished. destruct (thread w) as [| |r] eqn:Htw; [done..|]. by rewrite (He r eq_refl). }
  unfold placed, given in *. rewrite Hc, Hk. destruct (caller w); auto.
  - destruct Hp as [Hp|Hp]; [by left; apply Hf|right]. destruct (knocks w) as [|[] ?]; [done|lia].
  - destruct (knocks w) as [|[] ?]; [done|lia].
  - destruct Hp as (at_ & ks & ? & ?). exists at_, ks. split; [done|lia].
Qed.

Lemma sound_turn a w : sound w -> sound (turn a w).
Proof.
  intros Hw. destruct a as [k|r|r| |i|by_]; [by apply sound_caller|..];
    (match goal with |- sound (turn ?a w) => destruct (others_leave a w) as (? & ? & ? & ?); [done|by apply (sound_left w)] end).
Qed.

(** What no turn takes back. *)
Definition grown (w w' : Stop T) : Prop :=
  clock_now w <= clock_now w' /\ (lost w <= lost w')%nat /\ (is_finished w = true -> is_finished w' = true).

Lemma grown_turn a w : grown w (turn a w).
Proof.
  unfold grown. destruct a as [k|r|r| |i|by_]; cbn; unfold woken_turn, thread_turn, knocked, is_finished;
    repeat case_match; cbn in *; simplify_eq; split_and!; (lia || congruence || done).
Qed.

(** ** A fair schedule *)
Section schedule.
Context (schedule : nat -> Actor) (w : Stop T) (Hfair : fair schedule w) (Hsound : sound w).

Local Abbreviation at_turn := (after schedule w).

Lemma sound_at n : sound (at_turn n).
Proof. induction n as [|n IH]; [done|]. by apply sound_turn. Qed.

Lemma grown_at n m : (n <= m)%nat -> grown (at_turn n) (at_turn m).
Proof.
  induction 1 as [|m _ (H1 & H2 & H3)]; [by split_and!|]. destruct (grown_turn (schedule m) (at_turn m)) as (H4 & H5 & H6). cbn.
  unfold grown. split_and!; [lia|lia|auto].
Qed.

(** The caller is where it was when its next turn comes. *)
Lemma next_call n : exists m k, (n <= m)%nat /\ schedule m = Calls k /\ caller (at_turn m) = caller (at_turn n).
Proof.
  destruct (calls_on _ _ Hfair n) as (m & k & Hnm & Hm). remember (m - n)%nat as d eqn:Hd.
  revert n Hnm Hd. induction d as [|d IH]; intros n Hnm Hd.
  - assert (m = n) as -> by lia. by exists n, k.
  - destruct (schedule n) as [k'|r|r| |i|by_] eqn:Hn; [by exists n, k'|..];
      (destruct (IH (S n) ltac:(lia) ltac:(lia)) as (m' & k' & Hle & Hs & Hc); exists m', k'; split_and!; [lia|done|];
       rewrite Hc; cbn; rewrite Hn; by apply others_leave).
Qed.

(** The rest of the turns of one that is there. *)
Definition rank (c : Caller T) : nat :=
  match c with
  | Returned _ => 0
  | Joining => 1
  | Looking => 2
  | Awake _ => 3
  | Sleeping _ => 4
  | Watching _ | Timing _ => 5
  | Knocking => 6
  end.

(** Once the thread has ended, its stop is back with what it returned. *)
Lemma ended_is_returned n : is_finished (at_turn n) = true -> exists m r, caller (at_turn m) = Returned r.
Proof.
  remember (rank (caller (at_turn n))) as d eqn:Hd. revert n Hd.
  induction d as [d IH] using (well_founded_induction lt_wf). intros n -> Hf.
  destruct (next_call n) as (m & k & Hnm & Hm & Hc).
  pose proof (proj2 (proj2 (grown_at n m Hnm)) Hf) as Hfm. pose proof (proj2 (proj2 (grown_at n (S m) ltac:(lia))) Hf) as HfS.
  assert (at_turn (S m) = woken_turn k (at_turn m)) as Hstep by (cbn; by rewrite Hm).
  destruct (caller (at_turn n)) as [| |heard|until|until|until| |r] eqn:Hcn; [..|by exists n, r];
    (eapply (IH _); [|done|exact HfS]); rewrite Hstep; unfold woken_turn; rewrite Hc, ?Hfm; cbn; try lia.
  - destruct (_ <=? _); cbn; lia.
  - unfold is_finished in Hfm. destruct (thread (at_turn m)); [done..|cbn; lia].
Qed.

Definition asleep (c : Caller T) (until : Z) : option nat :=
  match c with
  | Sleeping u => if u =? until then Some 2%nat else None
  | Awake u => if u =? until then Some 1%nat else None
  | Watching u => if u =? until then Some 0%nat else None
  | _ => None
  end.

(** A wait ends, the thread's end or the clock ending it. *)
Lemma wait_ends until M : until <= clock_now (at_turn M) ->
  forall d n left_, asleep (caller (at_turn n)) until = Some left_ -> d = (3 * (M - n) + left_)%nat ->
  exists m, (n <= m)%nat /\ (is_finished (at_turn m) = true \/ caller (at_turn m) = Looking).
Proof.
  intros HM d. induction d as [d IH] using (well_founded_induction lt_wf). intros n left_ Hl ->.
  destruct (next_call n) as (m & k & Hnm & Hm & Hc).
  assert (at_turn (S m) = woken_turn k (at_turn m)) as Hstep by (cbn; by rewrite Hm).
  assert (forall left', asleep (caller (at_turn (S m))) until = Some left' -> (3 * (M - S m) + left' < 3 * (M - n) + left_)%nat ->
    exists m, (n <= m)%nat /\ (is_finished (at_turn m) = true \/ caller (at_turn m) = Looking)) as Hgo.
  { intros left' Hl' Hlt. destruct (IH _ Hlt (S m) left' Hl' eq_refl) as (m' & Hle & H). exists m'. split; [lia|done]. }
  rewrite Hstep in Hgo. unfold woken_turn in Hgo, Hstep. rewrite Hc in Hgo, Hstep.
  destruct (caller (at_turn n)) as [| |heard|u|u|u| |r] eqn:Hcn; try done; cbn in Hl, Hgo;
    destruct (Z.eqb_spec u until) as [->|]; try done; injection Hl as <-.
  - apply (Hgo 1%nat); [by rewrite ?Z.eqb_refl|lia].
  - destruct (is_finished (at_turn m)) eqn:Hf; [exists m; by split; [lia|left]|]. cbn in Hgo. apply (Hgo 0%nat); [by rewrite ?Z.eqb_refl|lia].
  - destruct (Z.leb_spec until (clock_now (at_turn m))) as [Hle|Hlt].
    + exists (S m). split; [lia|right]. by rewrite Hstep.
    + cbn in Hgo. apply (Hgo 2%nat); [by rewrite ?Z.eqb_refl|].
      assert (~ (M <= m)%nat) by (intros HMm; destruct (grown_at M m HMm) as (? & _); lia). lia.
Qed.

(** The caller knocks again and again until the thread has ended. *)
Lemma knocks_again n : exists m, (n <= m)%nat
  /\ (is_finished (at_turn m) = true \/ exists k, schedule m = Calls k /\ caller (at_turn m) = Knocking).
Proof.
  assert (forall n, caller (at_turn n) = Knocking -> exists m, (n <= m)%nat
    /\ (is_finished (at_turn m) = true \/ exists k, schedule m = Calls k /\ caller (at_turn m) = Knocking)) as Hknock.
  { intros i Hi. destruct (next_call i) as (m & k & Him & Hm & Hc). exists m. split; [done|right]. exists k. by rewrite Hc. }
  assert (forall n, caller (at_turn n) = Looking -> exists m, (n <= m)%nat
    /\ (is_finished (at_turn m) = true \/ exists k, schedule m = Calls k /\ caller (at_turn m) = Knocking)) as Hlook.
  { intros i Hi. destruct (next_call i) as (m & k & Him & Hm & Hc). destruct (is_finished (at_turn m)) eqn:Hf; [exists m; by split; [|left]|].
    destruct (Hknock (S m)) as (m' & Hle & H); [|exists m'; split; [lia|done]]. cbn. rewrite Hm. cbn. unfold woken_turn. by rewrite Hc, Hi, Hf. }
  assert (forall n until left_, asleep (caller (at_turn n)) until = Some left_ -> exists m, (n <= m)%nat
    /\ (is_finished (at_turn m) = true \/ exists k, schedule m = Calls k /\ caller (at_turn m) = Knocking)) as Hsleep.
  { intros i until left_ Hl. destruct (time_passes _ _ Hfair until) as [M HM].
    destruct (wait_ends until M HM _ i left_ Hl eq_refl) as (m & Him & [Hf|Hm]); [exists m; by split; [|left]|].
    destruct (Hlook m Hm) as (m' & Hle & H). exists m'. split; [lia|done]. }
  destruct (sound_at n) as [Hp _]. unfold placed in Hp.
  destruct (caller (at_turn n)) as [| |heard|u|u|u| |r] eqn:Hc; [by apply Hlook|by apply Hknock| |..].
  - destruct (next_call n) as (m & k & Hnm & Hm & Hcm).
    destruct (Hsleep (S m) (clock_now (at_turn m) + if heard then patience else 0) 2%nat) as (m' & Hle & H); [|exists m'; split; [lia|done]].
    cbn. rewrite Hm. cbn. unfold woken_turn. rewrite Hcm, Hc. cbn. by rewrite Z.eqb_refl.
  - apply (Hsleep n u 2%nat). rewrite Hc. cbn. by rewrite Z.eqb_refl.
  - apply (Hsleep n u 1%nat). rewrite Hc. cbn. by rewrite Z.eqb_refl.
  - apply (Hsleep n u 0%nat). rewrite Hc. cbn. by rewrite Z.eqb_refl.
  - exists n. by split; [|left].
  - exists n. split; [done|left]. unfold is_finished. by rewrite Hp.
Qed.

(** A knock that waits is kept waiting, accepted or given up. *)
Lemma waits_on a w' : Knock ∈ backlog w' -> (forall r, a <> Accepts r) ->
  is_finished (turn a w') = true \/ (lost w' < lost (turn a w'))%nat
  \/ (thread (turn a w') = thread w' /\ Knock ∈ backlog (turn a w')).
Proof.
  intros Hw Ha. destruct a as [k|r|r| |i|by_]; cbn; [|by destruct (Ha r)| | | |].
  - right. right. unfold woken_turn, knocked. repeat case_match; simplify_eq; cbn; split; try done. apply elem_of_app. by left.
  - destruct (thread w') eqn:Ht; cbn; rewrite ?Ht; [by right; right|by left|by right; right].
  - right. right. split; [done|]. apply elem_of_app. by left.
  - destruct (backlog w' !! i) as [[]|] eqn:Hi; cbn; [right; left; lia| |by right; right].
    right. right. split; [done|]. apply list_elem_of_lookup in Hw as [j Hj]. apply list_elem_of_lookup.
    destruct (decide (j < i)%nat); [exists j; by rewrite list_lookup_delete_lt|].
    assert (j <> i) by congruence. exists (pred j). rewrite list_lookup_delete_ge by lia. by replace (S (pred j)) with j by lia.
  - by right; right.
Qed.

(** And when the thread's next turn comes, so. *)
Lemma next_accept n : Knock ∈ backlog (at_turn n) -> exists m, (n <= m)%nat /\
  (is_finished (at_turn m) = true \/ (lost (at_turn n) < lost (at_turn m))%nat
   \/ exists r, schedule m = Accepts r /\ thread (at_turn m) = thread (at_turn n) /\ Knock ∈ backlog (at_turn m)).
Proof.
  destruct (accepts_on _ _ Hfair n) as (m & r & Hnm & Hm). remember (m - n)%nat as d eqn:Hd.
  revert n Hnm Hd. induction d as [|d IH]; intros n Hnm Hd Hk.
  - assert (m = n) as -> by lia. exists n. split; [done|]. right. right. by exists r.
  - destruct (schedule n) as [k'|r'|r'| |i|by_] eqn:Hn; [|by exists n; split; [|right; right; exists r']|..];
      (destruct (waits_on (schedule n) (at_turn n) Hk) as [Hf|[Hl|[Ht Hk']]]; [by rewrite Hn| | |];
       [exists (S n); split; [lia|by left]|exists (S n); split; [lia|by right; left]|];
       destruct (IH (S n) ltac:(lia) ltac:(lia) Hk') as (m' & Hle & [Hf|[Hl|(r2 & Hr & Ht' & Hb)]]); exists m'; (split; [lia|]);
       [by left|right; left; destruct (grown_at n (S n) ltac:(lia)) as (_ & ? & _); lia|right; right; exists r2; split_and!; [done| |done];
        by rewrite Ht', <- Ht]).
Qed.

(** What is left before the thread's accept. *)
Definition before_accept (t : Thread T) : nat := match t with Busy turns => S turns | _ => 0 end.

(** A knock that waits ends the thread, or comes to nothing. *)
Lemma knock_is_heard n : Knock ∈ backlog (at_turn n) -> exists m, (n <= m)%nat
  /\ (is_finished (at_turn m) = true \/ (lost (at_turn n) < lost (at_turn m))%nat).
Proof.
  remember (before_accept (thread (at_turn n))) as d eqn:Hd. revert n Hd. induction d as [d IH] using (well_founded_induction lt_wf).
  intros n -> Hk. destruct (next_accept n Hk) as (m & Hnm & [Hf|[Hl|(r & Hm & Ht & Hb)]]); [exists m; by split; [|left]|exists m; by split; [|right]|].
  destruct (is_finished (at_turn m)) eqn:Hf; [exists m; by split; [|left]|].
  assert (at_turn (S m) = thread_turn r (at_turn m)) as Hstep by (cbn; by rewrite Hm).
  destruct (grown_at n m Hnm) as (_ & Hl & _). unfold thread_turn in Hstep. rewrite Ht in Hstep. unfold is_finished in Hf. rewrite Ht in Hf.
  destruct (thread (at_turn n)) as [[|turns]| |] eqn:Htn; [..|done].
  - destruct (IH 0%nat ltac:(cbn; lia) (S m)) as (m' & Hle & H); [by rewrite Hstep|by rewrite Hstep|].
    exists m'. split; [lia|]. rewrite Hstep in H. cbn in H. destruct H; [by left|right; lia].
  - destruct (IH (S turns) ltac:(cbn; lia) (S m)) as (m' & Hle & H); [by rewrite Hstep|by rewrite Hstep|].
    exists m'. split; [lia|]. rewrite Hstep in H. cbn in H. destruct H; [by left|right; lia].
  - exists (S m). split; [lia|left]. destruct (backlog (at_turn m)); [by apply not_elem_of_nil in Hb|]. by rewrite Hstep.
Qed.

(** Where no more than [most] knocks ever come to nothing, the thread ends. *)
Lemma thread_ends most : (forall n, (lost (at_turn n) <= most)%nat) -> exists n, is_finished (at_turn n) = true.
Proof.
  intros Hmost. assert (forall d n, d = (most - lost (at_turn n))%nat -> exists n, is_finished (at_turn n) = true) as H.
  2:{ by eapply (H _ 0%nat). }
  induction d as [d IH] using (well_founded_induction lt_wf). intros n ->.
  assert (forall m, (lost (at_turn n) < lost (at_turn m))%nat -> exists n, is_finished (at_turn n) = true) as Hgo.
  { intros m Hm. apply (IH (most - lost (at_turn m))%nat) with (n := m); [|done]. pose proof (Hmost m). lia. }
  destruct (knocks_again n) as (m & Hnm & [Hf|(k & Hm & Hc)]); [by exists m|]. destruct (grown_at n m Hnm) as (_ & Hl & _).
  assert (at_turn (S m) = woken_turn k (at_turn m)) as Hstep by (cbn; by rewrite Hm).
  unfold woken_turn in Hstep. rewrite Hc in Hstep. destruct k; cbn -[after] in Hstep.
  - destruct (knock_is_heard (S m)) as (m' & Hle & [Hf|Hl']); [|by exists m'|].
    + rewrite Hstep. cbn. apply elem_of_app. right. by left.
    + rewrite Hstep in Hl'. cbn in Hl'. apply (Hgo m'). lia.
  - apply (Hgo (S m)). rewrite Hstep. cbn. lia.
  - apply (Hgo (S m)). rewrite Hstep. cbn. lia.
Qed.
End schedule.

(** C33. A stop is heard. Whatever order the caller of [woken], the thread
    that accepts, whoever else connects or gives up, and the clock take their
    turns in: the caller joins only a thread that has ended, so no stop waits
    on its join, and comes back with what that thread returned; and it knocks
    again no sooner than the patience after a knock that connected. And where
    caller and thread both go on, time passes and not more than [most] knocks
    are lost in all — made to no connection, or given up before they were
    accepted — it does come back. *)
Theorem every_stop_is_heard schedule accepting waiting clock :
  (forall n,
     match caller (after schedule (woken accepting waiting clock) n) with
     | Joining => exists r, thread (after schedule (woken accepting waiting clock) n) = Ended r
     | Returned r => thread (after schedule (woken accepting waiting clock) n) = Ended r
     | _ => True
     end
     /\ spaced (knocks (after schedule (woken accepting waiting clock) n)))
  /\ (fair schedule (woken accepting waiting clock) ->
      (exists most, forall n, (lost (after schedule (woken accepting waiting clock) n) <= most)%nat) ->
      exists n r, caller (after schedule (woken accepting waiting clock) n) = Returned r).
Proof.
  pose proof (sound_woken accepting waiting clock) as Hs. split.
  - intros n. destruct (sound_at schedule _ Hs n) as [Hp Hsp]. split; [|done]. unfold placed in Hp.
    destruct (caller _); try done. unfold is_finished in Hp. destruct (thread _) as [| |r]; [done..|by exists r].
  - intros Hfair [most Hmost]. destruct (thread_ends schedule _ Hfair Hs most Hmost) as [n Hn].
    exact (ended_is_returned schedule _ Hfair n Hn).
Qed.
End woken.

(** Caller, thread and clock in turn, the first two knocks lost. *)
Definition example_schedule (n : nat) : @Actor Z :=
  match (n mod 3)%nat with
  | O => Calls (if (n <? 20)%nat then Refused else if (n <? 40)%nat then Lost else Landed)
  | 1%nat => Accepts (Ok 7)
  | _ => Ticks 1
  end.
Definition example_stop : Stop Z := woken (Busy 2) 0 0.

(** The knock that is lost is asked again, and the third is heard. *)
Example woken_by_the_third :
  caller (after 5 example_schedule example_stop 120) = Returned (Ok 7)
  /\ length (knocks (after 5 example_schedule example_stop 120)) = 3%nat
  /\ lost (after 5 example_schedule example_stop 120) = 2%nat.
Proof. vm_compute. done. Qed.

Lemma example_turns n :
  (exists k, example_schedule (3 * n) = Calls k) /\ example_schedule (3 * n + 1) = Accepts (Ok 7)
  /\ example_schedule (3 * n + 2) = Ticks 1.
Proof.
  unfold example_schedule. rewrite (Nat.mul_comm 3), Nat.Div0.mod_mul, !(Nat.add_comm (n * 3)), !Nat.Div0.mod_add. split; [by eexists|done].
Qed.

Lemma example_fair patience : fair patience example_schedule example_stop.
Proof.
  constructor.
  - intros n. destruct (example_turns n) as [[k Hk] _]. exists (3 * n)%nat, k. split; [lia|done].
  - intros n. destruct (example_turns n) as (_ & Hk & _). exists (3 * n + 1)%nat, (Ok 7). split; [lia|done].
  - assert (forall n, Z.of_nat n <= clock_now (after patience example_schedule example_stop (3 * n))) as H.
    { induction n as [|n IH]; [done|]. replace (3 * S n)%nat with (S (3 * n + 2)) by lia. cbn [after].
      destruct (example_turns n) as (_ & _ & ->). cbn [turn clock_now].
      destruct (grown_at patience example_schedule example_stop (3 * n) (3 * n + 2) ltac:(lia)) as (? & _). lia. }
    intros t. exists (3 * Z.to_nat t)%nat. pose proof (H (Z.to_nat t)). lia.
Qed.

(** Back with what the thread returned, it stays so. *)
Lemma example_rests n : let w := after 5 example_schedule example_stop (n + 120) in
  caller w = Returned (Ok 7) /\ thread w = Ended (Ok 7) /\ lost w = 2%nat.
Proof.
  induction n as [|n (Hc & Ht & Hl)]; [by vm_compute|]. cbn [after Nat.add]. unfold example_schedule at 1 3 5.
  destruct ((n + 120) mod 3)%nat as [|[|?]]; cbn [turn]; unfold woken_turn, thread_turn; by rewrite ?Hc, ?Ht.
Qed.

Lemma example_loses n : (lost (after 5 example_schedule example_stop n) <= 2)%nat.
Proof.
  destruct (decide (120 <= n)%nat) as [Hn|Hn].
  - replace n with (n - 120 + 120)%nat by lia. by destruct (example_rests (n - 120)) as (_ & _ & ->).
  - assert (Forall (fun n => (lost (after 5 example_schedule example_stop n) <= 2)%nat) (seq 0 120)) as H
      by (apply (bool_decide_unpack _); by vm_compute).
    rewrite Forall_forall in H. apply H, elem_of_seq. lia.
Qed.

Lemma every_stop_is_heard_witness :
  fair 5 example_schedule (woken (Busy 2) 0 0)
  /\ (exists most, forall n, (lost (after 5 example_schedule (woken (Busy 2) 0 0) n) <= most)%nat)
  /\ exists n r, caller (after 5 example_schedule (woken (Busy 2) 0 0) n) = Returned r.
Proof.
  assert (exists most, forall n, (lost (after 5 example_schedule (woken (Busy 2) 0 0) n) <= most)%nat) as Hl
    by (exists 2%nat; exact example_loses).
  split; [exact (example_fair 5)|]. split; [exact Hl|].
  exact (proj2 (every_stop_is_heard 5 example_schedule (Busy 2) 0 0) (example_fair 5) Hl).
Defined.
End Woken.
