(* ===== verification/Sddl.v ===== *)
(** What a security descriptor written as text lets whom do: the reading of
    the security descriptor definition language Windows documents, of a
    discretionary list whose entries name generic or numbered rights, and the
    access check over it. The pipes of [src/pipe/windows.rs] write such texts;
    [Pipe] states what they mean by this reading. *)

From Stdlib Require Import String.
From stdpp Require Import strings.
From S2P Require Import Prelude Text Ip.

Module Sddl.

(** ** Rights *)

Definition GENERIC_ALL : Z := 0x10000000.
Definition FILE_WRITE_DATA : Z := 0x2.
Definition FILE_CREATE_PIPE_INSTANCE : Z := 0x4.
Definition FILE_GENERIC_READ : Z := 0x120089.
Definition FILE_GENERIC_WRITE : Z := 0x120116.
Definition FILE_GENERIC_EXECUTE : Z := 0x1200a0.
Definition FILE_ALL_ACCESS : Z := 0x1f01ff.

(** What generic rights are on a file, a pipe being one: [MapGenericMask]. *)
Definition mapped (rights : Z) : Z :=
  let also (bit means : Z) (r : Z) := if Z.testbit rights bit then Z.lor r means else r in
  also 31 FILE_GENERIC_READ (also 30 FILE_GENERIC_WRITE (also 29 FILE_GENERIC_EXECUTE (also 28 FILE_ALL_ACCESS
    (Z.land rights 0x0fffffff)))).

(** ** The text *)

(** An entry: rights allowed or denied to whom. *)
Record Ace : Type := mkAce { allows : bool; rights : Z; trustee : bytes }.

(** A list of them, and whether it takes none from what the object is in. *)
Record Descriptor : Type := mkDescriptor { protected : bool; entries : list Ace }.

(** What is before the first [c], and what is after each. *)
Fixpoint pieces (c : Z) (s : bytes) : bytes * list bytes :=
  match s with
  | [] => ([], [])
  | b :: s => let '(first, rest) := pieces c s in if b =? c then ([], first :: rest) else (b :: first, rest)
  end.

(** The text of an identifier: [S-], then its revision and numbers. *)
Definition sid_text (s : bytes) : bool :=
  match strip_prefix (lit "S-") s with
  | Some rest => forallb (fun b => (b =? 45) || is_ascii_digit b || ((97 <=? b) && (b <=? 122)) || ((65 <=? b) && (b <=? 90))) rest
  | None => false
  end.

(** The two letters of an account every machine has: who owns the object, the
    system, the administrators, everyone, whoever logged in, whoever did not,
    the users, the guests. *)
Definition known : list (bytes * bytes) := [
  (lit "OW", lit "S-1-3-4"); (lit "SY", lit "S-1-5-18"); (lit "BA", lit "S-1-5-32-544"); (lit "WD", lit "S-1-1-0");
  (lit "AU", lit "S-1-5-11"); (lit "AN", lit "S-1-5-7"); (lit "BU", lit "S-1-5-32-545"); (lit "BG", lit "S-1-5-32-546")].
Definition generics : list (bytes * Z) := [
  (lit "GA", GENERIC_ALL); (lit "GX", 0x20000000); (lit "GW", 0x40000000); (lit "GR", 0x80000000)].

Definition named {A} (names : list (bytes * A)) (s : bytes) : option A :=
  snd <$> List.find (fun n => bool_decide (n.1 = s)) names.

Definition read_trustee (s : bytes) : option bytes :=
  if sid_text s then Some s else named known s.

Fixpoint read_letters (s : bytes) : option Z :=
  match s with
  | [] => Some 0
  | a :: b :: rest => right_ ← named generics [a; b]; more ← read_letters rest; Some (Z.lor right_ more)
  | _ => None
  end.
Definition read_rights (s : bytes) : option Z :=
  match strip_prefix (lit "0x") s with
  | Some digits =>
      match Ip.read_digits 16 digits with
      | ((_ :: _) as ds, []) => Some (Ip.number 16 ds)
      | _ => None
      end
  | None => read_letters s
  end.

(** An entry between its parentheses: its kind, no flags, its rights, no
    object and no object it is inherited by, and whose. *)
Definition read_entry (body : bytes) : option Ace :=
  match pieces 59 body with
  | (kind, [[]; rights; []; []; trustee]) =>
      allows ← named [(lit "A", true); (lit "D", false)] kind;
      rights ← read_rights rights;
      trustee ← read_trustee trustee;
      Some (mkAce allows rights trustee)
  | _ => None
  end.

Fixpoint read_entries (piece : bytes) (more : list bytes) : option (list Ace) :=
  match more with
  | [] => match piece with [] => Some [] | _ => None end
  | next :: more =>
      body ← strip_prefix [40] piece;
      entry ← read_entry body;
      entries ← read_entries next more;
      Some (entry :: entries)
  end.

Definition read (text : bytes) : option Descriptor :=
  list_ ← strip_prefix (lit "D:") text;
  let '(protected, list_) := match strip_prefix (lit "P") list_ with Some list_ => (true, list_) | None => (false, list_) end in
  let '(first, more) := pieces 41 list_ in
  entries ← read_entries first more;
  Some (mkDescriptor protected entries).

(** ** The access check

    Of a caller whose token holds the identifiers [who]: the entries in
    order, what one denies not given by a later one, nor what one gives taken
    back; a caller no entry names is given nothing. *)
Definition weigh (who : list bytes) (sofar : Z * Z) (e : Ace) : Z * Z :=
  let '(given, refused) := sofar in
  if negb (bool_decide (trustee e ∈ who)) then sofar
  else if allows e then (Z.lor given (Z.ldiff (mapped (rights e)) refused), refused)
  else (given, Z.lor refused (Z.ldiff (mapped (rights e)) given)).
Definition granted (who : list bytes) (d : Descriptor) : Z := (fold_left (weigh who) (entries d) (0, 0)).1.

(** ** What is written so is read so *)

Lemma pieces_app c a s : c ∉ a -> pieces c (a ++ c :: s) = (a, (pieces c s).1 :: (pieces c s).2).
Proof.
  induction a as [|b a IH]; intros Hc; cbn [pieces app].
  - rewrite Z.eqb_refl. by destruct (pieces c s).
  - apply not_elem_of_cons in Hc as [Hb Hc]. rewrite (IH Hc). by destruct (Z.eqb_spec b c).
Qed.

Lemma pieces_end c a : c ∉ a -> pieces c a = (a, []).
Proof.
  induction a as [|b a IH]; intros Hc; cbn [pieces]; [done|].
  apply not_elem_of_cons in Hc as [Hb Hc]. rewrite (IH Hc). by destruct (Z.eqb_spec b c).
Qed.

(** An identifier's text has no mark of the list's own. *)
Lemma sid_text_plain s : sid_text s = true -> (59 ∉ s) /\ (41 ∉ s).
Proof.
  unfold sid_text. destruct (strip_prefix (lit "S-") s) as [rest|] eqn:Hs; [|done].
  apply strip_prefix_spec in Hs as ->. intros Hr. rewrite forallb_forall in Hr.
  split; intros [Hin|Hin]%elem_of_app; [|apply list_elem_of_In, Hr in Hin; done| |apply list_elem_of_In, Hr in Hin; done];
    by apply (bool_decide_eq_true_2 _) in Hin.
Qed.

(** An allowing entry, with its rights and its trustee as [writes] and [who]
    write them. *)
Definition entry (writes who : bytes) : bytes := lit "(A;;" ++ writes ++ lit ";;;" ++ who ++ lit ")".

Lemma entry_reads writes who r sid s :
  (59 ∉ writes) /\ (41 ∉ writes) -> read_rights writes = Some r -> (59 ∉ who) /\ (41 ∉ who) -> read_trustee who = Some sid ->
  forall first more, pieces 41 s = (first, more) ->
  let '(f, m) := pieces 41 (entry writes who ++ s) in
  read_entries f m = (es ← read_entries first more; Some (mkAce true r sid :: es)).
Proof.
  intros [Hw Hw'] Hr [H59 H41] Hsid first more Hs.
  assert (entry writes who ++ s = (lit "(A;;" ++ writes ++ lit ";;;" ++ who) ++ 41 :: s) as ->.
  { unfold entry. rewrite <- !app_assoc. done. }
  rewrite pieces_app, Hs.
  2:{ intros Hin. apply elem_of_app in Hin as [Hin|Hin]; [by apply (bool_decide_eq_true_2 _) in Hin|].
      apply elem_of_app in Hin as [Hin|Hin]; [done|]. apply elem_of_app in Hin as [Hin|Hin]; [by apply (bool_decide_eq_true_2 _) in Hin|done]. }
  cbn [read_entries fst snd]. change (lit "(A;;" ++ writes ++ lit ";;;" ++ who) with (40 :: (lit "A" ++ 59 :: [] ++ 59 :: writes ++ 59 :: [] ++ 59 :: [] ++ 59 :: who)).
  cbn [strip_prefix Z.eqb Pos.eqb mbind option_bind]. unfold read_entry.
  rewrite (pieces_app 59 (lit "A")) by (intros Hin; by apply (bool_decide_eq_true_2 _) in Hin).
  rewrite (pieces_app 59 []) by apply not_elem_of_nil. rewrite (pieces_app 59 writes) by done.
  rewrite !(pieces_app 59 []) by apply not_elem_of_nil. rewrite (pieces_end 59 who) by done. cbn [fst snd].
  rewrite Hr, Hsid. by destruct (read_entries first more).
Qed.

(** A list of entries that allow one thing gives it to those it names. *)
Lemma weigh_allowed who r sids given :
  fold_left (weigh who) (map (mkAce true r) sids) (given, 0)
  = (if bool_decide (Exists (fun sid => sid ∈ who) sids) then Z.lor given (mapped r) else given, 0).
Proof.
  revert given. induction sids as [|sid sids IH]; intros given; cbn [map fold_left].
  - rewrite bool_decide_eq_false_2; [done|]. by intros ?%Exists_nil.
  - unfold weigh at 2. cbn [trustee allows rights]. rewrite Z.ldiff_0_r. destruct (decide (sid ∈ who)) as [Hs|Hs].
    + rewrite (bool_decide_eq_true_2 (sid ∈ who)) by done. cbn [negb]. rewrite IH.
      rewrite (bool_decide_eq_true_2 (Exists _ (sid :: sids))) by (by constructor).
      rewrite <- Z.lor_assoc, Z.lor_diag. by destruct (bool_decide _).
    + rewrite (bool_decide_eq_false_2 (sid ∈ who)) by done. cbn [negb]. rewrite IH.
      f_equal. rewrite (bool_decide_ext (Exists _ (sid :: sids)) (Exists (fun sid => sid ∈ who) sids)); [done|].
      rewrite Exists_cons. naive_solver.
Qed.

(** Everyone is given everything by a list that names everyone, and what is
    denied first is not given after. *)
Example lists_read :
  granted [lit "S-1-1-0"] (mkDescriptor false [mkAce true GENERIC_ALL (lit "S-1-1-0")]) = FILE_ALL_ACCESS
  /\ read (lit "D:(A;;GA;;;WD)") = Some (mkDescriptor false [mkAce true GENERIC_ALL (lit "S-1-1-0")])
  /\ (granted [lit "S-1-1-0"; lit "S-1-5-7"] <$> read (lit "D:P(D;;GW;;;AN)(A;;GRGW;;;WD)")) = Some 0x89.
Proof. vm_compute. done. Qed.
End Sddl.
