(* ===== verification/Pipe.v ===== *)
(** A named pipe on Windows ([src/pipe/windows.rs] and the waiting of
    [src/pipe/windows/io.rs]): who may open it, what is read of it, and who
    connected. The calls of the system are answers, as a connection's are. *)

From Stdlib Require Import String.
From stdpp Require Import strings.
From S2P Require Import Prelude Text Errors Wire Sddl.

(** What the system says of accounts: the identifier of an account or a group
    named, and the name of an identifier. *)
Class Accounts := {
  account_sid : bytes -> result bytes bytes;
  account_name : list Z -> result bytes bytes;
}.

Module Pipe.

(** ** Who may open a pipe *)

Definition OPENERS : bytes := lit "D:P(A;;GA;;;OW)(A;;GA;;;SY)(A;;GA;;;BA)".
Definition ADMITTED : bytes := lit "0x12008b".

(** The loop of [openers], [sddl] written so far. *)
Fixpoint admit_each `{Accounts} (admitted : list bytes) (sddl : bytes) : result bytes bytes :=
  match admitted with
  | [] => Ok sddl
  | name :: admitted =>
      let? sid := account_sid name in
      admit_each admitted (sddl ++ lit "(A;;" ++ ADMITTED ++ lit ";;;" ++ sid ++ lit ")")
  end.

Definition openers `{Accounts} (admitted : list bytes) : result bytes bytes := admit_each admitted OPENERS.

(** The rights [ADMITTED] writes. *)
Definition ADMITTED_RIGHTS : Z := 0x12008b.

(** What Windows documents of the identifiers it gives: their text is one. *)
Definition known_by_sids `{Accounts} (admitted : list bytes) : Prop :=
  forall name sid, name ∈ admitted -> account_sid name = Ok sid -> Sddl.sid_text sid = true.

Lemma admit_each_spec `{Accounts} admitted : forall sddl r, admit_each admitted sddl = r ->
  match r with
  | Ok d => exists sids, Forall2 (fun name sid => account_sid name = Ok sid) admitted sids
              /\ d = sddl ++ concat (map (Sddl.entry ADMITTED) sids)
  | Err why => exists name, name ∈ admitted /\ account_sid name = Err why
  end.
Proof.
  induction admitted as [|name admitted IH]; intros sddl r <-; cbn [admit_each].
  - exists []. cbn. by rewrite app_nil_r.
  - destruct (account_sid name) as [sid|why] eqn:Hs; cbn [res_bind]; [|exists name; split; [by left|done]].
    specialize (IH (sddl ++ lit "(A;;" ++ ADMITTED ++ lit ";;;" ++ sid ++ lit ")") _ eq_refl).
    destruct (admit_each admitted _) as [d|why].
    + destruct IH as (sids & Hf & ->). exists (sid :: sids). split; [by constructor|]. cbn [map concat]. unfold Sddl.entry.
      by rewrite <- !app_assoc.
    + destruct IH as (name' & Hin & Hw). exists name'. split; [by right|done].
Qed.

Definition accounts_here : Accounts := {|
  account_sid _ := Ok (lit "S-1-5-32-545");
  account_name sid := if bool_decide (sid = [1; 5]) then Ok (lit "PLANT\xmip") else Err (lit "no account");
|}.

(** The owner of the pipe, the system and the administrators. *)
Definition always : list bytes := [lit "S-1-3-4"; lit "S-1-5-18"; lit "S-1-5-32-544"].

Definition descriptor_of (sids : list bytes) : Sddl.Descriptor :=
  Sddl.mkDescriptor true (map (Sddl.mkAce true Sddl.GENERIC_ALL) always ++ map (Sddl.mkAce true ADMITTED_RIGHTS) sids).

Lemma admitted_read sids : Forall (fun sid => Sddl.sid_text sid = true) sids ->
  let '(first, more) := Sddl.pieces 41 (concat (map (Sddl.entry ADMITTED) sids)) in
  Sddl.read_entries first more = Some (map (Sddl.mkAce true ADMITTED_RIGHTS) sids).
Proof.
  induction 1 as [|sid sids Hs _ IH]; [done|]. cbn [map concat]. destruct (Sddl.pieces 41 (concat _)) as [first more] eqn:Hp.
  cbv beta iota in IH. assert (Sddl.read_trustee sid = Some sid) as Hsid by (unfold Sddl.read_trustee; by rewrite Hs).
  pose proof (Sddl.entry_reads ADMITTED sid ADMITTED_RIGHTS sid _ ltac:(by apply (bool_decide_unpack _)) eq_refl
    (Sddl.sid_text_plain _ Hs) Hsid _ _ Hp) as He.
  destruct (Sddl.pieces 41 (_ ++ _)) as [f m]. by rewrite He, IH.
Qed.

Lemma always_reads who sid s : (59 ∉ who) /\ (41 ∉ who) -> Sddl.read_trustee who = Some sid ->
  forall first more, Sddl.pieces 41 s = (first, more) ->
  let '(f, m) := Sddl.pieces 41 (Sddl.entry (lit "GA") who ++ s) in
  Sddl.read_entries f m = (es ← Sddl.read_entries first more; Some (Sddl.mkAce true Sddl.GENERIC_ALL sid :: es)).
Proof. apply Sddl.entry_reads; [by apply (bool_decide_unpack _)|done]. Qed.

Lemma openers_read sids : Forall (fun sid => Sddl.sid_text sid = true) sids ->
  Sddl.read (OPENERS ++ concat (map (Sddl.entry ADMITTED) sids)) = Some (descriptor_of sids).
Proof.
  intros Hs%admitted_read. set (admitted := concat _) in *.
  change (OPENERS ++ admitted) with (lit "D:P" ++ Sddl.entry (lit "GA") (lit "OW") ++ Sddl.entry (lit "GA") (lit "SY")
    ++ Sddl.entry (lit "GA") (lit "BA") ++ admitted).
  change (Sddl.read (lit "D:P" ++ ?s)) with (let '(first, more) := Sddl.pieces 41 s in
    es ← Sddl.read_entries first more; Some (Sddl.mkDescriptor true es)).
  destruct (Sddl.pieces 41 admitted) as [f0 m0] eqn:H0. cbv beta iota in Hs.
  pose proof (always_reads (lit "BA") (lit "S-1-5-32-544") admitted ltac:(by apply (bool_decide_unpack _)) eq_refl _ _ H0) as E1.
  destruct (Sddl.pieces 41 (Sddl.entry _ (lit "BA") ++ _)) as [f1 m1] eqn:H1.
  pose proof (always_reads (lit "SY") (lit "S-1-5-18") _ ltac:(by apply (bool_decide_unpack _)) eq_refl _ _ H1) as E2.
  destruct (Sddl.pieces 41 (Sddl.entry _ (lit "SY") ++ _)) as [f2 m2] eqn:H2.
  pose proof (always_reads (lit "OW") (lit "S-1-3-4") _ ltac:(by apply (bool_decide_unpack _)) eq_refl _ _ H2) as E3.
  destruct (Sddl.pieces 41 (Sddl.entry _ (lit "OW") ++ _)) as [f3 m3].
  by rewrite E3, E2, E1, Hs.
Qed.

Lemma sids_known `{Accounts} admitted sids : known_by_sids admitted ->
  Forall2 (fun name sid => account_sid name = Ok sid) admitted sids -> Forall (fun sid => Sddl.sid_text sid = true) sids.
Proof.
  intros Hk Hf. induction Hf as [|name sid names sids Hs _ IH]; [done|]. constructor.
  - apply (Hk name); [by left|done].
  - apply IH. intros name' sid' Hin. apply Hk. by right.
Qed.

Lemma granted_to sids who :
  Sddl.granted who (descriptor_of sids) =
  if bool_decide (Exists (fun sid => sid ∈ who) always) then Sddl.FILE_ALL_ACCESS
  else if bool_decide (Exists (fun sid => sid ∈ who) sids) then Z.lor Sddl.FILE_GENERIC_READ Sddl.FILE_WRITE_DATA
  else 0.
Proof.
  unfold Sddl.granted, descriptor_of. cbn [Sddl.entries]. rewrite fold_left_app, !Sddl.weigh_allowed. cbn [fst].
  by destruct (bool_decide (Exists _ always)), (bool_decide _).
Qed.

(** C34. The descriptor of a pipe, read as Windows documents such texts,
    takes nothing from elsewhere and lets a caller whose token holds the
    identifiers [who] do exactly this: everything, where it is the pipe's
    owner, the system or an administrator; where it is none of these but one
    of the accounts admitted, each by the identifier the system knows it by,
    the rights to read the pipe and write its data, without the one that
    makes an instance of it; and nothing where it is neither. A name the
    system does not know makes no descriptor at all. *)
Theorem only_the_admitted_open `{Accounts} admitted :
  known_by_sids admitted ->
  match openers admitted with
  | Ok sddl =>
      exists sids d, Forall2 (fun name sid => account_sid name = Ok sid) admitted sids
        /\ Sddl.read sddl = Some d /\ Sddl.protected d = true
        /\ (forall who, Sddl.granted who d =
             if bool_decide (Exists (fun sid => sid ∈ who) always) then Sddl.FILE_ALL_ACCESS
             else if bool_decide (Exists (fun sid => sid ∈ who) sids) then Z.lor Sddl.FILE_GENERIC_READ Sddl.FILE_WRITE_DATA
             else 0)
        /\ Z.land (Z.lor Sddl.FILE_GENERIC_READ Sddl.FILE_WRITE_DATA) Sddl.FILE_CREATE_PIPE_INSTANCE = 0
  | Err why => exists name, name ∈ admitted /\ account_sid name = Err why
  end.
Proof.
  intros Hk. pose proof (admit_each_spec admitted OPENERS _ eq_refl) as Hs. fold (openers admitted) in Hs.
  destruct (openers admitted) as [sddl|]; [|done]. destruct Hs as (sids & Hf & ->).
  exists sids, (descriptor_of sids). split; [done|]. split; [apply openers_read; by eapply sids_known|].
  split; [done|]. split; [apply granted_to|done].
Qed.

Lemma only_the_admitted_open_witness :
  let A := accounts_here in
  openers [lit "PLANT\xmip"] = Ok (lit "D:P(A;;GA;;;OW)(A;;GA;;;SY)(A;;GA;;;BA)(A;;0x12008b;;;S-1-5-32-545)")
  /\ match openers [lit "PLANT\xmip"] with
     | Ok sddl => exists sids d, Forall2 (fun name sid => account_sid name = Ok sid) [lit "PLANT\xmip"] sids
         /\ Sddl.read sddl = Some d /\ Sddl.protected d = true
         /\ (forall who, Sddl.granted who d =
              if bool_decide (Exists (fun sid => sid ∈ who) always) then Sddl.FILE_ALL_ACCESS
              else if bool_decide (Exists (fun sid => sid ∈ who) sids) then Z.lor Sddl.FILE_GENERIC_READ Sddl.FILE_WRITE_DATA
              else 0)
         /\ Z.land (Z.lor Sddl.FILE_GENERIC_READ Sddl.FILE_WRITE_DATA) Sddl.FILE_CREATE_PIPE_INSTANCE = 0
     | Err why => exists name, name ∈ [lit "PLANT\xmip"] /\ account_sid name = Err why
     end.
Proof.
  intros A. split; [by vm_compute|]. apply (only_the_admitted_open [lit "PLANT\xmip"]). by intros name sid _ [= <-].
Defined.

(** ** One overlapped operation, [waited]

    The system's answers: how the operation started, whether its event was
    signalled in time, and how it ended. A failure is a Windows code. *)
Record Overlapped : Type := mkOverlapped {
  started : option Z;
  signaled : bool;
  ended : result Z Z;
}.

Definition ERROR_IO_PENDING : Z := 997.
Definition ERROR_OPERATION_ABORTED : Z := 995.
Definition ERROR_BROKEN_PIPE : Z := 109.
Definition ERROR_PIPE_NOT_CONNECTED : Z := 233.

(** An error of the system's, or the timeout's. *)
Inductive Failure : Type :=
| Raw (code : Z)
| NothingCame (milliseconds : Z).

(** [within] in milliseconds; whether [CancelIoEx] was called, and the
    outcome. *)
Definition waited (within : option Z) (o : Overlapped) : bool * result Failure Z :=
  let finish (timed_out : bool) :=
    (timed_out,
     match ended o with
     | Ok moved => Ok moved
     | Err code =>
         if timed_out && (code =? ERROR_OPERATION_ABORTED) then Err (NothingCame (default 0 within)) else Err (Raw code)
     end) in
  match started o with
  | None => finish false
  | Some code =>
      if negb (code =? ERROR_IO_PENDING) then (false, Err (Raw code))
      else match within with
           | Some _ => finish (negb (signaled o))
           | None => finish false
           end
  end.

Definition gone (e : Failure) : bool :=
  match e with Raw code => (code =? ERROR_BROKEN_PIPE) || (code =? ERROR_PIPE_NOT_CONNECTED) | NothingCame _ => false end.

(** [io::read]: a peer gone is the end. *)
Definition read_outcome (o : Overlapped) : result Failure Z :=
  match (waited None o).2 with
  | Err e => if gone e then Ok 0 else Err e
  | read => read
  end.

(** An operation is timed out only where it was given a time, the time
    passed, and it ended cancelled: one that ended as it was cancelled is
    what it moved, and one given no time is never cancelled. *)
Lemma ended_is_not_timed_out within o cancelled r :
  waited within o = (cancelled, r) ->
  (cancelled = true -> started o = Some ERROR_IO_PENDING /\ signaled o = false /\ within <> None)
  /\ (forall ms, r = Err (NothingCame ms) <-> cancelled = true /\ ended o = Err ERROR_OPERATION_ABORTED /\ within = Some ms)
  /\ (forall moved, cancelled = true -> ended o = Ok moved -> r = Ok moved).
Proof.
  unfold waited. intros H.
  assert (forall b e, b = false -> (b, match e with Ok moved => Ok moved | Err code =>
      if b && (code =? ERROR_OPERATION_ABORTED) then Err (NothingCame (default 0 within)) else Err (Raw code) end) = (cancelled, r) ->
    (cancelled = true -> started o = Some ERROR_IO_PENDING /\ signaled o = false /\ within <> None)
    /\ (forall ms, r = Err (NothingCame ms) <-> cancelled = true /\ ended o = Err ERROR_OPERATION_ABORTED /\ within = Some ms)
    /\ (forall moved, cancelled = true -> ended o = Ok moved -> r = Ok moved)) as Hnot.
  { intros b e -> [= <- <-]. split_and!; [done| |done]. intros ms. split; [by destruct e|by intros (? & _)]. }
  destruct (started o) as [why|] eqn:Hstart; [|by eapply Hnot; [|exact H]].
  destruct (why =? ERROR_IO_PENDING) eqn:Hpend; cbn [negb] in H.
  2:{ apply (Hnot false (Err why) eq_refl). exact H. }
  apply Z.eqb_eq in Hpend as ->. destruct within as [ms|]; [|by eapply Hnot; [|exact H]].
  destruct (signaled o) eqn:Hsig; cbn [negb] in H; [by eapply Hnot; [|exact H]|]. clear Hnot.
  injection H as <- <-. split_and!; [by intros _| |by intros moved _ ->].
  intros ms'. destruct (ended o) as [moved|code]; [split; [done|by intros (_ & ? & _)]|]. cbn.
  destruct (Z.eqb_spec code ERROR_OPERATION_ABORTED) as [He|He].
  - subst code. split; [by intros [= ->]|by intros (_ & _ & [= ->])].
  - split; [done|]. intros (_ & ? & _). congruence.
Qed.

Lemma ended_is_not_timed_out_witness :
  let o := mkOverlapped (Some ERROR_IO_PENDING) false (Ok 3) in
  waited (Some 50) o = (true, Ok 3)
  /\ ((true = true -> started o = Some ERROR_IO_PENDING /\ signaled o = false /\ Some 50 <> None)
      /\ (forall ms, Ok 3 = Err (NothingCame ms) <-> true = true /\ ended o = Err ERROR_OPERATION_ABORTED /\ Some 50 = Some ms)
      /\ (forall moved, true = true -> ended o = Ok moved -> @Ok Failure Z 3 = Ok moved)).
Proof. intros o. split; [done|]. by apply (ended_is_not_timed_out (Some 50) o true (Ok 3)). Defined.

(** ** One connection, either end *)

Definition READ : Z := 16 * 1024.
Definition KEPT_NAMES : Z := 1024.

Record Stream : Type := mkStream {
  pipe : Wire;
  open : option Z;
  made : bool;
  read_ahead : bytes;
  (** What the system answers of the client: its token, once a byte of it was
      read, and its process. *)
  token : result IoError (result bytes (list Z * Z));
  process : result IoError Z;
}.

Definition with_pipe (w : Wire) (s : Stream) : Stream :=
  mkStream w (open s) (made s) (read_ahead s) (token s) (process s).
Definition with_read_ahead (ahead : bytes) (s : Stream) : Stream :=
  mkStream (pipe s) (open s) (made s) ahead (token s) (process s).

(** [Stream::new], of a pipe whose handle is [handle]. *)
Definition new (pipe : Wire) (handle : Z) (made : bool) token process : Stream :=
  mkStream pipe (Some handle) made [] token process.

Definition io_read (n : nat) : M Stream IoError bytes := fun s =>
  let '(r, w) := read1 n (pipe s) in (r, with_pipe w s).

(** The end of [read]: as much of what was read ahead as fits. *)
Definition hand_out (n : nat) (ahead : bytes) : M Stream IoError bytes :=
  mset (with_read_ahead (drop n ahead)) ;;; mret (take n ahead).

Definition read (n : nat) : M Stream IoError bytes :=
  self <~ mget ;;
  match read_ahead self with
  | [] =>
      if READ <=? Z.of_nat n then io_read n
      else
        got <~ io_read (Z.to_nat READ) ;;
        match got with [] => mret [] | _ => hand_out n got end
  | ahead => hand_out n ahead
  end.

Definition client's_end : bytes := lit "the client's end has no client".
Definition sent_nothing : bytes := lit "the caller sent nothing".
Definition not_known (why : bytes) : bytes := lit "the caller is not known: " ++ why.

(** The first of what the client sent, kept to be read again. *)
Definition hear : M Stream bytes unit :=
  self <~ mget ;;
  match read_ahead self with
  | [] =>
      first <~ mmap_err (fun error => sent_nothing ++ lit ": " ++ io_text error) (io_read 64) ;;
      match first with [] => mfail sent_nothing | _ => mset (with_read_ahead first) end
  | _ => mret tt
  end.

Definition lent : M Stream bytes (list Z * Z) :=
  self <~ mget ;;
  if negb (made self) then mfail client's_end
  else
    hear ;;;
    mlift match token self with
          | Err error => Err (not_known (io_text error))
          | Ok (Err why) => Err (not_known why)
          | Ok (Ok lent) => Ok lent
          end.

(** The names kept, by the identifier each token proved. *)
Abbreviation Names := (gmap (list Z) bytes).

Definition caller `{Accounts} : M (Stream * Names) bytes bytes := fun '(self, names) =>
  match lent self with
  | (Err why, self) => (Err why, (self, names))
  | (Ok (sid, _), self) =>
      match names !! sid with
      | Some name => (Ok name, (self, names))
      | None =>
          match account_name sid with
          | Err why => (Err why, (self, names))
          | Ok name =>
              let names := if KEPT_NAMES <=? Z.of_nat (size names) then ∅ else names in
              (Ok name, (self, <[sid := name]> names))
          end
      end
  end.

Definition peer_process (self : Stream) : option Z :=
  if made self then match process self with Ok id => Some id | Err _ => None end else None.

(** What [Cancel::cancel] cancels: the handle the connection still holds,
    which its [drop] takes away. *)
Definition cancel (self : Stream) : option Z := open self.
Definition drop_stream (self : Stream) : Stream :=
  mkStream (pipe self) None (made self) (read_ahead self) (token self) (process self).

(** ** Nothing the client sent is lost *)

Definition octets_of (rs : list answer) : bytes :=
  concat (map (fun a => match a with Got bs => bs | Failed _ => [] end) rs).

(** What is still to be read of a connection. *)
Definition to_read (s : Stream) : bytes := read_ahead s ++ octets_of (incoming (pipe s)).

Lemma read1_octets n w r w' : read1 n w = (r, w') ->
  match r with Ok bs => octets_of (incoming w) = bs ++ octets_of (incoming w') | Err _ => octets_of (incoming w) = octets_of (incoming w') end.
Proof.
  unfold read1, octets_of. destruct w as [[|[bs|e] rest] out ref]; cbn [incoming]; intros [= <- <-]; cbn; try done.
  rewrite <- (take_drop n bs) at 1. rewrite <- app_assoc. f_equal. by destruct (drop n bs).
Qed.

Lemma io_read_octets n s r s' : io_read n s = (r, s') ->
  read_ahead s' = read_ahead s
  /\ match r with
     | Ok bs => octets_of (incoming (pipe s)) = bs ++ octets_of (incoming (pipe s'))
     | Err _ => octets_of (incoming (pipe s)) = octets_of (incoming (pipe s'))
     end.
Proof.
  unfold io_read. destruct (read1 n (pipe s)) as [r1 w] eqn:H. intros [= <- <-]. split; [done|]. by apply read1_octets in H.
Qed.

Lemma read_gives n s r s' : read n s = (r, s') ->
  match r with Ok bs => to_read s = bs ++ to_read s' | Err _ => to_read s = to_read s' end.
Proof.
  unfold read, mthen at 1, mget. destruct (read_ahead s) as [|b ahead] eqn:Ha.
  - destruct (READ <=? Z.of_nat n).
    + intros H. apply io_read_octets in H as [Hr H]. unfold to_read. by rewrite Hr, Ha.
    + unfold mthen. destruct (io_read (Z.to_nat READ) s) as [[got|e] s1] eqn:H1; apply io_read_octets in H1 as [Hr H1].
      * destruct got as [|c got]; [intros [= <- <-]; unfold to_read; by rewrite Hr, Ha|].
        unfold hand_out, mthen, mset, mret. intros [= <- <-]. unfold to_read. rewrite Ha. cbn [with_read_ahead read_ahead pipe].
        by rewrite H1, (app_assoc (take _ _)), take_drop.
      * intros [= <- <-]. unfold to_read. by rewrite Hr, Ha.
  - unfold hand_out, mthen, mset, mret. intros [= <- <-]. unfold to_read. cbn [with_read_ahead read_ahead pipe].
    by rewrite (app_assoc (take _ _)), take_drop, Ha.
Qed.

Lemma lent_keeps s r s' : lent s = (r, s') ->
  to_read s' = to_read s /\ match r with Ok l => token s = Ok (Ok l) /\ made s = true | Err _ => True end.
Proof.
  unfold lent, mthen at 1, mget. destruct (made s) eqn:Hm; cbn [negb]; [|by intros [= <- <-]].
  unfold hear, mthen, mget, mlift, mmap_err, mfail, mset, mret.
  assert (forall r s1, to_read s1 = to_read s ->
    (match token s with Err error => Err (not_known (io_text error)) | Ok (Err why) => Err (not_known why) | Ok (Ok lent) => Ok lent end, s1) = (r, s') ->
    to_read s' = to_read s /\ match r with Ok l => token s = Ok (Ok l) /\ true = true | Err _ => True end) as Hend.
  { intros r1 s1 Hs1 [= <- <-]. split; [done|]. by destruct (token s) as [[?|?]|?]. }
  destruct (read_ahead s) as [|b ahead] eqn:Ha; [|by apply Hend].
  destruct (io_read 64 s) as [[first|e] s1] eqn:H1; apply io_read_octets in H1 as [Hr H1]; cbn [map_err].
  - destruct first as [|c first]; [intros [= <- <-]; unfold to_read; rewrite Hr, Ha; by split|].
    apply Hend. unfold to_read. cbn [with_read_ahead read_ahead pipe]. by rewrite Ha, H1.
  - intros [= <- <-]. unfold to_read. rewrite Hr, Ha. by split.
Qed.

(** The names kept are those the system gave, and not too many of them. *)
Definition kept `{Accounts} (names : Names) : Prop :=
  map_Forall (fun sid name => account_name sid = Ok name) names /\ Z.of_nat (size names) <= KEPT_NAMES.

(** C35. Asking who connected loses nothing of what the client sent, and reads
    give it in order; the account named is the one the system names by the
    identifier the client's token proved, never asked of the client's own
    end; and the names kept are what the system said, a bounded number of
    them. *)
Theorem caller_is_its_token `{Accounts} self names r self' names' :
  kept names -> caller (self, names) = (r, (self', names')) ->
  kept names' /\ to_read self' = to_read self
  /\ match r with
     | Ok name => exists sid level, token self = Ok (Ok (sid, level)) /\ made self = true /\ account_name sid = Ok name
     | Err _ => True
     end
  /\ (forall n, match read n self' with
              | (Ok bs, later) => to_read self = bs ++ to_read later
              | (Err _, later) => to_read self = to_read later
              end).
Proof.
  intros [Hk Hsize] Hc. unfold caller in Hc. destruct (lent self) as [l s1] eqn:Hl. apply lent_keeps in Hl as [Hs1 Hl].
  assert (forall s1, to_read s1 = to_read self -> forall n, match read n s1 with
              | (Ok bs, later) => to_read self = bs ++ to_read later
              | (Err _, later) => to_read self = to_read later
              end) as Hread.
  { intros s2 Hs2 n. destruct (read n s2) as [r2 s3] eqn:Hr. apply read_gives in Hr. rewrite <- Hs2. by destruct r2. }
  destruct l as [[sid level]|why]; [|injection Hc as <- <- <-; split_and!; [done..|by apply Hread]].
  destruct Hl as [Ht Hm]. destruct (names !! sid) as [name|] eqn:Hn.
  - injection Hc as <- <- <-. split_and!; [done|done| |by apply Hread]. exists sid, level. split_and!; [done|done|]. by apply Hk.
  - destruct (account_name sid) as [name|why] eqn:Ha; injection Hc as <- <- <-; [|split_and!; [done..|by apply Hread]].
    split_and!; [split|done|by exists sid, level|by apply Hread].
    + apply map_Forall_insert_2; [done|]. case_match; [apply map_Forall_empty|done].
    + destruct (Z.leb_spec KEPT_NAMES (Z.of_nat (size names))) as [Hf|Hf].
      * rewrite insert_empty, map_size_singleton. unfold KEPT_NAMES. lia.
      * rewrite map_size_insert_None by done. lia.
Qed.

Lemma caller_is_its_token_witness :
  let A := accounts_here in
  let self := new (mkWire [Got (lit "hello")] [] []) 7 true (Ok (Ok ([1; 5], 1))) (Ok 42) in
  let self' := mkStream (mkWire [] [] []) (Some 7) true (lit "hello") (Ok (Ok ([1; 5], 1))) (Ok 42) in
  caller (self, ∅) = (Ok (lit "PLANT\xmip"), (self', {[ [1; 5] := lit "PLANT\xmip" ]}))
  /\ to_read self' = lit "hello".
Proof.
  intros A self self'. split; [by vm_compute|].
  apply (caller_is_its_token self ∅ (Ok (lit "PLANT\xmip")) self' {[ [1; 5] := lit "PLANT\xmip" ]}); [|by vm_compute].
  split; [apply map_Forall_empty|]. by vm_compute.
Defined.

(** ** [connect]

    The system opens the pipe, with [None] where every instance is busy, and
    waits for one to be free. *)
Record Client : Type := mkClient {
  opens : list (option (result IoError Z));
  frees : nat -> bool;
  waits : list (option Z);
  times : nat -> Z;
  seen : nat;
}.

Definition busy : IoError := mkIoError TimedOut (lit "every instance of the pipe is busy").

(** Once spent, the pipe is not there. *)
Definition not_there : IoError := mkIoError (OtherKind 2) (lit "not found").
Definition open_identifying : M Client IoError (option (result IoError Z)) := fun s =>
  match opens s with
  | [] => (Ok (Some (Err not_there)), s)
  | o :: rest => (Ok o, mkClient rest (frees s) (waits s) (times s) (seen s))
  end.

Definition now : M Client IoError Z := fun s => (Ok (times s (seen s)), mkClient (opens s) (frees s) (waits s) (times s) (S (seen s))).
Definition wait_free (within : option Z) : M Client IoError bool := fun s =>
  (Ok (frees s (length (waits s))), mkClient (opens s) (frees s) (waits s ++ [within]) (times s) (seen s)).

(** What is left of a patience, of no time under zero. *)
Definition left_of (until : option Z) : M Client IoError (option Z) :=
  match until with None => mret None | Some until => at_ <~ now ;; mret (Some (Z.max 0 (until - at_))) end.

Definition connect_turn (until : option Z) (_ : unit) : M Client IoError (unit + Z) :=
  opened <~ open_identifying ;;
  match opened with
  | Some opened => handle <~ mlift opened ;; mret (inr handle)
  | None =>
      room <~ left_of until ;;
      if bool_decide (room = Some 0) then mfail busy
      else free <~ wait_free room ;; if free : bool then mret (inl tt) else mfail busy
  end.

Definition connect (patience : option Z) : M Client IoError Z :=
  until <~ match patience with None => mret None | Some patience => at_ <~ now ;; mret (Some (at_ + patience)) end ;;
  loop (connect_turn until) (fun _ s => length (opens s)) not_there tt.

(** Every wait for an instance is followed by an open that is answered, so the
    loop ends; no wait is asked for with no time left. *)
Lemma connect_goes_down until : goes_down (connect_turn until) (fun _ s => length (opens s)) (fun _ => True).
Proof.
  intros [] s [] s' _. unfold connect_turn, open_identifying, left_of, mthen, mlift, mret, mfail, wait_free, now.
  destruct (opens s) as [|o rest] eqn:Ho; [discriminate|]. destruct o as [[h|e]|]; [discriminate..|].
  destruct until; cbn; (destruct (bool_decide _); [discriminate|]); cbn; (destruct (frees s (length (waits s))); [|discriminate]);
    intros [= <-]; cbn; split; lia || done.
Qed.

Lemma connect_ends until s : runs (connect_turn until) tt s (loop (connect_turn until) (fun _ s => length (opens s)) not_there tt s).
Proof. apply (loop_runs _ _ _ (fun _ => True)); [apply connect_goes_down|done]. Qed.

Example busy_then_free :
  let s := mkClient [None; None; Some (Ok 9)] (fun _ => true) [] (fun k => 4 * Z.of_nat k) 0 in
  (connect (Some 10) s).1 = Ok 9 /\ waits (connect (Some 10) s).2 = [Some 6; Some 2]
  /\ (connect (Some 8) s).1 = Err busy.
Proof. vm_compute. done. Qed.

(** ** [Listener::accept]

    The instance a client reaches next; what each wait for a client, each
    instance made after and each event made is answered. *)
Record Listener : Type := mkListener {
  next : Z;
  arrivals : list (result IoError unit);
  instances : list (result IoError Z);
  events : list (result IoError unit);
}.

Definition nobody_came : IoError := mkIoError TimedOut (lit "nothing came").

Definition connected : M Listener IoError unit := fun l =>
  match arrivals l with
  | [] => (Err nobody_came, l)
  | a :: rest => (a, mkListener (next l) rest (instances l) (events l))
  end.
Definition instance : M Listener IoError Z := fun l =>
  match instances l with
  | [] => (Err not_there, l)
  | i :: rest => (i, mkListener (next l) (arrivals l) rest (events l))
  end.
Definition event : M Listener IoError unit := fun l =>
  match events l with
  | [] => (Err not_there, l)
  | e :: rest => (e, mkListener (next l) (arrivals l) (instances l) rest)
  end.

Definition accept : M Listener IoError Z :=
  connected ;;;
  after <~ instance ;;
  event ;;;
  self <~ mget ;;
  mset (fun l => mkListener after (arrivals l) (instances l) (events l)) ;;;
  mret (next self).

(** An accept hands out the instance a client reached, and none before a
    client came; one that fails leaves the instance the next client reaches. *)
Lemma accept_spec l r l' : accept l = (r, l') ->
  match r with
  | Ok reached => reached = next l /\ head (arrivals l) = Some (Ok tt) /\ head (instances l) = Some (Ok (next l'))
  | Err _ => next l' = next l
  end.
Proof.
  unfold accept, connected, instance, event, mthen, mget, mset, mret.
  destruct (arrivals l) as [|[[]|e] ?]; [by intros [= <- <-]| |by intros [= <- <-]]. cbn.
  destruct (instances l) as [|[i|e] ?]; [by intros [= <- <-]| |by intros [= <- <-]]. cbn.
  destruct (events l) as [|[[]|e] ?]; by intros [= <- <-].
Qed.
End Pipe.
