(* ===== verification/Fifo.v ===== *)
(** A named pipe on Unix ([src/pipe/unix.rs]): a FIFO, opened within a time
    on a thread of its own. The two threads, the kernel that joins the two
    ends of the FIFO, and who else may come to it, are one system of steps. *)

From Stdlib Require Import String.
From stdpp Require Import relations.
From S2P Require Import Prelude Text Errors.

Module Fifo.

(** ** Making it *)

Record Listener : Type := mkListener { path : bytes }.

Definition owner_alone : IoError := mkIoError Unsupported (lit "a FIFO admits its owner alone").

(** [bind]: [exists_] is what [path.exists()] is answered, [made] what
    [mkfifo] comes to where it is asked. *)
Definition bind (path : bytes) (admit_ : list bytes) (exists_ : bool) (made : result IoError unit) :
    result IoError Listener :=
  if negb (bool_decide (admit_ = [])) then Err owner_alone
  else if negb exists_ then let? _ := made in Ok (mkListener path)
  else Ok (mkListener path).

(** A FIFO has no peer the kernel names. *)
Definition peer_process : option Z := None.

(** ** Opening it

    The thread that opens: not yet at its [open], waiting in it for the other
    end, come back with what it handed over, or gone without a word. *)
Inductive Opener : Type :=
| Starting
| AtOpen
| Handed (file : result IoError unit)
| Lost.

(** The thread that waits for it: in [recv_timeout], past its deadline, in
    the open that releases the other, in [join] with what it will return,
    and returned. *)
Inductive Waiter : Type :=
| Waiting
| Late
| Releasing
| Joining (r : result IoError unit)
| Back (r : result IoError unit).

(** [there]: the path still names the FIFO. [peers]: opens of its other end
    that wait. [met]: the opener's open was joined to a peer's. *)
Record World : Type := mkWorld {
  there : bool;
  peers : nat;
  opener : Opener;
  waiter : Waiter;
  met : bool;
}.

Definition not_found : IoError := mkIoError (OtherKind 2) (lit "No such file or directory (os error 2)").
Definition opener_stopped : IoError := mkIoError (OtherKind 0) (lit "the pipe's opener stopped").

(** The listener dropped: its file is removed. *)
Definition dropped (w : World) : World := mkWorld false (peers w) (opener w) (waiter w) (met w).

Section opened.
(** What [opened] is called with: the end it opens, and how long it waits;
    without a time it opens on its caller's own thread, and no one waits. *)
Context (write : bool) (within : option Z).

Definition too_late (ms : Z) : IoError :=
  mkIoError TimedOut (lit "no " ++ (if write then lit "reader" else lit "writer") ++ lit " came within " ++ dec ms ++ lit " ms").

Definition start (there : bool) (peers : nat) : World := mkWorld there peers Starting Waiting false.

(** What has come back to the caller. *)
Definition returned (w : World) : option (result IoError unit) :=
  match within with
  | None => match opener w with Handed r => Some r | _ => None end
  | Some _ => match waiter w with Back r => Some r | _ => None end
  end.

(** The opener's steps. *)
Inductive opens : World -> World -> Prop :=
| opens_begin n x m : opens (mkWorld true n Starting x m) (mkWorld true n AtOpen x m)
| opens_absent n x m : opens (mkWorld false n Starting x m) (mkWorld false n (Handed (Err not_found)) x m)
| opens_meets t n x m : opens (mkWorld t (S n) AtOpen x m) (mkWorld t n (Handed (Ok tt)) x true).

(** The waiter's steps, the time it was given [ms]. *)
Inductive waits (ms : Z) : World -> World -> Prop :=
| waits_arrival t n r m : waits ms (mkWorld t n (Handed r) Waiting m) (mkWorld t n (Handed r) (Joining r) m)
| waits_lost t n m : waits ms (mkWorld t n Lost Waiting m) (mkWorld t n Lost (Joining (Err opener_stopped)) m)
| waits_deadline t n o m : o = Starting \/ o = AtOpen ->
    waits ms (mkWorld t n o Waiting m) (mkWorld t n o Late m)
| waits_release n o m : waits ms (mkWorld true n o Late m) (mkWorld true n o Releasing m)
| waits_absent n o m : waits ms (mkWorld false n o Late m) (mkWorld false n o (Joining (Err (too_late ms))) m)
| waits_meets t n m :
    waits ms (mkWorld t n AtOpen Releasing m) (mkWorld t n (Handed (Ok tt)) (Joining (Err (too_late ms))) m)
| waits_open t n m :
    waits ms (mkWorld t n (Handed (Ok tt)) Releasing m) (mkWorld t n (Handed (Ok tt)) (Joining (Err (too_late ms))) m)
| waits_join t n o r m : (exists file, o = Handed file) \/ o = Lost ->
    waits ms (mkWorld t n o (Joining r) m) (mkWorld t n o (Back r) m).

(** A step of [opened]'s own. *)
Definition own (w w' : World) : Prop :=
  opens w w' \/ exists ms, within = Some ms /\ waits ms w w'.

(** Those who come to the other end, and go. *)
Inductive others : World -> World -> Prop :=
| others_come n o x m : others (mkWorld true n o x m) (mkWorld true (S n) o x m)
| others_go t n o x m : others (mkWorld t (S n) o x m) (mkWorld t n o x m).

(** What the system may do to it: the FIFO removed, an open refused, the
    opener's thread stopped. *)
Inductive befalls : World -> World -> Prop :=
| befalls_dropped w : befalls w (dropped w)
| befalls_refused t n o x m e : o = Starting \/ o = AtOpen ->
    befalls (mkWorld t n o x m) (mkWorld t n (Handed (Err e)) x m)
| befalls_release_refused t n o ms m : within = Some ms ->
    befalls (mkWorld t n o Releasing m) (mkWorld t n o (Joining (Err (too_late ms))) m)
| befalls_stopped t n o x m : o = Starting \/ o = AtOpen -> befalls (mkWorld t n o x m) (mkWorld t n Lost x m).

Definition step (w w' : World) : Prop := own w w' \/ others w w' \/ befalls w w'.
Definition calm (w w' : World) : Prop := own w w' \/ others w w'.

(** ** What holds of it *)

Definition ended (o : Opener) : Prop := (exists file, o = Handed file) \/ o = Lost.

(** Whatever happens: a file waited for in time met its peer, and nobody
    returns before the opener's thread has ended. *)
Record sound (w : World) : Prop := {
  sound_met : (waiter w = Waiting /\ opener w = Handed (Ok tt)) \/ waiter w = Joining (Ok tt) \/ waiter w = Back (Ok tt) ->
    met w = true;
  sound_back : forall r, waiter w = Back r -> ended (opener w);
  sound_alone : within = None -> waiter w = Waiting;
}.

(** Of a step, what it leaves as it was and what it cannot be. *)
Ltac step_cases Hm Hb Ha :=
  first
    [ done
    | intros [[? ?]|[?|?]]; solve [congruence | apply Hm; first [left; split; congruence | right; left; congruence | right; right; congruence]]
    | intros r0 Hr; first [congruence | destruct (Hb _ Hr) as [[? ?]|?]; solve [congruence | left; eauto | by right]]
    | intros Hn; specialize (Ha Hn); congruence
    | intros Hn; congruence ].

Lemma sound_step w w' : step w w' -> sound w -> sound w'.
Proof.
  intros Hs [Hm Hb Ha]. destruct Hs as [[Ho | (ms & Hw & Ho)] | [Ho | Ho]]; destruct Ho; cbn in *; split; cbn;
    try step_cases Hm Hb Ha.
  all: intros; assumption.
Qed.

Lemma sound_start t n : sound (start t n).
Proof. split; cbn; try done. by intros [[_ ?]|[?|?]]. Qed.

Lemma sound_reach w w' : rtc step w w' -> sound w -> sound w'.
Proof. induction 1; eauto using sound_step. Qed.

(** While the FIFO stays and its opens are not refused, the waiter's release
    has an end to meet. *)
Record standing (w : World) : Prop := {
  st_there : there w = true;
  st_handed : forall r, opener w = Handed r -> r = Ok tt;
  st_kept : opener w <> Lost;
  st_joined : forall r, waiter w = Joining r -> ended (opener w);
}.

Lemma standing_step w w' : calm w w' -> standing w -> standing w'.
Proof.
  intros [[Ho | (ms & Hw & Ho)] | Ho] [Ht Hh Hl Hj]; destruct Ho; cbn in *; split; cbn;
    try solve [done | congruence | eauto | intros; congruence | intros; left; eauto
      | intros r0 Hr; destruct (Hj _ Hr) as [[? ?]|?]; congruence | intros; by eapply Hj].
Qed.

Lemma standing_reach w w' : rtc calm w w' -> standing w -> standing w'.
Proof. induction 1; eauto using standing_step. Qed.

(** The steps [opened] has left. *)
Definition left_of (w : World) : nat :=
  (match opener w with Starting => 2 | AtOpen => 1 | _ => 0 end
   + match waiter w with Waiting => 4 | Late => 3 | Releasing => 2 | Joining _ => 1 | Back _ => 0 end)%nat.

Lemma own_goes_down w w' : own w w' -> (left_of w' < left_of w)%nat.
Proof. intros [Ho | (ms & _ & Ho)]; destruct Ho; unfold left_of; cbn; lia. Qed.

Lemma standing_goes_on ms w :
  within = Some ms -> standing w -> returned w = None -> exists w', own w w'.
Proof.
  intros Hw [Ht Hh Hl Hj] Hr. unfold returned in Hr. rewrite Hw in Hr. destruct w as [t n o x m]. cbn in *. subst t.
  assert (forall w', waits ms (mkWorld true n o x m) w' -> exists w', own (mkWorld true n o x m) w') as Hgo.
  { intros w' H. exists w'. right. by exists ms. }
  destruct o as [| |r|]; [| | |done].
  - eexists. left. constructor.
  - destruct x; try done; [eapply Hgo, waits_deadline; by right | eapply Hgo, waits_release | eapply Hgo, waits_meets |].
    destruct (Hj _ eq_refl) as [[? ?]|?]; discriminate.
  - specialize (Hh _ eq_refl) as ->.
    destruct x; try done; eapply Hgo; [apply waits_arrival | apply waits_release | apply waits_open | apply waits_join; left; eauto].
Qed.

(** Every run that is left to its own steps comes back. *)
Lemma comes_back ms w :
  within = Some ms -> standing w -> exists w' r, rtc own w w' /\ returned w' = Some r.
Proof.
  intros Hw. remember (left_of w) as k eqn:Hk. revert w Hk.
  induction k as [k IH] using lt_wf_ind. intros w -> Hs.
  destruct (returned w) as [r|] eqn:Hr; [by exists w, r|].
  destruct (standing_goes_on ms w Hw Hs Hr) as [w1 H1].
  destruct (IH (left_of w1) (own_goes_down _ _ H1) w1 eq_refl (standing_step _ _ (or_introl H1) Hs)) as (w' & r & H2 & H3).
  exists w', r. split; [by eapply rtc_l | done].
Qed.

(** C36. A FIFO opened within a time is handed out with its peer and with
    nothing left running. However its two threads, those who come to its
    other end and what befalls it interleave: a file is returned only where
    the open was joined to a peer's, never to the open that releases it; and
    nothing is returned before the thread that opens has ended. While the
    FIFO stays and its opens are not refused, a call comes back, whoever
    comes or not: it is never without a step until it has returned, and it
    has no more than six. *)
Theorem no_thread_left_behind t n w :
  rtc step (start t n) w ->
  (returned w = Some (Ok tt) -> met w = true)
  /\ (is_Some (returned w) -> ended (opener w))
  /\ (forall ms, within = Some ms -> rtc calm (start true n) w ->
        (left_of w <= 6)%nat /\ (forall w', own w w' -> (left_of w' < left_of w)%nat)
        /\ (returned w = None -> exists w', own w w')
        /\ exists w' r, rtc own w w' /\ returned w' = Some r).
Proof.
  intros Hrun. destruct (sound_reach _ _ Hrun (sound_start t n)) as [Hm Hb Ha]. unfold returned. split_and!.
  - destruct within; intros Hr; apply Hm.
    + right. right. destruct (waiter w); try discriminate. by injection Hr as ->.
    + left. split; [by apply Ha|]. destruct (opener w); try discriminate. by injection Hr as ->.
  - destruct within; intros [r Hr].
    + destruct (waiter w) eqn:Hx; try discriminate. by eapply Hb.
    + destruct (opener w) eqn:Hx; try discriminate. left. eauto.
  - intros ms Hw Hcalm.
    assert (standing w) as Hs by (apply (standing_reach _ _ Hcalm); by split).
    split_and!; [| intros; by apply own_goes_down | by apply (standing_goes_on ms) | by apply (comes_back ms)].
    unfold left_of. destruct (opener w), (waiter w); lia.
Qed.

(** Where the FIFO is removed while an open of it waits, as a listener
    dropped removes it, the release finds nothing to open, and the wait for
    the thread never ends: nothing of its own is left to do, and nobody can
    come. *)
Lemma removed_while_waiting ms :
  within = Some ms ->
  exists w, rtc step (start true 0) w /\ returned w = None /\ opener w = AtOpen
    /\ (forall w', ~ own w w') /\ (forall w', ~ others w w').
Proof.
  intros Hw. exists (mkWorld false 0 AtOpen (Joining (Err (too_late ms))) false).
  assert (forall a b, waits ms a b -> step a b) as Hwait by (intros a b H; left; right; by exists ms).
  split_and!.
  - eapply rtc_l; [left; left; apply opens_begin|].
    eapply rtc_l; [right; right; apply befalls_dropped|]. cbn.
    eapply rtc_l; [apply Hwait, waits_deadline; by right|].
    eapply rtc_l; [apply Hwait, waits_absent|]. apply rtc_refl.
  - unfold returned. by rewrite Hw.
  - done.
  - intros w' [H | (ms' & _ & H)]; inversion H; subst; try discriminate.
    all: match goal with Hor : _ \/ _ |- _ => destruct Hor as [[? ?]|?]; discriminate end.
  - intros w' H. inversion H.
Qed.

End opened.

(** [accept] opens it to read, [connect] to write. *)
Definition accept (within : option Z) : World -> World -> Prop := step false within.
Definition connect (patience : option Z) : World -> World -> Prop := step true patience.

(** A wait nobody came to, released at its deadline. *)
Definition example_end : World :=
  mkWorld true 0 (Handed (Ok tt)) (Back (Err (too_late false 10))) false.

Lemma example_wait : rtc (calm false (Some 10)) (start true 0) example_end.
Proof.
  assert (forall a b, waits false 10 a b -> calm false (Some 10) a b) as Hwait by (intros a b H; left; right; by exists 10).
  eapply rtc_l; [left; left; apply opens_begin|].
  eapply rtc_l; [apply Hwait, waits_deadline; by right|].
  eapply rtc_l; [apply Hwait, waits_release|].
  eapply rtc_l; [apply Hwait, waits_meets|].
  eapply rtc_l; [apply Hwait, waits_join; left; eauto|]. apply rtc_refl.
Qed.

Lemma no_thread_left_behind_witness :
  (returned (Some 10) example_end = Some (Ok tt) -> met example_end = true)
  /\ (is_Some (returned (Some 10) example_end) -> ended (opener example_end))
  /\ (forall ms, Some 10 = Some ms -> rtc (calm false (Some 10)) (start true 0) example_end ->
        (left_of example_end <= 6)%nat
        /\ (forall w', own false (Some 10) example_end w' -> (left_of w' < left_of example_end)%nat)
        /\ (returned (Some 10) example_end = None -> exists w', own false (Some 10) example_end w')
        /\ exists w' r, rtc (own false (Some 10)) example_end w' /\ returned (Some 10) w' = Some r).
Proof.
  apply (no_thread_left_behind false (Some 10) true 0 example_end).
  apply (rtc_subrel (calm false (Some 10)) _); [|apply example_wait].
  intros a b [H|H]; [by left | by right; left].
Defined.

(** [admit] naming anyone is refused before anything is made. *)
Lemma bind_admits_nobody path admitted exists_ made :
  admitted <> [] -> bind path admitted exists_ made = Err owner_alone.
Proof. intros Ha. unfold bind. by rewrite bool_decide_eq_false_2. Qed.

End Fifo.
