(* ===== verification/Windows.v ===== *)
(** The calls the crate makes into Windows: what each is given and answers,
    what its documentation asks of a caller and says of its answers, and a
    logic for code that is made of them ([src/pipe/windows/], the one folder
    with [unsafe] code). *)

From Stdlib Require Import String.
From stdpp Require Import gmap.
From S2P Require Import Prelude Text Errors.

(** What the standard library says of a code of the system's. *)
Class System := {
  error_kind : Z -> ErrorKind;
  error_detail : Z -> bytes;
}.

(** [codec::wide], of another package: text as Windows takes it, ended by a
    NUL, and read back. An error is what it displays. *)
Class WideCode := {
  wide_encode : bytes -> result bytes (list Z);
  wide_terminated : list Z -> result bytes (list Z);
  wide_decode : list Z -> bytes;
  encode_ends : forall text wide, wide_encode text = Ok wide -> last wide = Some 0;
  terminated_ends : forall units wide, wide_terminated units = Ok wide -> last wide = Some 0;
}.

(** [{}] of [io::Error::last_os_error()]. *)
Definition os_error_text `{System} (code : Z) : bytes := error_detail code ++ lit " (os error " ++ dec code ++ lit ")".

(** ** UTF-16, as [String::from_utf16_lossy] reads it *)

(** [char]'s UTF-8. *)
Definition char_utf8 (c : Z) : bytes :=
  if c <? 0x80 then [c]
  else if c <? 0x800 then [0xc0 + c / 64; 0x80 + c mod 64]
  else if c <? 0x10000 then [0xe0 + c / 4096; 0x80 + c / 64 mod 64; 0x80 + c mod 64]
  else [0xf0 + c / 262144; 0x80 + c / 4096 mod 64; 0x80 + c / 64 mod 64; 0x80 + c mod 64].

Definition leading (u : Z) : bool := between 0xd800 u 0xdbff.
Definition trailing (u : Z) : bool := between 0xdc00 u 0xdfff.
Definition REPLACEMENT : Z := 0xfffd.

Fixpoint utf16_lossy (units : list Z) : bytes :=
  match units with
  | [] => []
  | u :: rest =>
      if leading u then
        match rest with
        | v :: rest' =>
            if trailing v then char_utf8 (0x10000 + (u - 0xd800) * 1024 + (v - 0xdc00)) ++ utf16_lossy rest'
            else char_utf8 REPLACEMENT ++ utf16_lossy rest
        | [] => char_utf8 REPLACEMENT
        end
      else if trailing u then char_utf8 REPLACEMENT ++ utf16_lossy rest
      else char_utf8 u ++ utf16_lossy rest
  end.

(** ** Security identifiers

    The octets of one: a revision, how many parts it has, its authority in
    six octets, and its parts of four. *)
Definition sid_length (bs : bytes) : Z := 8 + 4 * default 0 (bs !! 1%nat).
(** [bs] opens with one. *)
Definition opens_sid (bs : bytes) : Prop := octets bs /\ (exists n, bs !! 1%nat = Some n) /\ sid_length bs <= len bs.

(** Octets copied over words that were zero, the lowest octet first. *)
Fixpoint words (bs : bytes) : list Z :=
  match bs with
  | b0 :: b1 :: b2 :: b3 :: bs => b0 + 256 * b1 + 65536 * b2 + 16777216 * b3 :: words bs
  | [] => []
  | [b0] => [b0]
  | [b0; b1] => [b0 + 256 * b1]
  | [b0; b1; b2] => [b0 + 256 * b1 + 65536 * b2]
  end.
Definition word_octets (w : Z) : bytes := [w mod 256; w / 256 mod 256; w / 65536 mod 256; w / 16777216 mod 256].
Definition octets_of_words (ws : list Z) : bytes := concat (map word_octets ws).

(** Words that hold one identifier and nothing else. *)
Definition sid_words (ws : list Z) : Prop := exists bs, octets bs /\ (exists n, bs !! 1%nat = Some n) /\ sid_length bs = len bs /\ ws = words bs.

Lemma words_ind (P : bytes -> Prop) :
  P [] -> (forall a, P [a]) -> (forall a b, P [a; b]) -> (forall a b c, P [a; b; c]) ->
  (forall a b c d bs, P bs -> P (a :: b :: c :: d :: bs)) -> forall bs, P bs.
Proof.
  intros H0 H1 H2 H3 H4. fix IH 1. intros [|a [|b [|c [|d bs]]]]; [done..|]. apply H4, IH.
Qed.

Lemma octets_of_words_words bs : octets bs -> (exists n, len bs = 4 * n) -> octets_of_words (words bs) = bs.
Proof.
  induction bs as [|a|a b|a b c|a b c d bs IH] using words_ind; intros Ho [n Hn]; unfold len in Hn; cbn [length] in Hn; try lia; [done|].
  assert (octets [a; b; c; d] /\ octets bs) as [Hw Hbs] by (apply octets_app; exact Ho).
  cbn [words]. unfold octets_of_words. cbn [map concat]. fold (octets_of_words (words bs)).
  rewrite IH; [|done|exists (n - 1); unfold len; lia].
  unfold octets in Hw. rewrite !Forall_cons in Hw. destruct Hw as (Ha & Hb & Hc & Hd & _). unfold is_octet in *. unfold word_octets.
  cbn [app]. repeat f_equal; Z.to_euclidean_division_equations; lia.
Qed.

Lemma sid_words_open ws : sid_words ws -> opens_sid (octets_of_words ws).
Proof.
  intros (bs & Ho & (n & Hn) & Hl & ->). rewrite octets_of_words_words; [|done|].
  - split_and!; [done|by eexists|lia].
  - unfold sid_length in Hl. rewrite Hn in Hl. cbn in Hl. exists (2 + n). lia.
Qed.

(** ** The calls *)

Module Win.

Inductive TokenClass : Type := TokenUser | TokenImpersonationLevel.

(** What [GetTokenInformation] leaves: its failure's code, the size it wrote,
    the octets of the buffer, and where in them [User.Sid] points. *)
Record Told : Type := mkTold { failed : option Z; written : Z; content : bytes; sid_at : Z }.

(** What a lookup leaves: its failure's code, the two sizes, and the two
    buffers. *)
Record Found : Type := mkFound { missed : option Z; first_size : Z; second_size : Z; first : list Z; second : list Z }.

(** A place for something that was left uninitialized or zero: how much it
    holds, and how much of that the call is told of. *)
Record Room : Type := mkRoom { holds : Z; told : Z }.

(** An [OVERLAPPED]: its address, and the event it wakes. *)
Record Overlapped : Type := mkOverlapped { at_ : Z; wakes : Z }.

(** A call and what it answers; a failure is a code, the thread's last error.
    [CancelAllIo] is [CancelIoEx] of no [OVERLAPPED]. [Zeroed] and [Leave] are an [OVERLAPPED] of the stack made and gone.
    [Now] is [Instant::now], in nanoseconds. [LockMake] makes a lock of the process's that its threads share, holding what a
    connection's [open] holds; [LockRead] reads it and [LockWrite] writes it. [Must] is no call: it is what an [unsafe] block leans on, or a slice that
    would panic without it. *)
Inductive Call : Type -> Type :=
| Must (P : Prop) : Call unit
| OpenThreadToken : Call (result Z Z)
| OpenProcessToken : Call (result Z Z)
| GetTokenInformation (token : Z) (class : TokenClass) (room : Room) : Call Told
| GetLengthSid (sid : bytes) : Call Z
| LookupAccountSid (sid : list Z) (name domain : Room) : Call Found
| LookupAccountName (name : list Z) (sid domain : Room) : Call Found
| ConvertSidToStringSid (sid : list Z) : Call (result Z Z)
| Memory (place : Z) : Call (list Z)
| LocalFree (place : Z) : Call unit
| CloseHandle (handle : Z) : Call unit
| ConvertStringSecurityDescriptor (sddl : list Z) : Call (result Z Z)
| CreateNamedPipe (path : list Z) (open mode most out_ in_ : Z) (descriptor : Z) : Call (result Z Z)
| ConnectNamedPipe (pipe : Z) (overlapped : Overlapped) : Call (option Z)
| ImpersonateNamedPipeClient (pipe : Z) : Call (option Z)
| RevertToSelf : Call (option Z)
| GetNamedPipeClientProcessId (pipe : Z) : Call (result Z Z)
| CreateFile (path : list Z) (access share disposition flags : Z) : Call (result Z Z)
| WaitNamedPipe (path : list Z) (milliseconds : Z) : Call bool
| CreateEvent : Call (result Z Z)
| Zeroed : Call Z
| Leave (overlapped : Z) : Call unit
| ReadFile (pipe : Z) (buffer : Room) (overlapped : Overlapped) : Call (option Z)
| WriteFile (pipe : Z) (buffer : bytes) (length : Z) (overlapped : Overlapped) : Call (option Z)
| CancelIoEx (pipe : Z) (overlapped : Z) : Call unit
| CancelAllIo (pipe : Z) : Call unit
| GetOverlappedResult (pipe : Z) (overlapped : Z) : Call (result Z Z * bytes)
| WaitForSingleObject (event : Z) (milliseconds : Z) : Call bool
| Now : Call Z
| LockMake (held : option Z) : Call Z
| LockRead (lock : Z) : Call (option Z)
| LockWrite (lock : Z) (held : option Z) : Call unit.

(** Code that makes calls, whatever they answer. *)
Inductive prog (A : Type) : Type :=
| Ret (a : A)
| Do {B} (c : Call B) (k : B -> prog A).
Arguments Ret {A} a.
Arguments Do {A B} c k.

Fixpoint bind {A B} (p : prog A) (k : A -> prog B) : prog B :=
  match p with Ret a => k a | Do c k' => Do c (fun b => bind (k' b) k) end.

Definition call {A} (c : Call A) : prog A := Do c Ret.

(** ** What the documentation says

    Handles of this process that are open, memory the system gave and has not
    got back, whom the thread acts as, the overlapped operations — the
    [OVERLAPPED]s that live, and those in flight, which the kernel writes when
    their operation ends — and what the locks hold. *)
Inductive Kind : Type := Token | PipeEnd | Event.
#[global] Instance Kind_eq_dec : EqDecision Kind.
Proof. solve_decision. Defined.

Record Flight : Type := mkFlight { on : Z; signals : Z; most : Z; reads : bool }.

(** The thread is itself, stands in for a client, or is left standing in for
    one: a [RevertToSelf] failed, which its documentation says it may. *)
Inductive Identity : Type := Itself | AsClient | LeftAsClient.

Record t : Type := mk {
  handles : gmap Z Kind;
  memory : gmap Z (list Z);
  standing_in : Identity;
  living : gset Z;
  flying : gmap Z Flight;
  locks : gmap Z (option Z);
}.

Definition with_handles (f : gmap Z Kind -> gmap Z Kind) (s : t) : t :=
  mk (f (handles s)) (memory s) (standing_in s) (living s) (flying s) (locks s).
Definition with_memory (f : gmap Z (list Z) -> gmap Z (list Z)) (s : t) : t :=
  mk (handles s) (f (memory s)) (standing_in s) (living s) (flying s) (locks s).
Definition with_standing (i : Identity) (s : t) : t := mk (handles s) (memory s) i (living s) (flying s) (locks s).
Definition with_living (f : gset Z -> gset Z) (s : t) : t :=
  mk (handles s) (memory s) (standing_in s) (f (living s)) (flying s) (locks s).
Definition with_flying (f : gmap Z Flight -> gmap Z Flight) (s : t) : t :=
  mk (handles s) (memory s) (standing_in s) (living s) (f (flying s)) (locks s).
Definition with_locks (f : gmap Z (option Z) -> gmap Z (option Z)) (s : t) : t :=
  mk (handles s) (memory s) (standing_in s) (living s) (flying s) (f (locks s)).

Definition ERROR_IO_PENDING : Z := 997.

Definition fits (room : Room) : Prop := 0 <= told room <= holds room.
Definition terminated (wide : list Z) : Prop := last wide = Some 0.

(** An operation may start with [o]: on an open end, with an event, and an
    [OVERLAPPED] that lives and has no operation of its own. *)
Definition may_start (pipe : Z) (o : Overlapped) (s : t) : Prop :=
  handles s !! pipe = Some PipeEnd /\ handles s !! wakes o = Some Event
  /\ at_ o ∈ living s /\ flying s !! at_ o = None.

(** What a caller owes at each call. *)
Definition requires {A} (c : Call A) (s : t) : Prop :=
  match c with
  | Must P => P
  | GetTokenInformation token _ room => handles s !! token = Some Token /\ fits room
  | GetLengthSid sid => opens_sid sid
  | LookupAccountSid sid name domain => opens_sid (octets_of_words sid) /\ fits name /\ fits domain
  | LookupAccountName name sid domain => terminated name /\ fits sid /\ fits domain
  | ConvertSidToStringSid sid => opens_sid (octets_of_words sid)
  | Memory place | LocalFree place => is_Some (memory s !! place)
  | CloseHandle handle => is_Some (handles s !! handle) /\ map_Forall (fun _ f => on f <> handle /\ signals f <> handle) (flying s)
  | ConvertStringSecurityDescriptor sddl => terminated sddl
  | CreateNamedPipe path _ _ _ _ _ descriptor => terminated path /\ is_Some (memory s !! descriptor)
  | ConnectNamedPipe pipe o => may_start pipe o s
  | ReadFile pipe buffer o => may_start pipe o s /\ fits buffer
  | WriteFile pipe buffer length o => may_start pipe o s /\ fits (mkRoom (len buffer) length)
  | RevertToSelf => standing_in s = AsClient
  | ImpersonateNamedPipeClient pipe | GetNamedPipeClientProcessId pipe | CancelAllIo pipe => handles s !! pipe = Some PipeEnd
  | CreateFile path _ _ _ _ | WaitNamedPipe path _ => terminated path
  | Leave o => o ∈ living s /\ flying s !! o = None
  | CancelIoEx pipe o | GetOverlappedResult pipe o => handles s !! pipe = Some PipeEnd /\ exists f, flying s !! o = Some f /\ on f = pipe
  | WaitForSingleObject event _ => handles s !! event = Some Event
  | LockRead lock | LockWrite lock _ => is_Some (locks s !! lock)
  | OpenThreadToken | OpenProcessToken | CreateEvent | Zeroed | Now | LockMake _ => True
  end.

(** A handle made, of a number no open handle has. *)
Definition made (k : Kind) (s : t) (r : result Z Z) (s' : t) : Prop :=
  match r with Ok h => handles s !! h = None /\ s' = with_handles <[h := k]> s | Err _ => s' = s end.

(** Memory given, holding what [P] says. *)
Definition gave (P : list Z -> Prop) (s : t) (r : result Z Z) (s' : t) : Prop :=
  match r with
  | Ok p => memory s !! p = None /\ exists held, P held /\ s' = with_memory <[p := held]> s
  | Err _ => s' = s
  end.

(** An operation started, or refused: one that started is in flight until its
    result is taken, ended already or not. *)
Definition started (o : Z) (f : Flight) (s : t) (r : option Z) (s' : t) : Prop :=
  if bool_decide (r = None \/ r = Some ERROR_IO_PENDING) then s' = with_flying <[o := f]> s else s' = s.

(** A buffer a lookup wrote: all the room it has, its size within what the
    call was told. *)
Definition wrote (room : Room) (size : Z) (buffer : list Z) : Prop :=
  0 <= size <= told room /\ len buffer = holds room.

(** What the system may answer, and what is so after. *)
Definition answers {A} (c : Call A) (s : t) : A -> t -> Prop :=
  match c in Call A return A -> t -> Prop with
  | Must _ => fun _ s' => s' = s
  | OpenThreadToken | OpenProcessToken => made Token s
  | GetTokenInformation _ class room => fun r s' =>
      s' = s /\ octets (content r) /\ 0 <= written r < 2 ^ 32
      /\ (failed r = None ->
          len (content r) = holds room
          /\ match class with
             | TokenUser => 0 <= sid_at r <= len (content r) /\ opens_sid (zdrop (sid_at r) (content r))
             | TokenImpersonationLevel => 4 <= written r
             end)
  | GetLengthSid sid => fun n s' => s' = s /\ n = sid_length sid
  | LookupAccountSid _ name domain => fun r s' =>
      s' = s /\ 0 <= first_size r < 2 ^ 32 /\ 0 <= second_size r < 2 ^ 32
      /\ (missed r = None -> wrote name (first_size r) (first r) /\ wrote domain (second_size r) (second r))
  | LookupAccountName _ sid domain => fun r s' =>
      s' = s /\ 0 <= first_size r < 2 ^ 32 /\ 0 <= second_size r < 2 ^ 32
      /\ (missed r = None -> opens_sid (octets_of_words (first r)))
  | ConvertSidToStringSid _ => gave (fun held => 0 ∈ held) s
  | Memory place => fun held s' => s' = s /\ memory s !! place = Some held
  | LocalFree place => fun _ s' => s' = with_memory (delete place) s
  | CloseHandle handle => fun _ s' => s' = with_handles (delete handle) s
  | ConvertStringSecurityDescriptor _ => gave (fun _ => True) s
  | CreateNamedPipe _ _ _ _ _ _ _ | CreateFile _ _ _ _ _ => made PipeEnd s
  | ConnectNamedPipe pipe o => started (at_ o) (mkFlight pipe (wakes o) 0 false) s
  | ReadFile pipe buffer o => started (at_ o) (mkFlight pipe (wakes o) (told buffer) true) s
  | WriteFile pipe _ length o => started (at_ o) (mkFlight pipe (wakes o) length false) s
  | ImpersonateNamedPipeClient _ => fun r s' => s' = if r is None then with_standing AsClient s else s
  | RevertToSelf => fun r s' => s' = with_standing (if r is None then Itself else LeftAsClient) s
  | GetNamedPipeClientProcessId _ => fun _ s' => s' = s
  | WaitNamedPipe _ _ | WaitForSingleObject _ _ => fun _ s' => s' = s
  | CreateEvent => made Event s
  | Now => fun _ s' => s' = s
  | Zeroed => fun o s' => (o ∉ living s) /\ flying s !! o = None /\ s' = with_living (union {[o]}) s
  | Leave o => fun _ s' => s' = with_living (fun l => l ∖ {[o]}) s
  | CancelIoEx _ _ | CancelAllIo _ => fun _ s' => s' = s
  | LockMake held => fun lock s' => locks s !! lock = None /\ s' = with_locks <[lock := held]> s
  | LockRead lock => fun held s' => s' = s /\ locks s !! lock = Some held
  | LockWrite lock held => fun _ s' => s' = with_locks <[lock := held]> s
  | GetOverlappedResult _ o => fun r s' =>
      s' = with_flying (delete o) s
      /\ match r.1, flying s !! o with
         | Ok moved, Some f => 0 <= moved <= most f /\ octets r.2 /\ len r.2 = if reads f then moved else 0
         | _, _ => True
         end
  end.

(** ** The logic

    [safe p s Q]: from [s], whatever the system answers, [p] never makes a
    call that owes something it has not got, and what it comes to is in
    [Q]. *)
Fixpoint safe {A} (p : prog A) (s : t) (Q : A -> t -> Prop) : Prop :=
  match p with
  | Ret a => Q a s
  | Do c k => requires c s /\ forall b s', answers c s b s' -> safe (k b) s' Q
  end.

(** [comes p s a s']: with answers the system may give, [p] comes to [a]. *)
Fixpoint comes {A} (p : prog A) (s : t) (a : A) (s' : t) : Prop :=
  match p with
  | Ret a' => a' = a /\ s' = s
  | Do c k => exists b s1, answers c s b s1 /\ comes (k b) s1 a s'
  end.

(** A call and what it was answered, and what a program asked and was
    answered. *)
Inductive Answered : Type :=
| mkAnswered {B} (c : Call B) (b : B).

(** [comes_by p s tr a s']: so, by the calls and the answers of [tr]. *)
Fixpoint comes_by {A} (p : prog A) (s : t) (tr : list Answered) (a : A) (s' : t) : Prop :=
  match p with
  | Ret a' => tr = [] /\ a' = a /\ s' = s
  | Do c k => exists b s1 tr', tr = mkAnswered c b :: tr' /\ answers c s b s1 /\ comes_by (k b) s1 tr' a s'
  end.

Lemma safe_weaken {A} (p : prog A) : forall s (Q Q' : A -> t -> Prop),
  safe p s Q -> (forall a s', Q a s' -> Q' a s') -> safe p s Q'.
Proof.
  induction p as [a|B c k IH]; intros s Q Q' H HQ; [by apply HQ|]. destruct H as [Hr H]. split; [done|].
  intros b s' Hb. eapply IH; [by apply H|done].
Qed.

Lemma safe_bind {A B} (p : prog A) (k : A -> prog B) : forall s (Q : B -> t -> Prop),
  safe (bind p k) s Q <-> safe p s (fun a s' => safe (k a) s' Q).
Proof.
  induction p as [a|C c k' IH]; intros s Q; [done|]. cbn [bind safe].
  split; intros [Hr H]; (split; [done|]); intros b s' Hb; apply IH, H, Hb.
Qed.

Lemma safe_seq {A B} (p : prog A) (k : A -> prog B) s (Q : B -> t -> Prop) :
  safe p s (fun a s' => safe (k a) s' Q) -> safe (bind p k) s Q.
Proof. apply safe_bind. Qed.

(** Into the first part of a sequence, what it was matched on known. *)
Ltac seq := cbv beta iota; apply safe_seq.

(** A spec used in what follows. *)
Lemma safe_then {A B} (p : prog A) (k : A -> prog B) s (Q : A -> t -> Prop) (Q' : B -> t -> Prop) :
  safe p s Q -> (forall a s', Q a s' -> safe (k a) s' Q') -> safe (bind p k) s Q'.
Proof. intros H Hk. apply safe_bind. eapply safe_weaken; [exact H|exact Hk]. Qed.

Lemma safe_call {A B} (c : Call A) (k : A -> prog B) s (Q : B -> t -> Prop) :
  requires c s -> (forall b s', answers c s b s' -> safe (k b) s' Q) -> safe (bind (call c) k) s Q.
Proof. intros Hr H. by split. Qed.

(** What is safe says of what it comes to. *)
Lemma safe_comes {A} (p : prog A) : forall s Q a s', safe p s Q -> comes p s a s' -> Q a s'.
Proof.
  induction p as [a'|B c k IH]; intros s Q a s' H; cbn [comes]; [by intros [-> ->]|].
  destruct H as [_ H]. intros (b & s1 & Hb & Hc). eapply IH; [by apply H|done].
Qed.

(** Of a run its trace is kept; what comes, comes by some trace, and what is
    done in turn comes by its parts' traces. *)
Lemma comes_by_comes {A} (p : prog A) : forall s tr a s', comes_by p s tr a s' -> comes p s a s'.
Proof.
  induction p as [a'|B c k IH]; intros s tr a s'; cbn; [by intros (_ & -> & ->)|].
  intros (b & s1 & tr' & _ & Hb & H). exists b, s1. split; [done|]. by eapply IH.
Qed.

Lemma comes_comes_by {A} (p : prog A) : forall s a s', comes p s a s' -> exists tr, comes_by p s tr a s'.
Proof.
  induction p as [a'|B c k IH]; intros s a s'; cbn; [intros [-> ->]; by exists []|].
  intros (b & s1 & Hb & H). apply IH in H as [tr H]. exists (mkAnswered c b :: tr), b, s1, tr. by split_and!.
Qed.

Lemma comes_by_bind {A B} (p : prog A) (k : A -> prog B) : forall s tr b s',
  comes_by (bind p k) s tr b s' <->
  exists tr1 tr2 a s1, tr = tr1 ++ tr2 /\ comes_by p s tr1 a s1 /\ comes_by (k a) s1 tr2 b s'.
Proof.
  induction p as [a|C c k' IH]; intros s tr b s'; cbn [bind comes_by].
  - split; [intros H; by exists [], tr, a, s|]. by intros (tr1 & tr2 & a' & s1 & -> & (-> & -> & ->) & H).
  - split.
    + intros (x & s1 & tr' & -> & Hx & H). apply IH in H as (tr1 & tr2 & a & s2 & -> & H1 & H2).
      exists (mkAnswered c x :: tr1), tr2, a, s2. split_and!; [done|by exists x, s1, tr1|done].
    + intros (tr1 & tr2 & a & s2 & -> & (x & s1 & tr' & -> & Hx & H1) & H2). exists x, s1, (tr' ++ tr2).
      split_and!; [done|done|]. apply IH. by exists tr', tr2, a, s2.
Qed.

Lemma safe_comes_by {A} (p : prog A) s Q tr a s' : safe p s Q -> comes_by p s tr a s' -> Q a s'.
Proof. intros Hs Hc. eapply safe_comes; [exact Hs|]. by eapply comes_by_comes. Qed.

(** What is made and gone again leaves what was. *)

(** A handle made and closed again leaves what was. *)
Lemma closed_again h k s : handles s !! h = None ->
  with_handles (delete h) (with_handles <[h := k]> s) = s.
Proof. intros Hh. destruct s as [hs ms st lv fl lk]. unfold with_handles. cbn in *. by rewrite delete_insert_id. Qed.

(** No operation in flight is of a handle that was not open when it started. *)
Definition grounded (s : t) : Prop :=
  map_Forall (fun _ f => is_Some (handles s !! on f) /\ is_Some (handles s !! signals f)) (flying s).

Lemma may_close h k s : grounded s -> handles s !! h = None -> requires (CloseHandle h) (with_handles <[h := k]> s).
Proof.
  intros Hg Hh. split; cbn; [rewrite lookup_insert_eq; by eexists|]. intros o f Hf. destruct (Hg o f Hf) as [[? H1] [? H2]].
  split; intros Heq; rewrite Heq in *; congruence.
Qed.

Lemma freed_again p held s : memory s !! p = None -> with_memory (delete p) (with_memory <[p := held]> s) = s.
Proof. intros Hp. destruct s as [hs ms st lv fl lk]. unfold with_memory. cbn in *. by rewrite delete_insert_id. Qed.

(** The [OVERLAPPED] of an operation made, its operation ended, and gone. *)
Lemma left_again o s : o ∉ living s -> with_living (fun l => l ∖ {[o]}) (with_living (union {[o]}) s) = s.
Proof.
  intros Ho. assert (({[o]} ∪ living s) ∖ {[o]} = living s) as Hl.
  { apply set_eq. intros x. rewrite elem_of_difference, elem_of_union, elem_of_singleton. split; [tauto|].
    intros Hx. split; [by right|]. by intros ->. }
  destruct s. unfold with_living. cbn in *. by rewrite Hl.
Qed.
Lemma lives o s : o ∈ living (with_living (union {[o]}) s).
Proof. by apply elem_of_union_l, elem_of_singleton. Qed.

Lemma landed o f s : flying s !! o = None -> with_flying (delete o) (with_flying <[o := f]> s) = s.
Proof. intros Ho. destruct s as [hs ms st lv fl lk]. unfold with_flying. cbn in *. by rewrite delete_insert_id. Qed.

(** The thread acts as no client, but for one it could not be made itself
    after; nothing else is other than it was. *)
Definition rests (s s' : t) : Prop := standing_in s' <> AsClient /\ s' = with_standing (standing_in s') s.

Lemma rests_refl s : standing_in s <> AsClient -> rests s s.
Proof. intros Hs. split; [done|]. by destruct s. Qed.

Lemma rests_trans s s1 s2 : rests s s1 -> rests s1 s2 -> rests s s2.
Proof. intros [_ ->] [H2 ->]. by split. Qed.

(** ** A system that answers

    What runs code: a state of its own, and an answer to every call. *)
Record Machine : Type := mkMachine { Own : Type; ask : forall A, Call A -> Own -> A * Own }.

Fixpoint run {A} (m : Machine) (p : prog A) (s : Own m) : A * Own m :=
  match p with
  | Ret a => (a, s)
  | Do c k => let '(b, s) := ask m _ c s in run m (k b) s
  end.

(** What it was asked and answered meanwhile. *)
Fixpoint trace {A} (m : Machine) (p : prog A) (s : Own m) : list Answered :=
  match p with
  | Ret a => []
  | Do c k => let '(b, s) := ask m _ c s in mkAnswered c b :: trace m (k b) s
  end.

(** A number no key of a map reaches. *)
Definition unused {A} (m : gmap Z A) : Z := 1 + map_fold (fun k _ top => Z.max k top) 0 m.

Lemma unused_fresh {A} (m : gmap Z A) : m !! unused m = None.
Proof.
  assert (forall k, is_Some (m !! k) -> k <= map_fold (fun k _ top => Z.max k top) 0 m) as H.
  { apply (map_fold_weak_ind (fun top m => forall k, is_Some (m !! k) -> k <= top)).
    - intros k [x Hx]. by rewrite lookup_empty in Hx.
    - intros i x m' top Hi IH k Hk. destruct (decide (k = i)) as [->|Hne]; [lia|].
      rewrite lookup_insert_ne in Hk by done. specialize (IH k Hk). lia. }
  destruct (m !! unused m) as [x|] eqn:Hx; [|done]. specialize (H (unused m) (mk_is_Some _ _ Hx)). unfold unused in H. lia.
Qed.
End Win.

Notation "x <~~ p ;; k" := (Win.bind p (fun x => k)) (at level 100, p at next level, right associativity) : net_scope.
(** The value of a call that may fail, its failure handed on. *)
Notation "x <~? p ;; k" :=
  (Win.bind p (fun r => match r with Ok x => k | Err e => Win.Ret (Err e) end))
  (at level 100, p at next level, right associativity) : net_scope.
