(* ===== verification/Account.v ===== *)
(** The accounts a pipe's descriptor admits, its client runs as and this
    process runs as ([src/pipe/windows/account.rs]), as the calls into
    Windows they are read by. *)

From Stdlib Require Import String.
From stdpp Require Import gmap.
From S2P Require Import Prelude Text Errors Windows.
Import Win.

Module Account.

(** [u32::div_ceil], of an unsigned. *)
Definition div_ceil (n d : Z) : Z := (n + d - 1) / d.

(** An [i32] of the four octets Windows wrote. *)
Definition i32_of (bs : bytes) : Z :=
  let n := default 0 (head (words (ztake 4 bs))) in if n <? 2 ^ 31 then n else n - 2 ^ 32.

Definition IDENTIFICATION : Z := 1.

Section account.
Context `{System} `{WideCode}.

Definition unknown (what : bytes) (code : Z) : bytes := what ++ lit ": " ++ os_error_text code.

Definition user (token : Z) : prog (result bytes (list Z)) :=
  asked <~~ call (GetTokenInformation token TokenUser (mkRoom 0 0)) ;;
  let size := written asked in
  let room := 8 * Z.max 1 (div_ceil size 8) in
  read <~~ call (GetTokenInformation token TokenUser (mkRoom room size)) ;;
  match failed read with
  | Some code => Ret (Err (unknown (lit "the caller's token names no user") code))
  | None =>
      let sid := zdrop (sid_at read) (content read) in
      length <~~ call (GetLengthSid sid) ;;
      _ <~~ call (Must (length <= len sid /\ length <= 4 * div_ceil length 4)) ;;
      Ret (Ok (words (ztake length sid)))
  end.

Definition user_and_level (token : Z) : prog (result bytes (list Z * Z)) :=
  sid <~? user token ;;
  read <~~ call (GetTokenInformation token TokenImpersonationLevel (mkRoom 4 4)) ;;
  match failed read with
  | Some code => Ret (Err (unknown (lit "the caller's token names no level") code))
  | None => Ret (Ok (sid, i32_of (content read)))
  end.

Definition impersonated : prog (result bytes (list Z * Z)) :=
  opened <~~ call OpenThreadToken ;;
  match opened with
  | Err code => Ret (Err (unknown (lit "the thread holds no caller's token") code))
  | Ok token =>
      read <~~ user_and_level token ;;
      _ <~~ call (CloseHandle token) ;;
      Ret read
  end.

Definition running_as : prog (result bytes (list Z)) :=
  opened <~~ call OpenProcessToken ;;
  match opened with
  | Err code => Ret (Err (unknown (lit "this process's token does not open") code))
  | Ok token =>
      read <~~ user token ;;
      _ <~~ call (CloseHandle token) ;;
      Ret read
  end.

Definition account_name (sid : list Z) : prog (result bytes bytes) :=
  asked <~~ call (LookupAccountSid sid (mkRoom 0 0) (mkRoom 0 0)) ;;
  let name_size := first_size asked in
  let domain_size := second_size asked in
  named <~~ call (LookupAccountSid sid (mkRoom (Z.max name_size 1) name_size) (mkRoom (Z.max domain_size 1) domain_size)) ;;
  match missed named with
  | Some code => Ret (Err (unknown (lit "no account has the caller's identifier") code))
  | None =>
      _ <~~ call (Must (first_size named <= len (first named) /\ second_size named <= len (second named))) ;;
      let name := utf16_lossy (ztake (first_size named) (first named)) in
      let domain := utf16_lossy (ztake (second_size named) (second named)) in
      Ret (Ok (match domain with [] => name | _ => domain ++ lit "\" ++ name end))
  end.

(** How many units come before the first NUL. *)
Fixpoint wide_length (held : list Z) : Z :=
  match held with
  | [] => 0
  | u :: held => if u =? 0 then 0 else 1 + wide_length held
  end.

Definition account_sid (name : bytes) : prog (result bytes bytes) :=
  match wide_encode name with
  | Err why => Ret (Err why)
  | Ok wide =>
      asked <~~ call (LookupAccountName wide (mkRoom 0 0) (mkRoom 0 0)) ;;
      let sid_size := first_size asked in
      let domain_size := second_size asked in
      found <~~ call (LookupAccountName wide
        (mkRoom (4 * Z.max 1 (div_ceil sid_size 4)) sid_size) (mkRoom (Z.max domain_size 1) domain_size)) ;;
      match missed found with
      | Some code =>
          Ret (Err (lit "Windows knows no account or group called " ++ [34] ++ name ++ [34] ++ lit ": " ++ os_error_text code))
      | None =>
          written <~~ call (ConvertSidToStringSid (first found)) ;;
          match written with
          | Err code => Ret (Err (unknown (lit "the identifier has no text") code))
          | Ok text =>
              held <~~ call (Memory text) ;;
              _ <~~ call (Must (wide_length held < len held)) ;;
              let written := wide_decode (ztake (wide_length held) held) in
              _ <~~ call (LocalFree text) ;;
              Ret (Ok written)
          end
      end
  end.

(** ** Each is safe

    Each leaves the handles and the memory as they were, its own closed and
    freed. *)

Lemma div_ceil_room n d : 0 <= n -> 0 < d -> n <= d * div_ceil n d.
Proof. intros Hn Hd. unfold div_ceil. pose proof (Z.div_mod (n + d - 1) d ltac:(lia)). pose proof (Z.mod_pos_bound (n + d - 1) d Hd). lia. Qed.

(** Every room of a call is as large as the call is told. *)
Ltac roomy := unfold fits; cbn; lia.

(** What a sized read asks for is room it has. *)
Lemma sized_fits size d : 0 <= size -> 0 < d -> fits (mkRoom (d * Z.max 1 (div_ceil size d)) size).
Proof. intros Hs Hd. unfold fits. cbn. pose proof (div_ceil_room size d Hs Hd). nia. Qed.

Lemma opens_sid_words sid : opens_sid sid -> sid_words (words (ztake (sid_length sid) sid)).
Proof.
  intros (Ho & (n & Hn) & Hl). assert (0 <= n < 256) as Hb by (eapply Forall_lookup_1 in Ho; [|exact Hn]; exact Ho).
  assert (sid_length sid = 8 + 4 * n) as Hlen by (unfold sid_length; by rewrite Hn).
  assert (ztake (sid_length sid) sid !! 1%nat = Some n) as Htn by (unfold ztake; rewrite lookup_take_lt; [done|lia]).
  exists (ztake (sid_length sid) sid). split_and!; [by apply Forall_ztake|by exists n| |done].
  rewrite len_ztake by lia. unfold sid_length at 1. by rewrite Htn.
Qed.

Lemma user_safe token s : handles s !! token = Some Token ->
  safe (user token) s (fun r s' => s' = s /\ match r with Ok sid => sid_words sid | Err _ => True end).
Proof.
  intros Ht. unfold user. apply safe_call; [split; [done|roomy]|].
  intros asked s1 (-> & _ & Hw & _). apply safe_call; [split; [done|apply sized_fits; lia]|].
  intros read s2 (-> & Ho & _ & Hread). destruct (failed read) as [code|]; [by split|].
  destruct (Hread eq_refl) as (Hlen & Hat & Hsid). apply safe_call; [done|]. intros length s3 (-> & ->).
  destruct (Hsid) as (_ & (n & Hn) & Hl). apply safe_call.
  { split; [done|]. apply div_ceil_room; [|lia]. unfold sid_length. rewrite Hn. cbn.
    assert (is_octet n) as Hon by (eapply Forall_lookup_1; [apply Forall_zdrop, Ho|exact Hn]). unfold is_octet in Hon. lia. }
  intros ? s4 ->. split; [done|]. by apply opens_sid_words.
Qed.

Lemma user_and_level_safe token s : handles s !! token = Some Token ->
  safe (user_and_level token) s (fun r s' => s' = s /\ match r with Ok (sid, _) => sid_words sid | Err _ => True end).
Proof.
  intros Ht. unfold user_and_level. eapply safe_then; [by apply user_safe|]. intros [sid|why] s1 (-> & Hsid); [|by split].
  apply safe_call; [split; [done|roomy]|]. intros read s2 (-> & _). by destruct (failed read).
Qed.

Lemma token_safe {A} (c : Call (result Z Z)) (failing : Z -> A) (what : Z -> prog A) s (Q : A -> t -> Prop) :
  grounded s -> requires c s -> answers c s = made Token s ->
  (forall code, Q (failing code) s) ->
  (forall token s1, handles s !! token = None -> s1 = with_handles <[token := Token]> s ->
    safe (what token) s1 (fun r s' => s' = s1 /\ Q r s)) ->
  safe (opened <~~ call c ;;
        match opened with
        | Err code => Ret (failing code)
        | Ok token => read <~~ what token ;; _ <~~ call (CloseHandle token) ;; Ret read
        end) s Q.
Proof.
  intros Hg Hr Ha Hf Hw. apply safe_call; [done|]. rewrite Ha. intros [token|code] s1; cbn [made]; [|intros ->; apply Hf].
  intros [Hfresh ->]. eapply safe_then; [by eapply Hw|]. intros read s2 [-> HQ]. apply safe_call; [by apply may_close|].
  intros ? s3 ->. by rewrite closed_again.
Qed.

Lemma impersonated_safe s : grounded s ->
  safe impersonated s (fun r s' => s' = s /\ match r with Ok (sid, _) => sid_words sid | Err _ => True end).
Proof.
  intros Hg. unfold impersonated. apply (token_safe OpenThreadToken (fun code => Err (unknown _ code)) user_and_level); [done..|].
  intros token s1 Hfresh ->. eapply safe_weaken; [apply user_and_level_safe; cbn; apply lookup_insert_eq|]. by intros r s' [-> H1].
Qed.

Lemma running_as_safe s : grounded s ->
  safe running_as s (fun r s' => s' = s /\ match r with Ok sid => sid_words sid | Err _ => True end).
Proof.
  intros Hg. unfold running_as. apply (token_safe OpenProcessToken (fun code => Err (unknown _ code)) user); [done..|].
  intros token s1 Hfresh ->. eapply safe_weaken; [apply user_safe; cbn; apply lookup_insert_eq|]. by intros r s' [-> H1].
Qed.

Lemma account_name_safe sid s : sid_words sid -> safe (account_name sid) s (fun _ s' => s' = s).
Proof.
  intros Hs. apply sid_words_open in Hs. unfold account_name. apply safe_call; [split; [done|split; roomy]|].
  intros asked s1 (-> & Hn & Hd & _). apply safe_call; [split; [done|split; roomy]|].
  intros named s2 (-> & _ & _ & Hok). destruct (missed named); [done|]. destruct (Hok eq_refl) as [[H1 H2] [H3 H4]]. cbn [told holds] in H1, H2, H3, H4.
  apply safe_call; [cbn; lia|]. by intros ? s3 ->.
Qed.

Lemma wide_length_ends held : 0 ∈ held -> wide_length held < len held.
Proof.
  induction held as [|u held IH]; [by intros ?%not_elem_of_nil|]. cbn [wide_length]. rewrite len_cons, elem_of_cons.
  pose proof (len_nonneg held). destruct (Z.eqb_spec u 0); [lia|]. intros [?|Hin]; [congruence|]. specialize (IH Hin). lia.
Qed.

Lemma account_sid_safe name s : safe (account_sid name) s (fun _ s' => s' = s).
Proof.
  unfold account_sid. destruct (wide_encode name) as [wide|why] eqn:Hw; [|done]. apply encode_ends in Hw.
  apply safe_call; [split; [done|split; roomy]|]. intros asked s1 (-> & Hn & Hd & _).
  apply safe_call; [split; [done|split; [apply sized_fits; lia|roomy]]|].
  intros found s2 (-> & _ & _ & Hok). destruct (missed found); [done|]. apply safe_call; [by apply Hok|].
  intros [text|code] s3; cbn [gave]; [|by intros ->]. intros (Hp & held & Hnul & ->).
  apply safe_call; [cbn; rewrite lookup_insert_eq; by eexists|]. intros held' s4 (-> & Hh). cbn in Hh. rewrite lookup_insert_eq in Hh.
  injection Hh as <-. apply safe_call; [by apply wide_length_ends|]. intros ? s5 ->.
  apply safe_call; [cbn; rewrite lookup_insert_eq; by eexists|]. intros ? s6 ->. by apply freed_again.
Qed.
End account.
End Account.
