(* ===== verification/PipeCalls.v ===== *)
(** What a named pipe asks of Windows: its overlapped operations
    ([src/pipe/windows/io.rs]), its server end ([instance.rs]) and its
    client end ([client.rs]). *)

From Stdlib Require Import String.
From stdpp Require Import gmap.
From S2P Require Import Prelude Text Errors Windows Account Pipe.
Import Win.

(** An [io::Error] of these files: the system's code, a time that passed, or
    one they word. *)
Inductive Failed : Type :=
| Os (code : Z)
| NothingWithin (milliseconds : Z)
| Said (kind : ErrorKind) (why : bytes).

Definition io_error_of `{System} (e : Failed) : IoError :=
  match e with
  | Os code => mkIoError (error_kind code) (os_error_text code)
  | NothingWithin ms => mkIoError TimedOut (lit "nothing came within " ++ dec ms ++ lit " ms")
  | Said kind why => mkIoError kind why
  end.

(** A [Duration], in nanoseconds. *)
Abbreviation Duration := Z (only parsing).
Definition as_millis (d : Duration) : Z := d / 1000000.
Definition as_micros (d : Duration) : Z := d / 1000.
(** [u32::try_from(n).unwrap_or(u32::MAX)]. *)
Definition u32_or_max (n : Z) : Z := if n <=? U32_MAX then n else U32_MAX.

Module PipeIo.

Definition new_event : prog (result Failed Z) :=
  made <~~ call CreateEvent ;;
  match made with Err code => Ret (Err (Os code)) | Ok event => Ret (Ok event) end.

Definition code_of (e : Failed) : option Z := match e with Os code => Some code | _ => None end.

Definition gone (e : Failed) : bool :=
  match code_of e with
  | Some code => (code =? Pipe.ERROR_BROKEN_PIPE) || (code =? Pipe.ERROR_PIPE_NOT_CONNECTED)
  | None => false
  end.

Definition signaled (event : Z) (within : Duration) : prog bool :=
  let milliseconds := Z.min (u32_or_max (Account.div_ceil (as_micros within) 1000)) (U32_MAX - 1) in
  call (WaitForSingleObject event milliseconds).

(** How many bytes the operation moved, and those a read put in its
    buffer. *)
Definition waited (pipe event : Z) (within : option Duration) (start : Overlapped -> Call (option Z)) :
    prog (result Failed (Z * bytes)) :=
  overlapped <~~ call Zeroed ;;
  let finish (timed_out : bool) :=
    ended <~~ call (GetOverlappedResult pipe overlapped) ;;
    match ended.1 with
    | Ok moved => Ret (Ok (moved, ended.2))
    | Err code =>
        if timed_out && (code =? Pipe.ERROR_OPERATION_ABORTED)
        then Ret (Err (NothingWithin (as_millis (default 0 within)))) else Ret (Err (Os code))
    end in
  begun <~~ call (start (mkOverlapped overlapped event)) ;;
  outcome <~~
    match begun with
    | Some code =>
        if negb (code =? ERROR_IO_PENDING) then Ret (Err (Os code))
        else
          match within with
          | Some within =>
              woken <~~ signaled event within ;;
              if woken : bool then finish false
              else _ <~~ call (CancelIoEx pipe overlapped) ;; finish true
          | None => finish false
          end
    | None => finish false
    end ;;
  _ <~~ call (Leave overlapped) ;;
  Ret outcome.

(** [read], of a buffer that holds [room]: what was read, nothing where the
    peer is gone. *)
Definition read (pipe event room : Z) : prog (result Failed bytes) :=
  let length := u32_or_max room in
  read <~~ waited pipe event None (ReadFile pipe (mkRoom room length)) ;;
  match read with
  | Ok (_, got) => Ret (Ok got)
  | Err error => if gone error then Ret (Ok []) else Ret (Err error)
  end.

Definition write (pipe event : Z) (bs : bytes) : prog (result Failed Z) :=
  let length := u32_or_max (len bs) in
  wrote <~? waited pipe event None (WriteFile pipe bs length) ;;
  Ret (Ok wrote.1).

(** [cancel], of the lock [open]. *)
Definition cancel (open : Z) : prog unit :=
  held <~~ call (LockRead open) ;;
  match held with Some handle => call (CancelAllIo handle) | None => Ret tt end.
End PipeIo.

Module Instance.

Definition from_sddl (sddl : list Z) : prog (result Failed Z) :=
  read <~~ call (ConvertStringSecurityDescriptor sddl) ;;
  match read with Err code => Ret (Err (Os code)) | Ok descriptor => Ret (Ok descriptor) end.

Definition drop_descriptor (descriptor : Z) : prog unit := call (LocalFree descriptor).

Definition PIPE_ACCESS_DUPLEX : Z := 0x3.
Definition FILE_FLAG_OVERLAPPED : Z := 0x40000000.
Definition FILE_FLAG_FIRST_PIPE_INSTANCE : Z := 0x80000.
Definition PIPE_TYPE_BYTE : Z := 0x0.
Definition PIPE_READMODE_BYTE : Z := 0x0.
Definition PIPE_WAIT : Z := 0x0.
Definition PIPE_REJECT_REMOTE_CLIENTS : Z := 0x8.
Definition PIPE_UNLIMITED_INSTANCES : Z := 255.

Definition instance (path : list Z) (descriptor : Z) (first : bool) (buffer : Z) : prog (result Failed Z) :=
  let first := if first then FILE_FLAG_FIRST_PIPE_INSTANCE else 0 in
  let open := Z.lor (Z.lor PIPE_ACCESS_DUPLEX FILE_FLAG_OVERLAPPED) first in
  let mode := Z.lor (Z.lor (Z.lor PIPE_TYPE_BYTE PIPE_READMODE_BYTE) PIPE_WAIT) PIPE_REJECT_REMOTE_CLIENTS in
  made <~~ call (CreateNamedPipe path open mode PIPE_UNLIMITED_INSTANCES buffer buffer descriptor) ;;
  match made with Err code => Ret (Err (Os code)) | Ok handle => Ret (Ok handle) end.

Definition ERROR_PIPE_CONNECTED : Z := 535.
Definition ERROR_NO_DATA : Z := 232.

Definition connected (pipe event : Z) (within : option Duration) : prog (result Failed unit) :=
  waited <~~ PipeIo.waited pipe event within (ConnectNamedPipe pipe) ;;
  match waited with
  | Ok _ => Ret (Ok tt)
  | Err error =>
      match PipeIo.code_of error with
      | Some code => if (code =? ERROR_PIPE_CONNECTED) || (code =? ERROR_NO_DATA) then Ret (Ok tt) else Ret (Err error)
      | None => Ret (Err error)
      end
  end.

Definition impersonating {A} (pipe : Z) (act : prog A) : prog (result Failed A) :=
  stands <~~ call (ImpersonateNamedPipeClient pipe) ;;
  match stands with
  | Some code => Ret (Err (Os code))
  | None =>
      acted <~~ act ;;
      _ <~~ call RevertToSelf ;;
      Ret (Ok acted)
  end.

Definition client_process (pipe : Z) : prog (result Failed Z) :=
  said <~~ call (GetNamedPipeClientProcessId pipe) ;;
  match said with Err code => Ret (Err (Os code)) | Ok process => Ret (Ok process) end.
End Instance.

Module PipeClient.

Definition ERROR_PIPE_BUSY : Z := 231.
Definition GENERIC_READ : Z := 0x80000000.
Definition FILE_WRITE_DATA : Z := 0x2.
Definition FILE_SHARE_READ : Z := 0x1.
Definition FILE_SHARE_WRITE : Z := 0x2.
Definition OPEN_EXISTING : Z := 3.
Definition SECURITY_SQOS_PRESENT : Z := 0x100000.
Definition SECURITY_IDENTIFICATION : Z := 0x10000.
Definition NMPWAIT_WAIT_FOREVER : Z := 0xffffffff.

(** [None] where every instance is busy. *)
Definition open_identifying (path : list Z) : prog (option (result Failed Z)) :=
  opened <~~ call (CreateFile path (Z.lor GENERIC_READ FILE_WRITE_DATA) (Z.lor FILE_SHARE_READ FILE_SHARE_WRITE) OPEN_EXISTING
    (Z.lor (Z.lor Instance.FILE_FLAG_OVERLAPPED SECURITY_SQOS_PRESENT) SECURITY_IDENTIFICATION)) ;;
  match opened with
  | Err code => if code =? ERROR_PIPE_BUSY then Ret None else Ret (Some (Err (Os code)))
  | Ok handle => Ret (Some (Ok handle))
  end.

Definition wait_free (path : list Z) (within : option Duration) : prog bool :=
  let milliseconds :=
    match within with
    | None => NMPWAIT_WAIT_FOREVER
    | Some within => Z.max 1 (Z.min (u32_or_max (as_millis within)) (NMPWAIT_WAIT_FOREVER - 1))
    end in
  call (WaitNamedPipe path milliseconds).
End PipeClient.

(** ** Each is safe *)

Section safety.
Context `{System} `{WideCode}.

(** What starts an operation on [pipe]: a call that owes no more than that
    it may, and puts it in flight. *)
Record starting (pipe most : Z) (rd : bool) (start : Overlapped -> Call (option Z)) : Prop := {
  start_owes : forall o s, may_start pipe o s -> requires (start o) s;
  start_flies : forall o s, answers (start o) s = started (at_ o) (mkFlight pipe (wakes o) most rd) s;
}.

(** What an operation of [most] bytes comes to. *)
Definition outcome (most : Z) (rd : bool) (r : result Failed (Z * bytes)) : Prop :=
  match r with
  | Ok (moved, got) => 0 <= moved <= most /\ octets got /\ len got = if rd then moved else 0
  | Err _ => True
  end.

(** An operation begun is waited for to its end, whatever it ends in: its
    [OVERLAPPED] and its buffer outlive it. *)
Lemma waited_safe pipe event within most rd start s :
  handles s !! pipe = Some PipeEnd -> handles s !! event = Some Event -> starting pipe most rd start ->
  safe (PipeIo.waited pipe event within start) s (fun r s' => s' = s /\ outcome most rd r).
Proof.
  intros Hp He [Howes Hflies]. unfold PipeIo.waited. apply safe_call; [done|]. intros o s1 (Ho & Hf & ->).
  set (s1 := with_living (union {[o]}) s).
  assert (may_start pipe (mkOverlapped o event) s1) as Hmay.
  { split_and!; [done|done|apply lives|done]. }
  set (f := mkFlight pipe event most rd). set (s2 := with_flying <[o := f]> s1).
  assert (forall timed_out, safe (ended <~~ call (GetOverlappedResult pipe o) ;;
      match ended.1 with
      | Ok moved => Ret (Ok (moved, ended.2))
      | Err code =>
          if timed_out && (code =? Pipe.ERROR_OPERATION_ABORTED)
          then Ret (Err (NothingWithin (as_millis (default 0 within)))) else Ret (Err (Os code))
      end) s2 (fun r s' => s' = s1 /\ outcome most rd r)) as Hfinish.
  { intros timed_out. apply safe_call; [split; [done|]; exists f; split; [cbn; apply lookup_insert_eq|done]|].
    intros [r got] s3 [-> Hr]. cbn in Hr. rewrite lookup_insert_eq in Hr. unfold s2. rewrite landed by done. cbn [fst snd].
    destruct r as [moved|code]; [by split|]. case_test; by split. }
  apply safe_call; [by apply Howes|]. intros begun s3. rewrite Hflies. unfold started. cbn [at_ wakes]. fold f. intros Hb.
  eapply (safe_then _ _ _ (fun r s' => s' = s1 /\ outcome most rd r)).
  2:{ intros r s4 [-> Hr]. apply safe_call; [split; [apply lives|done]|]. intros ? s5 ->. split; [by apply left_again|done]. }
  destruct begun as [code|]; [|rewrite bool_decide_eq_true_2 in Hb by tauto; subst s3; apply Hfinish].
  destruct (Z.eqb_spec code ERROR_IO_PENDING) as [->|Hn]; cbn [negb].
  - rewrite bool_decide_eq_true_2 in Hb by tauto. subst s3. destruct within as [d|]; [|apply Hfinish].
    apply safe_call; [done|]. intros woken s4 ->. destruct woken; [apply Hfinish|].
    apply safe_call; [|intros ? s5 ->; apply Hfinish]. split; [done|]. exists f. split; [cbn; apply lookup_insert_eq|done].
  - rewrite bool_decide_eq_false_2 in Hb by (intros [?|[= ?]]; done). subst s3. by split.
Qed.

Lemma io_read_safe pipe event room s :
  handles s !! pipe = Some PipeEnd -> handles s !! event = Some Event -> 0 <= room ->
  safe (PipeIo.read pipe event room) s (fun r s' => s' = s /\ match r with Ok got => octets got /\ len got <= room | Err _ => True end).
Proof.
  intros Hp He Hr. assert (fits (mkRoom room (u32_or_max room))) as Hfit.
  { unfold fits, u32_or_max, U32_MAX. cbn. case_test; lia. }
  eapply safe_then; [apply (waited_safe pipe event None (u32_or_max room) true); [done|done|constructor; intros; [split; done|reflexivity]]|].
  intros [[moved got]|e] s1 [-> Ho]; [|destruct (PipeIo.gone e); [split_and!; [done|constructor|done]|done]]. destruct Ho as (Hm & Ho & Hl). unfold fits in Hfit. cbn in *.
  split_and!; [done|done|lia].
Qed.

Lemma io_write_safe pipe event bs s :
  handles s !! pipe = Some PipeEnd -> handles s !! event = Some Event ->
  safe (PipeIo.write pipe event bs) s (fun r s' => s' = s /\ match r with Ok count => 0 <= count <= len bs | Err _ => True end).
Proof.
  intros Hp He. assert (fits (mkRoom (len bs) (u32_or_max (len bs)))) as Hfit.
  { pose proof (len_nonneg bs). unfold fits, u32_or_max, U32_MAX. cbn. case_test; lia. }
  eapply safe_then; [apply (waited_safe pipe event None (u32_or_max (len bs)) false); [done|done|constructor; intros; [split; done|reflexivity]]|].
  intros [[moved got]|e] s1 [-> Ho]; [|done]. destruct Ho as (Hm & _). unfold fits in Hfit. cbn in *. split; [done|lia].
Qed.

Lemma connected_safe pipe event within s :
  handles s !! pipe = Some PipeEnd -> handles s !! event = Some Event ->
  safe (Instance.connected pipe event within) s (fun _ s' => s' = s).
Proof.
  intros Hp He. eapply safe_then; [apply (waited_safe pipe event within 0 false); [done|done|by constructor]|].
  intros [r|e] s1 [-> _]; [done|]. destruct (PipeIo.code_of e); [case_test|]; done.
Qed.

(** A handle, made by a call that makes nothing else, or its failure. *)
Lemma made_safe {B} (c : Call (result Z Z)) (k : result Z Z -> prog B) kind s (Q : B -> t -> Prop) :
  requires c s -> answers c s = made kind s ->
  (forall h, handles s !! h = None -> safe (k (Ok h)) (with_handles <[h := kind]> s) Q) ->
  (forall code, safe (k (Err code)) s Q) -> safe (bind (call c) k) s Q.
Proof. intros Hr Ha H1 H2. apply safe_call; [done|]. rewrite Ha. intros [h|code] s1; cbn [made]; [intros [Hh ->]; by apply H1|intros ->; apply H2]. Qed.

Definition makes (kind : Kind) {E} (s : t) (r : result E Z) (s' : t) : Prop :=
  match r with Ok h => handles s !! h = None /\ s' = with_handles <[h := kind]> s | Err _ => s' = s end.

Lemma new_event_safe s : safe PipeIo.new_event s (makes Event s).
Proof. by eapply (made_safe CreateEvent). Qed.

Lemma instance_safe path descriptor first buffer s :
  terminated path -> is_Some (memory s !! descriptor) -> safe (Instance.instance path descriptor first buffer) s (makes PipeEnd s).
Proof. intros Hp Hd. by eapply (made_safe (CreateNamedPipe _ _ _ _ _ _ _)). Qed.

Lemma from_sddl_safe sddl s : terminated sddl ->
  safe (Instance.from_sddl sddl) s (fun r s' =>
    match r with Ok p => memory s !! p = None /\ exists held, s' = with_memory <[p := held]> s | Err _ => s' = s end).
Proof.
  intros Ht. apply safe_call; [done|]. intros [p|code] s'; cbn [answers gave]; [|by intros ->].
  intros (Hp & held & _ & ->). split; [done|]. by exists held.
Qed.

Lemma open_identifying_safe path s : terminated path ->
  safe (PipeClient.open_identifying path) s (fun r s' => match r with None => s' = s | Some r => makes PipeEnd s r s' end).
Proof. intros Hp. eapply (made_safe (CreateFile _ _ _ _ _)); [done|done|done|]. intros code. by case_test. Qed.

Lemma wait_free_safe path within s : terminated path -> safe (PipeClient.wait_free path within) s (fun _ s' => s' = s).
Proof. intros Hp. split; [done|]. by intros b s' ->. Qed.

(** Once it has acted for a client the thread asks to be itself again, and is,
    or is left standing in where Windows refuses. *)
Lemma impersonating_safe {A} pipe (act : prog A) s (Q : A -> Prop) :
  handles s !! pipe = Some PipeEnd -> standing_in s <> AsClient ->
  safe act (with_standing AsClient s) (fun a s' => s' = with_standing AsClient s /\ Q a) ->
  safe (Instance.impersonating pipe act) s (fun r s' => rests s s' /\ match r with Ok a => Q a | Err _ => True end).
Proof.
  intros Hp Hs Ha. apply safe_call; [done|]. intros [code|] s1 ->; [split; [by apply rests_refl|done]|].
  eapply safe_then; [exact Ha|]. intros a s2 [-> Hq]. apply safe_call; [done|]. intros reverted s3 ->.
  split; [|done]. by destruct reverted.
Qed.

(** The failure of [RevertToSelf] is passed over: what was done is handed back
    all the same, by a thread that stands in for the client still. *)
Example left_as_the_client {A} pipe (a : A) s : handles s !! pipe = Some PipeEnd ->
  comes (Instance.impersonating pipe (Ret a)) s (Ok a) (with_standing LeftAsClient s).
Proof. intros Hp. exists None, (with_standing AsClient s). split; [done|]. exists (Some 1346), (with_standing LeftAsClient s). by split. Qed.

Lemma client_process_safe pipe s : handles s !! pipe = Some PipeEnd -> safe (Instance.client_process pipe) s (fun _ s' => s' = s).
Proof. intros Hp. apply safe_call; [done|]. by intros [?|?] s1 ->. Qed.
End safety.

(** ** What [Pipe] says of an operation is what its calls come to *)

Definition failed_of (e : Pipe.Failure) : Failed :=
  match e with Pipe.Raw code => Os code | Pipe.NothingCame ms => NothingWithin ms end.
Definition moved_of (r : result Failed (Z * bytes)) : result Failed Z :=
  match r with Ok (moved, _) => Ok moved | Err e => Err e end.

Lemma comes_bind {A B} (p : prog A) (k : A -> prog B) : forall s b s',
  comes (bind p k) s b s' <-> exists a s1, comes p s a s1 /\ comes (k a) s1 b s'.
Proof.
  induction p as [a|C c k' IH]; intros s b s'; cbn [bind comes].
  - split; [by exists a, s | by intros (a' & s1 & [-> ->] & H)].
  - split.
    + intros (x & s1 & Hx & H). apply IH in H as (a & s2 & H1 & H2). exists a, s2. split; [by exists x, s1|done].
    + intros (a & s2 & (x & s1 & Hx & H1) & H2). exists x, s1. split; [done|]. apply IH. by exists a, s2.
Qed.

(** Open the calls a run is made of. *)
Ltac comes_open :=
  repeat match goal with
  | H : comes (bind _ _) _ _ _ |- _ => apply comes_bind in H as (? & ? & ? & H)
  | H : comes (call _) _ _ _ |- _ => destruct H as (? & ? & ? & [<- <-])
  | H : comes (Ret _) _ _ _ |- _ => destruct H as [<- <-]
  end.

Lemma waited_refines pipe event within start s r s' :
  comes (PipeIo.waited pipe event within start) s r s' ->
  exists o, map_err failed_of (Pipe.waited (as_millis <$> within) o).2 = moved_of r.
Proof.
  intros H. unfold PipeIo.waited in H. comes_open.
  assert (forall begun sig timed_out p q r (ended : result Z Z * bytes), comes
      match ended.1 with
      | Ok moved => Ret (Ok (moved, ended.2))
      | Err code =>
          if timed_out && (code =? Pipe.ERROR_OPERATION_ABORTED)
          then Ret (Err (NothingWithin (as_millis (default 0 within)))) else Ret (Err (Os code))
      end p r q ->
    begun = None \/ begun = Some ERROR_IO_PENDING ->
    timed_out = match begun, within with Some _, Some _ => negb sig | _, _ => false end ->
    exists o, map_err failed_of (Pipe.waited (as_millis <$> within) o).2 = moved_of r)
    as Hfinish.
  { intros begun sig timed_out p q r' [[moved|code] got] Hc Hb Ht; cbn [fst snd] in Hc.
    - exists (Pipe.mkOverlapped begun sig (Ok moved)). comes_open. unfold Pipe.waited. cbn. destruct Hb as [->| ->]; [done|]. cbn. by destruct within.
    - exists (Pipe.mkOverlapped begun sig (Err code)). subst timed_out. unfold Pipe.waited. cbn. destruct Hb as [->| ->]; cbn [andb negb] in *; [comes_open; done|].
      destruct within as [d|]; cbn [andb negb] in *; [|comes_open; done]. destruct sig; cbn [andb negb] in *; [comes_open; done|]. cbn.
      destruct (code =? Pipe.ERROR_OPERATION_ABORTED); comes_open; done. }
  match goal with H : comes (match ?b with _ => _ end) _ _ _ |- _ => destruct b as [code|]; rename H into Hm end.
  - destruct (Z.eqb_spec code ERROR_IO_PENDING) as [->|Hn]; cbn [negb] in Hm.
    + destruct within as [d|].
      * unfold PipeIo.signaled in Hm. comes_open.
        match type of Hm with comes (if ?b then _ else _) _ _ _ => destruct b end.
        -- comes_open. eapply (Hfinish (Some ERROR_IO_PENDING) true false) in Hm as Ho; [done|tauto|done].
        -- comes_open. eapply (Hfinish (Some ERROR_IO_PENDING) false true) in Hm as Ho; [done|tauto|done].
      * comes_open. eapply (Hfinish (Some ERROR_IO_PENDING) true false) in Hm as Ho; [done|tauto|done].
    + comes_open. exists (Pipe.mkOverlapped (Some code) true (Err code)). unfold Pipe.waited. cbn.
      change Pipe.ERROR_IO_PENDING with ERROR_IO_PENDING. by destruct (Z.eqb_spec code ERROR_IO_PENDING).
  - comes_open. eapply (Hfinish None true false) in Hm as Ho; [done|tauto|by destruct within].
Qed.
