(* ===== verification/WinPipe.v ===== *)
(** A named pipe on Windows, call by call ([src/pipe/windows.rs]): the pipe
    made, its clients accepted, one connection's life, and what closes what.
    [Pipe] is the same code where each call's answer is given. *)

From Stdlib Require Import String.
From stdpp Require Import gmap.
From S2P Require Import Prelude Text Errors Windows Account Sddl Pipe PipeCalls.
Import Win.

Module WinPipe.

Definition BUFFER : Z := 64 * 1024.
Definition NotFound : ErrorKind := OtherKind 2.
Definition Other : ErrorKind := OtherKind 0.

Record Listener : Type := mkListener { wide : list Z; descriptor : Z; next : Z * Z }.

Record Stream : Type := mkStream {
  pipe : Z;
  event : Z;
  (** The lock shared with what cancels it. *)
  open : Z;
  made : bool;
  read_ahead : bytes;
}.

Definition with_ahead (ahead : bytes) (self : Stream) : Stream :=
  mkStream (pipe self) (event self) (open self) (made self) ahead.

(** [Stream::new]. *)
Definition new (pipe event : Z) (made : bool) : prog Stream :=
  open <~~ call (LockMake (Some pipe)) ;;
  Ret (mkStream pipe event open made []).

Section pipe.
Context `{System} `{WideCode}.

Fixpoint admit_each (admit_ : list bytes) (sddl : bytes) : prog (result bytes bytes) :=
  match admit_ with
  | [] => Ret (Ok sddl)
  | name :: admit_ =>
      sid <~? Account.account_sid name ;;
      admit_each admit_ (sddl ++ lit "(A;;" ++ Pipe.ADMITTED ++ lit ";;;" ++ sid ++ lit ")")
  end.

Definition openers (admit_ : list bytes) : prog (result bytes bytes) := admit_each admit_ Pipe.OPENERS.

Definition running_as : prog (result bytes bytes) :=
  sid <~? Account.running_as ;; Account.account_name sid.

Definition other (r : result bytes (list Z)) : result Failed (list Z) := map_err (Said Other) r.

(** [wide_path], of a path's units. *)
Definition wide_path (path : list Z) : result Failed (list Z) := other (wide_terminated path).

Definition bind (path : list Z) (admit_ : list bytes) : prog (result Failed Listener) :=
  admitted <~~ openers admit_ ;;
  match (let? sddl := map_err (Said NotFound) admitted in
         let? sddl := other (wide_encode sddl) in
         let? wide := wide_path path in Ok (sddl, wide)) with
  | Err refused => Ret (Err refused)
  | Ok (sddl, wide) =>
      descriptor <~? Instance.from_sddl sddl ;;
      made <~~ Instance.instance wide descriptor true BUFFER ;;
      match made with
      | Err error => _ <~~ Instance.drop_descriptor descriptor ;; Ret (Err error)
      | Ok first =>
          event <~~ PipeIo.new_event ;;
          match event with
          | Err error =>
              _ <~~ call (CloseHandle first) ;;
              _ <~~ Instance.drop_descriptor descriptor ;;
              Ret (Err error)
          | Ok event => Ret (Ok (mkListener wide descriptor (first, event)))
          end
      end
  end.

(** The connection, or its failure, and the listener after it. *)
Definition accept (self : Listener) (within : option Duration) : prog (result Failed Stream * Listener) :=
  came <~~ Instance.connected (next self).1 (next self).2 within ;;
  match came with
  | Err error => Ret (Err error, self)
  | Ok _ =>
      made <~~ Instance.instance (wide self) (descriptor self) false BUFFER ;;
      match made with
      | Err error => Ret (Err error, self)
      | Ok after =>
          event <~~ PipeIo.new_event ;;
          match event with
          | Err error => _ <~~ call (CloseHandle after) ;; Ret (Err error, self)
          | Ok event =>
              let '(reached, its) := next self in
              stream <~~ new reached its true ;;
              Ret (Ok stream, mkListener (wide self) (descriptor self) (after, event))
          end
      end
  end.

(** A listener's fields, dropped in turn. *)
Definition drop_listener (self : Listener) : prog unit :=
  _ <~~ Instance.drop_descriptor (descriptor self) ;;
  _ <~~ call (CloseHandle (next self).1) ;;
  call (CloseHandle (next self).2).

(** [Stream::drop], then its fields. *)
Definition drop_stream (self : Stream) : prog unit :=
  _ <~~ call (LockWrite (open self) None) ;;
  _ <~~ call (CloseHandle (pipe self)) ;;
  call (CloseHandle (event self)).

(** [io::Error]'s [{}]. *)
Definition shown (e : Failed) : bytes := io_text (io_error_of e).

(** The first of what the client sent, where nothing was read ahead. *)
Definition hear (self : Stream) : prog (result bytes unit * Stream) :=
  match read_ahead self with
  | [] =>
      read <~~ PipeIo.read (pipe self) (event self) 64 ;;
      match read with
      | Err error => Ret (Err (Pipe.sent_nothing ++ lit ": " ++ shown error), self)
      | Ok [] => Ret (Err Pipe.sent_nothing, self)
      | Ok first => Ret (Ok tt, with_ahead first self)
      end
  | _ => Ret (Ok tt, self)
  end.

Definition lent (self : Stream) : prog (result bytes (list Z * Z) * Stream) :=
  if negb (made self) then Ret (Err Pipe.client's_end, self)
  else
    heard <~~ hear self ;;
    match heard with
    | (Err why, self) => Ret (Err why, self)
    | (Ok _, self) =>
        stood <~~ Instance.impersonating (pipe self) Account.impersonated ;;
        Ret (match stood with
             | Err error => Err (Pipe.not_known (shown error))
             | Ok (Err why) => Err (Pipe.not_known why)
             | Ok (Ok lent) => Ok lent
             end, self)
    end.

Definition caller (self : Stream) (names : Pipe.Names) : prog (result bytes bytes * Stream * Pipe.Names) :=
  asked <~~ lent self ;;
  match asked with
  | (Err why, self) => Ret (Err why, self, names)
  | (Ok (sid, _), self) =>
      match names !! sid with
      | Some name => Ret (Ok name, self, names)
      | None =>
          named <~~ Account.account_name sid ;;
          match named with
          | Err why => Ret (Err why, self, names)
          | Ok name =>
              let names := if Pipe.KEPT_NAMES <=? Z.of_nat (size names) then ∅ else names in
              Ret (Ok name, self, <[sid := name]> names)
          end
      end
  end.

Definition peer_process (self : Stream) : prog (option Z) :=
  if made self then
    process <~~ Instance.client_process (pipe self) ;;
    Ret match process with Ok id => Some id | Err _ => None end
  else Ret None.

(** As much of what was read ahead as a buffer of [room] takes. *)
Definition hand_out (room : Z) (self : Stream) (ahead : bytes) : result Failed bytes * Stream :=
  (Ok (ztake room ahead), with_ahead (zdrop room ahead) self).

(** [read], into a buffer of [room]. *)
Definition read (self : Stream) (room : Z) : prog (result Failed bytes * Stream) :=
  match read_ahead self with
  | [] =>
      if Pipe.READ <=? room then
        got <~~ PipeIo.read (pipe self) (event self) room ;; Ret (got, self)
      else
        got <~~ PipeIo.read (pipe self) (event self) Pipe.READ ;;
        match got with
        | Err error => Ret (Err error, self)
        | Ok [] => Ret (Ok [], self)
        | Ok got => Ret (hand_out room self got)
        end
  | ahead => Ret (hand_out room self ahead)
  end.

Definition write (self : Stream) (bs : bytes) : prog (result Failed Z) := PipeIo.write (pipe self) (event self) bs.

(** [Stream::cancel]: a [Cancel] shares the lock, and may outlive the
    connection. *)
Record Cancel : Type := mkCancel { shared : Z }.
Definition cancel (self : Stream) : Cancel := mkCancel (open self).
Definition cancel_cancel (self : Cancel) : prog unit := PipeIo.cancel (shared self).

Definition busy : Failed := Said TimedOut (lit "every instance of the pipe is busy").

(** The loop of [connect], [turns] of it: [None] where it still waits. *)
Fixpoint connect_turns (turns : nat) (wide : list Z) (until : option Z) : prog (option (result Failed Stream)) :=
  match turns with
  | O => Ret None
  | S turns =>
      opened <~~ PipeClient.open_identifying wide ;;
      match opened with
      | Some (Err error) => Ret (Some (Err error))
      | Some (Ok handle) =>
          event <~~ PipeIo.new_event ;;
          match event with
          | Err error => _ <~~ call (CloseHandle handle) ;; Ret (Some (Err error))
          | Ok event => stream <~~ new handle event false ;; Ret (Some (Ok stream))
          end
      | None =>
          left_ <~~ match until with
                   | None => Ret None
                   | Some until => now <~~ call Now ;; Ret (Some (Z.max 0 (until - now)))
                   end ;;
          if bool_decide (left_ = Some 0) then Ret (Some (Err busy))
          else
            free <~~ PipeClient.wait_free wide left_ ;;
            if free : bool then connect_turns turns wide until else Ret (Some (Err busy))
      end
  end.

Definition connect (turns : nat) (path : list Z) (patience : option Duration) : prog (option (result Failed Stream)) :=
  match wide_path path with
  | Err error => Ret (Some (Err error))
  | Ok wide =>
      until <~~ match patience with
                | None => Ret None
                | Some patience => now <~~ call Now ;; Ret (Some (now + patience))
                end ;;
      connect_turns turns wide until
  end.

(** Whatever the system answers of the accounts named, what is written admits
    the maker, the system, the administrators and one identifier for each of
    them, with the rights [Pipe.only_the_admitted_open] reads. *)
Lemma admit_each_writes admit_ : forall sddl s r s', comes (admit_each admit_ sddl) s r s' ->
  match r with
  | Ok d => exists sids, length sids = length admit_ /\ d = sddl ++ concat (map (Sddl.entry Pipe.ADMITTED) sids)
  | Err _ => True
  end.
Proof.
  induction admit_ as [|name admit_ IH]; intros sddl s r s'; cbn [admit_each].
  - intros [<- <-]. exists []. cbn. by rewrite app_nil_r.
  - intros (named & s1 & _ & Hc)%comes_bind. destruct named as [sid|why]; [|by destruct Hc as [<- <-]].
    apply IH in Hc. destruct r as [d|]; [|done]. destruct Hc as (sids & Hl & ->). exists (sid :: sids). cbn [length map concat].
    split; [by rewrite Hl|]. unfold Sddl.entry at 2. by rewrite <- !app_assoc.
Qed.

Lemma openers_write admit_ s r s' : comes (openers admit_) s r s' ->
  match r with
  | Ok d => exists sids, length sids = length admit_ /\ d = Pipe.OPENERS ++ concat (map (Sddl.entry Pipe.ADMITTED) sids)
  | Err _ => True
  end.
Proof. apply admit_each_writes. Qed.
End pipe.
End WinPipe.
