(* ===== verification/WinLife.v ===== *)
(** Everything a program may do with named pipes on Windows, in any order:
    whatever the system answers, no call is made that owes what it has not
    got, and what was made is gone once the pipes are. *)

From Stdlib Require Import String.
From stdpp Require Import gmap.
From S2P Require Import Prelude Text Errors Windows Account Pipe PipeCalls WinPipe.
Import Win.

Module Life.

(** ** Handles held

    [holding base o s]: of the handles open in [s], those of [base] are as
    they were, and the others are [o], each once. *)
Record holding (base : t) (o : list (Z * Kind)) (s : t) : Prop := {
  held_once : NoDup o.*1;
  held_new : Forall (fun h => handles base !! h = None) o.*1;
  held_all : handles s = list_to_map o ∪ handles base;
}.

Lemma holding_perm base o o' s : o ≡ₚ o' -> holding base o s -> holding base o' s.
Proof.
  intros Hp [H1 H2 H3]. constructor.
  - by rewrite <- Hp.
  - by rewrite <- Hp.
  - rewrite H3. f_equal. by apply list_to_map_proper.
Qed.

Lemma holding_make base o h k s : holding base o s -> handles s !! h = None ->
  holding base ((h, k) :: o) (with_handles <[h := k]> s).
Proof.
  intros [H1 H2 H3] Hh. rewrite H3 in Hh. apply lookup_union_None in Hh as [Ho Hb]. constructor; cbn.
  - constructor; [|done]. by apply not_elem_of_list_to_map in Ho.
  - by constructor.
  - by rewrite H3, insert_union_l.
Qed.

Lemma holding_lookup base o h k s : holding base o s -> (h, k) ∈ o -> handles s !! h = Some k.
Proof. intros [H1 H2 ->] Hin. apply lookup_union_Some_l. by apply elem_of_list_to_map. Qed.

Lemma holding_close base o h k s : holding base ((h, k) :: o) s -> holding base o (with_handles (delete h) s).
Proof.
  intros [H1 H2 H3]. cbn in *. apply NoDup_cons in H1 as [Hn H1]. apply Forall_cons in H2 as [Hb H2]. constructor; [done..|]. cbn.
  rewrite H3, delete_union. cbn. rewrite delete_insert_id by (by apply not_elem_of_list_to_map). by rewrite (delete_id (handles base)).
Qed.

Lemma holding_nothing base s : holding base [] s <-> handles s = handles base.
Proof.
  split; [intros [_ _ ->]; cbn; apply (left_id_L ∅ (∪))|]. intros Hs. constructor; [constructor..|]. cbn. by rewrite Hs, (left_id_L ∅ (∪)).
Qed.

Lemma holding_same base o s s' : handles s' = handles s -> holding base o s -> holding base o s'.
Proof. intros Hh [H1 H2 H3]. constructor; [done..|congruence]. Qed.

(** ** The rest of the system's state *)

(** The memory held is the descriptor, where there is one. *)
Definition remembering (base : t) (d : option Z) (s : t) : Prop :=
  match d with
  | None => memory s = memory base
  | Some d => memory base !! d = None /\ exists held, memory s = <[d := held]> (memory base)
  end.

(** Nothing else is other than it was, and the locks hold [cs]. *)
Record calm (base : t) (cs : gmap Z (option Z)) (s : t) : Prop := {
  calm_self : standing_in s <> AsClient;
  calm_living : living s = living base;
  calm_flying : flying s = flying base;
  calm_locks : locks s = cs;
}.

(** What a program starts from: a thread that acts for no client, and no operation in
    flight on a handle that is not open. *)
Record quiet (base : t) : Prop := {
  quiet_self : standing_in base <> AsClient;
  quiet_ground : grounded base;
}.

Record owning (base : t) (o : list (Z * Kind)) (d : option Z) (cs : gmap Z (option Z)) (s : t) : Prop := {
  owns_handles : holding base o s;
  owns_memory : remembering base d s;
  owns_calm : calm base cs s;
}.

Lemma owning_nothing base : quiet base -> owning base [] None (locks base) base.
Proof. intros [H1 H2]. constructor; [by apply holding_nothing|done|by constructor]. Qed.

(** What is left where nothing is held any more: what was there before, but
    for the locks, and a thread that could not be made itself again. *)
Lemma owning_gone base {cs} s : owning base [] None cs s -> s = mk (handles base) (memory base) (standing_in s) (living base) (flying base) cs.
Proof. intros [Hh Hm [H1 H2 H3 H4]]. apply holding_nothing in Hh. destruct s. cbn in *. congruence. Qed.

Lemma owning_rests base {cs} o d s s' : owning base o d cs s -> rests s s' -> owning base o d cs s'.
Proof. intros [H1 H2 [H3 H4 H5 H6]] [Hs ->]. constructor; [by apply (holding_same _ _ s)|by destruct d|by constructor]. Qed.

Lemma owning_lock base {cs} o d f s : owning base o d cs s -> owning base o d (f cs) (with_locks f s).
Proof.
  intros [H1 H2 [H3 H4 H5 H6]]. constructor; [by apply (holding_same _ _ s)|by destruct d|]. constructor; cbn; [done..|by rewrite H6].
Qed.

Lemma owning_perm base {cs} o o' d s : o ≡ₚ o' -> owning base o d cs s -> owning base o' d cs s.
Proof. intros Hp [H1 H2 H3]. constructor; [by eapply holding_perm|done..]. Qed.

Lemma owning_make base {cs} o d h k s : owning base o d cs s -> handles s !! h = None ->
  owning base ((h, k) :: o) d cs (with_handles <[h := k]> s).
Proof. intros [H1 H2 [H3 H4 H5 H6]] Hh. constructor; [by apply holding_make|by destruct d|by constructor]. Qed.

(** A handle held is closed: no operation in flight is of it. *)
Lemma close_safe base {cs} o d h k s (Q : unit -> t -> Prop) : quiet base -> owning base ((h, k) :: o) d cs s ->
  (forall s', owning base o d cs s' -> Q tt s') -> safe (call (CloseHandle h)) s Q.
Proof.
  intros [_ Hg] [H1 H2 [H3 H4 H5 H6]] HQ. split.
  - split; [rewrite (holding_lookup _ _ h k _ H1) by left; by eexists|]. rewrite H5. intros a f Hf.
    pose proof (Hg a f Hf) as [[? Hon] [? Hsig]]. apply held_new in H1. apply Forall_cons in H1 as [Hb _]. cbn in Hb.
    split; intros Heq; congruence.
  - intros [] s' ->. apply HQ. constructor; [by eapply holding_close|by destruct d|by constructor].
Qed.

(** The descriptor held is freed. *)
Lemma free_safe base {cs} o d s (Q : unit -> t -> Prop) : owning base o (Some d) cs s ->
  (forall s', owning base o None cs s' -> Q tt s') -> safe (call (LocalFree d)) s Q.
Proof.
  intros [H1 (Hd & held & Hm) [H3 H4 H5 H6]] HQ. split; [cbn; rewrite Hm, lookup_insert_eq; by eexists|].
  intros [] s' ->. apply HQ. constructor; [|cbn|by constructor].
  - by apply (holding_same _ _ s).
  - by rewrite Hm, delete_insert_id.
Qed.

(** Handles of an end and its event, one after another. *)
Definition end_of (h : Z * Z) : list (Z * Kind) := [(h.1, PipeEnd); (h.2, Event)].

(** What makes a handle and nothing else, on its way to being held. *)
Lemma makes_owning {E B} (p : prog (result E Z)) kind (k : result E Z -> prog B) base {cs} o d s (Q : B -> t -> Prop) :
  owning base o d cs s -> safe p s (makes kind s) ->
  (forall h s', owning base ((h, kind) :: o) d cs s' -> safe (k (Ok h)) s' Q) ->
  (forall e s', owning base o d cs s' -> safe (k (Err e)) s' Q) ->
  safe (Win.bind p k) s Q.
Proof.
  intros Ho Hp Hok Herr. eapply safe_then; [exact Hp|]. intros [h|e] s'; cbn [makes].
  - intros [Hh ->]. apply Hok. by apply owning_make.
  - intros ->. by apply Herr.
Qed.

(** ** One operation *)

Section operations.
Context `{System} `{WideCode}.
Implicit Types (base s : t) (o : list (Z * Kind)) (d : option Z).

Lemma openers_safe admit_ s : safe (WinPipe.openers admit_) s (fun _ s' => s' = s).
Proof.
  unfold WinPipe.openers. generalize Pipe.OPENERS. induction admit_ as [|name admit_ IH]; intros sddl; cbn [WinPipe.admit_each]; [done|].
  eapply safe_then; [apply Account.account_sid_safe|]. intros [sid|why] s1 ->; [apply IH|done].
Qed.

Lemma bind_safe base {cs} o s path admit_ : quiet base -> owning base o None cs s ->
  safe (WinPipe.bind path admit_) s (fun r s' =>
    match r with
    | Ok l => terminated (WinPipe.wide l) /\ owning base (end_of (WinPipe.next l) ++ o) (Some (WinPipe.descriptor l)) cs s'
    | Err _ => owning base o None cs s'
    end).
Proof.
  intros Hq Ho. eapply safe_then; [apply openers_safe|]. intros admitted s1 ->.
  destruct (map_err _ admitted) as [sddl|e]; [|done]. cbn [res_bind].
  destruct (WinPipe.other (wide_encode sddl)) as [wide_sddl|e] eqn:Hs; [|done]. cbn [res_bind].
  destruct (WinPipe.wide_path path) as [wide|e] eqn:Hw; [|done]. cbn [res_bind].
  assert (terminated wide_sddl) as Hts.
  { unfold WinPipe.other in Hs. destruct (wide_encode sddl) eqn:He; [|done]. injection Hs as <-. by eapply encode_ends. }
  assert (terminated wide) as Htw.
  { unfold WinPipe.wide_path, WinPipe.other in Hw. destruct (wide_terminated path) eqn:He; [|done]. injection Hw as <-. by eapply terminated_ends. }
  eapply safe_then; [by apply from_sddl_safe|]. intros [descriptor|code] s1; [|by intros ->]. intros (Hd & held & ->).
  assert (owning base o (Some descriptor) cs (with_memory <[descriptor := held]> s)) as Ho1.
  { destruct Ho as [H1 H2 [H3 H4 H5 H6]]. cbn in H2. constructor; [by apply (holding_same _ _ s)| |by constructor]. cbn. rewrite <- H2. split; [done|by exists held]. }
  eapply makes_owning; [exact Ho1|apply instance_safe; [done|cbn; rewrite lookup_insert_eq; by eexists]| |].
  - intros first s2 Ho2. eapply makes_owning; [exact Ho2|apply new_event_safe| |].
    + intros event s3 Ho3. split; [done|]. eapply owning_perm; [|exact Ho3]. cbn. apply perm_swap.
    + intros e s3 Ho3. seq. eapply close_safe; [done|exact Ho3|]. intros s4 Ho4. seq.
      by eapply free_safe.
  - intros e s2 Ho2. seq. by eapply free_safe.
Qed.

(** A connection made of an end and its event: its lock holds the end. *)
Lemma new_safe base {cs} o d s pipe event made : owning base o d cs s ->
  safe (WinPipe.new pipe event made) s (fun st s' =>
    WinPipe.pipe st = pipe /\ WinPipe.event st = event /\ cs !! WinPipe.open st = None
    /\ owning base o d (<[WinPipe.open st := Some pipe]> cs) s').
Proof.
  intros Ho. apply safe_call; [done|]. intros open s1 [Hf ->]. split_and!; [done|done| |].
  - by rewrite <- (calm_locks _ _ _ (owns_calm _ _ _ _ _ Ho)).
  - exact (owning_lock base o d (<[open := Some pipe]>) s Ho).
Qed.

Lemma accept_safe base {cs} o s l within : quiet base -> terminated (WinPipe.wide l) ->
  owning base (end_of (WinPipe.next l) ++ o) (Some (WinPipe.descriptor l)) cs s ->
  safe (WinPipe.accept l within) s (fun '(r, l') s' =>
    terminated (WinPipe.wide l') /\ WinPipe.descriptor l' = WinPipe.descriptor l
    /\ match r with
       | Ok st => cs !! WinPipe.open st = None /\ owning base (end_of (WinPipe.next l') ++ end_of (WinPipe.pipe st, WinPipe.event st) ++ o)
                    (Some (WinPipe.descriptor l)) (<[WinPipe.open st := Some (WinPipe.pipe st)]> cs) s'
       | Err _ => l' = l /\ owning base (end_of (WinPipe.next l) ++ o) (Some (WinPipe.descriptor l)) cs s'
       end).
Proof.
  intros Hq Ht Ho. pose proof (owns_handles _ _ _ _ _ Ho) as Hh.
  eapply safe_then; [apply connected_safe; (eapply holding_lookup; [exact Hh|]); [by left|by right; left]|].
  intros [[]|e] s1 ->; [|done]. eapply makes_owning; [exact Ho|apply instance_safe; [done|]| |].
  { apply owns_memory in Ho as (_ & held & Hm). rewrite Hm, lookup_insert_eq. by eexists. }
  - intros after s2 Ho2. eapply makes_owning; [exact Ho2|apply new_event_safe| |].
    + intros event s3 Ho3. destruct (WinPipe.next l) as [reached its]. eapply safe_then; [by eapply new_safe|].
      intros st s4 (<- & <- & Hf & Ho4). split_and!; [done|done|done|]. eapply owning_perm; [|exact Ho4]. cbn. apply perm_swap.
    + intros e s3 Ho3. seq. eapply close_safe; [done|exact Ho3|]. by intros s4 Ho4.
  - intros e s2 Ho2. by split_and!.
Qed.

Lemma drop_listener_safe base {cs} o s l : quiet base -> owning base (end_of (WinPipe.next l) ++ o) (Some (WinPipe.descriptor l)) cs s ->
  safe (WinPipe.drop_listener l) s (fun _ s' => owning base o None cs s').
Proof.
  intros Hq Ho. seq. eapply free_safe; [exact Ho|]. intros s1 Ho1. seq.
  eapply close_safe; [done|exact Ho1|]. intros s2 Ho2. by eapply close_safe.
Qed.

(** A connection gone: its lock holds nothing from before its handle closes. *)
Lemma drop_stream_safe base {cs} o d s st : quiet base -> is_Some (cs !! WinPipe.open st) ->
  owning base (end_of (WinPipe.pipe st, WinPipe.event st) ++ o) d cs s ->
  safe (WinPipe.drop_stream st) s (fun _ s' => owning base o d (<[WinPipe.open st := None]> cs) s').
Proof.
  intros Hq Hc Ho. apply safe_call; [cbn; by rewrite (calm_locks _ _ _ (owns_calm _ _ _ _ _ Ho))|]. intros [] s1 ->.
  apply (owning_lock _ _ _ (<[WinPipe.open st := None]>)) in Ho. seq.
  eapply close_safe; [done|exact Ho|]. intros s1 Ho1. by eapply close_safe.
Qed.

Lemma connect_safe base {cs} o d s turns path patience : quiet base -> owning base o d cs s ->
  safe (WinPipe.connect turns path patience) s (fun r s' =>
    match r with
    | Some (Ok st) => cs !! WinPipe.open st = None
        /\ owning base (end_of (WinPipe.pipe st, WinPipe.event st) ++ o) d (<[WinPipe.open st := Some (WinPipe.pipe st)]> cs) s'
    | _ => owning base o d cs s'
    end).
Proof.
  intros Hq Ho. unfold WinPipe.connect. destruct (WinPipe.wide_path path) as [wide|e] eqn:Hw; [|done].
  assert (terminated wide) as Htw.
  { unfold WinPipe.wide_path, WinPipe.other in Hw. destruct (wide_terminated path) eqn:He; [|done]. injection Hw as <-. by eapply terminated_ends. }
  seq. eapply (safe_weaken _ _ (fun _ s' => s' = s)).
  { destruct patience; [|done]. apply safe_call; [done|]. by intros now s1 ->. }
  intros deadline s1 ->. induction turns as [|turns IH]; cbn [WinPipe.connect_turns]; [done|].
  eapply safe_then; [by apply open_identifying_safe|]. intros [[handle|e]|] s1; cbn [makes].
  - intros [Hh ->]. eapply makes_owning; [by apply owning_make|apply new_event_safe| |].
    + intros event s2 Ho2. eapply safe_then; [by eapply new_safe|]. intros st s3 (<- & <- & Hf & Ho3). split; [done|].
      eapply owning_perm; [|exact Ho3]. cbn. apply perm_swap.
    + intros e s2 Ho2. seq. by eapply close_safe.
  - by intros ->.
  - intros ->. eapply (safe_then _ _ _ (fun _ s' => s' = s)).
    { destruct deadline; [|done]. apply safe_call; [done|]. by intros now s1 ->. }
    intros left_ s1 ->. case_bool_decide; [done|]. eapply safe_then; [by apply wait_free_safe|]. intros [] s1 ->; done.
Qed.

(** ** One connection *)

Definition ends (st : WinPipe.Stream) : list (Z * Kind) := end_of (WinPipe.pipe st, WinPipe.event st).

Record usable (s : t) (st : WinPipe.Stream) : Prop := {
  its_end : handles s !! WinPipe.pipe st = Some PipeEnd;
  its_event : handles s !! WinPipe.event st = Some Event;
}.

(** The same connection, other octets read ahead of it. *)
Definition same (st st' : WinPipe.Stream) : Prop := exists ahead, st' = WinPipe.with_ahead ahead st.

Lemma same_refl st : same st st.
Proof. exists (WinPipe.read_ahead st). by destruct st. Qed.
Lemma same_ahead st ahead : same st (WinPipe.with_ahead ahead st).
Proof. by exists ahead. Qed.
Lemma same_usable s st st' : same st st' -> usable s st -> usable s st'.
Proof. intros [ahead ->] [H1 H2]. by constructor. Qed.
Hint Resolve same_refl same_ahead : core.

Lemma read_safe s st room : usable s st -> 0 <= room ->
  safe (WinPipe.read st room) s (fun '(_, st') s' => s' = s /\ same st st').
Proof.
  intros [H1 H2] Hr. unfold WinPipe.read. destruct (WinPipe.read_ahead st); [|by split].
  case_test; (eapply safe_then; [apply io_read_safe; done|]).
  - intros r s1 [-> _]. by split.
  - intros [[|b got]|e] s1 [-> _]; by split.
Qed.

Lemma hear_safe s st : usable s st -> safe (WinPipe.hear st) s (fun '(_, st') s' => s' = s /\ same st st').
Proof.
  intros [H1 H2]. unfold WinPipe.hear. destruct (WinPipe.read_ahead st); [|by split].
  eapply safe_then; [apply io_read_safe; done|]. intros [[|b got]|e] s1 [-> _]; by split.
Qed.

Lemma lent_safe s st : usable s st -> grounded s -> standing_in s <> AsClient ->
  safe (WinPipe.lent st) s (fun '(r, st') s' => rests s s' /\ same st st' /\ match r with Ok (sid, _) => sid_words sid | Err _ => True end).
Proof.
  intros Hu Hg Hs. apply rests_refl in Hs as Hr0. unfold WinPipe.lent. destruct (WinPipe.made st); [|by split]. cbn [negb].
  eapply safe_then; [by apply hear_safe|]. intros [[[]|why] st'] s1 [-> Hst]; [|by split].
  apply (same_usable s) in Hst as Hu'; [|done].
  eapply safe_then; [eapply (impersonating_safe _ _ s (fun r => match r with Ok (sid, _) => sid_words sid | Err _ => True end))|].
  - apply Hu'.
  - done.
  - eapply safe_weaken; [by apply Account.impersonated_safe|]. by intros r s' [-> Hr].
  - intros [[[sid level]|why]|e] s1 [Hrests Hr]; by split_and!.
Qed.

Lemma caller_safe s st names : usable s st -> grounded s -> standing_in s <> AsClient ->
  safe (WinPipe.caller st names) s (fun '(_, st', _) s' => rests s s' /\ same st st').
Proof.
  intros Hu Hg Hs. eapply safe_then; [by apply lent_safe|]. intros [[[sid level]|why] st'] s1 (Hrests & Hst & Hr); [|by split].
  destruct (names !! sid) as [name|]; [by split|]. eapply safe_then; [by apply Account.account_name_safe|].
  intros [name|why] s2 ->; by split.
Qed.

Lemma peer_process_safe s st : usable s st -> safe (WinPipe.peer_process st) s (fun _ s' => s' = s).
Proof.
  intros Hu. unfold WinPipe.peer_process. destruct (WinPipe.made st); [|done].
  eapply safe_then; [apply client_process_safe, Hu|]. by intros r s1 ->.
Qed.

(** A cancel of a lock that holds an open end, or nothing. *)
Lemma cancel_safe s (cancel : WinPipe.Cancel) held : locks s !! WinPipe.shared cancel = Some held ->
  (forall handle, held = Some handle -> handles s !! handle = Some PipeEnd) ->
  safe (WinPipe.cancel_cancel cancel) s (fun _ s' => s' = s).
Proof.
  intros Hl Hh. unfold WinPipe.cancel_cancel, PipeIo.cancel. apply safe_call; [by eexists|]. intros held' s1 (-> & Hl').
  assert (held' = held) as -> by congruence. destruct held as [handle|]; [|done]. split; [by apply Hh|]. by intros [] s' ->.
Qed.
End operations.
#[export] Hint Resolve same_refl same_ahead : core.

(** ** A program's life

    What it holds: a listener, the connections by the order they were had
    in, those dropped gone, the names kept, and what cancels a connection,
    that may outlive it. *)
Record Held : Type := mkHeld {
  listener : option WinPipe.Listener;
  streams : list (option WinPipe.Stream);
  names : Pipe.Names;
  cancels : list WinPipe.Cancel;
}.

Definition nothing : Held := mkHeld None [] ∅ [].

Inductive Action : Type :=
| Bind (path : list Z) (admit_ : list bytes)
| Accept (within : option Duration)
| Connect (turns : nat) (path : list Z) (patience : option Duration)
| Read (i : nat) (room : Z)
| Write (i : nat) (bs : bytes)
| Caller (i : nat)
| PeerProcess (i : nat)
| TakeCancel (i : nat)
| UseCancel (j : nat)
| RunningAs
| DropStream (i : nat)
| DropListener.

Section life.
Context `{System} `{WideCode}.

Definition with_stream (i : nat) (st : option WinPipe.Stream) (h : Held) : Held :=
  mkHeld (listener h) (<[i := st]> (streams h)) (names h) (cancels h).

(** [k] of the connection [i], where there is one. *)
Definition on_stream (i : nat) (h : Held) (k : WinPipe.Stream -> prog Held) : prog Held :=
  match streams h !! i with Some (Some st) => k st | _ => Ret h end.

Definition perform (a : Action) (h : Held) : prog Held :=
  match a with
  | Bind path admit_ =>
      match listener h with
      | Some _ => Ret h
      | None =>
          bound <~~ WinPipe.bind path admit_ ;;
          Ret match bound with Ok l => mkHeld (Some l) (streams h) (names h) (cancels h) | Err _ => h end
      end
  | Accept within =>
      match listener h with
      | None => Ret h
      | Some l =>
          accepted <~~ WinPipe.accept l within ;;
          Ret (mkHeld (Some accepted.2)
                 match accepted.1 with Ok st => streams h ++ [Some st] | Err _ => streams h end (names h) (cancels h))
      end
  | Connect turns path patience =>
      connected <~~ WinPipe.connect turns path patience ;;
      Ret match connected with
          | Some (Ok st) => mkHeld (listener h) (streams h ++ [Some st]) (names h) (cancels h)
          | _ => h
          end
  | Read i room => on_stream i h (fun st => read <~~ WinPipe.read st (Z.max 0 room) ;; Ret (with_stream i (Some read.2) h))
  | Write i bs => on_stream i h (fun st => _ <~~ WinPipe.write st bs ;; Ret h)
  | Caller i =>
      on_stream i h (fun st =>
        asked <~~ WinPipe.caller st (names h) ;;
        let '(_, st, names) := asked in
        Ret (mkHeld (listener h) (<[i := Some st]> (streams h)) names (cancels h)))
  | PeerProcess i => on_stream i h (fun st => _ <~~ WinPipe.peer_process st ;; Ret h)
  | TakeCancel i =>
      on_stream i h (fun st => Ret (mkHeld (listener h) (streams h) (names h) (cancels h ++ [WinPipe.cancel st])))
  | UseCancel j =>
      match cancels h !! j with
      | Some cancel => _ <~~ WinPipe.cancel_cancel cancel ;; Ret h
      | None => Ret h
      end
  | RunningAs => _ <~~ WinPipe.running_as ;; Ret h
  | DropStream i => on_stream i h (fun st => _ <~~ WinPipe.drop_stream st ;; Ret (with_stream i None h))
  | DropListener =>
      match listener h with
      | None => Ret h
      | Some l => _ <~~ WinPipe.drop_listener l ;; Ret (mkHeld None (streams h) (names h) (cancels h))
      end
  end.

Fixpoint perform_all (actions : list Action) (h : Held) : prog Held :=
  match actions with
  | [] => Ret h
  | a :: actions => h <~~ perform a h ;; perform_all actions h
  end.

(** What is left at the end is dropped, and what cancels used once more. *)
Definition the_end (h : Held) : list Action :=
  map DropStream (seq 0 (length (streams h))) ++ [DropListener] ++ map UseCancel (seq 0 (length (cancels h))).
Definition live (actions : list Action) : prog Held :=
  h <~~ perform_all actions nothing ;; perform_all (the_end h) h.

(** *** What it holds of the system *)

Definition ends_of (st : option WinPipe.Stream) : list (Z * Kind) := match st with Some st => ends st | None => [] end.
Definition held_by (l : option WinPipe.Listener) : list (Z * Kind) :=
  match l with Some l => end_of (WinPipe.next l) | None => [] end.
Definition held (h : Held) : list (Z * Kind) := held_by (listener h) ++ concat (map ends_of (streams h)).

(** The locks made, holding [cs]: each connection's holds its own handle, one
    that holds a handle is a connection's own, and what cancels has one of
    them. *)
Record locking (base : t) (h : Held) (cs : gmap Z (option Z)) : Prop := {
  lock_holds : forall i st, streams h !! i = Some (Some st) ->
    cs !! WinPipe.open st = Some (Some (WinPipe.pipe st)) /\ locks base !! WinPipe.open st = None;
  lock_apart : forall i j st st', streams h !! i = Some (Some st) -> streams h !! j = Some (Some st') ->
    WinPipe.open st = WinPipe.open st' -> i = j;
  lock_lives : forall lock handle, cs !! lock = Some (Some handle) -> locks base !! lock = None ->
    exists i st, streams h !! i = Some (Some st) /\ WinPipe.open st = lock /\ WinPipe.pipe st = handle;
  lock_before : forall lock held, locks base !! lock = Some held -> cs !! lock = Some held;
  lock_cancels : Forall (fun c => is_Some (cs !! WinPipe.shared c) /\ locks base !! WinPipe.shared c = None) (cancels h);
}.

Record sound (base : t) (h : Held) (s : t) : Prop := {
  sound_owns : owning base (held h) (WinPipe.descriptor <$> listener h) (locks s) s;
  sound_wide : match listener h with Some l => terminated (WinPipe.wide l) | None => True end;
  sound_locks : locking base h (locks s);
}.

Lemma sound_of base h cs s : owning base (held h) (WinPipe.descriptor <$> listener h) cs s ->
  match listener h with Some l => terminated (WinPipe.wide l) | None => True end -> locking base h cs -> sound base h s.
Proof. intros Ho Hw Hl. destruct (owns_calm _ _ _ _ _ Ho) as [_ _ _ <-]. by constructor. Qed.

Lemma sound_nothing base : quiet base -> sound base nothing base.
Proof.
  intros Hq. constructor; [by apply owning_nothing|done|]. constructor; cbn; try done.
  intros lock handle H1 H2. congruence.
Qed.

(** What the locks of an other listener, or other names, hold. *)
Lemma locking_other base h cs l names' : locking base h cs -> locking base (mkHeld l (streams h) names' (cancels h)) cs.
Proof. by intros [H1 H2 H3 H4 H5]. Qed.

Lemma locking_put base h cs i st st' names' : locking base h cs -> streams h !! i = Some (Some st) -> same st st' ->
  locking base (mkHeld (listener h) (<[i := Some st']> (streams h)) names' (cancels h)) cs.
Proof.
  intros [H1 H2 H3 H4 H5] Hi [ahead ->].
  assert (forall j st1, <[i := Some (WinPipe.with_ahead ahead st)]> (streams h) !! j = Some (Some st1) ->
    exists st0, streams h !! j = Some (Some st0) /\ WinPipe.open st1 = WinPipe.open st0 /\ WinPipe.pipe st1 = WinPipe.pipe st0) as Hback.
  { intros j st1. rewrite list_lookup_insert_Some. intros [(-> & [= <-] & _)|[_ Hj]]; [by exists st|by exists st1]. }
  constructor; cbn; [| | |done|done].
  - intros j st1 (st0 & Hj & -> & ->)%Hback. by eapply H1.
  - intros j k st1 st2 (st0 & Hj & -> & _)%Hback (st3 & Hk & -> & _)%Hback. by eapply H2.
  - intros lock handle Hc Hb. destruct (H3 lock handle Hc Hb) as (j & st1 & Hj & <- & <-). destruct (decide (j = i)) as [->|Hne].
    + assert (st1 = st) as -> by congruence. exists i, (WinPipe.with_ahead ahead st).
      split; [|done]. apply list_lookup_insert_eq. by eapply lookup_lt_Some.
    + exists j, st1. by rewrite list_lookup_insert_ne.
Qed.

Lemma locking_more base h cs st l names' : locking base h cs -> cs !! WinPipe.open st = None ->
  locking base (mkHeld l (streams h ++ [Some st]) names' (cancels h)) (<[WinPipe.open st := Some (WinPipe.pipe st)]> cs).
Proof.
  intros [H1 H2 H3 H4 H5] Hf.
  assert (locks base !! WinPipe.open st = None) as Hb.
  { destruct (locks base !! WinPipe.open st) as [held|] eqn:Hb; [|done]. apply H4 in Hb. congruence. }
  assert (forall i st1, (streams h ++ [Some st]) !! i = Some (Some st1) ->
    (i = length (streams h) /\ st1 = st) \/ (streams h !! i = Some (Some st1) /\ WinPipe.open st1 <> WinPipe.open st)) as Hback.
  { intros i st1 Hi. apply lookup_app_Some in Hi as [Hi|[Hle Hi]].
    - right. split; [done|]. intros Heq. destruct (H1 _ _ Hi) as [Hc _]. rewrite Heq in Hc. congruence.
    - apply list_lookup_singleton_Some in Hi as [? [= <-]]. left. split; [lia|done]. }
  constructor; cbn.
  - intros i st1 [[-> ->]|[Hi Hne]]%Hback; [by rewrite lookup_insert_eq|]. rewrite lookup_insert_ne by done. by eapply H1.
  - intros i j st1 st2 [[-> ->]|[Hi Hne]]%Hback [[-> ->]|[Hj Hne']]%Hback Heq; [done|congruence|congruence|by eapply H2].
  - intros lock handle [[<- [= <-]]|[Hne Hc]]%lookup_insert_Some Hl.
    + exists (length (streams h)), st. split; [by rewrite lookup_app_r, Nat.sub_diag by lia|done].
    + destruct (H3 lock handle Hc Hl) as (i & st1 & Hi & Hst). exists i, st1. split; [by apply lookup_app_l_Some|done].
  - intros lock held Hl. rewrite lookup_insert_ne; [by apply H4|]. intros <-. congruence.
  - eapply Forall_impl; [exact H5|]. intros c [Hc Hl]. split; [|done]. rewrite lookup_insert_is_Some'. by right.
Qed.

(** A connection gone leaves its lock empty, whoever shares it. *)
Lemma locking_drop base h cs i st : locking base h cs -> streams h !! i = Some (Some st) ->
  locking base (with_stream i None h) (<[WinPipe.open st := None]> cs).
Proof.
  intros [H1 H2 H3 H4 H5] Hi. destruct (H1 i st Hi) as [Hc Hb].
  assert (forall j st1, <[i := None]> (streams h) !! j = Some (Some st1) -> streams h !! j = Some (Some st1) /\ j <> i) as Hback.
  { intros j st1. rewrite list_lookup_insert_Some. by intros [(_ & ? & _)|[Hne Hj]]. }
  constructor; cbn.
  - intros j st1 [Hj Hne]%Hback. rewrite lookup_insert_ne; [by eapply H1|]. intros Heq. by eapply Hne, H2.
  - intros j k st1 st2 [Hj _]%Hback [Hk _]%Hback. by eapply H2.
  - intros lock handle [[_ ?]|[Hne Hl]]%lookup_insert_Some Hbl; [done|].
    destruct (H3 lock handle Hl Hbl) as (j & st1 & Hj & <- & <-). exists j, st1. split; [|done].
    rewrite list_lookup_insert_ne; [done|]. intros ->. congruence.
  - intros lock held Hl. rewrite lookup_insert_ne; [by apply H4|]. intros <-. congruence.
  - eapply Forall_impl; [exact H5|]. intros c [Hc' Hl]. split; [|done]. rewrite lookup_insert_is_Some'. by right.
Qed.

Lemma ends_at l i st : l !! i = Some (Some st) ->
  concat (map ends_of l) ≡ₚ ends st ++ concat (map ends_of (<[i := None]> l)).
Proof.
  revert i. induction l as [|x l IH]; intros [|i] Hi; [done|done| |].
  - cbn in Hi. injection Hi as ->. done.
  - cbn [list_lookup] in Hi. cbn [map concat list_insert]. rewrite (IH i Hi). apply Permutation_app_swap_app.
Qed.

Lemma ends_same l i st st' : l !! i = Some (Some st) -> same st st' ->
  concat (map ends_of (<[i := Some st']> l)) = concat (map ends_of l).
Proof.
  intros Hi [ahead ->]. revert i Hi. induction l as [|x l IH]; intros [|i] Hi; [done|done| |].
  - cbn in Hi. by injection Hi as ->.
  - cbn in Hi. cbn [insert list_insert map concat]. f_equal. by apply IH.
Qed.

Lemma sound_usable base h s i st : sound base h s -> streams h !! i = Some (Some st) -> usable s st.
Proof.
  intros [Ho _ _] Hi. pose proof (owns_handles _ _ _ _ _ Ho) as Hh.
  assert (forall x, x ∈ ends st -> x ∈ held h) as Hin.
  { intros x Hx. unfold held. rewrite (ends_at _ i st Hi), !elem_of_app. tauto. }
  constructor; (eapply holding_lookup; [exact Hh|]; apply Hin); [by left|by right; left].
Qed.

Lemma owning_quiet base {cs} o d s : quiet base -> owning base o d cs s -> grounded s /\ standing_in s <> AsClient.
Proof.
  intros [_ Hg] [[_ _ H1] _ [H2 _ H3 _]]. split; [|done]. unfold grounded. rewrite H3. intros a f Hf. rewrite H1.
  rewrite !lookup_union_is_Some. destruct (Hg a f Hf). tauto.
Qed.

Lemma sound_rests base h s s' : sound base h s -> rests s s' -> sound base h s'.
Proof.
  intros [Ho Hw Hl] Hr. assert (locks s' = locks s) as Heq by (destruct Hr as [_ ->]; done).
  constructor; rewrite ?Heq; [by eapply owning_rests|done|done].
Qed.

(** What an operation on a connection leaves of it is put back. *)
Lemma sound_put base h s i st st' names' : sound base h s -> streams h !! i = Some (Some st) -> same st st' ->
  sound base (mkHeld (listener h) (<[i := Some st']> (streams h)) names' (cancels h)) s.
Proof.
  intros [Ho Hw Hl] Hi Hst. constructor; [|done|by eapply locking_put].
  unfold held. cbn [listener streams]. by rewrite (ends_same _ i st st').
Qed.

Lemma on_stream_safe base h s i (k : WinPipe.Stream -> prog Held) : quiet base -> sound base h s ->
  (forall st, streams h !! i = Some (Some st) -> usable s st -> grounded s -> standing_in s <> AsClient -> safe (k st) s (sound base)) ->
  safe (on_stream i h k) s (sound base).
Proof.
  intros Hq Hs Hk. unfold on_stream. destruct (streams h !! i) as [[st|]|] eqn:Hi; [|done|done].
  destruct (owning_quiet _ _ _ _ Hq (sound_owns _ _ _ Hs)). apply Hk; [done|by eapply sound_usable|done|done].
Qed.

Lemma sound_more base h cs s st l names' d :
  owning base (held_by l ++ ends st ++ concat (map ends_of (streams h))) d (<[WinPipe.open st := Some (WinPipe.pipe st)]> cs) s ->
  d = WinPipe.descriptor <$> l -> match l with Some l => terminated (WinPipe.wide l) | None => True end ->
  cs !! WinPipe.open st = None -> locking base h cs ->
  sound base (mkHeld l (streams h ++ [Some st]) names' (cancels h)) s.
Proof.
  intros Ho -> Hw Hf Hl. eapply sound_of; [|done|by apply locking_more].
  unfold held. cbn [listener streams]. rewrite map_app, concat_app. cbn [map concat ends_of]. rewrite app_nil_r.
  eapply owning_perm; [|exact Ho]. apply Permutation_app; [done|apply Permutation_app_comm].
Qed.

(** A connection dropped is one fewer, and the others are as they were. *)
Lemma drop_one_safe base h s i : quiet base -> sound base h s ->
  safe (perform (DropStream i) h) s (fun h' s' => sound base h' s' /\ length (streams h') = length (streams h)
    /\ forall j st, streams h' !! j = Some (Some st) -> streams h !! j = Some (Some st) /\ j <> i).
Proof.
  intros Hq [Ho Hw Hl]. cbn [perform]. unfold on_stream. destruct (streams h !! i) as [[st|]|] eqn:Hi.
  - destruct (lock_holds _ _ _ Hl i st Hi) as [Hc _].
    eapply safe_then; [eapply (drop_stream_safe base (held_by (listener h) ++ concat (map ends_of (<[i := None]> (streams h))))); [exact Hq|by eexists|]|].
    + eapply owning_perm; [|exact Ho]. unfold held. rewrite (ends_at _ i st Hi). apply Permutation_app_swap_app.
    + intros [] s1 Ho1. split_and!; [eapply sound_of; [exact Ho1|done|by apply locking_drop]|apply length_insert|].
      intros j st' Hj. cbn [streams with_stream] in Hj. apply list_lookup_insert_Some in Hj as [(_ & ? & _)|[Hne Hj]]; done.
  - split_and!; [done..|]. intros j st' Hj. split; [done|]. intros ->. congruence.
  - split_and!; [done..|]. intros j st' Hj. split; [done|]. intros ->. congruence.
Qed.

(** What cancels is used, its connection gone or not: it reaches an open end
    or nothing. *)
Lemma use_cancel_safe base h s j : quiet base -> sound base h s ->
  safe (perform (UseCancel j) h) s (fun h' s' => h' = h /\ s' = s).
Proof.
  intros Hq Hs. cbn [perform]. destruct (cancels h !! j) as [cancel|] eqn:Hj; [|done].
  pose proof (sound_locks _ _ _ Hs) as Hl.
  destruct (Forall_lookup_1 _ _ _ _ (lock_cancels _ _ _ Hl) Hj) as [[held Hheld] Hbase].
  eapply safe_then; [eapply cancel_safe; [exact Hheld|]|by intros [] s1 ->]. intros handle ->.
  destruct (lock_lives _ _ _ Hl _ handle Hheld Hbase) as (i & st & Hi & _ & <-). by eapply sound_usable.
Qed.

Lemma take_cancel_sound base h s i st : sound base h s -> streams h !! i = Some (Some st) ->
  sound base (mkHeld (listener h) (streams h) (names h) (cancels h ++ [WinPipe.cancel st])) s.
Proof.
  intros [Ho Hw Hl] Hi. constructor; [done|done|]. pose proof Hl as [H1 H2 H3 H4 H5]. constructor; [done..|]. cbn.
  apply Forall_app. split; [done|]. constructor; [|done]. destruct (H1 i st Hi) as [Hc Hb]. split; [by eexists|done].
Qed.

Lemma perform_safe base h s a : quiet base -> sound base h s -> safe (perform a h) s (sound base).
Proof.
  intros Hq Hs. set (o := concat (map ends_of (streams h))).
  assert (owning base (held_by (listener h) ++ o) (WinPipe.descriptor <$> listener h) (locks s) s) as Ho by apply Hs.
  pose proof (sound_wide _ _ _ Hs) as Hw. pose proof (sound_locks _ _ _ Hs) as Hlocks.
  destruct a as [path admit_|within|turns path patience|i room|i bs|i|i|i|j| |i|];
    [cbn [perform]..| |cbn [perform]|eapply safe_weaken; [by apply (drop_one_safe base)|by intros h' s' []]|cbn [perform]];
    try match goal with |- safe (on_stream _ _ _) _ _ => apply (on_stream_safe base); [done..|]; intros st Hi Hu Hg Hself end.
  - destruct (listener h) as [l|] eqn:Hl; [done|].
    eapply safe_then; [by eapply (bind_safe base o)|]. intros [l|e] s1.
    + intros [Ht Ho1]. eapply sound_of; [exact Ho1|done|by apply locking_other].
    + intros Ho1. eapply sound_of; [unfold held; rewrite Hl; exact Ho1|by rewrite Hl|done].
  - destruct (listener h) as [l|] eqn:Hl; [|done].
    eapply safe_then; [by eapply (accept_safe base o)|]. intros [[st|e] l'] s1 (Ht & Hd & Ho1); cbn [fst snd].
    + destruct Ho1 as [Hopen Ho1]. eapply (sound_more _ _ _ _ _ _ _ (Some (WinPipe.descriptor l))); [exact Ho1|cbn; congruence|done..].
    + destruct Ho1 as [-> Ho1]. eapply sound_of; [exact Ho1|done|by apply locking_other].
  - eapply safe_then; [by eapply connect_safe|]. intros [[st|e]|] s1.
    + intros [Hopen Ho1]. eapply (sound_more _ _ _ _ _ _ _ (WinPipe.descriptor <$> listener h)); [|done..]. eapply owning_perm; [|exact Ho1]. apply Permutation_app_swap_app.
    + intros Ho1. by eapply sound_of.
    + intros Ho1. by eapply sound_of.
  - eapply safe_then; [apply read_safe; [done|lia]|]. intros [r st'] s1 [-> Hst]. by eapply sound_put.
  - destruct Hu as [H1 H2]. eapply safe_then; [by apply io_write_safe|]. by intros r s1 [-> _].
  - eapply safe_then; [by apply caller_safe|]. intros [[r st'] names'] s1 [Hr Hst]. eapply sound_rests; [by eapply sound_put|done].
  - eapply safe_then; [by apply peer_process_safe|]. by intros r s1 ->.
  - by eapply take_cancel_sound.
  - eapply safe_weaken; [by apply (use_cancel_safe base)|]. by intros h' s' [-> ->].
  - destruct (owning_quiet _ _ _ _ Hq Ho) as [Hg _]. eapply (safe_then _ _ _ (fun _ s' => s' = s)).
    { unfold WinPipe.running_as. eapply safe_then; [by apply Account.running_as_safe|]. intros [sid|why] s1 [-> Hsid]; [|done].
      by apply Account.account_name_safe. }
    by intros r s1 ->.
  - destruct (listener h) as [l|] eqn:Hl; [|done]. eapply safe_then; [by eapply (drop_listener_safe base o)|].
    intros [] s1 Ho1. eapply sound_of; [exact Ho1|done|by apply locking_other].
Qed.

Lemma perform_all_safe base actions : quiet base -> forall h s, sound base h s ->
  safe (perform_all actions h) s (sound base).
Proof.
  intros Hq. induction actions as [|a actions IH]; intros h s Hs; [done|]. cbn [perform_all].
  eapply safe_then; [by apply perform_safe|]. intros h' s' Hs'. by apply IH.
Qed.

(** *** What is left at the end is dropped *)

Lemma none_left l : Forall (fun st => st = None) l -> concat (map ends_of l) = [].
Proof. by induction 1 as [|st l -> Hl IH]. Qed.

(** Nothing is held any more. *)
Definition let_go (base : t) (h : Held) (s : t) : Prop :=
  sound base h s /\ listener h = None /\ Forall (fun st => st = None) (streams h).

(** The connections before [i] are gone, and [k] more of them are dropped. *)
Lemma drop_each_safe base k : quiet base -> forall i h s, sound base h s -> (length (streams h) <= i + k)%nat ->
  (forall j st, (j < i)%nat -> streams h !! j <> Some (Some st)) ->
  safe (perform_all (map DropStream (seq i k) ++ [DropListener]) h) s (let_go base).
Proof.
  intros Hq. induction k as [|k IH]; intros i h s Hs Hlen Hgone; cbn [seq map app perform_all].
  - assert (Forall (fun st => st = None) (streams h)) as Hall.
    { apply Forall_lookup_2. intros j [st|] Hj; [|done]. apply lookup_lt_Some in Hj as Hlt. exfalso. eapply Hgone; [|exact Hj]. lia. }
    cbn [perform]. destruct (listener h) as [l|] eqn:Hl; [|done]. destruct Hs as [Ho Hw Hlocks]. rewrite Hl in *.
    apply safe_seq. unfold held in Ho. rewrite Hl in Ho.
    eapply safe_then; [eapply drop_listener_safe; [done|exact Ho]|]. intros [] s1 Ho1.
    split_and!; [eapply sound_of; [exact Ho1|done|by apply locking_other]|done|done].
  - eapply safe_then; [by apply (drop_one_safe base)|]. intros h' s' (Hs' & Hlen' & Hleft). apply IH; [done|lia|].
    intros j st Hj Hst. apply Hleft in Hst as [Hst Hne]. eapply Hgone; [|exact Hst]. lia.
Qed.

Lemma perform_app first next (Q : Held -> t -> Prop) Q' : forall h s, safe (perform_all first h) s Q ->
  (forall h' s', Q h' s' -> safe (perform_all next h') s' Q') -> safe (perform_all (first ++ next) h) s Q'.
Proof.
  induction first as [|a first IH]; intros h s Hf Hn; [by apply Hn|]. cbn [app perform_all] in *. apply safe_bind in Hf. seq.
  eapply safe_weaken; [exact Hf|]. intros h' s' H'. by apply IH.
Qed.

Lemma use_each_safe base js h s : quiet base -> let_go base h s -> safe (perform_all (map UseCancel js) h) s (let_go base).
Proof.
  intros Hq Hs. induction js as [|j js IH]; [done|]. cbn [map perform_all].
  eapply safe_then; [apply (use_cancel_safe base); [done|by apply Hs]|]. by intros h' s' [-> ->].
Qed.

(** What is left of it all: the thread as itself, or standing in for a client
    where Windows refused to make it itself again, and the locks, empty, of
    the connections there were. *)
Record left (base s : t) : Prop := {
  left_else : s = mk (handles base) (memory base) (standing_in s) (living base) (flying base) (locks s);
  left_self : standing_in s = Itself \/ standing_in s = LeftAsClient;
  left_locks : forall lock, locks s !! lock = locks base !! lock \/ (locks base !! lock = None /\ locks s !! lock = Some None);
}.

Lemma let_go_left base h s : let_go base h s -> left base s.
Proof.
  intros ([Ho _ Hlocks] & Hl & Hall). unfold held in Ho. rewrite Hl, (none_left _ Hall) in Ho. cbn in Ho.
  pose proof (calm_self _ _ _ (owns_calm _ _ _ _ _ Ho)) as Hself. constructor.
  - by eapply owning_gone.
  - by destruct (standing_in s); [left|..|right].
  - intros lock. destruct (locks base !! lock) as [held|] eqn:Hb; [left; by apply (lock_before _ _ _ Hlocks)|].
    destruct (locks s !! lock) as [[handle|]|] eqn:Hs; [|by right|by left].
    destruct (lock_lives _ _ _ Hlocks lock handle Hs Hb) as (i & st & Hi & _). rewrite Forall_lookup in Hall. by apply Hall in Hi.
Qed.

(** C38. Whatever is done with a named pipe, in whatever order, its cancels
    taken and used at any time, also once their connections are dropped, and
    whatever Windows answers of it within what it documents, a [RevertToSelf]
    that fails with it: every call is made as its documentation asks — handles
    open and of their kind, buffers as large as the call is told, strings
    ended by a NUL, memory not freed, an [OVERLAPPED] that outlives its
    operation — and once the connections and the listener are dropped, the
    system is as it was before: no handle open, no memory held, no operation in
    flight; no lock holds a handle, so a cancel used then reaches nothing; and
    the thread stands in for a client only where Windows refused to make it
    itself again. *)
Theorem every_call_is_sound base actions :
  quiet base -> safe (live actions) base (fun _ s => left base s).
Proof.
  intros Hq. unfold live. eapply safe_then; [apply (perform_all_safe base); [done|by apply sound_nothing]|].
  intros h s Hs. unfold the_end. rewrite app_assoc. eapply safe_weaken; [|by intros h' s'; apply let_go_left].
  eapply perform_app; [apply drop_each_safe; [done|done|done|]|].
  - intros j st Hj. lia.
  - intros h' s' Hgo. by apply use_each_safe.
Qed.
End life.

(** ** A system that answers so

    One machine: its tokens are of the local system's account, what its
    clients send is a greeting, and each call is done. *)
Module Toy.

Definition SYSTEM : bytes := [1; 1; 0; 0; 0; 0; 0; 5; 18; 0; 0; 0].
(** A [TOKEN_USER] and the identifier after it. *)
Definition TOLD : bytes := repeat 0 16 ++ SYSTEM.
Definition GREETING : bytes := lit "hello".
Definition NUL_ENDED (text : bytes) : list Z := text ++ [0].
Definition INSUFFICIENT_BUFFER : Z := 122.

#[local] Instance here : System := {|
  error_kind _ := OtherKind 0;
  error_detail _ := lit "an error";
|}.

#[local] Program Instance wide_here : WideCode := {|
  wide_encode text := Ok (text ++ [0]);
  wide_terminated units := Ok (units ++ [0]);
  wide_decode units := units;
|}.
Next Obligation. intros text wide [= <-]. apply last_snoc. Qed.
Next Obligation. intros text wide [= <-]. apply last_snoc. Qed.

(** A handle, and memory, of a number not in use. *)
Definition handle (k : Kind) (s : t) : result Z Z * t :=
  let h := unused (handles s) in (Ok h, with_handles <[h := k]> s).
Definition memory_of (held : list Z) (s : t) : result Z Z * t :=
  let p := unused (memory s) in (Ok p, with_memory <[p := held]> s).
(** A buffer of [room] that opens with [bs]. *)
Definition filled (room : Room) (bs : list Z) : list Z := bs ++ repeat 0 (Z.to_nat (holds room) - length bs).
Definition fly (o : Overlapped) (f : Flight) (s : t) : option Z * t :=
  (Some ERROR_IO_PENDING, with_flying <[at_ o := f]> s).

Section ask.
(** What [RevertToSelf] answers. *)
Context (reverts : option Z).

Definition ask {A} (c : Call A) : t -> A * t :=
  match c in Call A return t -> A * t with
  | Must _ => fun s => (tt, s)
  | OpenThreadToken | OpenProcessToken => handle Token
  | GetTokenInformation _ TokenUser room => fun s =>
      if told room <? 28 then (mkTold (Some INSUFFICIENT_BUFFER) 28 [] 0, s)
      else (mkTold None 28 (filled room TOLD) 16, s)
  | GetTokenInformation _ TokenImpersonationLevel room => fun s =>
      if told room <? 4 then (mkTold (Some INSUFFICIENT_BUFFER) 4 [] 0, s) else (mkTold None 4 (filled room [1; 0; 0; 0]) 0, s)
  | GetLengthSid sid => fun s => (sid_length sid, s)
  | LookupAccountSid _ name domain => fun s =>
      if (told name <? 5) || (told domain <? 6) then (mkFound (Some INSUFFICIENT_BUFFER) 5 6 [] [], s)
      else (mkFound None 4 5 (filled name (NUL_ENDED (lit "xmip"))) (filled domain (NUL_ENDED (lit "PLANT"))), s)
  | LookupAccountName _ sid domain => fun s =>
      if told sid <? 12 then (mkFound (Some INSUFFICIENT_BUFFER) 12 6 [] [], s) else (mkFound None 12 5 (words SYSTEM) [], s)
  | ConvertSidToStringSid _ => memory_of (NUL_ENDED (lit "S-1-5-18"))
  | Memory place => fun s => (default [] (memory s !! place), s)
  | LocalFree place => fun s => (tt, with_memory (delete place) s)
  | CloseHandle handle => fun s => (tt, with_handles (delete handle) s)
  | ConvertStringSecurityDescriptor sddl => memory_of sddl
  | CreateNamedPipe _ _ _ _ _ _ _ | CreateFile _ _ _ _ _ => handle PipeEnd
  | ConnectNamedPipe pipe o => fly o (mkFlight pipe (wakes o) 0 false)
  | ReadFile pipe buffer o => fly o (mkFlight pipe (wakes o) (told buffer) true)
  | WriteFile pipe _ length o => fly o (mkFlight pipe (wakes o) length false)
  | ImpersonateNamedPipeClient _ => fun s => (None, with_standing AsClient s)
  | RevertToSelf => fun s => (reverts, with_standing (if reverts is None then Itself else LeftAsClient) s)
  | GetNamedPipeClientProcessId _ => fun s => (Ok 42, s)
  | WaitNamedPipe _ _ | WaitForSingleObject _ _ => fun s => (true, s)
  | CreateEvent => handle Event
  | Zeroed => fun s =>
      let o := unused (gset_to_gmap tt (living s ∪ dom (flying s))) in (o, with_living (union {[o]}) s)
  | Leave o => fun s => (tt, with_living (fun l => l ∖ {[o]}) s)
  | CancelIoEx _ _ | CancelAllIo _ => fun s => (tt, s)
  | GetOverlappedResult _ o => fun s =>
      let came := match flying s !! o with
                  | Some f =>
                      if most f <? 0 then (Err 1, [])
                      else if reads f then let got := ztake (most f) GREETING in (Ok (len got), got)
                      else (Ok (most f), [])
                  | None => (Err 1, [])
                  end in
      (came, with_flying (delete o) s)
  | Now => fun s => (0, s)
  | LockMake held => fun s => let lock := unused (locks s) in (lock, with_locks <[lock := held]> s)
  | LockRead lock => fun s => (default None (locks s !! lock), s)
  | LockWrite lock held => fun s => (tt, with_locks <[lock := held]> s)
  end.

Definition machine : Machine := mkMachine t (@ask).

Definition empty : t := mk ∅ ∅ Itself ∅ ∅ ∅.

Lemma filled_len room bs : len bs <= holds room -> len (filled room bs) = holds room.
Proof. unfold len, filled. intros H. rewrite length_app, repeat_length. lia. Qed.

Lemma filled_octets room bs : octets bs -> octets (filled room bs).
Proof.
  intros H. apply octets_app. split; [done|]. apply Forall_forall. intros x Hx%list_elem_of_In%repeat_spec. subst. by split.
Qed.

Ltac opened := cbn [orb answers ask fst snd failed content written sid_at missed first second first_size second_size].

(** It answers as the documentation says. *)
Lemma answers_so {A} (c : Call A) s : requires c s -> answers c s (ask c s).1 (ask c s).2.
Proof.
  assert (forall k s, made k s (handle k s).1 (handle k s).2) as Hmade by (intros k s'; split; [apply unused_fresh|done]).
  assert (forall P held s, P held -> gave P s (memory_of held s).1 (memory_of held s).2) as Hgave.
  { intros P held s' HP. split; [apply unused_fresh|]. by exists held. }
  destruct c as [|  | |token class room|sid|sid name domain|name sid domain|sid|place|place|h|sddl| |pipe o|pipe| |pipe| |path ms|
    | |o|pipe buffer o|pipe buffer length o|pipe o|pipe|pipe o|event ms| |held|lock|lock held]; intros Hr; try (by apply Hmade || done); cbn [requires] in Hr; opened.
  - destruct Hr as [_ [H1 H2]]. destruct class; opened.
    + destruct (Z.ltb_spec (told room) 28); opened; [split_and!; [done|constructor|done|done|discriminate]|].
      assert (octets TOLD) as Ho by (apply octets_check; done). split_and!; [done|by apply filled_octets|done|done|]. intros _.
      rewrite filled_len by (change (len TOLD) with 28; lia). split; [done|]. split; [lia|].
      assert (zdrop 16 (filled room TOLD) = SYSTEM ++ repeat 0 (Z.to_nat (holds room) - 28)) as Hd by done.
      split_and!; [by apply Forall_zdrop, filled_octets|rewrite Hd; by exists 1|].
      rewrite len_zdrop by (rewrite filled_len; change (len TOLD) with 28; lia). rewrite filled_len by (change (len TOLD) with 28; lia).
      rewrite Hd. change (sid_length _) with 12. lia.
    + destruct (Z.ltb_spec (told room) 4); opened; [split_and!; [done|constructor|done|done|discriminate]|].
      split_and!; [done|apply filled_octets, octets_check; done|done|done|]. intros _. split; [|done]. apply filled_len. change (len _) with 4. lia.
  - destruct Hr as (_ & [H1 H2] & [H3 H4]).
    destruct (Z.ltb_spec (told name) 5), (Z.ltb_spec (told domain) 6); opened; (split_and!; [done..|]); intros Hm; try discriminate.
    split; (split; [lia|]); apply filled_len; [change (len _) with 5|change (len _) with 6]; lia.
  - destruct (Z.ltb_spec (told sid) 12); opened; (split_and!; [done..|]); intros Hm; [discriminate|].
    split_and!; [apply octets_check; done|by exists 1|done].
  - apply Hgave. apply elem_of_app. right. by left.
  - destruct Hr as [held Hh]. by rewrite Hh.
  - by apply Hgave.
  - pose proof (unused_fresh (gset_to_gmap tt (living s ∪ dom (flying s)))) as Hf. apply lookup_gset_to_gmap_None in Hf.
    apply not_elem_of_union in Hf as [Hl Hf]. apply not_elem_of_dom in Hf. by split_and!.
  - destruct Hr as (_ & f & Hf & _). rewrite Hf. split; [done|]. destruct (Z.ltb_spec (most f) 0); opened; [done|].
    destruct (reads f); opened; [|split_and!; [lia..|constructor|done]].
    split_and!; [apply len_nonneg| |by apply Forall_ztake, octets_check|done].
    unfold len, ztake. rewrite length_take. lia.
  - split; [apply unused_fresh|done].
  - destruct Hr as [held Hh]. by rewrite Hh.
Qed.

(** So what is safe is so of what runs on it. *)
Lemma runs_safe {A} (p : prog A) : forall s Q, safe p s Q -> Q (run machine p s).1 (run machine p s).2.
Proof.
  induction p as [a|B c k IH]; intros s Q H; [exact H|]. destruct H as [Hr H]. cbn [run].
  pose proof (answers_so c s Hr) as Ha. change (Windows.Win.ask machine B c s) with (ask c s).
  destruct (ask c s) as [b s']. by apply IH, H.
Qed.

Lemma runs_come {A} (p : prog A) : forall s Q, safe p s Q ->
  comes_by p s (trace machine p s) (run machine p s).1 (run machine p s).2.
Proof.
  induction p as [a|B c k IH]; intros s Q H; [done|]. destruct H as [Hr H]. cbn [run trace comes_by].
  pose proof (answers_so c s Hr) as Ha. change (Windows.Win.ask machine B c s) with (ask c s).
  destruct (ask c s) as [b s']. eexists b, s', _. split; [done|]. split; [done|]. by eapply IH, H.
Qed.
End ask.
End Toy.
#[local] Existing Instance Toy.here.
#[local] Existing Instance Toy.wide_here.

(** A pipe made and accepted, its client heard, named and answered, and all of
    it gone again, a cancel used after its connection is. *)
Definition example_actions : list Action :=
  [Bind (lit "\\.\pipe\xmip") [lit "operators"]; Accept (Some 1000000); Caller 0; Read 0 64; Write 0 (lit "hi"); PeerProcess 0;
   Connect 3 (lit "\\.\pipe\xmip") None; TakeCancel 1; TakeCancel 0; UseCancel 0; Accept None; DropStream 0; UseCancel 1; RunningAs].

(** The end of it, where [RevertToSelf] answers as it does. *)
Definition example_end (reverts : option Z) : t := (run (Toy.machine reverts) (live example_actions) Toy.empty).2.

Example lived :
  let '(h, s) := run (Toy.machine None) (perform_all example_actions nothing) Toy.empty in
  map (fun st => match st with Some st => Some (WinPipe.made st, WinPipe.read_ahead st) | None => None end) (streams h)
    = [None; Some (false, []); Some (true, [])]
  /\ map_to_list (names h) = [(words Toy.SYSTEM, lit "PLANT\xmip")]
  /\ size (handles s) = 6%nat /\ size (memory s) = 1%nat /\ map WinPipe.shared (cancels h) = [2; 1]
  /\ (locks s !! 1, locks s !! 2) = (Some None, Some (Some 5))
  /\ (handles (example_end None), memory (example_end None), standing_in (example_end None)) = (∅, ∅, Itself)
  /\ Forall (fun lock => lock.2 = None) (map_to_list (locks (example_end None))).
Proof. vm_compute. repeat constructor. Qed.

(** Where Windows refuses to make the thread itself again, nothing says so, and
    it goes on as its client. *)
Example left_standing_in :
  standing_in (example_end (Some 1346)) = LeftAsClient
  /\ names (run (Toy.machine (Some 1346)) (perform_all example_actions nothing) Toy.empty).1
     = names (run (Toy.machine None) (perform_all example_actions nothing) Toy.empty).1.
Proof. vm_compute. done. Qed.

Lemma every_call_is_sound_witness :
  quiet Toy.empty /\ left Toy.empty (example_end None).
Proof.
  assert (quiet Toy.empty) as Hq by (split; [done|apply map_Forall_empty]). split; [done|].
  exact (Toy.runs_safe None (live example_actions) Toy.empty (fun _ s => left Toy.empty s)
    (every_call_is_sound Toy.empty example_actions Hq)).
Defined.
End Life.
