(* ===== verification/PipeRefines.v ===== *)
(** The two models of a named pipe's connection compared: what is asked of a
    [WinPipe.Stream], call by call of Windows, is answered as [Pipe] answers
    it of what those calls were answered. *)

From Stdlib Require Import String.
From stdpp Require Import gmap.
From S2P Require Import Prelude Text Errors Wire Windows Account Pipe PipeCalls WinPipe WinLife.
Import Win.

Module Refines.

(** What is asked of a connection, one thing after another, and what each is
    answered. *)
Inductive Ask : Type :=
| Read (room : nat)
| Lent
| Caller
| PeerProcess.

Inductive Reply : Type :=
| Bytes (r : result IoError bytes)
| Token (r : result bytes (list Z * Z))
| Name (r : result bytes bytes)
| Process (id : option Z).

Section refines.
Context `{System} `{WideCode}.

Definition shown_as {A} (r : result Failed A) : result IoError A := map_err io_error_of r.

Definition ask (a : Ask) (st : WinPipe.Stream) (names : Pipe.Names) : prog (Reply * WinPipe.Stream * Pipe.Names) :=
  match a with
  | Read room => got <~~ WinPipe.read st (Z.of_nat room) ;; Ret (Bytes (shown_as got.1), got.2, names)
  | Lent => got <~~ WinPipe.lent st ;; Ret (Token got.1, got.2, names)
  | Caller => got <~~ WinPipe.caller st names ;; Ret (Name got.1.1, got.1.2, got.2)
  | PeerProcess => got <~~ WinPipe.peer_process st ;; Ret (Process got, st, names)
  end.

(** One question after another, and what each asked of Windows and was
    answered. *)
Inductive conversation : list Ask -> WinPipe.Stream -> Pipe.Names -> t -> list (list Answered) -> list Reply ->
    WinPipe.Stream -> Pipe.Names -> t -> Prop :=
| over st names s : conversation [] st names s [] [] st names s
| asks a asked st names s tr reply st1 names1 s1 trs replies st' names' s' :
    comes_by (ask a st names) s tr (reply, st1, names1) s1 ->
    conversation asked st1 names1 s1 trs replies st' names' s' ->
    conversation (a :: asked) st names s (tr :: trs) (reply :: replies) st' names' s'.

(** What the system says of a client at one question: [Pipe.Stream] and
    [Accounts] carry it. *)
Record Brought : Type := mkSaid {
  token : result IoError (result bytes (list Z * Z));
  process : result IoError Z;
  accounts : Accounts;
}.

(** The connection as [Pipe] has it, its answers to come [rest]. *)
Definition seen_as (st : WinPipe.Stream) (said : Brought) (rest : list answer) : Pipe.Stream :=
  Pipe.mkStream (mkWire rest [] []) (Some (WinPipe.pipe st)) (WinPipe.made st) (WinPipe.read_ahead st) (token said) (process said).

Definition told (said : Brought) (s : Pipe.Stream) : Pipe.Stream :=
  Pipe.mkStream (Pipe.pipe s) (Pipe.open s) (Pipe.made s) (Pipe.read_ahead s) (token said) (process said).

(** One question, as [Pipe] answers it. *)
Definition answered (a : Ask) (said : Brought) (s : Pipe.Stream) (names : Pipe.Names) : Reply * Pipe.Stream * Pipe.Names :=
  let s := told said s in
  match a with
  | Read room => let '(r, s) := Pipe.read room s in (Bytes r, s, names)
  | Lent => let '(r, s) := Pipe.lent s in (Token r, s, names)
  | Caller => let '(r, (s, names)) := @Pipe.caller (accounts said) (s, names) in (Name r, s, names)
  | PeerProcess => (Process (Pipe.peer_process s), s, names)
  end.

Fixpoint answered_all (asked : list (Ask * Brought)) (s : Pipe.Stream) (names : Pipe.Names) :
    list Reply * Pipe.Stream * Pipe.Names :=
  match asked with
  | [] => ([], s, names)
  | (a, said) :: asked =>
      let '(reply, s, names) := answered a said s names in
      let '(replies, s, names) := answered_all asked s names in
      (reply :: replies, s, names)
  end.

(** ** What the calls were answered *)

(** What a failure of a read with [code] is, the end where the peer is gone. *)
Definition failure (code : Z) : answer :=
  if PipeIo.gone (Os code) then Got [] else Wire.Failed (io_error_of (Os code)).

(** What a call was answered, of one kind. *)
Definition pick {X} (f : forall B, Call B -> B -> list X) (tr : list Answered) : list X :=
  concat (map (fun e => match e with mkAnswered c b => f _ c b end) tr).

(** The reads: one that did not start, or the end of one that did. *)
Definition came : list Answered -> list answer := pick (fun B c =>
  match c in Call B return B -> list answer with
  | ReadFile _ _ _ => fun begun =>
      match begun with Some code => if code =? ERROR_IO_PENDING then [] else [failure code] | None => [] end
  | GetOverlappedResult _ _ => fun ended => match ended.1 with Ok _ => [Got ended.2] | Err code => [failure code] end
  | _ => fun _ => []
  end).

Definition stood : list Answered -> list (option Z) := pick (fun B c =>
  match c in Call B return B -> list (option Z) with ImpersonateNamedPipeClient _ => fun r => [r] | _ => fun _ => [] end).
Definition opened : list Answered -> list (result Z Z) := pick (fun B c =>
  match c in Call B return B -> list (result Z Z) with OpenThreadToken => fun r => [r] | _ => fun _ => [] end).
Definition informed : list Answered -> list Told := pick (fun B c =>
  match c in Call B return B -> list Told with GetTokenInformation _ _ _ => fun r => [r] | _ => fun _ => [] end).
Definition found : list Answered -> list Found := pick (fun B c =>
  match c in Call B return B -> list Found with LookupAccountSid _ _ _ => fun r => [r] | _ => fun _ => [] end).
Definition processes : list Answered -> list (result Z Z) := pick (fun B c =>
  match c in Call B return B -> list (result Z Z) with GetNamedPipeClientProcessId _ => fun r => [r] | _ => fun _ => [] end).

(** The client's token: whether the thread could stand in for it, whether the
    token opened, and what it told, its user's size first, then the user, then
    the level. *)
Definition token_from (stood : list (option Z)) (opened : list (result Z Z)) (informed : list Told) :
    result IoError (result bytes (list Z * Z)) :=
  match stood, opened, informed with
  | Some code :: _, _, _ => Err (io_error_of (Os code))
  | _, Err code :: _, _ => Ok (Err (Account.unknown (lit "the thread holds no caller's token") code))
  | _, _, _ :: user :: levels =>
      Ok match failed user, levels with
         | Some code, _ => Err (Account.unknown (lit "the caller's token names no user") code)
         | None, level :: _ =>
             match failed level with
             | Some code => Err (Account.unknown (lit "the caller's token names no level") code)
             | None =>
                 let sid := zdrop (sid_at user) (content user) in
                 Ok (words (ztake (sid_length sid) sid), Account.i32_of (content level))
             end
         | None, [] => Err []
         end
  | _, _, _ => Ok (Err [])
  end.
Definition token_of (tr : list Answered) := token_from (stood tr) (opened tr) (informed tr).

(** The account's name: the sizes of its parts first, then the parts. *)
Definition name_of (tr : list Answered) : result bytes bytes :=
  match found tr with
  | _ :: named :: _ =>
      match missed named with
      | Some code => Err (Account.unknown (lit "no account has the caller's identifier") code)
      | None =>
          let name := utf16_lossy (ztake (first_size named) (first named)) in
          let domain := utf16_lossy (ztake (second_size named) (second named)) in
          Ok (match domain with [] => name | _ => domain ++ lit "\" ++ name end)
      end
  | _ => Err []
  end.

Definition process_of (tr : list Answered) : result IoError Z :=
  match processes tr with
  | Ok id :: _ => Ok id
  | Err code :: _ => Err (io_error_of (Os code))
  | [] => Ok 0
  end.

(** What the calls of one question brought. *)
Definition brought (tr : list Answered) : Brought :=
  mkSaid (token_of tr) (process_of tr) {| account_sid _ := Ok []; account_name _ := name_of tr |}.

Lemma pick_app {X} (f : forall B, Call B -> B -> list X) tr tr' : pick f (tr ++ tr') = pick f tr ++ pick f tr'.
Proof. unfold pick. by rewrite map_app, concat_app. Qed.

Lemma came_app tr tr' : came (tr ++ tr') = came tr ++ came tr'. Proof. apply pick_app. Qed.
Lemma stood_app tr tr' : stood (tr ++ tr') = stood tr ++ stood tr'. Proof. apply pick_app. Qed.
Lemma opened_app tr tr' : opened (tr ++ tr') = opened tr ++ opened tr'. Proof. apply pick_app. Qed.
Lemma informed_app tr tr' : informed (tr ++ tr') = informed tr ++ informed tr'. Proof. apply pick_app. Qed.
Lemma found_app tr tr' : found (tr ++ tr') = found tr ++ found tr'. Proof. apply pick_app. Qed.

(** A trace of reads alone. *)
Record reads_alone (tr : list Answered) : Prop := {
  no_stood : stood tr = [];
  no_opened : opened tr = [];
  no_informed : informed tr = [];
  no_found : found tr = [];
}.

(** Open the calls a traced run is made of. *)
Ltac traced := repeat (match goal with
  | H : comes_by (bind _ _) _ _ _ _ |- _ => apply comes_by_bind in H as (? & ? & ? & ? & -> & ? & H)
  | H : comes_by (call _) _ _ _ _ |- _ => destruct H as (? & ? & ? & -> & ? & -> & <- & <-)
  | H : comes_by (Ret _) _ _ _ _ |- _ => destruct H as (-> & ? & <-)
  end; simplify_eq).

(** ** One read of the pipe is one answer of a wire *)

Definition answer_of (r : result Failed bytes) : answer :=
  match r with Ok got => Got got | Err e => Wire.Failed (io_error_of e) end.

Lemma waited_by pipe event buffer s tr r s' :
  comes_by (PipeIo.waited pipe event None (ReadFile pipe buffer)) s tr r s' ->
  came tr = [match r with Ok (_, got) => Got got | Err e => if PipeIo.gone e then Got [] else Wire.Failed (io_error_of e) end]
  /\ reads_alone tr.
Proof.
  unfold PipeIo.waited. intros H1. traced.
  match goal with H : comes_by (match ?b with _ => _ end) _ _ _ _ |- _ => destruct b as [code|]; rename H into Hm end;
    [destruct (code =? ERROR_IO_PENDING) eqn:Hp; cbn [negb] in Hm|]; traced;
    try (match goal with H : comes_by (match ?b.1 with _ => _ end) _ _ _ _ |- _ => destruct b as [[moved|code'] got]; cbn [fst snd andb] in H end; traced);
    (split; [unfold came, pick; cbn; unfold failure; by rewrite ?Hp|by constructor]).
Qed.

Lemma io_read_by pipe event room s tr r s' :
  handles s !! pipe = Some PipeEnd -> handles s !! event = Some Event -> 0 <= room ->
  comes_by (PipeIo.read pipe event room) s tr r s' ->
  s' = s /\ match r with Ok got => len got <= room | Err _ => True end /\ came tr = [answer_of r] /\ reads_alone tr.
Proof.
  intros Hp He Hr Hc. apply (safe_comes_by _ _ _ _ _ _ (io_read_safe pipe event room s Hp He Hr)) in Hc as Hs.
  destruct Hs as [-> Hg]. split; [done|]. split; [by destruct r; [apply Hg|]|]. clear Hg.
  unfold PipeIo.read in Hc. apply comes_by_bind in Hc as (tr1 & tr2 & w & s2 & -> & Hw & Hc).
  apply waited_by in Hw as (Hcame & Halone). rewrite came_app, Hcame.
  assert (tr2 = [] /\ answer_of r = match w with Ok (_, got) => Got got | Err e => if PipeIo.gone e then Got [] else Wire.Failed (io_error_of e) end)
    as [-> ->] by (destruct w as [[moved got]|e]; [|destruct (PipeIo.gone e)]; by traced).
  split; [done|by rewrite app_nil_r].
Qed.
Lemma read1_answer n r rest out ref : (match r with Ok got => len got <= Z.of_nat n | Err _ => True end) ->
  read1 n (mkWire (answer_of r :: rest) out ref) = (shown_as r, mkWire rest out ref).
Proof.
  destruct r as [got|e]; [|done]. intros Hl. unfold read1, answer_of, len in *. cbn [incoming outgoing refusals].
  rewrite drop_ge, take_ge by lia. done.
Qed.

Lemma io_read_answer n r rest s : (match r with Ok got => len got <= Z.of_nat n | Err _ => True end) ->
  incoming (Pipe.pipe s) = answer_of r :: rest ->
  Pipe.io_read n s = (shown_as r, Pipe.with_pipe (mkWire rest (outgoing (Pipe.pipe s)) (refusals (Pipe.pipe s))) s).
Proof.
  intros Hl Hi. unfold Pipe.io_read. destruct (Pipe.pipe s) as [rs out ref] eqn:Hp. cbn in Hi. subst rs.
  by rewrite read1_answer.
Qed.

(** *** [read] *)

Lemma zsplit room (got : bytes) : ztake (Z.of_nat room) got = take room got /\ zdrop (Z.of_nat room) got = drop room got.
Proof. unfold ztake, zdrop. by rewrite Nat2Z.id. Qed.

Lemma seen_read_ahead st said rest : Pipe.read_ahead (seen_as st said rest) = WinPipe.read_ahead st.
Proof. done. Qed.

Lemma seen_made st said rest : Pipe.made (seen_as st said rest) = WinPipe.made st.
Proof. done. Qed.

Lemma seen_ahead st said rest ahead :
  Pipe.with_read_ahead ahead (seen_as st said rest) = seen_as (WinPipe.with_ahead ahead st) said rest.
Proof. done. Qed.

Lemma io_read_seen n r st said rest : (match r with Ok got => len got <= Z.of_nat n | Err _ => True end) ->
  Pipe.io_read n (seen_as st said (answer_of r :: rest)) = (shown_as r, seen_as st said rest).
Proof. intros Hl. by rewrite (io_read_answer n r rest). Qed.

Lemma read_refines st room said s tr r st' s' :
  Life.usable s st -> comes_by (WinPipe.read st (Z.of_nat room)) s tr (r, st') s' ->
  forall rest, Pipe.read room (seen_as st said (came tr ++ rest)) = (shown_as r, seen_as st' said rest).
Proof.
  intros [Hp He] Hc rest. unfold WinPipe.read in Hc. unfold Pipe.read, mthen at 1, mget. rewrite seen_read_ahead.
  destruct (WinPipe.read_ahead st) as [|b ahead] eqn:Ha.
  - destruct (Z.leb_spec Pipe.READ (Z.of_nat room)) as [Hroom|Hroom]; apply comes_by_bind in Hc as (tr1 & tr2 & got & s1 & -> & Hg & Hc);
      apply io_read_by in Hg as (-> & Hl & Hcame & _); try done; try (unfold Pipe.READ in *; lia); rewrite came_app, Hcame.
    + destruct Hc as (-> & [= <- <-] & <-). by apply io_read_seen.
    + unfold mthen. cbn [app]. assert (tr2 = []) as -> by (destruct got as [[|c got]|e]; by destruct Hc as (-> & _)). change (came []) with (@nil answer). cbn [app].
      rewrite io_read_seen by (destruct got; [by rewrite Z2Nat.id|done]).
      destruct got as [[|c got]|e]; cbn [shown_as map_err]; destruct Hc as (_ & [= <- <-] & <-); try done.
      unfold Pipe.hand_out, mthen, mset, mret. rewrite seen_ahead. by destruct (zsplit room (c :: got)) as [-> ->].
  - destruct Hc as (-> & [= <- <-] & <-). cbn [came pick map concat app].
    unfold Pipe.hand_out, mthen, mset, mret. destruct (zsplit room (b :: ahead)) as [-> ->]. by rewrite <- seen_ahead.
Qed.

(** *** [lent], [caller] and [peer_process] *)

Lemma hear_refines st s tr r st' s' :
  Life.usable s st -> comes_by (WinPipe.hear st) s tr (r, st') s' ->
  reads_alone tr /\ forall said rest, Pipe.hear (seen_as st said (came tr ++ rest)) = (r, seen_as st' said rest).
Proof.
  intros [Hp He] Hc. unfold WinPipe.hear in Hc. unfold Pipe.hear, mthen at 1, mget. destruct (WinPipe.read_ahead st) as [|b ahead] eqn:Ha.
  - apply comes_by_bind in Hc as (tr1 & tr2 & got & s1 & -> & Hg & Hc). apply io_read_by in Hg as (-> & Hl & Hcame & Halone); [|done..].
    assert (tr2 = []) as -> by (destruct got as [[|c got]|e]; by destruct Hc as (-> & _)). rewrite app_nil_r, Hcame. split; [done|].
    intros said rest. rewrite seen_read_ahead, Ha. cbn [app]. unfold mthen, mmap_err.
    rewrite io_read_seen by done. destruct got as [[|c got]|e]; cbn [shown_as map_err]; by destruct Hc as (_ & [= <- <-] & <-).
  - destruct Hc as (-> & [= <- <-] & <-). split; [by constructor|]. intros said rest. by rewrite seen_read_ahead, Ha.
Qed.

Lemma hear_usable s st tr r st' s' : Life.usable s st -> comes_by (WinPipe.hear st) s tr (r, st') s' ->
  s' = s /\ Life.usable s st' /\ WinPipe.made st' = WinPipe.made st.
Proof.
  intros Hu Hc. apply (safe_comes_by _ _ _ _ _ _ (Life.hear_safe s st Hu)) in Hc as [-> Hs].
  split; [done|]. split; [by eapply Life.same_usable|]. by destruct Hs as [ahead ->].
Qed.

(** What the thread was told as the client. *)
Lemma impersonating_by pipe s tr r s' : comes_by (Instance.impersonating pipe Account.impersonated) s tr r s' ->
  came tr = [] /\ found tr = []
  /\ token_from (stood tr) (opened tr) (informed tr) = match r with Ok lent => Ok lent | Err e => Err (io_error_of e) end.
Proof.
  unfold Instance.impersonating, Account.impersonated, Account.user_and_level, Account.user. intros Hc. traced.
  match goal with H : comes_by (match ?b with Some _ => _ | None => _ end) _ _ _ _ |- _ => destruct b as [code|] end; traced; [done|].
  match goal with H : comes_by (match ?b with Ok _ => _ | Err _ => _ end) _ _ _ _ |- _ => destruct b as [token|code] end; traced; [|done].
  match goal with H : comes_by (match failed ?b with Some _ => _ | None => _ end) _ _ _ _ |- _ => destruct (failed b) as [code|] eqn:Hf end; traced.
  { split_and!; [done|done|]. cbn. by rewrite Hf. }
  match goal with H : answers (GetLengthSid _) _ _ _ |- _ => destruct H as [? ->] end.
  match goal with H : comes_by (match failed ?b with Some _ => _ | None => _ end) _ _ _ _ |- _ => destruct (failed b) as [code|] eqn:Hf' end; traced;
    (split_and!; [done|done|]; cbn; by rewrite Hf, Hf').
Qed.

Lemma lent_refines st s tr r st' s' :
  Life.usable s st -> comes_by (WinPipe.lent st) s tr (r, st') s' ->
  found tr = [] /\ forall said rest, token said = token_of tr ->
    Pipe.lent (seen_as st said (came tr ++ rest)) = (r, seen_as st' said rest).
Proof.
  intros Hu Hc. unfold WinPipe.lent, Pipe.lent in *. destruct (WinPipe.made st) eqn:Hm; cbn [negb] in Hc.
  2:{ destruct Hc as (-> & [= <- <-] & <-). split; [done|]. intros said rest _. unfold mthen, mget. by rewrite seen_made, Hm. }
  apply comes_by_bind in Hc as (tr1 & tr2 & [heard st1] & s1 & -> & Hh & Hc).
  apply hear_usable in Hh as Hu1; [|done]. destruct Hu1 as (-> & Hu1 & Hm1).
  destruct (hear_refines st s tr1 heard st1 s Hu Hh) as [[H1 H2 H3 H4] Hhear].
  unfold token_of. destruct heard as [[]|why].
  - apply comes_by_bind in Hc as (tr3 & tr4 & stand & s2 & -> & Hi & (-> & [= <- <-] & <-)). rewrite app_nil_r.
    apply impersonating_by in Hi as (Hcame & Hfound & Htok).
    rewrite stood_app, opened_app, informed_app, found_app, came_app, H1, H2, H3, H4, Hcame, Hfound, !app_nil_r.
    split; [done|]. intros said rest Hsaid.
    unfold mthen at 1, mget. rewrite seen_made, Hm. cbn [negb]. unfold mthen. rewrite Hhear. unfold mlift. cbn [seen_as Pipe.token app] in *.
    rewrite Hsaid, Htok. f_equal. by destruct stand as [[lent|why]|e].
  - destruct Hc as (-> & [= <- <-] & <-). rewrite app_nil_r. split; [done|]. intros said rest _.
    unfold mthen at 1, mget. rewrite seen_made, Hm. cbn [negb]. unfold mthen. by rewrite Hhear.
Qed.

Lemma account_name_by sid s tr r s' : comes_by (Account.account_name sid) s tr r s' ->
  came tr = [] /\ stood tr = [] /\ opened tr = [] /\ informed tr = [] /\ name_of tr = r.
Proof.
  unfold Account.account_name. intros Hc. traced.
  match goal with H : comes_by (match missed ?b with Some _ => _ | None => _ end) _ _ _ _ |- _ => destruct (missed b) as [code|] eqn:Hm end; traced;
    (split_and!; [done..|]; unfold name_of; cbn; by rewrite Hm).
Qed.

Lemma caller_refines st names s tr r st' names' s' :
  Life.usable s st -> comes_by (WinPipe.caller st names) s tr (r, st', names') s' ->
  forall said rest, token said = token_of tr -> (forall sid, @account_name (accounts said) sid = name_of tr) ->
    @Pipe.caller (accounts said) (seen_as st said (came tr ++ rest), names) = (r, (seen_as st' said rest, names')).
Proof.
  intros Hu Hc said rest Htok Hname. apply comes_by_bind in Hc as (tr1 & tr2 & [asked st1] & s1 & -> & Hl & Hc).
  destruct (lent_refines st s tr1 asked st1 s1 Hu Hl) as [Hf Hlent]. unfold Pipe.caller.
  assert (came tr2 = [] /\ token_of (tr1 ++ tr2) = token_of tr1 /\ (forall sid level, asked = Ok (sid, level) ->
    match names !! sid with
    | Some name => Ok name = r /\ st1 = st' /\ names = names'
    | None => name_of (tr1 ++ tr2) = r /\ st1 = st' /\ names' = match r with
        | Ok name => <[sid := name]> (if Pipe.KEPT_NAMES <=? Z.of_nat (size names) then ∅ else names) | Err _ => names end
    end) /\ (forall why, asked = Err why -> Err why = r /\ st1 = st' /\ names = names')) as (Hcame & Htoken & Hok & Herr).
  { destruct asked as [[sid level]|why]; [destruct (names !! sid) as [name|] eqn:Hk|].
    - destruct Hc as (-> & [= <- <- <-] & <-). rewrite app_nil_r. split_and!; [done|done| |done]. intros ? ? [= <- <-]. by rewrite Hk.
    - apply comes_by_bind in Hc as (tr3 & tr4 & named & s2 & -> & Hn & Hc). apply account_name_by in Hn as (H1 & H2 & H3 & H4 & H5).
      assert (tr4 = []) as -> by (destruct named; by destruct Hc as (-> & _)). rewrite app_nil_r in *.
      unfold token_of, name_of in *. rewrite stood_app, opened_app, informed_app, found_app, H2, H3, H4, !app_nil_r, Hf. cbn [app].
      split_and!; [done|done| |done]. intros ? ? [= <- <-]. rewrite Hk, H5. by destruct named; destruct Hc as (_ & [= <- <- <-] & <-).
    - destruct Hc as (-> & [= <- <- <-] & <-). rewrite app_nil_r. split_and!; [done|done|done|]. by intros ? [= <-]. }
  rewrite came_app, Hcame, app_nil_r, Hlent by congruence.
  destruct asked as [[sid level]|why]; [|by destruct (Herr why eq_refl) as (-> & -> & ->)].
  specialize (Hok sid level eq_refl). destruct (names !! sid) as [name|]; [by destruct Hok as (-> & -> & ->)|].
  destruct Hok as (Hr & -> & ->). rewrite Hname, Hr. by destruct r.
Qed.

Lemma peer_process_refines st s tr r s' : comes_by (WinPipe.peer_process st) s tr r s' ->
  came tr = [] /\ forall said rest, process said = process_of tr -> Pipe.peer_process (seen_as st said rest) = r.
Proof.
  unfold WinPipe.peer_process, Instance.client_process, Pipe.peer_process. cbn [seen_as Pipe.made Pipe.process].
  destruct (WinPipe.made st); [|by intros (-> & <- & <-)]. intros Hc. traced.
  match goal with H : comes_by (match ?b with Ok _ => _ | Err _ => _ end) _ _ _ _ |- _ => destruct b as [id|code] end; traced;
    (split; [done|]; by intros said rest ->).
Qed.

(** ** A conversation *)

(** The state the operations keep. *)
Record kept (s : t) (st : WinPipe.Stream) : Prop := {
  kept_usable : Life.usable s st;
  kept_grounded : grounded s;
  kept_itself : standing_in s <> AsClient;
}.

Lemma ask_safe a st names s : kept s st ->
  safe (ask a st names) s (fun '(_, st', _) s' => rests s s' /\ Life.same st st').
Proof.
  intros [Hu Hg Hs]. apply rests_refl in Hs as Hr. destruct a; cbn [ask].
  - eapply safe_then; [apply Life.read_safe; [done|lia]|]. by intros [? ?] ? [-> ?].
  - eapply safe_then; [by apply Life.lent_safe|]. by intros [? ?] ? (? & ? & _).
  - eapply safe_then; [by apply Life.caller_safe|]. by intros [[? ?] ?] ? [? ?].
  - eapply safe_then; [by apply Life.peer_process_safe|]. intros ? ? ->. split; [done|apply Life.same_refl].
Qed.

Lemma ask_kept a st names s tr r st' names' s' : kept s st -> comes_by (ask a st names) s tr (r, st', names') s' ->
  rests s s' /\ kept s' st'.
Proof.
  intros Hk Hc. apply (safe_comes_by _ _ _ _ _ _ (ask_safe a st names s Hk)) in Hc as [Hr Hst]. split; [done|].
  destruct Hk as [Hu Hg Hs]. apply (Life.same_usable _ _ _ Hst) in Hu as [H1 H2]. destruct Hr as [Hs' ->]. by split; [split|..].
Qed.

Lemma told_seen st before said rest : told said (seen_as st before rest) = seen_as st said rest.
Proof. done. Qed.

Lemma ask_refines a st names s tr r st' names' s' : kept s st -> comes_by (ask a st names) s tr (r, st', names') s' ->
  forall before rest, answered a (brought tr) (seen_as st before (came tr ++ rest)) names = (r, seen_as st' (brought tr) rest, names').
Proof.
  intros [Hu _ _] Hc before rest. unfold answered. rewrite told_seen.
  destruct a as [room| | |]; cbn [ask] in Hc; apply comes_by_bind in Hc as (tr1 & tr2 & got & s1 & -> & Hg & (-> & [= <- <- <-] & <-));
    rewrite app_nil_r in *.
  - destruct got as [got st1]. by rewrite (read_refines st room _ _ _ _ _ _ Hu Hg).
  - destruct got as [got st1]. by rewrite (proj2 (lent_refines st _ _ _ _ _ Hu Hg)).
  - destruct got as [[got st1] names1]. by rewrite (caller_refines st names _ _ _ _ _ _ Hu Hg).
  - destruct (peer_process_refines st _ _ _ _ Hg) as [-> Hproc]. by rewrite Hproc.
Qed.

(** What was read of the connection, of the replies. *)
Definition handed (replies : list Reply) : bytes :=
  concat (map (fun r => match r with Bytes (Ok bs) => bs | _ => [] end) replies).

Lemma answered_hands a said s names r s' names' : answered a said s names = (r, s', names') ->
  Pipe.to_read s = handed [r] ++ Pipe.to_read s'.
Proof.
  change (Pipe.to_read s) with (Pipe.to_read (told said s)). unfold answered, handed. cbn [map concat]. rewrite app_nil_r.
  destruct a as [room| | |].
  - destruct (Pipe.read room _) as [[bs|e] s1] eqn:Hr; intros [= <- <- <-]; by apply Pipe.read_gives in Hr.
  - destruct (Pipe.lent _) as [l s1] eqn:Hl; intros [= <- <- <-]. by apply Pipe.lent_keeps in Hl as [-> _].
  - unfold Pipe.caller. destruct (Pipe.lent _) as [l s1] eqn:Hl. apply Pipe.lent_keeps in Hl as [<- _].
    destruct l as [[sid level]|why]; [|by intros [= <- <- <-]]. destruct (names !! sid); [by intros [= <- <- <-]|].
    destruct (@account_name _ sid); by intros [= <- <- <-].
  - by intros [= <- <- <-].
Qed.

Lemma answered_all_hand asked : forall s names replies s' names',
  answered_all asked s names = (replies, s', names') -> Pipe.to_read s = handed replies ++ Pipe.to_read s'.
Proof.
  induction asked as [|[a said] asked IH]; intros s names replies s' names'; cbn [answered_all]; [by intros [= <- <- <-]|].
  destruct (answered a said s names) as [[r s1] names1] eqn:Ha. apply answered_hands in Ha as ->.
  destruct (answered_all asked s1 names1) as [[rs s2] names2] eqn:Has. apply IH in Has as ->. intros [= <- <- <-].
  unfold handed. cbn [map concat]. by rewrite app_nil_r, <- app_assoc.
Qed.

Lemma conversation_refines asked st names s trs replies st' names' s' :
  conversation asked st names s trs replies st' names' s' -> kept s st -> rests s s'
  /\ forall before rest, answered_all (zip asked (map brought trs)) (seen_as st before (concat (map came trs) ++ rest)) names
       = (replies, seen_as st' (default before (last (map brought trs))) rest, names').
Proof.
  induction 1 as [st names s|a asked st names s tr reply st1 names1 s1 trs replies st' names' s' Ha Hrest IH]; intros Hk.
  - split; [apply rests_refl, Hk|done].
  - apply ask_kept in Ha as Hk1; [|done]. destruct Hk1 as [Hr1 Hk1]. destruct (IH Hk1) as [Hr Hall].
    split; [by eapply rests_trans|]. intros before rest. cbn [map zip zip_with concat answered_all].
    rewrite <- app_assoc, (ask_refines _ _ _ _ _ _ _ _ _ Hk Ha), Hall, last_cons. by destruct (last _).
Qed.

(** C37. Whatever is asked of a pipe's connection and whatever Windows answers
    its calls, what each question is answered is what [Pipe] answers of what
    its own calls were answered: the octets its reads ended with, the token
    the thread was told of as the client, the account's name, the process. The
    octets of all of the reads are handed out once each and in order, after
    what was read ahead before and but for what is read ahead still, of which
    what was read to learn who connected is a part; and the system is left as
    it was, but for a thread Windows would not make itself again. *)
Theorem calls_refine_the_pipe asked st names s trs replies st' names' s' :
  kept s st -> conversation asked st names s trs replies st' names' s' ->
  rests s s'
  /\ (forall before rest,
        answered_all (zip asked (map brought trs)) (seen_as st before (concat (map came trs) ++ rest)) names
        = (replies, seen_as st' (default before (last (map brought trs))) rest, names'))
  /\ WinPipe.read_ahead st ++ Pipe.octets_of (concat (map came trs)) = handed replies ++ WinPipe.read_ahead st'.
Proof.
  intros Hk Hc. destruct (conversation_refines _ _ _ _ _ _ _ _ _ Hc Hk) as [Hr Hall]. split; [done|]. split; [done|].
  specialize (Hall (brought []) []). apply answered_all_hand in Hall. unfold Pipe.to_read in Hall.
  cbn [seen_as Pipe.read_ahead Pipe.pipe incoming] in Hall. by rewrite !app_nil_r in Hall.
Qed.

(** A conversation on a machine. *)
Fixpoint converse (m : Machine) (asked : list Ask) (st : WinPipe.Stream) (names : Pipe.Names) (s : Own m) :
    list (list Answered) * list Reply * WinPipe.Stream * Pipe.Names * Own m :=
  match asked with
  | [] => ([], [], st, names, s)
  | a :: asked =>
      let tr := trace m (ask a st names) s in
      let '((reply, st, names), s) := run m (ask a st names) s in
      let '(trs, replies, st, names, s) := converse m asked st names s in
      (tr :: trs, reply :: replies, st, names, s)
  end.
End refines.

(** A client heard, named, read and asked of, on the machine of [Life]. *)
#[local] Existing Instance Life.Toy.here.
#[local] Existing Instance Life.Toy.wide_here.

Definition machine : Machine := Life.Toy.machine None.

Lemma converses asked : forall st names (s : t), kept s st ->
  let '(trs, replies, st', names', s') := converse machine asked st names s in
  conversation asked st names s trs replies st' names' s'.
Proof.
  induction asked as [|a asked IH]; intros st names s Hk; cbn [converse]; [constructor|].
  pose proof (Life.Toy.runs_come None _ _ _ (ask_safe a st names s Hk)) as Hr. fold machine in Hr.
  destruct (run machine (ask a st names) s) as [[[reply st1] names1] s1]. cbn [fst snd] in Hr.
  apply ask_kept in Hr as Hk1; [|done]. destruct Hk1 as [_ Hk1]. specialize (IH st1 names1 s1 Hk1).
  destruct (converse machine asked st1 names1 s1) as [[[[trs replies] st2] names2] s2]. by eapply asks.
Qed.

Definition example_state : t := mk {[ 7 := PipeEnd; 8 := Event ]} ∅ Itself ∅ ∅ {[ 1 := Some 7 ]}.
Definition example_stream : WinPipe.Stream := WinPipe.mkStream 7 8 1 true [].
Definition example_asked : list Ask := [Caller; Read 2; Caller; Read 64; PeerProcess; Lent].

Lemma example_kept : kept example_state example_stream.
Proof. split; [by constructor|apply map_Forall_empty|done]. Qed.

Definition example_replies : list Reply :=
  [Name (Ok (lit "PLANT\xmip")); Bytes (Ok (lit "he")); Name (Ok (lit "PLANT\xmip")); Bytes (Ok (lit "llo"));
   Process (Some 42); Token (Ok (words Life.Toy.SYSTEM, 1))].
Definition example_left : WinPipe.Stream := WinPipe.with_ahead (lit "hello") example_stream.
Definition example_names : Pipe.Names := {[ words Life.Toy.SYSTEM := lit "PLANT\xmip" ]}.
Definition example_traces : list (list Answered) := (converse machine example_asked example_stream ∅ example_state).1.1.1.1.

Lemma example_conversation : conversation example_asked example_stream ∅ example_state example_traces
  example_replies example_left example_names example_state.
Proof.
  pose proof (converses example_asked example_stream ∅ example_state example_kept) as Hr. unfold example_traces.
  assert (let '(_, replies, st', names', s') := converse machine example_asked example_stream ∅ example_state in
    (replies, st', names', s') = (example_replies, example_left, example_names, example_state)) as Heq by (vm_compute; reflexivity).
  destruct (converse machine example_asked example_stream ∅ example_state) as [[[[trs replies] st'] names'] s'].
  by injection Heq as -> -> -> ->.
Qed.

(** Two reads of the six questions reached the pipe. *)
Example example_came : map came example_traces = [[Got (lit "hello")]; []; []; []; []; [Got (lit "hello")]].
Proof. vm_compute. done. Qed.

Lemma calls_refine_the_pipe_witness :
  kept example_state example_stream
  /\ (forall before rest,
        answered_all (zip example_asked (map brought example_traces))
          (seen_as example_stream before (concat (map came example_traces) ++ rest)) ∅
        = (example_replies, seen_as example_left (default before (last (map brought example_traces))) rest, example_names))
  /\ [] ++ Pipe.octets_of (concat (map came example_traces)) = handed example_replies ++ lit "hello".
Proof.
  split; [exact example_kept|].
  exact (proj2 (calls_refine_the_pipe example_asked example_stream ∅ example_state example_traces example_replies example_left
    example_names example_state example_kept example_conversation)).
Defined.
End Refines.
