(* ===== verification/Cancelling.v ===== *)
(** A read of a named pipe cancelled from other threads while its connection
    is dropped ([Cancel::cancel] and [Stream]'s [Drop] in
    [src/pipe/windows.rs], [cancel] in [src/pipe/windows/io.rs]): the threads,
    the lock they share and the process's handles, as steps of one system. *)

From stdpp Require Import gmap relations.
From S2P Require Import Prelude.

Module Cancelling.

(** The thread that drops the connection: using it, with the lock, with the
    number cleared, without the lock again, and with the handle closed. *)
Inductive Owner : Type := Using | Locked | Cleared | Unlocked | Closed.

(** A thread that cancels: at the lock, with it, with the number it read, with
    the cancel made, and gone. *)
Inductive Canceller : Type := Coming | Reading | Armed (handle : Z) | Asked | Gone.

(** Who has the lock. *)
Inductive Who : Type := TheOwner | TheCanceller (i : nat).

(** Whose a handle is: this connection's, or something's else that has its
    number. *)
Inductive Whose : Type := Ours | Another.

(** [open]: the number the lock guards. [table]: the process's handles.
    [cancelled]: what each [CancelIoEx] reached, where it reached a
    handle. *)
Record World : Type := mkWorld {
  lock : option Who;
  open : option Z;
  table : gmap Z Whose;
  owner : Owner;
  cancellers : gmap nat Canceller;
  cancelled : list (option Whose);
}.

Definition start (pipe : Z) (table : gmap Z Whose) (n : nat) : World :=
  mkWorld None (Some pipe) (<[pipe := Ours]> table) Using (gset_to_gmap Coming (set_seq 0 n)) [].

Section steps.
(** The connection's own handle. *)
Context (pipe : Z).

(** [Drop for Stream]: the number cleared under the lock, then the handle
    closed as the fields drop. *)
Inductive drops : World -> World -> Prop :=
| drops_lock o t cs l : drops (mkWorld None o t Using cs l) (mkWorld (Some TheOwner) o t Locked cs l)
| drops_clear k o t cs l : drops (mkWorld k o t Locked cs l) (mkWorld k None t Cleared cs l)
| drops_unlock o t cs l : drops (mkWorld (Some TheOwner) o t Cleared cs l) (mkWorld None o t Unlocked cs l)
| drops_close k o t cs l : drops (mkWorld k o t Unlocked cs l) (mkWorld k o (delete pipe t) Closed cs l).

(** [cancel], on the thread [i]: the number is read, and the system asked of
    the handle that has it by then. *)
Inductive cancels (i : nat) : World -> World -> Prop :=
| cancels_lock o t w cs l : cs !! i = Some Coming ->
    cancels i (mkWorld None o t w cs l) (mkWorld (Some (TheCanceller i)) o t w (<[i := Reading]> cs) l)
| cancels_read k handle t w cs l : cs !! i = Some Reading ->
    cancels i (mkWorld k (Some handle) t w cs l) (mkWorld k (Some handle) t w (<[i := Armed handle]> cs) l)
| cancels_nothing k t w cs l : cs !! i = Some Reading ->
    cancels i (mkWorld k None t w cs l) (mkWorld k None t w (<[i := Asked]> cs) l)
| cancels_ask k o handle t w cs l : cs !! i = Some (Armed handle) ->
    cancels i (mkWorld k o t w cs l) (mkWorld k o t w (<[i := Asked]> cs) (l ++ [t !! handle]))
| cancels_unlock o t w cs l : cs !! i = Some Asked ->
    cancels i (mkWorld (Some (TheCanceller i)) o t w cs l) (mkWorld None o t w (<[i := Gone]> cs) l).

(** The rest of the process: what opens a handle is given a number no open
    one has, this connection's once it is closed, and closes only its own;
    and another thread comes to cancel. *)
Inductive others : World -> World -> Prop :=
| others_open k o t w cs l h : t !! h = None -> others (mkWorld k o t w cs l) (mkWorld k o (<[h := Another]> t) w cs l)
| others_close k o t w cs l h : t !! h = Some Another -> others (mkWorld k o t w cs l) (mkWorld k o (delete h t) w cs l)
| others_come k o t w cs l i : cs !! i = None -> others (mkWorld k o t w cs l) (mkWorld k o t w (<[i := Coming]> cs) l).

Definition own (w w' : World) : Prop := drops w w' \/ exists i, cancels i w w'.
Definition step (w w' : World) : Prop := own w w' \/ others w w'.

(** ** What holds of it *)

(** The phases the owner has the handle open in, and those in which it may be
    cancelled. *)
Definition has_handle (o : Owner) : bool := match o with Closed => false | _ => true end.
Definition has_number (o : Owner) : bool := match o with Using | Locked => true | _ => false end.
Definition in_lock (o : Owner) : bool := match o with Locked | Cleared => true | _ => false end.

Definition inside (c : Canceller) : bool := match c with Reading | Armed _ | Asked => true | _ => false end.

Record sound (w : World) : Prop := {
  sound_open : open w = if has_number (owner w) then Some pipe else None;
  sound_table : has_handle (owner w) = true -> table w !! pipe = Some Ours;
  sound_others : forall h, h <> pipe -> table w !! h <> Some Ours;
  sound_owner : lock w = Some TheOwner <-> in_lock (owner w) = true;
  sound_cancellers : forall i c, cancellers w !! i = Some c -> (lock w = Some (TheCanceller i) <-> inside c = true);
  sound_armed : forall i handle, cancellers w !! i = Some (Armed handle) -> handle = pipe /\ has_number (owner w) = true;
  sound_holder : forall i, lock w = Some (TheCanceller i) -> is_Some (cancellers w !! i);
  sound_cancelled : Forall (fun reached => reached = Some Ours) (cancelled w);
}.

Lemma sound_at_start t n : t !! pipe = None -> (forall h, t !! h <> Some Ours) -> sound (start pipe t n).
Proof.
  intros Ht Hn. constructor; cbn; try done.
  - intros _. apply lookup_insert_eq.
  - intros h Hh. rewrite lookup_insert_ne by done. apply Hn.
  - intros i c Hi. by apply lookup_gset_to_gmap_Some in Hi as [_ <-].
  - intros i h Hi. by apply lookup_gset_to_gmap_Some in Hi as [_ ?].
Qed.

Lemma sound_drops w w' : sound w -> drops w w' -> sound w'.
Proof.
  intros [H1 H2 H3 H4 H5 Ha H6 H7] Hs. destruct Hs; cbn in *; constructor; cbn; try done; try tauto.
  - intros i c Hi. specialize (H5 i c Hi). split; [done|]. intros Hc. by apply H5 in Hc.
  - intros i h Hi. assert (k = Some TheOwner) as -> by by apply H4. pose proof (proj2 (H5 i _ Hi) eq_refl). done.
  - intros i c Hi. specialize (H5 i c Hi). split; [done|]. intros Hc. by apply H5 in Hc.
  - intros h Hh. rewrite lookup_delete_ne by done. by apply H3.
Qed.

(** A canceller that goes on within the lock. *)
Lemma still_inside k (cs : gmap nat Canceller) i c c' j c1 : (forall j c, cs !! j = Some c -> k = Some (TheCanceller j) <-> inside c = true) ->
  cs !! i = Some c -> inside c = inside c' -> <[i := c']> cs !! j = Some c1 ->
  k = Some (TheCanceller j) <-> inside c1 = true.
Proof.
  intros H5 Hi Hin [[<- <-]|[Hne Hj]]%lookup_insert_Some; [|by apply H5]. rewrite <- Hin. by apply H5.
Qed.

Lemma still_there {A} (P : nat -> Prop) (cs : gmap nat A) i c' : (forall j, P j -> is_Some (cs !! j)) ->
  forall j, P j -> is_Some (<[i := c']> cs !! j).
Proof. intros H6 j Hj. apply lookup_insert_is_Some'. right. by apply H6. Qed.

Lemma sound_cancels i w w' : sound w -> cancels i w w' -> sound w'.
Proof.
  intros [H1 H2 H3 H4 H5 Ha H6 H7] Hs.
  destruct Hs as [o t ph cs l Hi|k h t ph cs l Hi|k t ph cs l Hi|k o h t ph cs l Hi|o t ph cs l Hi]; cbn in *; constructor; cbn; try done;
    try (by intros j c1; eapply still_inside; [exact H5|exact Hi|]); try (by apply (still_there (fun j => k = Some (TheCanceller j))));
    try (by intros j handle; rewrite lookup_insert_Some; intros [[_ ?]|[_ Hj]]; [done|by apply (Ha j handle)]).
  - split; [done|]. intros Hph. by apply H4 in Hph.
  - intros j c. rewrite lookup_insert_Some. intros [[<- <-]|[Hne Hj]]; [done|]. specialize (H5 j c Hj).
    split; [by intros [= ->]|]. intros Hc. by apply H5 in Hc.
  - intros j [= ->]. rewrite lookup_insert_eq. by eexists.
  - intros j h'. rewrite lookup_insert_Some. intros [[_ [= <-]]|[_ Hj]]; [|exact (Ha j h' Hj)].
    destruct (has_number ph); [|done]. by injection H1 as ->.
  - apply Forall_app. split; [done|]. constructor; [|done]. destruct (Ha i h Hi) as [-> Hn]. apply H2. by destruct ph.
  - split; [done|]. intros Hph. by apply H4 in Hph.
  - intros j c. rewrite lookup_insert_Some. intros [[<- <-]|[Hne Hj]]; [done|]. specialize (H5 j c Hj).
    split; [done|]. intros Hc. apply H5 in Hc. by injection Hc.
Qed.

Lemma sound_is_kept w w' : sound w -> step w w' -> sound w'.
Proof.
  intros Hw [[Hd|[i Hc]]|Ho]; [by eapply sound_drops|by eapply sound_cancels|].
  destruct Hw as [H1 H2 H3 H4 H5 Ha H6 H7]. destruct Ho as [k o t ph cs l h Hh|k o t ph cs l h Hh|k o t ph cs l i Hi]; cbn in *; constructor; cbn; try done.
  - intros Hhas. rewrite lookup_insert_ne; [by apply H2|]. intros ->. by rewrite H2 in Hh.
  - intros j Hj. rewrite lookup_insert_Some. intros [[_ ?]|[_ Ht]]; [done|by apply (H3 j)].
  - intros Hhas. rewrite lookup_delete_ne; [by apply H2|]. intros ->. by rewrite H2 in Hh.
  - intros j Hj [_ Ht]%lookup_delete_Some. by apply (H3 j).
  - intros j c. rewrite lookup_insert_Some. intros [[<- <-]|[Hne Hj]]; [|by apply H5].
    split; [|done]. intros Hk. apply H6 in Hk as [c Hc]. congruence.
  - intros j h. rewrite lookup_insert_Some. intros [[_ ?]|[_ Hj]]; [done|by apply (Ha j)].
  - by apply (still_there (fun j => k = Some (TheCanceller j))).
Qed.

Lemma sound_throughout w w' : rtc step w w' -> sound w -> sound w'.
Proof. induction 1 as [|w1 w2 w3 Hs _ IH]; [done|]. intros H1. by apply IH, (sound_is_kept w1). Qed.

(** Until the handle is closed some thread of these can go on: whoever has
    the lock, or the owner. *)
Lemma drop_goes_on w : sound w -> owner w <> Closed -> exists w', own w w'.
Proof.
  intros [H1 H2 H3 H4 H5 Ha H6 H7] Hc. destruct w as [k o t ph cs l]. cbn in *. destruct ph.
  - destruct k as [[|i]|].
    + assert (false = true) by by apply H4. done.
    + destruct (H6 i eq_refl) as [c Hi]. pose proof (proj1 (H5 i c Hi) eq_refl) as Hin.
      destruct c; try done; eexists; right; exists i; [rewrite H1; by eapply cancels_read|by eapply cancels_ask|by eapply cancels_unlock].
    + eexists. left. constructor.
  - eexists. left. constructor.
  - assert (k = Some TheOwner) as -> by by apply H4. eexists. left. constructor.
  - eexists. left. constructor.
  - done.
Qed.

(** C39. However the drop of a connection, the threads that cancel it — each
    reading the connection's number and then, whatever happened between,
    asking the system of that number — and the rest of the process
    interleave, no cancel reaches a handle that is not the
    connection's own and open, whatever its number was given to since; none
    reaches anything once the connection is closed; and until it is, one of
    them can go on. *)
Theorem cancel_reaches_its_own_alone t n w :
  t !! pipe = None -> (forall h, t !! h <> Some Ours) -> rtc step (start pipe t n) w ->
  Forall (fun reached => reached = Some Ours) (cancelled w)
  /\ (owner w = Closed -> forall w', own w w' -> cancelled w' = cancelled w)
  /\ (owner w <> Closed -> exists w', own w w').
Proof.
  intros Ht Hn Hr. assert (sound w) as Hw by (eapply sound_throughout; [exact Hr|by apply sound_at_start]).
  split_and!; [apply Hw| |by apply drop_goes_on].
  intros Hc w' [Hd|[i Hi]].
  - by destruct Hd.
  - pose proof (sound_open w Hw) as Ho. pose proof (sound_armed w Hw i) as Ha. rewrite Hc in Ho, Ha.
    destruct Hi as [| | |k o h tb ph cs l Hi|]; try done. by destruct (Ha h Hi).
Qed.
End steps.

(** A cancel that comes between the number's clearing and the handle's close
    reaches nothing, and its number reused by then is left alone. *)
Definition example_end : World :=
  mkWorld None None {[ 7 := Another ]} Closed {[ 0%nat := Gone; 1%nat := Gone ]} [Some Ours].

Lemma example_reached : rtc (step 7) (start 7 ∅ 2) example_end.
Proof.
  eapply rtc_l; [left; right; exists 0%nat; by apply cancels_lock|].
  eapply rtc_l; [left; right; exists 0%nat; by apply cancels_read|].
  eapply rtc_l; [left; right; exists 0%nat; by eapply cancels_ask|].
  eapply rtc_l; [left; right; exists 0%nat; by apply cancels_unlock|].
  eapply rtc_l; [left; left; apply drops_lock|].
  eapply rtc_l; [left; left; apply drops_clear|].
  eapply rtc_l; [left; left; apply drops_unlock|].
  eapply rtc_l; [left; left; apply drops_close|].
  eapply rtc_l; [right; by apply (others_open _ _ _ _ _ _ 7)|].
  eapply rtc_l; [left; right; exists 1%nat; by apply cancels_lock|].
  eapply rtc_l; [left; right; exists 1%nat; by apply cancels_nothing|].
  eapply rtc_l; [left; right; exists 1%nat; by apply cancels_unlock|].
  match goal with |- rtc _ ?w _ => replace w with example_end by (vm_compute; reflexivity) end. apply rtc_refl.
Qed.

Lemma cancel_reaches_its_own_alone_witness :
  rtc (step 7) (start 7 ∅ 2) example_end
  /\ (Forall (fun reached => reached = Some Ours) (cancelled example_end)
      /\ (owner example_end = Closed -> forall w', own 7 example_end w' -> cancelled w' = cancelled example_end)
      /\ (owner example_end <> Closed -> exists w', own 7 example_end w')).
Proof.
  split; [exact example_reached|].
  apply (cancel_reaches_its_own_alone 7 ∅ 2 example_end); [done|by intros h|exact example_reached].
Defined.
End Cancelling.
