(* ===== verification/Fixture.v ===== *)
(** Loopback addresses no one holds, for tests ([src/fixture.rs]): the block
    of ports a test process holds, the ports it gives of it, and the
    processes of one machine that each hold their own. *)

From stdpp Require Import gmap relations.
From S2P Require Import Prelude.

Module Fixture.

Definition FIRST : Z := 20000.
Definition BLOCK : Z := 100.
Definition BLOCKS : Z := 120.

(** [127.0.0.1], and an address of a host. *)
Definition LOCALHOST : Z := 2130706433.
Abbreviation Address := (Z * Z)%type.

(** ** The block of a process

    The one [step] after its own, and its first port. *)
Definition candidate (id step : Z) : Z := FIRST + ((id mod BLOCKS + step) mod BLOCKS) * BLOCK.

(** [block], where [free] is what binds on [127.0.0.1]. *)
Fixpoint block_from (free : Z -> bool) (id step : Z) (more : nat) : option Z :=
  match more with
  | O => None
  | S more => if free (candidate id step) then Some (candidate id step) else block_from free id (step + 1) more
  end.
Definition block (free : Z -> bool) (id : Z) : option Z := block_from free id 0 (Z.to_nat BLOCKS).

(** ** The ports of a block

    The counter is a [u16], which wraps. *)
Definition port (first next : Z) : Z := first + 1 + next mod (BLOCK - 1).

(** [unheld_on], where [free] is what binds: the port found, and the counter
    after. *)
Fixpoint unheld_from (free : Z -> bool) (first next : Z) (more : nat) : option Z * Z :=
  match more with
  | O => (None, next)
  | S more =>
      let next' := (next + 1) mod 65536 in
      if free (port first next) then (Some (port first next), next') else unheld_from free first next' more
  end.
Definition unheld_on (free : Z -> bool) (first next : Z) : option Z * Z :=
  unheld_from free first next (Z.to_nat (BLOCK - 1)).
Definition unheld : (Z -> bool) -> Z -> Z -> option Z * Z := unheld_on.

(** ** The processes of a machine

    A process is choosing its block, the [step]th of them, or holds one and
    has had [tickets] of its counter. *)
Inductive Process : Type :=
| Choosing (step : Z)
| Holding (first tickets : Z).

(** A port given: to which process, on which of its tickets. *)
Record Given : Type := mkGiven { process : Z; ticket : Z; given_port : Z }.

(** [given]: to the processes that still run. *)
Record World : Type := mkWorld {
  bound : gset Address;
  processes : gmap Z Process;
  given : list Given;
}.

(** A process calls [block] or, holding one, one turn of [unheld_on] on one of
    its threads, whose bind succeeds or not. *)
Inductive calls (id : Z) : World -> World -> Prop :=
| calls_holds b ps g step : ps !! id = Some (Choosing step) -> 0 <= step < BLOCKS -> (LOCALHOST, candidate id step) ∉ b ->
    calls id (mkWorld b ps g) (mkWorld ({[ (LOCALHOST, candidate id step) ]} ∪ b) (<[id := Holding (candidate id step) 0]> ps) g)
| calls_passes b ps g step : ps !! id = Some (Choosing step) -> (LOCALHOST, candidate id step) ∈ b ->
    calls id (mkWorld b ps g) (mkWorld b (<[id := Choosing (step + 1)]> ps) g)
| calls_gives b ps g first tickets : ps !! id = Some (Holding first tickets) ->
    calls id (mkWorld b ps g)
      (mkWorld b (<[id := Holding first (tickets + 1)]> ps) (g ++ [mkGiven id tickets (port first (tickets mod 65536))]))
| calls_misses b ps g first tickets : ps !! id = Some (Holding first tickets) ->
    calls id (mkWorld b ps g) (mkWorld b (<[id := Holding first (tickets + 1)]> ps) g).

(** What was given to others than the process [id]. *)
Definition without (id : Z) (g : list Given) : list Given := base.filter (fun x => process x <> id) g.

(** What else happens on the machine: a process starts and ends — its block is
    let go with it — and others bind what is not bound, and let their own
    go. *)
Inductive others : World -> World -> Prop :=
| others_start b ps g id : ps !! id = None ->
    others (mkWorld b ps g) (mkWorld b (<[id := Choosing 0]> ps) g)
| others_end b ps g id step : ps !! id = Some (Choosing step) -> others (mkWorld b ps g) (mkWorld b (delete id ps) (without id g))
| others_end_holding b ps g id first tickets : ps !! id = Some (Holding first tickets) ->
    others (mkWorld b ps g) (mkWorld (b ∖ {[ (LOCALHOST, first) ]}) (delete id ps) (without id g))
| others_bind b ps g a : a ∉ b -> others (mkWorld b ps g) (mkWorld ({[ a ]} ∪ b) ps g)
| others_unbind b ps g a : (forall id first tickets, ps !! id = Some (Holding first tickets) -> a <> (LOCALHOST, first)) ->
    others (mkWorld b ps g) (mkWorld (b ∖ {[ a ]}) ps g).

Definition step (w w' : World) : Prop := (exists id, calls id w w') \/ others w w'.

(** ** What holds of them *)

Definition a_block (first : Z) : Prop := exists n, 0 <= n < BLOCKS /\ first = FIRST + n * BLOCK.

Lemma candidate_block id step : a_block (candidate id step).
Proof. exists ((id mod BLOCKS + step) mod BLOCKS). split; [apply Z.mod_pos_bound; done|done]. Qed.

(** A port of a block is after its first, in it, and under the ephemeral
    ports of every system. *)
Lemma port_in first n : a_block first -> first < port first n < first + BLOCK /\ FIRST < port first n < 32000.
Proof.
  intros (k & Hk & ->). unfold port, BLOCK, BLOCKS, FIRST in *. pose proof (Z.mod_pos_bound n (100 - 1) ltac:(lia)). lia.
Qed.

(** A port tells its block. *)
Lemma port_block first first' n n' : a_block first -> a_block first' -> port first n = port first' n' -> first = first'.
Proof.
  intros (k & Hk & ->) (k' & Hk' & ->) H. unfold port, BLOCK, BLOCKS, FIRST in *.
  pose proof (Z.mod_pos_bound n (100 - 1) ltac:(lia)). pose proof (Z.mod_pos_bound n' (100 - 1) ltac:(lia)). lia.
Qed.
Definition tag (x : Given) : Z * Z := (process x, ticket x).

Record sound (w : World) : Prop := {
  sound_held : forall id first tickets, processes w !! id = Some (Holding first tickets) ->
    a_block first /\ 0 <= tickets /\ (LOCALHOST, first) ∈ bound w;
  sound_apart : forall id id' first tickets tickets', processes w !! id = Some (Holding first tickets) ->
    processes w !! id' = Some (Holding first tickets') -> id = id';
  sound_given : forall x, x ∈ given w -> match processes w !! process x with
    | Some (Holding first tickets) => 0 <= ticket x < tickets /\ given_port x = port first (ticket x mod 65536)
    | _ => False
    end;
  sound_once : NoDup (map tag (given w));
  sound_ports : Forall (fun x => FIRST < given_port x < 32000) (given w);
}.

(** A process that has no block was given nothing. *)
Lemma not_given_yet w id step : sound w -> processes w !! id = Some (Choosing step) -> Forall (fun x => process x <> id) (given w).
Proof.
  intros Hw Hid. apply Forall_forall. intros x Hx Heq. pose proof (sound_given w Hw x Hx) as H. by rewrite Heq, Hid in H.
Qed.

(** A process that chooses, or is new. *)
Lemma sound_choosing b ps g id step : sound (mkWorld b ps g) -> Forall (fun x => process x <> id) g ->
  sound (mkWorld b (<[id := Choosing step]> ps) g).
Proof.
  intros [H1 H2 H3 H4 H5] Hnew. cbn in *. constructor; cbn; [| | |done..].
  - intros j first tickets. rewrite lookup_insert_Some. intros [[_ ?]|[_ Hj]]; [done|by apply (H1 j)].
  - intros j j' first t t'. rewrite !lookup_insert_Some. intros [[_ ?]|[_ Hj]] [[_ ?]|[_ Hj']]; try done. by eapply H2.
  - intros x Hx. rewrite lookup_insert_ne; [by apply H3|]. rewrite Forall_forall in Hnew. intros ->. by eapply Hnew.
Qed.

(** A process's next ticket. *)
Lemma sound_ticket b ps g id first tickets : sound (mkWorld b ps g) -> ps !! id = Some (Holding first tickets) ->
  sound (mkWorld b (<[id := Holding first (tickets + 1)]> ps) g).
Proof.
  intros [H1 H2 H3 H4 H5] Hid. cbn in *. destruct (H1 _ _ _ Hid) as (Hf & Ht & Hb). constructor; cbn; [| | |done..].
  - intros j f t. rewrite lookup_insert_Some. intros [[-> [= <- <-]]|[_ Hj]]; [split_and!; [done|lia|done]|by apply (H1 j)].
  - intros j j' f t t'. rewrite !lookup_insert_Some. intros [[<- Hj]|[Hne Hj]] [[<- Hj']|[Hne' Hj']]; simplify_eq; [done| | |].
    + exact (H2 _ _ _ _ _ Hid Hj').
    + exact (H2 _ _ _ _ _ Hj Hid).
    + exact (H2 _ _ _ _ _ Hj Hj').
  - intros x Hx. specialize (H3 x Hx). destruct (decide (id = process x)) as [Heq|Hne]; [rewrite <- Heq in *|].
    + rewrite lookup_insert_eq. rewrite Hid in H3. destruct H3. split; [lia|done].
    + by rewrite lookup_insert_ne.
Qed.

Lemma sound_calls w w' id : sound w -> calls id w w' -> sound w'.
Proof.
  intros Hw Hs. destruct Hs as [b ps g step Hid Hstep Hfree|b ps g step Hid Hfree|b ps g first tickets Hid|b ps g first tickets Hid].
  - pose proof (not_given_yet _ _ _ Hw Hid) as Hnew. destruct Hw as [H1 H2 H3 H4 H5]. cbn in *. constructor; cbn; [| | |done..].
    + intros j first tickets. rewrite lookup_insert_Some. intros [[-> [= <- <-]]|[_ Hj]].
      * split_and!; [apply candidate_block|done|by apply elem_of_union_l, elem_of_singleton].
      * destruct (H1 _ _ _ Hj) as (? & ? & ?). split_and!; [done|done|by apply elem_of_union_r].
    + intros j j' first t t'. rewrite !lookup_insert_Some. intros [[<- Hj]|[Hne Hj]] [[<- Hj']|[Hne' Hj']]; simplify_eq; try done.
      * by apply H1 in Hj' as (_ & _ & ?).
      * by apply H1 in Hj as (_ & _ & ?).
      * by eapply H2.
    + intros x Hx. rewrite lookup_insert_ne; [by apply H3|]. rewrite Forall_forall in Hnew. intros ->. by eapply Hnew.
  - apply sound_choosing; [done|]. exact (not_given_yet _ _ _ Hw Hid).
  - pose proof (sound_held _ Hw _ _ _ Hid) as (Hf & Ht & _). pose proof (sound_given _ Hw) as Hg.
    destruct (sound_ticket _ _ _ _ _ _ Hw Hid) as [H1 H2 H3 H4 H5]. cbn in *. constructor; cbn; [done|done| | |].
    + intros x [Hx|Hx]%elem_of_app; [by apply H3|]. apply list_elem_of_singleton in Hx as ->. cbn. rewrite lookup_insert_eq.
      split; [lia|done].
    + rewrite map_app. apply NoDup_app. split_and!; [done| |apply NoDup_singleton].
      intros y Hy Hin. apply list_elem_of_singleton in Hin as ->. apply list_elem_of_In, List.in_map_iff in Hy as (x & [= Hp Htk] & Hx).
      apply list_elem_of_In in Hx. specialize (Hg x Hx). rewrite Hp, Hid in Hg. lia.
    + apply Forall_app. split; [done|]. constructor; [|done]. cbn. by apply port_in.
  - by apply sound_ticket.
Qed.

(** A process ends, its block let go or none held. *)
Lemma sound_end b b' ps g id : sound (mkWorld b ps g) ->
  (forall j first tickets, j <> id -> ps !! j = Some (Holding first tickets) -> (LOCALHOST, first) ∈ b -> (LOCALHOST, first) ∈ b') ->
  sound (mkWorld b' (delete id ps) (without id g)).
Proof.
  intros [H1 H2 H3 H4 H5] Hb. cbn in *. constructor; cbn.
  - intros j first tickets [Hne Hj]%lookup_delete_Some. destruct (H1 _ _ _ Hj) as (? & ? & ?). split_and!; [done|done|by eapply Hb].
  - intros j j' first t t' [_ Hj]%lookup_delete_Some [_ Hj']%lookup_delete_Some. by eapply H2.
  - intros x [Hne Hx]%list_elem_of_filter. rewrite lookup_delete_ne by done. by apply H3.
  - unfold without. clear -H4. induction g as [|x g IH]; [done|]. cbn in H4. apply NoDup_cons in H4 as [Hn H4].
    rewrite filter_cons. destruct (decide _); [|by apply IH]. cbn. apply NoDup_cons. split; [|by apply IH].
    intros Hin. apply Hn. apply list_elem_of_In, List.in_map_iff in Hin as (y & Hy & Hin). rewrite <- Hy.
    apply list_elem_of_In in Hin. apply list_elem_of_filter in Hin as [_ Hin]. apply list_elem_of_In, List.in_map. by apply list_elem_of_In.
  - apply Forall_forall. intros x [_ Hx]%list_elem_of_filter. rewrite Forall_forall in H5. by apply H5.
Qed.

Lemma sound_others w w' : sound w -> others w w' -> sound w'.
Proof.
  intros Hw Hs. destruct Hs as [b ps g id Hid|b ps g id step Hid|b ps g id first tickets Hid|b ps g a Ha|b ps g a Ha].
  - apply sound_choosing; [done|]. apply Forall_forall. intros x Hx Heq. pose proof (sound_given _ Hw x Hx) as H. cbn in H. by rewrite Heq, Hid in H.
  - by eapply sound_end.
  - eapply sound_end; [done|]. intros j f t Hne Hj Hin. apply elem_of_difference. split; [done|]. intros Heq%elem_of_singleton.
    injection Heq as ->. by apply Hne, (sound_apart _ Hw _ _ _ _ _ Hj Hid).
  - destruct Hw as [H1 H2 H3 H4 H5]. constructor; cbn in *; [|done..]. intros j f t Hj. destruct (H1 _ _ _ Hj) as (? & ? & ?).
    split_and!; [done|done|by apply elem_of_union_r].
  - destruct Hw as [H1 H2 H3 H4 H5]. constructor; cbn in *; [|done..]. intros j f t Hj. destruct (H1 _ _ _ Hj) as (? & ? & ?).
    split_and!; [done|done|]. apply elem_of_difference. split; [done|]. intros Heq%elem_of_singleton. symmetry in Heq. by eapply Ha.
Qed.

(** A machine where no test process has started yet. *)
Definition start (bound : gset Address) : World := mkWorld bound ∅ [].

Lemma sound_ever b w : rtc step (start b) w -> sound w.
Proof.
  assert (sound (start b)) as Hs by (constructor; cbn; [done..|intros x Hx; by apply not_elem_of_nil in Hx|constructor|constructor]).
  revert Hs. generalize (start b). intros w0 Hs Hr. induction Hr as [|w1 w2 w3 [[id H12]|H12] _ IH]; [done| |]; apply IH.
  - by eapply sound_calls.
  - by eapply sound_others.
Qed.

(** Two tickets of a process give one port exactly where they are whole rounds
    of its block apart, as its counter counts them. *)
Lemma port_same first n n' : port first n = port first n' <-> (n - n') mod (BLOCK - 1) = 0.
Proof.
  unfold port, BLOCK. change (100 - 1) with 99. rewrite <- (Zminus_mod_idemp_l n), <- (Zminus_mod_idemp_r _ n').
  pose proof (Z.mod_pos_bound n 99 ltac:(lia)). pose proof (Z.mod_pos_bound n' 99 ltac:(lia)).
  split; [intros Hp; by replace (n mod 99 - n' mod 99) with 0 by lia|]. intros Hm. apply Z.mod_divide in Hm as [k Hk]; lia.
Qed.

(** So they are a whole round apart within one turn of the counter, and over
    its wrap two calls short of one. *)
Lemma rounds_apart n n' : 0 <= n -> 0 <= n' -> n <> n' -> (n mod 65536 - n' mod 65536) mod (BLOCK - 1) = 0 ->
  BLOCK - 3 <= Z.abs (n - n') /\ (n / 65536 = n' / 65536 -> BLOCK - 1 <= Z.abs (n - n')).
Proof.
  unfold BLOCK. change (100 - 1) with 99. intros Hn Hn' Hne Hm. apply Z.mod_divide in Hm as [k Hk]; [|lia].
  pose proof (Z.div_mod n 65536 ltac:(lia)). pose proof (Z.div_mod n' 65536 ltac:(lia)).
  pose proof (Z.mod_pos_bound n 65536 ltac:(lia)). pose proof (Z.mod_pos_bound n' 65536 ltac:(lia)).
  assert (n - n' = 65536 * (n / 65536 - n' / 65536) + 99 * k) as Hd by lia. lia.
Qed.


(** Two processes whose numbers meet in one block: the second passes on to the
    next, and each gives of its own. *)
Definition met : gset Address := {[ (LOCALHOST, 20600) ]} ∪ ({[ (LOCALHOST, 20500) ]} ∪ ∅).
Definition example_world : World :=
  mkWorld met
    (<[125 := Holding 20600 1]> (<[5 := Holding 20500 1]> (<[125 := Holding 20600 0]> (<[125 := Choosing 1]>
      (<[5 := Holding 20500 0]> (<[125 := Choosing 0]> (<[5 := Choosing 0]> ∅)))))))
    [mkGiven 5 0 20501; mkGiven 125 0 20601].

Lemma example_round : rtc step (start ∅) example_world.
Proof.
  eapply rtc_l; [right; by apply (others_start _ _ _ 5)|]. eapply rtc_l; [right; by apply (others_start _ _ _ 125)|].
  eapply rtc_l; [left; exists 5; apply (calls_holds 5 _ _ _ 0); [done|done|apply not_elem_of_empty]|].
  eapply rtc_l; [left; exists 125; apply (calls_passes 125 _ _ _ 0); [done|by apply elem_of_union_l, elem_of_singleton]|].
  eapply rtc_l; [left; exists 125; apply (calls_holds 125 _ _ _ 1); [done|done|apply (bool_decide_unpack _); by vm_compute]|].
  eapply rtc_l; [left; exists 5; by apply (calls_gives 5 _ _ _ 20500 0)|].
  eapply rtc_l; [left; exists 125; by apply (calls_gives 125 _ _ _ 20600 0)|].
  apply rtc_refl.
Qed.


(** The ports [n] calls are given, all of the block free. *)
Fixpoint calls_of (first next : Z) (n : nat) : list (option Z) :=
  match n with
  | O => []
  | S n => let '(p, next) := unheld (fun _ => true) first next in p :: calls_of first next n
  end.

(** The hundredth call of a process is given the first one's port. *)
Example a_round_comes_back :
  let given := calls_of 20500 0 100 in
  NoDup (take 99 given) /\ given !! 99%nat = given !! 0%nat /\ given !! 0%nat = Some (Some 20501).
Proof.
  split_and!; [|by vm_compute|by vm_compute]. apply (bool_decide_unpack _). by vm_compute.
Qed.

(** Over the counter's wrap a port comes back two calls sooner. *)
Example sooner_over_the_wrap : port 20500 (65439 mod 65536) = port 20500 (65536 mod 65536) /\ 65536 - 65439 = BLOCK - 3.
Proof. by vm_compute. Qed.

(** A process that finds its block held takes the next, over the end too. *)
Example blocks_taken :
  block (fun p => negb (p =? 20500)) 5 = Some 20600
  /\ block (fun p => negb (p =? 31900)) 239 = Some 20000
  /\ block (fun _ => false) 7 = None
  /\ (unheld_on (fun p => p =? 20599) 20500 3).1 = Some 20599.
Proof. vm_compute. done. Qed.
End Fixture.
