(* ===== verification/TestSupport.v ===== *)
(** What the crate's tests share, replayed on the model in the files after
    this one: a percent-encoding for the one of another package, texts on the
    wire, and what a test asks of a result or a text. *)

From Stdlib Require Import String.
From stdpp Require Import gmap strings.
From S2P Require Import Prelude Text Errors Wire Reading Http Http1 Target.

Module Support.

(** ** A percent-encoding: everything but letters, digits and [-._~] *)

Definition unreserved (c : Z) : bool :=
  is_ascii_digit c || between 65 c 90 || between 97 c 122 || bool_decide (c ∈ lit "-._~").
Definition upper_digit (d : Z) : Z := if d <? 10 then 48 + d else 55 + d.
Definition percent_encode (s : bytes) : bytes :=
  concat (map (fun c => if unreserved c then [c] else [37; upper_digit (c / 16); upper_digit (c mod 16)]) s).

Fixpoint percent_decode (s : bytes) : bytes :=
  match s with
  | 37 :: (h :: (l :: s') as rest) =>
      match Body.hex_digit h, Body.hex_digit l with
      | Some h, Some l => 16 * h + l :: percent_decode s'
      | _, _ => 37 :: percent_decode rest
      end
  | c :: s => c :: percent_decode s
  | [] => []
  end.

#[export] Instance percent : Percent := {|
  encode_pairs qs := join (lit "&") (map (fun q => percent_encode q.1 ++ lit "=" ++ percent_encode q.2) qs);
  decode_pairs s :=
    omap (fun q => match q with
                   | [] => None
                   | _ => Some (match split_once 61 q with
                                | Some (n, v) => (percent_decode n, percent_decode v)
                                | None => (percent_decode q, [])
                                end)
                   end) (split_by (Z.eqb 38) s);
|}.

(** ** Texts on the wire: [^] for a CRLF, a backquote for a quote. *)

Definition raw (s : string) : bytes :=
  concat (map (fun c => if c =? 94 then [13; 10] else if c =? 96 then [34] else [c]) (lit s)).

#[export] Instance percent_decoding : PercentDecode := percent_decode.

Definition wire (answer : bytes) : Wire := mkWire [Got answer] [] [].
Definition reader (bs : bytes) : Reader := buffered (wire bs).
(** What a writer leaves in an empty buffer. *)
Definition written (m : M Wire NetError unit) : bytes := outgoing (m (mkWire [] [] [])).2.

(** ** What a test asks *)

Fixpoint count_of (needle s : bytes) : nat :=
  match s with [] => 0 | _ :: s' => (if starts_with needle s then 1 else 0) + count_of needle s' end.
Definition holds (needle s : bytes) : bool := (0 <? count_of needle s)%nat.
Definition is_err {E A} (r : result E A) : bool := match r with Err _ => true | Ok _ => false end.
(** [assert_eq!] of what is expected. *)
Definition gives {E A} `{EqDecision A} (r : result E A) (a : A) : bool := match r with Ok x => bool_decide (x = a) | Err _ => false end.
(** Refused, in words that hold [needle]. *)
Definition saying {A} (r : result NetError A) (needle : bytes) : bool :=
  match r with Err e => holds needle (message e) | Ok _ => false end.
(** Refused without an [io::ErrorKind]: the peer's failure. *)
Definition not_io {A} (r : result NetError A) : bool := match r with Err e => bool_decide (io e = None) | Ok _ => false end.
Definition breached {A} (r : result Violation A) (code : ErrorCode) : bool :=
  match r with Err v => bool_decide (v_code v = code) | Ok _ => false end.

(** All of them. *)
Definition all : list bool -> bool := forallb id.
End Support.
