(* ===== verification/HttpTests.v ===== *)
(** The tests of [src/http.rs], run on the model. *)

From Stdlib Require Import String.
From stdpp Require Import gmap strings.
From S2P Require Import Prelude Text Errors Wire Reading Head Http Http1 TestSupport.
Import Support.

Module HttpTests.

Definition answer (bs : bytes) : result NetError Response := (Http1.read_response (reader bs)).1.

Definition the_request_carries_its_headers_the_length_and_the_close : bool :=
  let connection := wire (raw "HTTP/1.1 204 No Content^^") in
  let request := Request.with_body (lit "{}") (Request.header (lit "Content-Type") (lit "application/json")
    (Request.header (lit "Host") (lit "[::1]:8181") (Request.new (lit "POST") (lit "/v1/data/allow")))) in
  match Http1.exchange request connection with
  | (Ok answer, connection) =>
      bool_decide (status answer = 204) && bool_decide (phrase answer = lit "No Content")
      && bool_decide (outgoing connection
           = raw "POST /v1/data/allow HTTP/1.1^Host: [::1]:8181^Content-Type: application/json^Content-Length: 2^Connection: close^^{}")
  | _ => false
  end.

Definition a_request_round_trips_through_its_own_reader : bool :=
  let request := Request.with_body (lit "UNA") (Request.header (lit "Host") (lit "s3.local")
    (Request.with_query (lit "prefix") (lit "in/") (Request.new (lit "PUT") (lit "/bucket/in/1%20a.edi")))) in
  match Http1.exchange request (wire (raw "HTTP/1.1 200 OK^Content-Length: 2^^ok")) with
  | (Ok response, both) =>
      bool_decide (status response = 200) && bool_decide (r_body response = lit "ok")
      && starts_with (raw "PUT /bucket/in/1%20a.edi?prefix=in%2F HTTP/1.1^") (outgoing both)
      && match Http1.read_request (reader (outgoing both)) with
         | (Ok (Some read), _) =>
             bool_decide (method read = lit "PUT") && bool_decide (path read = lit "/bucket/in/1%20a.edi")
             && bool_decide (Request.query_value read (lit "prefix") = Some (lit "in/"))
             && bool_decide (Request.query_value read (lit "absent") = None)
             && bool_decide (Request.header_value read (lit "host") = Some (lit "s3.local"))
             && bool_decide (body read = lit "UNA")
         | _ => false
         end
      && bool_decide ((Http1.read_request (reader [])).1 = Ok None)
      && is_err (Http1.read_request (reader (raw "GET^^"))).1
  | _ => false
  end.

Definition an_answer_is_read_by_its_length_its_chunks_or_its_end : bool :=
  let plain := raw "HTTP/1.1 200 OK^Content-Length: 15^^{`result`:true}trailing" in
  let chunked := raw "HTTP/1.1 200 OK^Transfer-Encoding: chunked^^9^{`result`^6;name=x^:true}^0^X-Trailer: 1^^" in
  let unframed := raw "HTTP/1.0 200 OK^^to the end" in
  let text bs := (let? read := answer bs in Response.text read) in
  forallb (fun bs => bool_decide (text bs = Ok (raw "{`result`:true}"))) [plain; chunked]
  && bool_decide (text unframed = Ok (lit "to the end")).

Definition a_body_that_is_not_utf_8_is_refused_as_text_and_kept_whole_as_bytes : bool :=
  let binary := Response.with_body [0x7b; 0xff; 0xfe; 0x7d] (Response.new 200) in
  match Response.text binary with
  | Err refused => holds (lit "not UTF-8") (message refused) && bool_decide (r_body binary = [0x7b; 0xff; 0xfe; 0x7d])
  | Ok _ => false
  end.
Definition an_answer_without_a_body_states_no_length : bool :=
  let switching := Response.header (lit "Connection") (lit "Upgrade")
    (Response.header (lit "Upgrade") (lit "websocket") (Response.new 101)) in
  let sent := written (Http1.write_response switching) in
  bool_decide (sent = raw "HTTP/1.1 101 Switching Protocols^Upgrade: websocket^Connection: Upgrade^^")
  && match answer sent with
     | Ok read => (status read =? 101) && bool_decide (Response.header_value read (lit "upgrade") = Some (lit "websocket"))
     | Err _ => false
     end.

Definition a_connection_kept_carries_the_next_message_and_no_body_is_read_past_a_204 : bool :=
  let kept := Request.header (lit "Connection") (lit "keep-alive")
    (Request.header (lit "Host") (lit "dav.example") (Request.new (lit "PROPFIND") (lit "/orders"))) in
  let sent := written (Http1.write_request kept ;;; Http1.write_request (Request.new (lit "GET") (lit "/orders/1"))) in
  let two := (first <~ Http1.read_request ;; second <~ Http1.read_request ;; mret (first, second)) in
  let open := Response.header (lit "Connection") (lit "keep-alive") (Response.new 204) in
  let answers := written (Http1.write_response open ;;; Http1.write_response (Response.with_body (lit "<a/>") (Response.new 207))) in
  let both := (first <~ Http1.read_response ;; second <~ Http1.read_response ;; mret (first, second)) in
  bool_decide (count_of (lit "Connection:") sent = 2%nat) && holds (raw "Connection: keep-alive^") sent
  && match (two (reader sent)).1 with
     | Ok (Some first, Some second) => bool_decide (method first = lit "PROPFIND") && bool_decide (path second = lit "/orders/1")
     | _ => false
     end
  && starts_with (raw "HTTP/1.1 204 No Content^") answers
  && match (both (reader answers)).1 with
     | Ok (none, multi) => bool_decide (r_body none = []) && (status multi =? 207) && bool_decide (r_body multi = lit "<a/>")
     | Err _ => false
     end.

Definition the_status_and_its_phrase_are_kept_and_headers_are_found_in_any_case : bool :=
  match answer (raw "HTTP/1.1 401 Unauthorized^WWW-Authenticate: Basic^^"),
        answer (written (Http1.write_response (Response.with_body (lit "<Error/>") (Response.new 404)))) with
  | Ok read, Ok back =>
      (status read =? 401) && bool_decide (phrase read = lit "Unauthorized")
      && bool_decide (Response.header_value read (lit "www-authenticate") = Some (lit "Basic"))
      && (status back =? 404) && bool_decide (r_body back = lit "<Error/>")
  | _, _ => false
  end.

Definition what_is_not_an_http_answer_is_refused : bool :=
  forallb (fun bs => is_err (answer bs))
    [[];
     raw "nonsense^^";
     raw "SSH-2.0-OpenSSH^^";
     raw "220 mail.example ESMTP^^";
     raw "HTTP/1.1 200 OK^Content-Length: 9^^short";
     raw "HTTP/1.1 200 OK^Content-Length: eight^^";
     raw "HTTP/1.1 200 OK^Transfer-Encoding: chunked^^+5^hello^0^^";
     raw "HTTP/1.1 200 OK^Transfer-Encoding: chunked^^5^helloXX0^^";
     raw "HTTP/1.1 200 OK^Transfer-Encoding: gzip, chunked^^";
     raw "HTTP/1.1 200 OK^Content-Length: " ++ dec (MAX_BODY + 1) ++ raw "^^"].

Definition an_answer_with_trailers_goes_chunked_and_reads_back_with_them : bool :=
  forallb (fun body =>
    let sent := written (Http1.write_response
      (Response.trailer (lit "grpc-status") (lit "0") (Response.with_body body (Response.new 200)))) in
    holds (raw "Transfer-Encoding: chunked^") sent && negb (holds (lit "Content-Length") sent)
    && match answer sent with
       | Ok back => bool_decide (r_body back = body)
           && bool_decide (Response.trailer_value back (lit "GRPC-Status") = Some (lit "0"))
       | Err _ => false
       end) [lit "abc"; []]
  && match answer (raw "HTTP/1.1 200 OK^^") with Ok read => bool_decide (trailers read = []) | Err _ => false end.

Definition a_request_without_a_length_has_no_body : bool :=
  let two := (first <~ Http1.read_request ;; second <~ Http1.read_request ;; mret (first, second)) in
  match (two (reader (raw "POST / HTTP/1.1^Host: x^^GET /next HTTP/1.1^^"))).1 with
  | Ok (Some first, Some second) => bool_decide (body first = []) && bool_decide (path second = lit "/next")
  | _ => false
  end.

Definition a_kept_exchange_says_no_close_and_knows_when_the_connection_is_spent : bool :=
  let request := Request.header (lit "Host") (lit "example") (Request.new (lit "GET") (lit "/")) in
  forallb (fun '(answer, reusable) =>
    match Http1.exchange_kept request (wire answer) with
    | (Ok (_, kept), connection) => bool_decide (kept = reusable) && negb (holds (lit "Connection:") (outgoing connection))
    | _ => false
    end)
    [(raw "HTTP/1.1 200 OK^Content-Length: 2^^ok", true);
     (raw "HTTP/1.1 204 No Content^^", true);
     (raw "HTTP/1.1 200 OK^Transfer-Encoding: chunked^^0^^", true);
     (raw "HTTP/1.1 200 OK^Content-Length: 0^Connection: Close^^", false);
     (raw "HTTP/1.1 200 OK^^to the end", false)].

(** The tests of the module hold of the model. *)
Lemma http_tests_hold :
  the_request_carries_its_headers_the_length_and_the_close = true
  /\ a_request_round_trips_through_its_own_reader = true
  /\ an_answer_is_read_by_its_length_its_chunks_or_its_end = true
  /\ a_body_that_is_not_utf_8_is_refused_as_text_and_kept_whole_as_bytes = true
  /\ an_answer_without_a_body_states_no_length = true
  /\ a_connection_kept_carries_the_next_message_and_no_body_is_read_past_a_204 = true
  /\ the_status_and_its_phrase_are_kept_and_headers_are_found_in_any_case = true
  /\ what_is_not_an_http_answer_is_refused = true
  /\ an_answer_with_trailers_goes_chunked_and_reads_back_with_them = true
  /\ a_request_without_a_length_has_no_body = true
  /\ a_kept_exchange_says_no_close_and_knows_when_the_connection_is_spent = true.
Proof. split_and!; vm_compute; reflexivity. Qed.
End HttpTests.
