(* ===== verification/SystemTests.v ===== *)
(** The tests of what the system answers, run on the model: addresses as
    transports write them, a connection tried address by address, a stop that
    knocks again, and the block of ports a test process holds, each under its
    file's name. The system's part of each — who listens, which knock is lost,
    what binds — is written out. *)

From Stdlib Require Import String.
From S2P Require Import Prelude Text Errors Ip Network Links Fixture TestSupport.
Import Support.

(** [src/address.rs]. *)
Module AddressTests.

(** A text named as it is, within quotes. *)
#[local] Instance quoted : DebugText := fun text => [34] ++ text ++ [34].

Definition an_address_is_read_bare_with_a_port_and_in_brackets : bool :=
  match Ip.parse (lit "192.0.2.10"), Ip.parse (lit "2001:db8::1") with
  | Some four, Some six => all [
      gives (Address.parse (lit "192.0.2.10")) four;
      gives (Address.parse (lit " 192.0.2.10:4711 ")) four;
      gives (Address.parse (lit "2001:db8::1")) six;
      gives (Address.parse (lit "[2001:db8::1]")) six;
      gives (Address.parse (lit "[2001:db8::1]:443")) six]
  | _, _ => false
  end.

Definition text_that_is_no_address_is_refused_and_named : bool :=
  match Address.parse (lit "not-an-address") with
  | Err error => holds (lit "not-an-address") (message error)
  | Ok _ => false
  end.

Lemma address_tests_hold :
  an_address_is_read_bare_with_a_port_and_in_brackets = true /\ text_that_is_no_address_is_refused_and_named = true.
Proof. split_and!; vm_compute; reflexivity. Qed.
End AddressTests.

(** [src/connect.rs], each attempt answered by who listens. *)
Module ConnectTests.

Definition facing (listening targets : list SocketAddr) : Sockets :=
  mkSockets
    (fun k => match targets !! k with
              | Some address => if bool_decide (address ∈ listening) then None else Some Connect.connection_refused
              | None => None
              end)
    [] (fun _ => None) 0 Z.of_nat 0.

Definition open : SocketAddr := mkSocketAddr Ip.V4_LOCALHOST 50000.
Definition refusing : SocketAddr := mkSocketAddr Ip.V4_LOCALHOST 20001.

Definition every_address_is_tried_and_the_one_that_answers_is_connected : bool :=
  let targets := [refusing; open] in
  match (Connect.connect (Ok targets) (Some 10000) (facing [open] targets)).1 with
  | Ok stream => all [
      bool_decide (peer stream = open);
      bool_decide (read_timeout stream = Some 10000);
      bool_decide (write_timeout stream = Some 10000);
      nodelay stream]
  | Err _ => false
  end.

Definition fails (resolved : list SocketAddr) (timeout : option Z) (asks : NetError -> bool) : bool :=
  match (Connect.connect (Ok resolved) timeout (facing [open] resolved)).1 with Err e => asks e | Ok _ => false end.

Definition a_target_nobody_answers_is_refused_with_its_kind_and_an_empty_one_without : bool :=
  all [
    fails [] (Some 50) (fun nothing => bool_decide (io nothing = None));
    fails [refusing] (Some 500) (fun refused => bool_decide (io refused <> None));
    match Ip.parse_socket (Ip.display (ip refusing) ++ lit ":" ++ dec (port refusing)) with
    | Some address => fails [address] None (fun unbounded => bool_decide (io unbounded <> None))
    | None => false
    end].

Lemma connect_tests_hold :
  every_address_is_tried_and_the_one_that_answers_is_connected = true
  /\ a_target_nobody_answers_is_refused_with_its_kind_and_an_empty_one_without = true.
Proof. split_and!; vm_compute; reflexivity. Qed.
End ConnectTests.

(** [src/accepting.rs]: the caller, the thread and the clock in turn; the
    caller's first two knocks make no connection, and its others do. *)
Module AcceptingTests.

Definition schedule (n : nat) : @Woken.Actor bool :=
  match (n mod 3)%nat with
  | O => Woken.Calls (if (n <? 39)%nat then Refused else Landed)
  | 1%nat => Woken.Accepts (Ok true)
  | _ => Woken.Ticks 200
  end.

Definition a_wake_lost_is_asked_again_until_the_accept_has_heard : bool :=
  let woke := Woken.after 1000000 schedule (Woken.woken Accepting 0 0) 60 in
  match caller woke with Returned woken => gives woken true | _ => false end
  && (3 <=? length (knocks woke))%nat.

Lemma accepting_tests_hold : a_wake_lost_is_asked_again_until_the_accept_has_heard = true.
Proof. vm_compute. reflexivity. Qed.
End AcceptingTests.

(** [src/fixture.rs], on a machine where another process holds the block its
    id leads to, and a port of the next is taken. *)
Module FixtureTests.

Definition id : Z := 4711.
Definition taken : list Z := [Fixture.candidate id 0; Fixture.candidate id 1 + 2].
Definition binds (held : list Z) (port : Z) : bool := negb (bool_decide (port ∈ held)).

(** What two calls of [unheld] give, and the block they are of. *)
Definition two_calls : option (Z * Z * Z) :=
  match Fixture.block (binds taken) id with
  | Some first =>
      let '(one, next) := Fixture.unheld (binds (first :: taken)) first 0 in
      let '(two, _) := Fixture.unheld (binds (first :: taken)) first next in
      match one, two with Some one, Some two => Some (first, one, two) | _, _ => None end
  | None => None
  end.

Definition no_two_calls_share_a_port_and_none_is_ephemeral : bool :=
  match two_calls with
  | Some (first, one, two) => all [
      bool_decide (one <> two);
      bool_decide (Fixture.FIRST <= one) && bool_decide (one < 32768);
      binds (first :: taken) one]
  | None => false
  end.

Definition the_block_is_held_while_the_process_runs : bool :=
  match two_calls with
  | Some (first, one, _) =>
      bool_decide (first < one) && bool_decide (one < first + Fixture.BLOCK) && negb (binds (first :: taken) first)
  | None => false
  end.

Lemma fixture_tests_hold :
  no_two_calls_share_a_port_and_none_is_ephemeral = true /\ the_block_is_held_while_the_process_runs = true
  /\ two_calls = Some (Fixture.candidate id 1, Fixture.candidate id 1 + 1, Fixture.candidate id 1 + 3).
Proof. split_and!; vm_compute; reflexivity. Qed.
End FixtureTests.
