(* ===== verification/PipeTests.v ===== *)
(** The tests of [src/pipe.rs], run on a machine that has both ends of its
    pipes: instances made and connected to, octets that cross, an end that
    hangs up, waits that run out, and another thread that runs while one
    waits. Accounts and memory are [Life.Toy]'s. *)

From Stdlib Require Import String.
From stdpp Require Import gmap.
From S2P Require Import Prelude Text Errors Uri Windows Account Pipe PipeCalls WinPipe WinLife TestSupport.
Import Win.

Module Host.

#[export] Instance codes : System := {|
  error_kind code := if code =? 2 then WinPipe.NotFound else OtherKind code;
  error_detail _ := lit "an error";
|}.
#[export] Existing Instance Life.Toy.wide_here.

(** One end of a pipe: whether it is a listener's, the end it is connected
    to, what came and was not read, and whether the other end has gone. *)
Record End : Type := mkEnd { named : list Z; serves : bool; peer : option Z; inbox : bytes; hung_up : bool }.

(** [cancelled]: the operations a cancel reached. [elapsed] is in
    nanoseconds. *)
Record world : Type := mkWorld { win : t; ends : gmap Z End; cancelled : gset Z; elapsed : Z }.

Definition nothing : world := mkWorld Life.Toy.empty ∅ ∅ 0.

Definition with_win (s : t) (w : world) : world := mkWorld s (ends w) (cancelled w) (elapsed w).
Definition with_ends (f : gmap Z End -> gmap Z End) (w : world) : world := mkWorld (win w) (f (ends w)) (cancelled w) (elapsed w).

Definition met (other : Z) (e : End) : End := mkEnd (named e) (serves e) (Some other) (inbox e) (hung_up e).
Definition with_inbox (f : bytes -> bytes) (e : End) : End := mkEnd (named e) (serves e) (peer e) (f (inbox e)) (hung_up e).
Definition gone (e : End) : End := mkEnd (named e) (serves e) (peer e) (inbox e) true.

Definition ERROR_FILE_NOT_FOUND : Z := 2.
Definition ERROR_NONE_MAPPED : Z := 1332.
Definition ERROR_INVALID_HANDLE : Z := 6.

(** What of [Life.Toy] a call changes. *)
Definition plainly {A} (c : Call A) (w : world) : A * world :=
  let '(a, s) := Life.Toy.ask None c (win w) in (a, with_win s w).

(** A listener's end nobody is connected to, and whether there is any. *)
Definition instances (path : list Z) (w : world) : list (Z * End) :=
  List.filter (fun e => serves e.2 && bool_decide (named e.2 = path)) (map_to_list (ends w)).
Definition free_instance (path : list Z) (w : world) : option Z :=
  fst <$> head (List.filter (fun e => bool_decide (peer e.2 = None)) (instances path w)).

(** An end made, of the handle [Life.Toy] gives. *)
Definition make (e : End) (c : Call (result Z Z)) (w : world) : result Z Z * world :=
  let '(r, w) := plainly c w in
  (r, match r with Ok h => with_ends <[h := e]> w | Err _ => w end).

Definition open (path : list Z) (c : Call (result Z Z)) (w : world) : result Z Z * world :=
  match free_instance path w with
  | Some server =>
      let '(r, w) := make (mkEnd path false (Some server) [] false) c w in
      (r, match r with Ok h => with_ends (alter (met h) server) w | Err _ => w end)
  | None => (Err match instances path w with [] => ERROR_FILE_NOT_FOUND | _ => PipeClient.ERROR_PIPE_BUSY end, w)
  end.

Definition peer_of (h : Z) (w : world) : option Z := e ← ends w !! h; peer e.

(** An operation in flight has ended. *)
Definition landed (o : Z) (f : Flight) (w : world) : bool :=
  bool_decide (o ∈ cancelled w)
  || match ends w !! on f with
     | Some e => if reads f then negb (bool_decide (inbox e = [])) || hung_up e else bool_decide (peer e <> None)
     | None => true
     end.

(** What an operation that ended comes to. *)
Definition land (o : Z) (f : Flight) (w : world) : (result Z Z * bytes) * world :=
  match ends w !! on f with
  | Some e =>
      if reads f then
        match inbox e with
        | [] => ((Err (if hung_up e then Pipe.ERROR_BROKEN_PIPE else Pipe.ERROR_OPERATION_ABORTED), []), w)
        | inbox => let got := ztake (most f) inbox in ((Ok (len got), got), with_ends (alter (with_inbox (zdrop (most f))) (on f)) w)
        end
      else match peer e with
           | Some _ => ((Ok (most f), []), w)
           | None => ((Err Pipe.ERROR_OPERATION_ABORTED, []), w)
           end
  | None => ((Err ERROR_INVALID_HANDLE, []), w)
  end.

Section ask.
(** What the other threads do while one waits. *)
Context (elsewhere : world -> world).

(** Until the operation [o] has ended, or the others have done what they do. *)
Definition waiting (o : Z) (f : Flight) (w : world) : world := if landed o f w then w else elsewhere w.

Definition waited_for (event milliseconds : Z) (w : world) : bool * world :=
  match List.filter (fun f => bool_decide (signals f.2 = event)) (map_to_list (flying (win w))) with
  | (o, f) :: _ =>
      let w := waiting o f w in
      if landed o f w then (true, w) else (false, mkWorld (win w) (ends w) (cancelled w) (elapsed w + milliseconds * 1000000))
  | [] => (false, w)
  end.

Definition ask {A} (c : Call A) : world -> A * world :=
  match c in Call A return world -> A * world with
  | CreateNamedPipe path open mode most out_ in_ descriptor =>
      make (mkEnd path true None [] false) (CreateNamedPipe path open mode most out_ in_ descriptor)
  | CreateFile path access share disposition flags => open path (CreateFile path access share disposition flags)
  | ConnectNamedPipe pipe o => fun w =>
      match ends w !! pipe with
      | Some e =>
          if peer e is Some _ then (Some (if hung_up e then Instance.ERROR_NO_DATA else Instance.ERROR_PIPE_CONNECTED), w)
          else plainly (ConnectNamedPipe pipe o) w
      | None => (Some ERROR_INVALID_HANDLE, w)
      end
  | WriteFile pipe buffer length o => fun w =>
      match peer_of pipe w ≫= (fun other => ends w !! other) with
      | Some _ =>
          plainly (WriteFile pipe buffer length o)
            (with_ends (alter (with_inbox (fun inbox => inbox ++ ztake length buffer)) (default 0 (peer_of pipe w))) w)
      | None => (Some Instance.ERROR_NO_DATA, w)
      end
  | CancelIoEx pipe o => fun w => (tt, mkWorld (win w) (ends w) ({[o]} ∪ cancelled w) (elapsed w))
  | CancelAllIo pipe => fun w =>
      (tt, mkWorld (win w) (ends w)
             (list_to_set (fst <$> List.filter (fun f => bool_decide (on f.2 = pipe)) (map_to_list (flying (win w)))) ∪ cancelled w)
             (elapsed w))
  | CloseHandle handle => fun w =>
      let other := peer_of handle w in
      let '(r, w) := plainly (CloseHandle handle) w in
      (r, with_ends (fun ends => let ends := delete handle ends in
                                 match other with Some other => alter gone other ends | None => ends end) w)
  | WaitForSingleObject event milliseconds => waited_for event milliseconds
  | GetOverlappedResult pipe o => fun w =>
      match flying (win w) !! o with
      | Some f =>
          let w := waiting o f w in
          let '(r, w) := land o f w in
          (r, mkWorld (with_flying (delete o) (win w)) (ends w) (cancelled w ∖ {[o]}) (elapsed w))
      | None => ((Err ERROR_INVALID_HANDLE, []), w)
      end
  | LookupAccountName name sid domain => fun w =>
      if bool_decide (name = lit "PLANT\xmip" ++ [0]) then plainly (LookupAccountName name sid domain) w
      else (mkFound (Some ERROR_NONE_MAPPED) 0 0 [] [], w)
  | Now => fun w => (elapsed w, w)
  | c => plainly c
  end.

Definition machine : Machine := mkMachine world (@ask).
End ask.

(** A program run while the others do nothing, and while they run another. *)
Definition alone {A} (p : prog A) (w : world) : A * world := run (machine id) p w.
Definition beside {A B} (other : prog B) (p : prog A) (w : world) : A * world := run (machine (fun w => (alone other w).2)) p w.

End Host.

Module PipeTests.
Import Support Host.

Definition ms (n : Z) : Duration := n * 1000000.
Definition kind_of (e : Failed) : ErrorKind := io_kind (io_error_of e).

(** A path of its own for each test. *)
Definition fresh (name : string) : list Z := PipePath.path_of true [] (lit "xmip-net-" ++ lit name ++ lit "-42-1").

(** [read_to_end]. *)
Fixpoint read_to_end (turns : nat) (self : WinPipe.Stream) : prog (option bytes) :=
  match turns with
  | O => Ret None
  | S turns =>
      got <~~ WinPipe.read self 32 ;;
      match got with
      | (Ok [], _) => Ret (Some [])
      | (Ok bs, self) => more <~~ read_to_end turns self ;; Ret (match more with Some more => Some (bs ++ more) | None => None end)
      | (Err _, _) => Ret None
      end
  end.

(** [expect]: what follows, where there is something. *)
Definition expect {E A} (r : result E A) (k : A -> prog bool) : prog bool := match r with Ok a => k a | Err _ => Ret false end.
Definition connected (r : option (result Failed WinPipe.Stream)) (k : WinPipe.Stream -> prog bool) : prog bool :=
  match r with Some r => expect r k | None => Ret false end.

(** A writer's thread: it connects, writes and is gone. *)
Definition writer (path : list Z) (bs : bytes) : prog bool :=
  opened <~~ WinPipe.connect 3 path (Some (ms 5000)) ;;
  connected opened (fun stream =>
    wrote <~~ WinPipe.write stream bs ;;
    _ <~~ WinPipe.drop_stream stream ;;
    Ret (gives wrote (len bs))).

(** An accept that ran out: when it was given up, and with what kind. *)
Fixpoint nobody_comes (rounds : nat) (listener : WinPipe.Listener) (k : WinPipe.Listener -> prog bool) : prog bool :=
  match rounds with
  | O => k listener
  | S rounds =>
      began <~~ call Now ;;
      accepted <~~ WinPipe.accept listener (Some (ms 50)) ;;
      ended <~~ call Now ;;
      match accepted with
      | (Err error, listener) =>
          if bool_decide (kind_of error = TimedOut) && bool_decide (ms 45 <= ended - began)
          then nobody_comes rounds listener k else Ret false
      | (Ok _, _) => Ret false
      end
  end.

Definition an_accept_never_returns_without_a_client : bool :=
  let path := fresh "nobody" in
  match alone (WinPipe.bind path []) nothing with
  | (Ok listener, w) =>
      let '(nobody, w) := alone (nobody_comes 3 listener (fun _ => Ret true)) w in
      (* The pipe still listens after its waits ran out. *)
      match beside (writer path (lit "late")) (WinPipe.accept listener (Some (ms 5000))) w with
      | ((Ok stream, _), w) => nobody && bool_decide ((alone (read_to_end 9 stream) w).1 = Some (lit "late"))
      | _ => false
      end
  | _ => false
  end.

Fixpoint rounds_of_one (rounds : nat) (path : list Z) (listener : WinPipe.Listener) (w : world) : bool :=
  match rounds with
  | O => true
  | S rounds =>
      let bs := replicate 3 (Z.of_nat rounds) in
      let '(accepted, w) := beside (writer path bs) (WinPipe.accept listener (Some (ms 5000))) w in
      match accepted with
      | (Ok stream, listener) =>
          let '(read, w) := alone (read_to_end 9 stream) w in
          let '((second, listener), w) := alone (WinPipe.accept listener (Some (ms 30))) w in
          let w := (alone (WinPipe.drop_stream stream) w).2 in
          bool_decide (read = Some bs) && is_err second && rounds_of_one rounds path listener w
      | (Err _, _) => false
      end
  end.

Definition one_client_is_exactly_one_connection : bool :=
  let path := fresh "one" in
  match alone (WinPipe.bind path []) nothing with
  | (Ok listener, w) => rounds_of_one 20 path listener w
  | _ => false
  end.

Definition a_client_that_closes_before_the_accept_is_one_empty_connection : bool :=
  let path := fresh "gone" in
  (alone (
    made <~~ WinPipe.bind path [] ;;
    expect made (fun listener =>
      opened <~~ WinPipe.connect 3 path (Some (ms 5000)) ;;
      connected opened (fun client =>
        _ <~~ WinPipe.drop_stream client ;;
        accepted <~~ WinPipe.accept listener (Some (ms 5000)) ;;
        expect accepted.1 (fun stream =>
          read <~~ read_to_end 9 stream ;;
          second <~~ WinPipe.accept accepted.2 (Some (ms 30)) ;;
          Ret (bool_decide (read = Some []) && is_err second.1))))) nothing).1.

Definition nothing_made_there_cannot_be_connected_to : bool :=
  match (alone (WinPipe.connect 3 (fresh "unmade") (Some (ms 50))) nothing).1 with
  | Some (Err error) => bool_decide (kind_of error = WinPipe.NotFound)
  | _ => false
  end.

Definition a_caller_lends_its_account_for_identification_alone : bool :=
  let path := fresh "lent" in
  (alone (
    made <~~ WinPipe.bind path [] ;;
    expect made (fun listener =>
      (* The client's thread, until it reads. *)
      opened <~~ WinPipe.connect 3 path (Some (ms 5000)) ;;
      connected opened (fun stream =>
        lent_there <~~ WinPipe.lent stream ;;
        wrote <~~ WinPipe.write stream (lit "x") ;;
        (* This one. *)
        accepted <~~ WinPipe.accept listener None ;;
        expect accepted.1 (fun served =>
          lent <~~ WinPipe.lent served ;;
          expect lent.1 (fun '(_, level) =>
            caller <~~ WinPipe.caller lent.2 ∅ ;;
            let '(caller, served, _) := caller in
            expect caller (fun caller =>
              own <~~ WinPipe.running_as ;;
              process <~~ WinPipe.peer_process served ;;
              first <~~ WinPipe.read served 1 ;;
              answered <~~ WinPipe.write first.2 (lit "y") ;;
              back <~~ WinPipe.read stream 1 ;;
              Ret (all [
                is_err lent_there.1;
                gives wrote 1;
                bool_decide (level = Account.IDENTIFICATION);
                holds (lit "\") caller;
                gives own caller;
                bool_decide (process = Some 42);
                gives first.1 (lit "x");
                gives answered 1;
                gives back.1 (lit "y")]))))))) nothing).1.

Definition an_admitted_account_may_read_and_write_and_a_name_nobody_has_is_refused : bool :=
  match (alone (WinPipe.openers [lit "PLANT\xmip"]) nothing).1, (alone (WinPipe.openers []) nothing).1,
        (alone (WinPipe.openers [lit "XMIP-NO-SUCH\nobody-at-all"]) nothing).1 with
  | Ok sddl, Ok always, Err nobody =>
      match strip_prefix always sddl with
      | Some admitted => all [
          starts_with (lit "(A;;0x12008b;;;S-1-") admitted;
          bool_decide (last admitted = Some 41) && (count_of (lit "(") admitted =? 1)%nat;
          holds (lit "knows no account or group") nobody]
      | None => false
      end
  | _, _, _ => false
  end.

Definition a_read_waiting_on_its_peer_is_ended_by_its_cancel : bool :=
  let path := fresh "cancel" in
  let '(served, w) := alone (
    made <~~ WinPipe.bind path [] ;;
    match made with
    | Ok listener =>
        _ <~~ WinPipe.connect 3 path (Some (ms 5000)) ;;
        accepted <~~ WinPipe.accept listener None ;;
        Ret accepted.1
    | Err error => Ret (Err error)
    end) nothing in
  match served with
  | Ok served => is_err (beside (WinPipe.cancel_cancel (WinPipe.cancel served)) (WinPipe.read served 1) w).1.1
  | Err _ => false
  end.

Lemma pipe_tests_hold :
  an_accept_never_returns_without_a_client = true
  /\ one_client_is_exactly_one_connection = true
  /\ a_client_that_closes_before_the_accept_is_one_empty_connection = true
  /\ nothing_made_there_cannot_be_connected_to = true
  /\ a_caller_lends_its_account_for_identification_alone = true
  /\ an_admitted_account_may_read_and_write_and_a_name_nobody_has_is_refused = true
  /\ a_read_waiting_on_its_peer_is_ended_by_its_cancel = true.
Proof. split_and!; vm_compute; reflexivity. Qed.
End PipeTests.
