(* ===== verification/WireTests.v ===== *)
(** The tests of what reads and writes frames, lines and heads, run on the
    model, each under its file's name. *)

From Stdlib Require Import String.
From stdpp Require Import gmap strings.
From S2P Require Import Prelude Text Errors Wire Reading Head Framing Http Http1 Links TestSupport.
Import Support.

(** What is left to read: read ahead, then to come. *)
Definition remaining (r : Reader) : bytes :=
  buffer r ++ concat (map (fun a => match a with Got bs => bs | Wire.Failed _ => [] end) (incoming (inner r))).

(** [src/frame.rs]. *)
Module FrameTests.

Definition a_frame_crosses_as_it_was_and_a_close_between_frames_is_none : bool :=
  let sent := written (Frame.write (lit "one") ;;; Frame.write []) in
  gives ((first <~ Frame.read ;; second <~ Frame.read ;; third <~ Frame.read ;; mret (first, second, third)) (wire sent)).1
    (Some (lit "one"), Some [], None).

Definition a_frame_cut_short_or_claiming_too_much_is_refused : bool :=
  let sent := written (Frame.write (lit "whole")) in
  match (Frame.read (wire (take (length sent - 1) sent))).1 with
  | Err cut => bool_decide (io cut = Some UnexpectedEof)
  | Ok _ => false
  end
  && saying (Frame.read (wire (be_bytes32 U32_MAX))).1 (lit "Xmip carries in one frame").

(** [src/grpc.rs]. *)
Definition a_message_round_trips_through_its_frame : bool :=
  match Grpc.frame (lit "{}") with
  | Ok framed => bool_decide (framed = [0; 0; 0; 0; 2] ++ lit "{}") && gives (Grpc.unframe framed) (lit "{}", false)
  | Err _ => false
  end.

Definition a_short_body_is_refused_in_words : bool :=
  is_err (Grpc.unframe [0; 0]) && is_err (Grpc.unframe ([0; 0; 0; 0; 9] ++ lit "{}")).

Definition a_status_is_read_by_its_name_or_its_number : bool :=
  forallb (fun '(name, code) => Grpc.code (lit name) =? code)
    [("OK"%string, 0); ("UNIMPLEMENTED"%string, 12); ("14"%string, 14); ("no such status"%string, 2)].

(** [src/reply.rs]. *)
Definition reply (line : string) : result NetError (Z * bool) := Reply.code (NetErr.new []) (lit line).

Definition a_reply_code_opens_a_reply_line_and_says_whether_it_continues : bool :=
  all [gives (reply "220 ready") (220, false); gives (reply "250-first") (250, true); gives (reply "354") (354, false)].

Definition what_is_not_a_reply_code_is_refused : bool :=
  forallb (fun line => is_err (reply line))
    [EmptyString; "22"; "hello"; "999 no"; "099 no"; "+12 no"; "2200 no"; "22x ok"]%string.

(** [src/ceiling.rs]. *)
Definition a_size_at_the_ceiling_fits_and_one_byte_over_is_refused_permanently : bool :=
  gives (within 8 8 (lit "one test frame carries")) tt
  && match within 9 8 (lit "one test frame carries") with
     | Err error => bool_decide (message error = lit "9 bytes is over the 8 one test frame carries") && bool_decide (io error = None)
     | Ok _ => false
     end.

Lemma frame_tests_hold :
  a_frame_crosses_as_it_was_and_a_close_between_frames_is_none = true
  /\ a_frame_cut_short_or_claiming_too_much_is_refused = true
  /\ a_message_round_trips_through_its_frame = true /\ a_short_body_is_refused_in_words = true
  /\ a_status_is_read_by_its_name_or_its_number = true
  /\ a_reply_code_opens_a_reply_line_and_says_whether_it_continues = true
  /\ what_is_not_a_reply_code_is_refused = true
  /\ a_size_at_the_ceiling_fits_and_one_byte_over_is_refused_permanently = true.
Proof. split_and!; vm_compute; reflexivity. Qed.
End FrameTests.

(** [src/head.rs]. *)
Module HeadTests.

Definition a_header_is_found_however_the_peer_capitalized_it : bool :=
  bool_decide (Head.header [lit "POST /orders HTTP/1.1"; lit "content-length: 8"] (lit "Content-Length") = Some (lit "8")).

Definition the_request_line_is_not_a_header : bool :=
  bool_decide (Head.header [lit "GET http://x/y HTTP/1.1"] (lit "http") = None).

Definition fields_are_written_as_they_are_read : bool :=
  let fields := [(lit "Host", lit "x"); (lit "EXT", [])] in
  let head := Head.write_fields (raw "NOTIFY * HTTP/1.1^") fields in
  bool_decide (head = raw "NOTIFY * HTTP/1.1^Host: x^EXT: ^")
  && match (Head.read_head (reader (head ++ raw "^"))).1 with
     | Ok read => bool_decide (Head.fields (drop 1 read) = fields)
     | Err _ => false
     end
  && bool_decide (Head.fields [lit "no colon"] = []).

Definition a_head_ends_at_the_blank_line : bool :=
  match Head.read_head (reader (raw "POST / HTTP/1.1^Host: x^^body")) with
  | (Ok head, reader) => (len head =? 2) && bool_decide (remaining reader = lit "body")
  | _ => false
  end.

Definition more_headers_than_xmip_will_read_is_refused : bool :=
  let lines := map (fun n => raw "X-" ++ dec (Z.of_nat n) ++ raw ": v^") (seq 0 (S (Z.to_nat Head.MAX_HEADERS))) in
  not_io (Head.read_head (reader (raw "POST / HTTP/1.1^" ++ concat lines ++ raw "^"))).1.

Lemma head_tests_hold :
  a_header_is_found_however_the_peer_capitalized_it = true /\ the_request_line_is_not_a_header = true
  /\ fields_are_written_as_they_are_read = true /\ a_head_ends_at_the_blank_line = true
  /\ more_headers_than_xmip_will_read_is_refused = true.
Proof. split_and!; vm_compute; reflexivity. Qed.
End HeadTests.

(** [src/read.rs]. *)
Module ReadTests.

Definition one_line_ending_comes_off_and_only_one : bool :=
  forallb (fun '(line, off) => bool_decide (Read.trim_eol line = off))
    [(raw "line^", lit "line"); (lit "line" ++ [10], lit "line"); (lit "line", lit "line");
     (lit "line" ++ [10; 10], lit "line" ++ [10])].

Definition lines_read_until_the_connection_ends : bool :=
  let four := (one <~ Read.line ;; two <~ Read.line ;; three <~ Read.line ;; ended <~ Read.line ;; mret [one; two; three; ended]) in
  gives (four (reader (raw "one^two" ++ [10] ++ lit "three"))).1 [Some (lit "one"); Some (lit "two"); Some (lit "three"); None].

Definition a_line_that_never_ends_is_refused_at_the_ceiling : bool :=
  not_io (Read.line (reader (repeat 97 (Z.to_nat (Read.MAX_LINE + 1))))).1
  && match (Read.line (reader (repeat 97 (Z.to_nat (Read.MAX_LINE - 1)) ++ [10]))).1 with
     | Ok (Some line) => len line =? Read.MAX_LINE - 1
     | _ => false
     end.

Definition a_line_that_is_not_utf8_is_refused_not_repaired : bool :=
  is_err (Read.line (reader (lit "caf" ++ [0xe9] ++ raw "^"))).1.

(** What a refusal leaves in the buffer it was given is not kept by the
    model, and not asked of it here. *)
Definition until_appends_up_to_its_delimiter_and_no_further : bool :=
  match Read.until 0 64 (lit "so far ") (reader (lit "body" ++ [0] ++ lit "next")) with
  | (Ok (n, into), reader) =>
      (n =? 5) && bool_decide (into = lit "so far body" ++ [0]) && bool_decide (remaining reader = lit "next")
  | _ => false
  end
  && match (Read.until 0 4 [] (reader (lit "0123456789"))).1 with Err (_, small) => bool_decide (small = []) | Ok _ => false end.

Definition a_header_is_whole_or_nothing_at_a_clean_close_and_cut_short_is_refused : bool :=
  let header n := Framing.header n in
  gives ((first <~ header 2%nat (lit "a") ;; second <~ header 2%nat (lit "a") ;; closed <~ header 2%nat (lit "a") ;;
          mret [first; second; closed]) (wire (lit "abcd"))).1 [Some (lit "ab"); Some (lit "cd"); None]
  && match (header 4%nat (lit "a frame header") (wire (lit "ab"))).1 with
     | Err failure => bool_decide (io failure = Some UnexpectedEof) && starts_with (lit "reading a frame header") (message failure)
     | Ok _ => false
     end.

Definition to_end_reads_the_whole_connection_up_to_its_ceiling : bool :=
  gives (Read.to_end 5 (reader (lit "whole"))).1 (lit "whole") && not_io (Read.to_end 5 (reader (lit "whole!"))).1.

Lemma read_tests_hold :
  one_line_ending_comes_off_and_only_one = true /\ lines_read_until_the_connection_ends = true
  /\ a_line_that_never_ends_is_refused_at_the_ceiling = true /\ a_line_that_is_not_utf8_is_refused_not_repaired = true
  /\ until_appends_up_to_its_delimiter_and_no_further = true
  /\ a_header_is_whole_or_nothing_at_a_clean_close_and_cut_short_is_refused = true
  /\ to_end_reads_the_whole_connection_up_to_its_ceiling = true.
Proof. split_and!; vm_compute; reflexivity. Qed.
End ReadTests.

(** [src/watched.rs]. *)
Module WatchedTests.

(** A reader that times out [waits] times, then gives [bytes]. *)
Definition slow (waits : nat) (bs : bytes) : Wire := mkWire (replicate waits (Wire.Failed Watched.would_block) ++ [Got bs]) [] [].

Definition a_read_that_waited_is_tried_again_and_loses_nothing : bool :=
  gives (Watched.read 8 (Watched.new (slow 3 (lit "abc")) (fun _ => false) (fun _ => 0))).1 (lit "abc").

Definition ended_as (kind : ErrorKind) (s : Watched) : bool :=
  match (Watched.read 8 s).1 with Err e => bool_decide (io_kind e = kind) | Ok _ => false end.

(** The clock is at zero throughout, and the silent peer last heard a moment
    before. *)
Definition an_ending_side_stops_waiting_and_a_silent_peer_is_said_so : bool :=
  let ending := Watched.new (slow 9 []) (fun asked => (2 <? S asked)%nat) (fun _ => 0) in
  let silent := mkWatched (slow 9 []) (fun _ => false) 0 (Some 0) (-1000000) (fun _ => 0) 0 in
  ended_as ConnectionAborted ending && ended_as TimedOut silent.

Lemma watched_tests_hold :
  a_read_that_waited_is_tried_again_and_loses_nothing = true
  /\ an_ending_side_stops_waiting_and_a_silent_peer_is_said_so = true.
Proof. split_and!; vm_compute; reflexivity. Qed.
End WatchedTests.
