(* ===== verification/H2UnitTests.v ===== *)
(** The tests of HTTP/2's parts, run on the model, each under its file's
    name. *)

From Stdlib Require Import String.
From stdpp Require Import gmap strings.
From S2P Require Import Prelude Text Errors Wire HpackInteger HuffmanCode Huffman HpackLiteral HpackTable Hpack HpackVectors.
From S2P Require Import H2Frame H2Settings H2Stream Http Http1 H2Message H2Preface TestSupport.
Import Support.

(** [src/http2/frame.rs]. *)
Module FrameUnitTests.

Definition read_as (wire_ : bytes) (max : Z) : result ReadFailure (option frame) := (H2.read max (wire wire_)).1.

Definition the_header_is_length_type_flags_and_a_31_bit_stream : bool :=
  let frame := mkFrame Headers (Z.lor END_HEADERS END_STREAM) 3 (lit "abc") in
  let sent := H2.encode frame in
  bool_decide (sent = [0; 0; 3; 1; 5; 0; 0; 0; 3; 97; 98; 99])
  && gives (read_as sent DEFAULT_MAX_FRAME_SIZE) (Some frame)
  && match read_as [0; 0; 0; 4; 0; 0x80; 0; 0; 0] 16384 with
     | Ok (Some back) => bool_decide (kind back = Settings) && (stream back =? 0)
     | _ => false
     end
  && gives (read_as [] 16384) None
  && match read_as (take 4 sent) 16384 with Err (Net _) => true | _ => false end.

Definition a_frame_over_the_maximum_is_a_frame_size_error : bool :=
  let sent := H2.encode (mkFrame Data 0 1 (repeat 0 (Z.to_nat 16385))) in
  match read_as sent DEFAULT_MAX_FRAME_SIZE with
  | Err (Breached violation) => bool_decide (v_code violation = FrameSize)
  | _ => false
  end
  && negb (is_err (read_as sent 16385)).

Definition is_unknown (k : Kind) : bool := match k with Unknown _ => true | _ => false end.

Definition every_type_of_section_6_has_its_number : bool :=
  forallb (fun code => (KindCode.code (KindCode.of_code code) =? code) && negb (is_unknown (KindCode.of_code code)))
    (seqZ 0 10)
  && bool_decide (KindCode.of_code 0xb = Unknown 0xb).

Definition the_control_frames_have_the_layouts_of_section_6 : bool :=
  let goaway := H2.goaway 7 Protocol (lit "x") in
  all [
    bool_decide (H2.encode (H2.reset 5 Cancel) = [0; 0; 4; 3; 0; 0; 0; 0; 5; 0; 0; 0; 8]);
    bool_decide (take 9 (H2.encode (H2.ping (lit "12345678") true)) = [0; 0; 8; 6; 1; 0; 0; 0; 0]);
    bool_decide (H2.encode goaway = [0; 0; 9; 7; 0; 0; 0; 0; 0; 0; 0; 0; 7; 0; 0; 0; 1; 120]);
    bool_decide (H2.word goaway 0 = Some 7); bool_decide (H2.word goaway 4 = Some 1);
    bool_decide (H2.encode (H2.window_update 0 1024) = [0; 0; 4; 8; 0; 0; 0; 0; 0; 0; 0; 4; 0])].

Definition padding_and_priority_are_taken_off_what_they_surround : bool :=
  all [
    gives (H2.content (mkFrame Data PADDED 1 [2; 104; 105; 0; 0])) (lit "hi");
    gives (H2.content (mkFrame Headers (Z.lor PADDED PRIORITY) 5 [1; 0x80; 0; 0; 3; 16; 0x82; 0])) [0x82];
    breached (H2.content (mkFrame Data PADDED 1 [9; 104])) Protocol;
    breached (H2.content (mkFrame Data PADDED 1 [])) FrameSize].

(** [src/http2/error.rs]. *)
Definition every_code_of_section_7_reads_back_as_itself : bool :=
  forallb (fun code => (ErrCode.code (ErrCode.of_code code) =? code)
      && match ErrCode.of_code code with UnknownCode _ => false | _ => true end) (seqZ 0 14)
  && bool_decide (ErrCode.of_code 0x42 = UnknownCode 0x42)
  && holds (lit "FrameSize (0x6)") (message (NetError_of (Viol.frame_size (lit "a PING of 7 octets")))).

Lemma frame_unit_tests_hold :
  the_header_is_length_type_flags_and_a_31_bit_stream = true /\ a_frame_over_the_maximum_is_a_frame_size_error = true
  /\ every_type_of_section_6_has_its_number = true /\ the_control_frames_have_the_layouts_of_section_6 = true
  /\ padding_and_priority_are_taken_off_what_they_surround = true /\ every_code_of_section_7_reads_back_as_itself = true.
Proof. split_and!; vm_compute; reflexivity. Qed.
End FrameUnitTests.

(** [src/http2/window.rs], [src/http2/settings.rs] and
    [src/http2/stream.rs]. *)
Module StateTests.

Definition after (w : result Violation Window.t) (available : Z) : bool :=
  match w with Ok w => Window.available w =? available | Err _ => false end.

Definition a_window_is_taken_given_back_and_never_overrun : bool :=
  match Window.take (Window.new 10) 10 with
  | Ok window =>
      (Window.available window =? 0) && breached (Window.take window 1) FlowControl
      && after (Window.grant window 4) 4
      && breached (let? window := Window.grant window 4 in Window.grant window 0) Protocol
  | Err _ => false
  end
  && breached (Window.grant (Window.new MAX_STREAM_ID) 1) FlowControl.

Definition a_smaller_initial_window_can_take_a_stream_below_zero : bool :=
  let shifted := (let? window := Window.take (Window.new 100) 80 in Window.shift window (-50)) in
  after shifted 0 && after (let? window := shifted in Window.grant window 40) 10.

Definition a_parameter_is_a_16_bit_identifier_and_a_32_bit_value : bool :=
  let ours := Settings.encode Settings.ours in
  bool_decide (ours = [0; 2; 0; 0; 0; 0; 0; 3; 0; 0; 0; 100; 0; 6; 0; 1; 0; 0])
  && bool_decide (Settings.apply ours false Settings.default = (Ok tt, Settings.ours))
  && bool_decide (Settings.encode Settings.default = []).

Definition an_unknown_identifier_is_ignored_and_a_bad_value_refused : bool :=
  bool_decide (Settings.apply [0; 0x9; 0; 0; 0; 1] true Settings.default = (Ok tt, Settings.default))
  && forallb (fun '(payload, code, client) => breached (Settings.apply payload client Settings.default).1 code)
       [([0; 2; 0; 0; 0; 2], Protocol, false); ([0; 2; 0; 0; 0; 1], Protocol, true);
        ([0; 4; 0x80; 0; 0; 0], FlowControl, false); ([0; 5; 0; 0; 0x3f; 0xff], Protocol, false);
        ([0; 5; 0x01; 0; 0; 0], Protocol, false); ([0; 4; 0; 0; 0], FrameSize, false)]
  && match Settings.apply [0; 5; 0; 0xff; 0xff; 0xff] false Settings.default with
     | (Ok _, largest) => Settings.max_frame_size largest =? MAX_FRAME_SIZE_LIMIT
     | _ => false
     end.

Definition a_stream_closes_when_both_sides_have_ended_it : bool :=
  all [
    bool_decide (State.ended_locally Open = HalfClosedLocal);
    bool_decide (State.ended_remotely Open = HalfClosedRemote);
    bool_decide (State.ended_remotely (State.ended_locally Open) = Closed);
    bool_decide (State.ended_locally (State.ended_remotely Open) = Closed);
    State.receiving HalfClosedLocal; negb (State.sending HalfClosedLocal);
    State.sending HalfClosedRemote; negb (State.receiving HalfClosedRemote);
    negb (State.sending Closed); negb (State.receiving Closed)].

Definition a_1xx_is_passed_over_the_head_kept_and_trailers_end_the_stream : bool :=
  let fields n v := [(lit n, lit v)] in
  match Stream.headers (fields ":status" "100")%string false (Stream.new 10 10) with
  | (Ok _, stream) =>
      bool_decide (Stream.head stream = None)
      && match Stream.headers (fields ":status" "200")%string false stream with
         | (Ok _, stream) =>
             let '(middle, stream) := Stream.headers (fields "x" "1")%string false stream in
             breached middle Protocol
             && match Stream.headers (fields "grpc-status" "0")%string true stream with
                | (Ok _, stream) =>
                    bool_decide (Stream.trailers stream = fields "grpc-status" "0")%string && Stream.finished stream
                    && breached (Stream.headers (fields "x" "1")%string true stream).1 StreamClosed
                | _ => false
                end
         | _ => false
         end
  | _ => false
  end.

Lemma state_tests_hold :
  a_window_is_taken_given_back_and_never_overrun = true /\ a_smaller_initial_window_can_take_a_stream_below_zero = true
  /\ a_parameter_is_a_16_bit_identifier_and_a_32_bit_value = true
  /\ an_unknown_identifier_is_ignored_and_a_bad_value_refused = true
  /\ a_stream_closes_when_both_sides_have_ended_it = true
  /\ a_1xx_is_passed_over_the_head_kept_and_trailers_end_the_stream = true.
Proof. split_and!; vm_compute; reflexivity. Qed.
End StateTests.

(** [src/http2/message.rs] and [src/http2/preface.rs]. *)
Module MessageTests.

Definition texts (pairs : list (string * string)) : list field := map (fun p => (lit p.1, lit p.2)) pairs.

Definition a_request_travels_as_pseudo_fields_then_its_own_in_lowercase : bool :=
  let request := Request.header (lit "TE") (lit "trailers") (Request.header (lit "Connection") (lit "keep-alive")
    (Request.header (lit "Content-Type") (lit "application/grpc") (Request.header (lit "Host") (lit "example:50051")
      (Request.with_query (lit "a") (lit "b c") (Request.new (lit "POST") (lit "/orders.OrderService/Get")))))) in
  let head := Message.request_fields (lit "https") request in
  bool_decide (head = texts
    [(":method", "POST"); (":scheme", "https"); (":authority", "example:50051");
     (":path", "/orders.OrderService/Get?a=b%20c"); ("content-type", "application/grpc"); ("te", "trailers")]%string)
  && gives (Message.check head 4096) tt
  && match Message.request_of head [] with
     | Ok back => bool_decide (path back = lit "/orders.OrderService/Get")
         && bool_decide (Request.query_value back (lit "a") = Some (lit "b c"))
         && bool_decide (Request.header_value back (lit "host") = Some (lit "example:50051"))
     | Err _ => false
     end.

Definition a_malformed_head_is_refused : bool :=
  all [
    is_err (Message.check (texts [("Upper", "x")]%string) 4096);
    is_err (Message.check (texts [("a", "1"); (":path", "/")]%string) 4096);
    is_err (Message.check (texts [("a", "1")]%string) 10);
    is_err (Message.request_of (texts [(":method", "GET")]%string) []);
    is_err (Message.request_of (texts [(":method", "GET"); (":scheme", "http"); (":path", "/"); (":status", "200")]%string) []);
    is_err (Message.request_of (texts [(":method", "PUT"); (":scheme", "http"); (":path", "/"); ("content-length", "3")]%string)
      (lit "ab"));
    is_err (Message.response_of (texts [(":status", "2000")]%string) [] []);
    match Message.response_of (texts [(":status", "404")]%string) [] [] with
    | Ok answer => bool_decide (phrase answer = lit "Not Found")
    | Err _ => false
    end].

(** [read_to_end] of what is read again. *)
Definition again (first : bytes) (rest : Wire) : bytes :=
  let r := Preface.as_wire (Preface.replay first rest) in
  concat (map (fun a => match a with Got bs => bs | Wire.Failed _ => [] end) (incoming r)).

Definition the_preface_is_told_from_a_request_line_and_both_are_read_again : bool :=
  let sent := Preface.PREFACE ++ [0; 0; 0; 4] in
  let request := raw "GET / HTTP/1.1^^" in
  all [
    match Preface.sniff (wire sent) with
    | (Ok (h2, first), rest) => h2 && bool_decide (again first rest = sent)
    | _ => false
    end;
    match Preface.sniff (wire request) with
    | (Ok (h2, first), rest) =>
        negb h2 && negb (bool_decide (first = [])) && Text.starts_with first request && bool_decide (again first rest = request)
    | _ => false
    end;
    gives (Preface.sniff (wire (lit "PRI * HTTP/1.1"))).1 (false, lit "PRI * HTTP/1.1");
    is_err (Preface.sniff (wire [])).1].

Lemma message_tests_hold :
  a_request_travels_as_pseudo_fields_then_its_own_in_lowercase = true /\ a_malformed_head_is_refused = true
  /\ the_preface_is_told_from_a_request_line_and_both_are_read_again = true.
Proof. split_and!; vm_compute; reflexivity. Qed.
End MessageTests.

(** [src/http2/hpack/]: [encoder.rs], [decoder.rs], [table.rs],
    [integer.rs], [huffman.rs] and [literal.rs]. *)
Module HpackUnitTests.

Definition a_smaller_table_is_announced_once_at_the_start_of_the_next_block : bool :=
  let field := [(lit "x-a", lit "1")] in
  let '(first, encoder) := Encoder.encode (Encoder.new 4096 false) field in
  let '(read_first, decoder) := Decoder.decode first (Decoder.new 4096) in
  let '(second, encoder) := Encoder.encode (Encoder.resize encoder 0) field in
  let '(read_second, decoder) := Decoder.decode second decoder in
  all [negb (is_err read_first); bool_decide (head second = Some 0x20); gives read_second field;
       Table.size (Decoder.table decoder) =? 0;
       negb (bool_decide (head (Encoder.encode encoder field).1 = Some 0x20))].

Definition a_size_update_goes_first_and_stays_under_the_limit : bool :=
  let '(first, decoder) := Decoder.decode [0x3f; 0xe1; 0x1f; 0x82] (Decoder.new 4096) in
  let '(second, decoder) := Decoder.decode [0x20] decoder in
  let bound := Table.max_size (Decoder.table decoder) =? 0 in
  let '(third, decoder) := Decoder.decode [0x82; 0x20] decoder in
  let '(fourth, decoder) := Decoder.decode [0x3f; 0xe2; 0x1f] decoder in
  let '(fifth, decoder) := Decoder.decode [0x80] decoder in
  let '(sixth, _) := Decoder.decode [0xbe] decoder in
  all [negb (is_err first); negb (is_err second); bound; is_err third; is_err fourth; is_err fifth; is_err sixth].

Definition the_static_table_is_appendix_a_and_the_dynamic_follows_it : bool :=
  let table := Table.new 4096 in
  let held := Table.insert table (lit "custom-key") (lit "custom-header") in
  all [
    gives (Table.get table 1) (lit ":authority", []); gives (Table.get table 61) (lit "www-authenticate", []);
    is_err (Table.get table 0); is_err (Table.get table 62);
    gives (Table.get held 62) (lit "custom-key", lit "custom-header"); Table.size held =? 55;
    match Table.find held (lit ":method") (lit "GET") with Some (Table.Field 2) => true | _ => false end;
    match Table.find held (lit ":method") (lit "PUT") with Some (Table.Name 2) => true | _ => false end;
    match Table.find held (lit "custom-key") (lit "custom-header") with Some (Table.Field 62) => true | _ => false end;
    match Table.find held (lit "custom-key") (lit "other") with Some (Table.Name 62) => true | _ => false end;
    match Table.find held (lit "x-other") [] with None => true | _ => false end].

Definition the_oldest_is_evicted_and_an_entry_larger_than_the_table_empties_it : bool :=
  let filled c n := repeat c n in
  let two := Table.insert (Table.insert (Table.new 100) (lit "a") (filled 49 20%nat)) (lit "b") (filled 50 20%nat) in
  let small := Table.resize two 40 in
  let over := Table.insert (Table.insert (Table.resize small 100) (lit "c") (filled 51 10%nat)) (lit "d") (filled 52 100%nat) in
  all [len (Table.entries two) =? 1;
       match Table.get two 62 with Ok (name, _) => bool_decide (name = lit "b") | Err _ => false end;
       (Table.size small =? 0) && (len (Table.entries small) =? 0);
       (Table.size over =? 0) && (len (Table.entries over) =? 0)].

Definition the_integers_of_appendix_c_1 : bool :=
  let written value prefix := Integer.encode value prefix 0 in
  all [bool_decide (written 10 5 = [10]); bool_decide (written 1337 5 = [31; 154; 10]); bool_decide (written 42 8 = [42]);
       gives (Integer.decode [234] 5) (10, 1%nat); gives (Integer.decode [0x1f; 0x9a; 0x0a; 0xff] 5) (1337, 3%nat);
       gives (Integer.decode [42] 8) (42, 1%nat)].

Definition a_value_at_the_limit_continues_and_a_broken_one_is_refused : bool :=
  bool_decide (Integer.encode 31 5 0 = [31; 0])
  && forallb (fun value => match Integer.decode (Integer.encode value 5 0) 5 with Ok (read, _) => read =? value | Err _ => false end)
       [0; 30; 31; 127; 128; 4096; Z.shiftl 1 20; Integer.LARGEST]
  && is_err (Integer.decode [] 5) && is_err (Integer.decode [0x1f; 0x80] 5)
  && is_err (Integer.decode [0x1f; 0xff; 0xff; 0xff; 0xff; 0xff; 0x01] 5).

Definition the_strings_of_appendix_c_4_and_c_6_encode_as_printed : bool :=
  forallb (fun '(text, wire) =>
    let out := Huffman.encode (lit text) in
    bool_decide (out = Vectors.hex wire) && (Huffman.encoded_len (lit text) =? len out) && gives (Huffman.decode out) (lit text))
    [("www.example.com", "f1e3 c2e5 f23a 6ba0 ab90 f4ff"); ("no-cache", "a8eb 1064 9cbf");
     ("custom-key", "25a8 49e9 5ba9 7d7f"); ("custom-value", "25a8 49e9 5bb8 e8b4 bf"); ("302", "6402");
     ("private", "aec3 771a 4b");
     ("Mon, 21 Oct 2013 20:13:21 GMT", "d07a be94 1054 d444 a820 0595 040b 8166 e082 a62d 1bff");
     ("https://www.example.com", "9d29 ad17 1863 c78f 0b97 c8e9 ae82 ae43 d3"); ("gzip", "9bd9 ab")]%string.

Definition every_octet_round_trips_and_bad_padding_is_refused : bool :=
  let every := seqZ 0 256 in
  all [gives (Huffman.decode (Huffman.encode every)) every; is_err (Huffman.decode [0]); is_err (Huffman.decode [7; 0xff]);
       is_err (Huffman.decode [0xff; 0xff; 0xff; 0xff]); gives (Huffman.decode []) []].

Definition a_string_is_its_length_and_its_octets_raw_or_coded : bool :=
  let raw := Literal.encode (lit "custom-key") false in
  let coded := Literal.encode (lit "custom-key") true in
  all [bool_decide (raw = 0x0a :: lit "custom-key"); bool_decide (head coded = Some 0x88);
       forallb (fun wire => gives (Literal.decode wire) (lit "custom-key", length wire)) [raw; coded];
       is_err (Literal.decode [0x05; 97]); is_err (Literal.decode [0x01; 0xff])].

Lemma hpack_tests_hold :
  a_smaller_table_is_announced_once_at_the_start_of_the_next_block = true
  /\ a_size_update_goes_first_and_stays_under_the_limit = true
  /\ the_static_table_is_appendix_a_and_the_dynamic_follows_it = true
  /\ the_oldest_is_evicted_and_an_entry_larger_than_the_table_empties_it = true
  /\ the_integers_of_appendix_c_1 = true /\ a_value_at_the_limit_continues_and_a_broken_one_is_refused = true
  /\ the_strings_of_appendix_c_4_and_c_6_encode_as_printed = true
  /\ every_octet_round_trips_and_bad_padding_is_refused = true
  /\ a_string_is_its_length_and_its_octets_raw_or_coded = true.
Proof. split_and!; vm_compute; reflexivity. Qed.
End HpackUnitTests.
