(* ===== verification/H2Tests.v ===== *)
(** The tests of [src/http2.rs], run on the model: a client and a server over
    one connection, and a server given frames. *)

From Stdlib Require Import String.
From stdpp Require Import gmap strings.
From S2P Require Import Prelude Text Errors Wire H2Frame H2Settings H2Stream Hpack Http H2Message H2Preface H2Connection.
From S2P Require Import H2Receive H2Send H2Server H2Client.

Module H2Tests.
#[local] Existing Instance Message.plain.

(** ** Two ends of one connection

    An end is what it comes to and what it has written, of what came so far.
    What has not come yet is a read that times out, where the end stands
    still; both run again on more, until neither writes more. *)
Definition End (A : Type) : Type := Wire -> result NetError A * bytes.

Definition NOT_YET : IoError := mkIoError TimedOut (lit "nothing yet").
Definition so_far (bs : bytes) : Wire := mkWire [Got bs; Wire.Failed NOT_YET] [] [].
Definition to_the_end (bs : bytes) : Wire := mkWire [Got bs] [] [].

(** What each end says to the other. *)
Fixpoint parley {A B} (turns : nat) (near : End A) (far : End B) (heard : bytes) : bytes * bytes :=
  let said := (near (so_far heard)).2 in
  match turns with
  | O => (said, heard)
  | S turns =>
      let answered := (far (so_far said)).2 in
      if len answered =? len heard then (said, heard) else parley turns near far answered
  end.

(** [pair]: what the near end comes to, then, closed, the far one. *)
Definition pair {A B} (turns : nat) (near : End A) (far : End B) : result NetError A * result NetError B :=
  let '(said, heard) := parley turns near far [] in
  ((near (so_far heard)).1, (far (to_the_end said)).1).

Definition client_end {A} (scheme : bytes) (script : M Client.t NetError A) : End A := fun io =>
  match Client.handshake io scheme with
  | Err e => (Err e, [])
  | Ok client => let '(r, client) := script client in (r, outgoing (Conn.io (Client.connection client)))
  end.

Definition server_end {A} (script : M Server.t NetError A) : End A := fun io =>
  match Server.handshake io with
  | Err e => (Err e, [])
  | Ok server => let '(r, server) := script server in (r, outgoing (Conn.io (Server.connection server)))
  end.

(** [close], as a script ends. *)
Definition client_close : M Client.t NetError unit := fun c =>
  (Ok tt, Client.mkClient (Client.close c) (Client.scheme c) (Client.next c)).
Definition server_close : M Server.t NetError unit := fun s => (Ok tt, Server.mkServer (Server.close s) (Server.answering s)).

(** [serve]'s loop, of an answer that keeps nothing. *)
Definition serves (answer : Request -> Response) : M Server.t NetError Z :=
  let serve_turn := Server.serve_turn (fun (_ : unit) request => (answer request, tt)) in
  answered <~ loop serve_turn (fun _ s => (pending (Conn.io (Server.connection s))
                                 + size (Conn.streams (Server.connection s)))%nat) Server.unending (0, tt) ;;
  server_close ;;;
  mret answered.

(** ** [a_request_and_its_answer_round_trip_on_one_connection] *)

Definition reversed (request : Request) : Response :=
  Response.trailer (lit "x-checksum") (dec (len (body request)))
    (Response.with_body (rev (body request))
      (Response.header (lit "Content-Type") (lit "text/plain") (Response.new 200))).

Definition posted : Request :=
  Request.with_body (lit "abc") (Request.header (lit "Host") (lit "example")
    (Request.with_query (lit "id") (lit "7") (Request.new (lit "POST") (lit "/orders")))).

Definition a_request_and_its_answer_round_trip_on_one_connection : bool :=
  let near := client_end (lit "http") (
    answer <~ Client.send posted ;;
    empty <~ Client.send (Request.new (lit "GET") (lit "/")) ;;
    Client.ping ;;;
    client_close ;;;
    mret (answer, empty)) in
  match pair 20 near (server_end (serves reversed)) with
  | (Ok (answer, empty), Ok served) =>
      bool_decide (status answer = 200) && bool_decide (phrase answer = lit "OK")
      && bool_decide (r_body answer = lit "cba")
      && bool_decide (Response.header_value answer (lit "content-type") = Some (lit "text/plain"))
      && bool_decide (Response.trailer_value answer (lit "x-checksum") = Some (lit "3"))
      && bool_decide (r_body empty = [])
      && bool_decide (served = 2)
  | _ => false
  end.

Example round_trips : a_request_and_its_answer_round_trip_on_one_connection = true.
Proof. vm_compute. reflexivity. Qed.
(** ** [a_body_past_the_window_stalls_and_resumes_both_ways]

    Of a body of any size; one past the 65,535 octets of a first window is
    enough to meet it shut. *)

Fixpoint counted (n : nat) (i : Z) : bytes := match n with O => [] | S n => i mod 251 :: counted n (i + 1) end.

Definition a_body_past_the_window_stalls_and_resumes_both_ways (size : nat) : bool :=
  let big := counted size 0 in
  let near := client_end (lit "http") (
    answer <~ Client.send (Request.with_body big (Request.new (lit "PUT") (lit "/big"))) ;;
    client <~ mget ;;
    client_close ;;;
    mret (answer, Conn.stalls (Client.connection client))) in
  let far := server_end (
    next <~ Server.next_request ;;
    match next with
    | None => mfail (NetErr.new [])
    | Some (id, request) =>
        Server.respond id (Response.with_body big (Response.new 200)) ;;;
        server <~ mget ;;
        server_close ;;;
        mret (body request, Conn.stalls (Server.connection server))
    end) in
  match pair 60 near far with
  | (Ok (answer, client_stalls), Ok (received, server_stalls)) =>
      bool_decide (received = big) && bool_decide (r_body answer = big)
      && (0 <? client_stalls) && (0 <? server_stalls)
  | _ => false
  end.

Example stalls_and_resumes : a_body_past_the_window_stalls_and_resumes_both_ways (Z.to_nat 66000) = true.
Proof. vm_compute. reflexivity. Qed.

(** ** [a_goaway_lets_the_taken_stream_finish_and_refuses_the_next] *)

Definition aborted {A} (r : result NetError A) : bool :=
  match r with Err e => bool_decide (io e = Some ConnectionAborted) | Ok _ => false end.

(** What a call came to, a failure of it no failure of the script. *)
Definition outcome {St A} (m : M St NetError A) : M St NetError (result NetError A) := fun s =>
  let '(r, s) := m s in (Ok r, s).

Definition a_goaway_lets_the_taken_stream_finish_and_refuses_the_next : bool :=
  let near := client_end (lit "http") (
    first <~ Client.send (Request.new (lit "GET") (lit "/1")) ;;
    client <~ mget ;;
    second <~ outcome (Client.send (Request.new (lit "GET") (lit "/2"))) ;;
    mret (status first, Client.going_away client, second)) in
  let far := server_end (
    next <~ Server.next_request ;;
    match next with
    | None => mfail (NetErr.new [])
    | Some (id, _) =>
        Server.go_away ;;;
        Server.respond id (Response.new 204) ;;;
        Server.next_request
    end) in
  match pair 20 near far with
  | (Ok (first, going_away, second), Ok next) => (first =? 204) && going_away && aborted second && bool_decide (next = None)
  | _ => false
  end.

(** ** [a_stream_above_the_goaways_last_is_refused_as_not_processed] *)

Definition a_stream_above_the_goaways_last_is_refused_as_not_processed : bool :=
  let near := client_end (lit "https") (outcome (Client.send (Request.new (lit "GET") (lit "/")))) in
  let far : End bytes := fun io =>
    match read_exact 24 io with
    | (Err e, _) => (Err (NetErr.from_io [] e), [])
    | (Ok preface, _) => (Ok preface, H2.encode (mkFrame Settings 0 0 []) ++ H2.encode (H2.goaway 0 NoError (lit "bye")))
    end in
  match pair 20 near far with
  | (Ok refused, Ok preface) => aborted refused && bool_decide (preface = Preface.PREFACE)
  | _ => false
  end.

(** ** A server given frames *)

(** The frames of what was written, up to a GOAWAY. *)
Fixpoint frames_of (turns : nat) (w : Wire) : list frame :=
  match turns with
  | O => []
  | S turns =>
      match H2.read (Z.shiftl 1 20) w with
      | (Ok (Some f), w) => f :: (if bool_decide (kind f = Goaway) then [] else frames_of turns w)
      | _ => []
      end
  end.

Definition answered (frames : list frame) : list frame :=
  let sent := Preface.PREFACE ++ concat (map H2.encode (mkFrame Settings 0 0 [] :: frames)) in
  let back := (server_end (serves (fun _ => Response.new 200)) (so_far sent)).2 in
  frames_of (length back) (to_the_end back).

Definition first_of (k : Kind) (back : list frame) : option frame := List.find (fun f => bool_decide (kind f = k)) back.

Definition a_ping_is_answered_and_a_malformed_one_ends_the_connection : bool :=
  match answered [H2.ping (lit "xmip-h2!") false; mkFrame Ping 0 0 (repeat 0 7)] with
  | [first; second; third; last] =>
      bool_decide (map kind [first; second; third; last] = [Settings; Settings; Ping; Goaway])
      && H2.has second ACK && H2.has third ACK
      && bool_decide (payload third = lit "xmip-h2!")
      && bool_decide (H2.word last 4 = Some (ErrCode.code FrameSize))
  | _ => false
  end.

Definition a_window_update_of_zero_resets_its_stream_and_data_on_an_idle_one_ends_all : bool :=
  let request := (Encoder.encode (Encoder.new 4096 false)
    [(lit ":method", lit "POST"); (lit ":scheme", lit "http"); (lit ":path", lit "/")]).1 in
  let back := answered [mkFrame Headers END_HEADERS 1 request; H2.window_update 1 0; mkFrame Data 0 9 (lit "x")] in
  match first_of RstStream back, last back with
  | Some reset, Some goaway =>
      bool_decide (stream reset = 1) && bool_decide (H2.word reset 0 = Some (ErrCode.code Protocol))
      && bool_decide (kind goaway = Goaway) && bool_decide (H2.word goaway 4 = Some (ErrCode.code Protocol))
  | _, _ => false
  end.

Definition a_header_block_split_over_continuation_is_read_whole : bool :=
  let block := (Encoder.encode (Encoder.new 4096 true)
    [(lit ":method", lit "GET"); (lit ":scheme", lit "http"); (lit ":path", lit "/split"); (lit ":authority", lit "example")]).1 in
  let back := answered [mkFrame Headers END_STREAM 1 (take 3 block); mkFrame Continuation END_HEADERS 1 (drop 3 block);
                        H2.goaway 0 NoError []] in
  match first_of Headers back with
  | Some head => bool_decide (stream head = 1) && H2.has head END_STREAM
  | None => false
  end.

(** The tests of the module hold of the model. *)
Lemma http2_tests_hold :
  a_goaway_lets_the_taken_stream_finish_and_refuses_the_next = true
  /\ a_stream_above_the_goaways_last_is_refused_as_not_processed = true
  /\ a_ping_is_answered_and_a_malformed_one_ends_the_connection = true
  /\ a_window_update_of_zero_resets_its_stream_and_data_on_an_idle_one_ends_all = true
  /\ a_header_block_split_over_continuation_is_read_whole = true.
Proof. split_and!; vm_compute; reflexivity. Qed.
End H2Tests.
